(* ===== verification/_CoqProject ===== *)
-Q . S2P
Prelude.v
Float64.v
Budget.v
Coverage.v
ReplayClock.v
Packet.v
Fragments.v
TcpSegments.v
DnsFraming.v
RateLimit.v
RingBuffer.v
DnsNames.v
Text.v
Redact.v
L7Http.v
L7Dns.v
L7Tls.v
L7.v
Parse.v
Sniff.v
Flow.v
Pcapng.v
Paths.v
Ring.v
Transaction.v
Keylog.v
TlsStream.v
Frames.v
TlsHandshake.v
TlsDecrypt.v
Http2.v
Decrypt.v
DecryptEviction.v
DecryptDirections.v
Fields.v
Traceroute.v
ControlAuth.v
Wire.v
ProcessLookup.v
Startup.v
CaptureConfig.v
ControlTraffic.v
CaptureLoop.v
CaptureEvents.v
Emitter.v
ControlPlane.v
Agent.v
AgentRuns.v
AgentAccounting.v
