(* ===== verification/Prelude.v ===== *)
(** * Verification of the network monitor's capture agent

    The program is the Rust agent under [capture-agent/src/] of the network
    monitor: it captures frames (live, or replayed from a pcapng file),
    decodes them, reassembles IPv4 fragments and TCP streams, detects
    application protocols, keeps a table of flows with their statistics,
    decrypts TLS 1.3 connections whose keys a process logs, and writes captures
    to a ring of files.  The definitions of this library are translations of
    that code; the theorems state what makes it correct.

    ** How the parts fit together

    A frame is decoded ([parse.rs]) and offered to [StreamReassembler]
    ([reassembly.rs]), which feeds fragments to [IpFragmentReassembler] and
    segments to [TcpReassembler], and offers the bytes in order to the
    detectors ([l7.rs], [ja3.rs], [redact.rs]).  The verdict and the packet go
    to [FlowTable] ([flow.rs]), DNS answers to [ObservedDnsNames]
    ([dns_names.rs]), and requests and responses to [TransactionTracker]
    ([transaction.rs]).  In parallel the packet goes to the decryption of
    [main.rs]: the record stream of its direction ([tls_stream.rs]), the
    handshake parser ([tls_handshake.rs]), the record decryption
    ([tls_decrypt.rs]) with secrets from the key log ([keylog.rs]), the HTTP/2
    decoder ([http2.rs]) and the ring of decrypted content
    ([ring_buffer.rs]).  A capture to file sends the packet through a queue to
    the writer thread of [main.rs], which owns the run of [ring.rs] and its
    pcapng file ([pcapng.rs]).  The capture thread of [main.rs] drives all of
    this frame by frame, applies filter, snap-length and interface requests
    between frames, and emits packet events ([fields.rs]) and findings; a task
    reports the tables every second; connections that present the credential of
    [control_auth.rs] receive the events and send control messages.

    ** Files

    - [Prelude]: record update, machine integers with wrap-around and
      saturation, byte lists with [Z] indices, [result] and its notation,
      vectors with capacity ([VecPolicy]), the tactics and hint databases;
      [Float64]: [f64] arithmetic.
    - [Budget], [Coverage]: the eviction pass and the first-seen-wins buffer
      both reassemblers share; [ReplayClock]: the clock of a replay.
    - [Packet], [Parse]: decoded packets and their decoding around
      [etherparse], whose slicing is the class [Slicer].
    - [Fragments], [TcpSegments], [DnsFraming], [Sniff]: the four state
      machines of [reassembly.rs] and the facade that composes them.
    - [Text], [Redact], [L7Http], [L7Dns], [L7Tls], [L7]: the detectors, on
      strings as UTF-8 bytes.
    - [Flow], [DnsNames], [Transaction], [RateLimit], [RingBuffer]: the tables
      that keep what was seen.
    - [Pcapng], [Paths], [Ring]: the file codec, the paths of [std::path], the
      capture run and its writer thread.
    - [Keylog], [TlsStream], [Frames], [TlsHandshake], [TlsDecrypt], [Http2],
      [Decrypt], [DecryptEviction], [DecryptDirections]: the decryption path,
      the last three on the code of [main.rs].
    - [Fields], [Traceroute], [ProcessLookup], [Wire]: the field list of a
      packet, route tracing, the table of processes, and the messages of
      [wire.rs].
    - [ControlAuth], [ControlPlane]: the credential and the first line of a
      connection; the accept loop, the connections' tasks and the handling of
      control messages, as a machine stepping between awaits.
    - [Startup], [CaptureConfig], [ControlTraffic], [CaptureLoop],
      [CaptureEvents], [Emitter]: the rest of [main.rs]: the packet source, the
      requests that change it, the exclusion of the agent's own traffic, a turn
      of the capture thread with what holds of the events of a run, and the
      emitter: what a tick gathers under the lock of the flow table and the
      chores it does afterwards.
    - [Agent], [AgentRuns], [AgentAccounting]: [main] as a whole.  [boot] is its
      set-up; [moves] runs any sequence of moves of its threads and tasks over
      the one state they share; the other two files hold what is true of every
      run.  A move is a request or a frame of the capture thread, one event it
      sends ([CaptureSends], from the outbox), the gathering or one chore of a
      tick ([EmitterTick], [EmitterStep]), a writer command, a refresh of the
      process table or a step of a connection, so a switch of interface can
      fall between the updates of a tick, and a frame between two loads of the
      counters.

    A Rust struct with methods is a Module with a record [t] and one definition
    per method; an enum is an inductive type with the source's constructors; a
    method that mutates returns the new state; a fallible one returns [option]
    or [result].  Integers are [Z], with [wrapping_*], [sat_*] and [checked_*]
    where the code writes them.  A [HashMap] is a [gmap]; where its iteration
    order reaches a result, the order is the class [IterOrder], any permutation
    of the entries.

    ** What the theorems show

    - Reassembly: fragments and segments in any order, with overlaps and
      duplicates, give back what was sent ([feed_all_reassembles],
      [feed_segments_reassembles]); bytes seen first are never changed
      ([feed_first_seen_wins], [feed_all_emits_only_payload],
      [sniff_overlap_protected]); the coverage write refines a left-biased
      union ([write_first_seen_wins_refines]).
    - Bounds: after any sequence of operations each table is within its
      ceilings with exact accounting ([frag_reachable_bounded],
      [tcp_reachable_bounded], [sniff_reachable_bounded],
      [names_reachable_consistent], [evict_stale_correct], [txn_bounded],
      [keylog_bounded], [tls_framer_bounded], [budget_enforced],
      [key_wait_bounded]).
    - Codecs: what an encoder of the format writes is read back
      ([pcapng_roundtrip], [sniff_tls_roundtrip], [sniff_dns_query_roundtrip],
      [read_dns_name_compressed], [dns_txt_roundtrip], [sniff_http_roundtrip],
      [client_hello_roundtrip], [server_hello_roundtrip],
      [decrypt_roundtrip]), and incremental parsers do not depend on how their
      input is cut ([consume_cuts_boundary], [tls_framing_roundtrip],
      [handshake_chunking], [http2_chunking], [keylog_incremental]); a client
      that reads lines reads the events sent ([events_are_framed]).
    - Accounting: flows and the protocol hierarchy add up
      ([flow_accounting], [protocol_hierarchy_sums]); every request comes to
      exactly one end ([txn_conservation]).
    - Privacy: credentials do not leave the detectors
      ([redact_headers_sound], [dns_txt_hides_credentials]); plaintext is only
      produced from authenticated records ([decrypt_fails_closed]); a direction
      that ended says so once and is silent afterwards ([direction_ends_once],
      [ended_direction_is_silent]).
    - Composition: TCP ordering with record framing ([tls_direction_records]);
      queue, writer thread, ring of files and reader ([capture_run_lossless]);
      requests and libpcap handle ([capture_config_coherent],
      [capture_request_atomic]); the capture thread's events
      ([frame_references_were_sent], [event_ids_unique],
      [packet_events_limited], [frame_disposition]); the snapshot of
      a tick ([gather_splits_the_flows], [process_attribution]).
    - The agent, from start-up and for any interleaving: an event refers only to
      packet events sent before it, and identifiers are unique
      ([agent_references_were_sent], [agent_ids_unique]); what is reported of
      the capture is what the handle captures ([agent_reports_its_capture]); the
      connections a client that lost no event shows are live while no switch
      falls between the updates of a tick, and all of those a tick found, once
      it has sent them ([clients_show_live_connections]); every connection
      counted is in the table, was reported closed or is about to be
      ([every_connection_accounted]); the throughput reports partition what was
      counted and the time it was counted in ([throughput_partitioned]); and
      with no peer that presents the token the agent only observes
      ([agent_without_token_only_observes]).
    - Control: no step of the connections' machine does anything for a peer that
      did not present the token ([control_needs_token], [verify_peer_exact]);
      the budgets of connections hold and no permit is lost
      ([permits_conserved]); the credential file is private and replaces nothing
      else ([credential_published], [credential_failure]); the channel that
      carries it is never captured ([control_channel_leaves_no_trace]);
      unregistering a process forgets its secrets ([unregister_forgets]).
    - Start-up: [startup_consistent].
    - Termination and progress: [reader_terminates], [sniff_terminates],
      [make_room_sound], and every eligible key log is read to its end by
      finitely many polls ([keylog_polls_are_fair]).
    - Where the code does otherwise than it means or says, a theorem exhibits
      it on a run of the definitions ([capture_thread_can_hang],
      [rotation_blocked], [second_start_abandons_first_run],
      [expire_misses_out_of_order], [ghost_connection], and others named in
      their files).

    ** Fuel

    Loops that are not structural take fuel: the length of the input plus one
    for the loops that consume a byte or more a turn (record framing, handshake
    messages, HTTP/2 frames, DNS walks, pcapng blocks), the hop limit for DNS
    pointers, the size of the table for evictions.  The theorems that such a
    loop returns are proved for that fuel, so no result depends on it.  The two
    eviction loops of [Decrypt] do not always terminate in the code: their fuel
    is an argument, [make_room_sound] and [budget_enforced] show that fuel
    above what there is to release gives the result while no ended direction
    holds a stream, and [make_room_diverges] that no fuel does when every
    direction to evict has already ended.

    ** Parameters

    Code that is not in the repository is an argument, with its documented
    behaviour as class laws: the allocator's growth ([VecPolicy]), the
    order of a hash map ([IterOrder]), header slicing and writing ([Slicer],
    [Ipv4Codec]), zeroising ([Zeroizer]), HKDF
    and AES-GCM ([TlsCrypto], [TlsSealing]), HPACK ([Hpack]), hexadecimal
    decoding and MD5 ([HexDecoder], [HexCrate], [Md5]), HMAC ([Hmac]), libpcap
    ([Pcap], [PcapControl]), the JSON of control lines and events ([AuthJson],
    [ControlJson], [EventJson]) and the runtime's line reader ([Lines]).  What the operating system answers (clocks, free space,
    whether a system call succeeds, the contents of a file) is an argument of
    the call that asks.

    ** Not modelled

    - Preemption inside the handling of a frame, inside the assignments of a
      request, between the three reads behind the capture statistics, between
      the fields of the file status, and inside a step of a connection between
      awaits: each is one move on the shared state.  The events a frame or a
      request sends are moves of their own.  The locks the emitter holds from
      one chore to the next are not modelled: they only forbid interleavings
      that the machine has.
    - The capacity of the broadcast channel: events are a list, and a receiver
      that lags is an outcome of its connection's step.
    - The JSON of an event or a control line, which serde derives.  The texts of
      refusals are constructors with their arguments.
    - The calls of libc themselves ([setrlimit], [gethostname], [statvfs], the
      socket options of a traceroute): their outcomes are arguments.
    - Floating-point rounding of the speeds of flows, hosts and layers, which
      are exact rationals; the throughput rates are [f64].
    - The width of the counters that only grow from zero by lengths or by ones
      (throughput totals, flows observed, event numbers), but where a theorem
      bounds them.
    - The web application, the macOS viewer and the vendored HPACK crate.

    ** State of the development

    Every file of [capture-agent/src/] is modelled but for its tests, the items
    above and [Debug] implementations.  What could be added are finer moves
    inside a frame, with one step per lock taken, over the same state. *)

From stdpp Require Export base list countable numbers gmap strings sorting.
From Stdlib Require Export ZArith Lia.

#[global] Open Scope Z_scope.

(** ** Record update

    [r <| f := v |>] is the record [r] with its field [f] replaced, the
    model's form of a Rust field assignment.  A record type opts in with a
    [RecordEta] instance that rebuilds it from its projections. *)

Class RecordEta (R : Type) := record_eta : R → R.

Class RecordField {R T : Type} (proj : R → T) := modify_field : (T → T) → R → R.

Ltac solve_record_field :=
  match goal with
  | |- RecordField ?p =>
      match type of p with
      | ?R → _ =>
          let inst := constr:(_ : RecordEta R) in
          let body := eval red in inst in
          match eval pattern p in body with
          | ?rebuild _ =>
              let upd := eval cbv beta in (fun f => rebuild (fun r => f (p r))) in
              exact upd
          end
      end
  end.

#[export] Hint Extern 0 (RecordField _) => solve_record_field : typeclass_instances.

Declare Scope record_scope.
#[warnings="-postfix-notation-not-level-1"]
Notation "r <| f := v |>" := (modify_field (proj := f) (fun _ => v) r)
  (at level 12, f at level 9, v at level 200, left associativity,
   format "r  <|  f  :=  v  |>") : record_scope.
#[warnings="-postfix-notation-not-level-1"]
Notation "r <| f ::= g |>" := (modify_field (proj := f) g r)
  (at level 12, f at level 9, g at level 200, left associativity,
   format "r  <|  f  ::=  g  |>") : record_scope.
#[global] Open Scope record_scope.

(** ** Machine integers

    A Rust integer is a [Z]; its width is written out where the code wraps,
    saturates or checks.  [usize] is 64 bits wide.  The [u64] event counters
    of the program (packets, bytes, evictions) only ever grow by observed
    amounts and are kept as unbounded [Z]. *)

Definition U16_MAX : Z := 65535.
Definition U32_MAX : Z := 4294967295.
Definition U64_MAX : Z := 18446744073709551615.
Definition USIZE_MAX : Z := U64_MAX.

(** [a.saturating_sub(b)], any unsigned width. *)
Definition sat_sub (a b : Z) : Z := Z.max 0 (a - b).

(** [a.saturating_add(b)] at 64 bits. *)
Definition sat_add (a b : Z) : Z := Z.min (a + b) U64_MAX.

(** [a.checked_add(b)] on [usize]. *)
Definition checked_add (a b : Z) : option Z :=
  if a + b <=? USIZE_MAX then Some (a + b) else None.

(** [u32] wrap-around arithmetic and the [as i32] reinterpretation. *)
Definition wrap_u32 (x : Z) : Z := x mod 4294967296.
Definition wrapping_add (a b : Z) : Z := wrap_u32 (a + b).
Definition wrapping_sub (a b : Z) : Z := wrap_u32 (a - b).
Definition as_i32 (x : Z) : Z := if x <? 2147483648 then x else x - 4294967296.

(** Signed distance from [b] to [a] in sequence space:
    [a.wrapping_sub(b) as i32]. *)
Definition seq_delta (a b : Z) : Z := as_i32 (wrapping_sub a b).

Definition is_u8 (x : Z) : Prop := 0 <= x < 256.
Definition is_u16 (x : Z) : Prop := 0 <= x <= U16_MAX.
Definition is_u32 (x : Z) : Prop := 0 <= x <= U32_MAX.
Definition is_u64 (x : Z) : Prop := 0 <= x <= U64_MAX.

Ltac width :=
  unfold is_u8, is_u16, is_u32, is_u64, sat_sub, sat_add, USIZE_MAX, U64_MAX,
    U32_MAX, U16_MAX in *.

(** [zlia]: linear arithmetic after unfolding the width constants. *)
Ltac zlia := width; lia.

(** Case analysis on the integer comparisons of the code's conditions. *)
Ltac case_zb :=
  match goal with
  | |- context [if Z.ltb ?a ?b then _ else _] => destruct (Z.ltb_spec a b)
  | |- context [if Z.leb ?a ?b then _ else _] => destruct (Z.leb_spec a b)
  | |- context [if Z.eqb ?a ?b then _ else _] => destruct (Z.eqb_spec a b)
  | H : context [if Z.ltb ?a ?b then _ else _] |- _ => destruct (Z.ltb_spec a b)
  | H : context [if Z.leb ?a ?b then _ else _] |- _ => destruct (Z.leb_spec a b)
  | H : context [if Z.eqb ?a ?b then _ else _] |- _ => destruct (Z.eqb_spec a b)
  end.

(** ** Bytes, slices and strings

    A byte is a [Z] in [0, 256); a byte buffer, and a Rust [String] (its
    UTF-8 bytes), is a list of them.  Lengths and indices are [Z]. *)

Abbreviation bytes := (list Z).
Abbreviation zlen l := (Z.of_nat (length l)).

(** The bytes of a string literal. *)
Definition lit (s : string) : bytes :=
  (λ c, Z.of_N (Ascii.N_of_ascii c)) <$> String.list_ascii_of_string s.
Arguments lit s%_string.

Section slices.
Context {A : Type}.

(** [l.get(i)] for an index [i : usize]. *)
Definition nth_z (l : list A) (i : Z) : option A := l !! Z.to_nat i.

Definition ztake (n : Z) (l : list A) : list A := take (Z.to_nat n) l.
Definition zdrop (n : Z) (l : list A) : list A := drop (Z.to_nat n) l.

(** [l.get(i..j)]: [None] when the range is inverted or runs past the end. *)
Definition slice (l : list A) (i j : Z) : option (list A) :=
  if (i <=? j) && (j <=? zlen l) then Some (ztake (j - i) (zdrop i l)) else None.

Definition zreplicate (n : Z) (x : A) : list A := replicate (Z.to_nat n) x.

End slices.

(** [u16::from_be_bytes], [u32::from_be_bytes]. *)
Definition be16 (hi lo : Z) : Z := hi * 256 + lo.
Definition be32 (b0 b1 b2 b3 : Z) : Z := ((b0 * 256 + b1) * 256 + b2) * 256 + b3.

(** [to_ascii_lowercase] and [eq_ignore_ascii_case], byte by byte. *)
Definition ascii_lower_byte (b : Z) : Z := if (65 <=? b) && (b <=? 90) then b + 32 else b.
Definition to_ascii_lowercase (s : bytes) : bytes := ascii_lower_byte <$> s.
Definition eq_ignore_ascii_case (s t : bytes) : bool :=
  bool_decide (to_ascii_lowercase s = to_ascii_lowercase t).

(** Lexicographic byte order, Rust's [Ord] on [String]. *)
Fixpoint bytes_le (s t : bytes) : bool :=
  match s, t with
  | [], _ => true
  | _ :: _, [] => false
  | x :: s', y :: t' => (x <? y) || ((x =? y) && bytes_le s' t')
  end.

(** ** Fallible code *)

Inductive result (E A : Type) : Type :=
| Ok (a : A)
| Err (e : E).
Arguments Ok {E A} a.
Arguments Err {E A} e.

Definition result_bind {E A B} (m : result E A) (k : A → result E B) : result E B :=
  match m with Ok a => k a | Err e => Err e end.

Definition ok_or {E A} (m : option A) (e : E) : result E A :=
  match m with Some a => Ok a | None => Err e end.

Definition map_err {E F A} (f : E → F) (m : result E A) : result F A :=
  match m with Ok a => Ok a | Err e => Err (f e) end.

Declare Scope result_scope.
Notation "'let?' x := m 'in' k" := (result_bind m (fun x => k))
  (at level 10, x name, m at level 100, k at level 200) : result_scope.
Notation "'let?' ' p := m 'in' k" := (result_bind m (fun p => k))
  (at level 10, p strict pattern, m at level 100, k at level 200) : result_scope.
#[global] Open Scope result_scope.

(** ** [Vec<T>] with its capacity

    The reassembly and TLS buffers are charged by [Vec::capacity], so a
    vector is its elements and its capacity.  How far a growing vector
    over-allocates is the allocator policy of [alloc::vec]: the class states
    the two facts the code relies on (the request is satisfied; growth is
    amortised doubling, at least eight one-byte elements), and [std_policy]
    is the policy of the standard library's [RawVec]. *)

Class VecPolicy := {
  vp_reserve : Z → Z → Z;
  vp_from_elem : Z → Z;
  vp_reserve_ge : ∀ cap need, need <= vp_reserve cap need;
  vp_reserve_le : ∀ cap need, vp_reserve cap need <= Z.max 8 (2 * Z.max cap need);
  vp_from_elem_ge : ∀ n, 0 <= n → n <= vp_from_elem n;
  vp_from_elem_le : ∀ n, vp_from_elem n <= Z.max 8 (2 * n)
}.

#[export] Instance std_policy : VecPolicy.
Proof.
  refine {| vp_reserve cap need := Z.max 8 (Z.max (2 * cap) need);
            vp_from_elem n := Z.max 0 n |}; intros; lia.
Defined.

Record vec (A : Type) := mkVec { vlist : list A; vcap : Z }.
Arguments mkVec {A} vlist vcap.
Arguments vlist {A} v.
Arguments vcap {A} v.

Section vec.
Context `{VecPolicy} {A : Type}.

Definition vec_new : vec A := mkVec [] 0.

(** [vec![x; n]]. *)
Definition vec_from_elem (x : A) (n : Z) : vec A :=
  mkVec (zreplicate n x) (vp_from_elem n).

Definition vec_reserve (v : vec A) (extra : Z) : Z :=
  let need := zlen (vlist v) + extra in
  if need <=? vcap v then vcap v else vp_reserve (vcap v) need.

(** [v.extend_from_slice(l)]. *)
Definition vec_extend (v : vec A) (l : list A) : vec A :=
  mkVec (vlist v ++ l) (vec_reserve v (zlen l)).

(** [v.truncate(n)]: the capacity is kept. *)
Definition vec_truncate (v : vec A) (n : Z) : vec A :=
  mkVec (ztake n (vlist v)) (vcap v).

(** [v.resize(n, x)]. *)
Definition vec_resize (v : vec A) (n : Z) (x : A) : vec A :=
  if n <=? zlen (vlist v) then vec_truncate v n
  else vec_extend v (zreplicate (n - zlen (vlist v)) x).

(** [v[i] = x], for an index in range. *)
Definition vec_set (v : vec A) (i : Z) (x : A) : vec A :=
  mkVec (<[Z.to_nat i := x]> (vlist v)) (vcap v).

End vec.

(** A vector's elements fit its capacity. *)
Definition vec_wf {A} (v : vec A) : Prop := zlen (vlist v) <= vcap v.

(** ** Hash maps and their iteration order

    A [HashMap] is a [gmap].  The order in which it is iterated is not
    specified by Rust: [iter] is any enumeration of the entries, and every
    theorem holds for all of them. *)

Class IterOrder := {
  iter : ∀ {K V : Type} `{Countable K}, gmap K V → list (K * V);
  iter_perm : ∀ {K V : Type} `{Countable K} (m : gmap K V), iter m ≡ₚ map_to_list m
}.

#[export] Instance map_to_list_order : IterOrder.
Proof. refine {| iter K V _ _ m := map_to_list m |}. reflexivity. Defined.

Section ordering.
Context {A : Type} (key : A → Z).

(** [slice::sort_by_key], a stable sort. *)
Fixpoint insert_by_key (x : A) (l : list A) : list A :=
  match l with
  | [] => [x]
  | y :: l' => if key x <=? key y then x :: y :: l' else y :: insert_by_key x l'
  end.

Definition sort_by_key (l : list A) : list A := foldr insert_by_key [] l.

(** [Iterator::min_by_key]: the first of the minimal elements. *)
Fixpoint min_from (best : A) (l : list A) : A :=
  match l with
  | [] => best
  | y :: l' => min_from (if key y <? key best then y else best) l'
  end.

Definition min_by_key (l : list A) : option A :=
  match l with [] => None | x :: l' => Some (min_from x l') end.

End ordering.

(** The sum of a cost over a map's values. *)
Definition map_total {K V} `{Countable K} (cost : V → Z) (m : gmap K V) : Z :=
  map_fold (λ _ v acc, cost v + acc) 0 m.

(** ** Shared lemmas *)

Create HintDb monitor.

Lemma zlen_nonneg {A} (l : list A) : 0 <= zlen l.
Proof. lia. Qed.

Lemma length_zreplicate {A} n (x : A) : length (zreplicate n x) = Z.to_nat n.
Proof. apply length_replicate. Qed.

Lemma length_ztake {A} n (l : list A) : length (ztake n l) = Nat.min (Z.to_nat n) (length l).
Proof. apply length_take. Qed.

Lemma length_zdrop {A} n (l : list A) : length (zdrop n l) = (length l - Z.to_nat n)%nat.
Proof. apply length_drop. Qed.

Lemma slice_Some {A} (l : list A) i j s :
  slice l i j = Some s ↔ i <= j ∧ j <= zlen l ∧ s = ztake (j - i) (zdrop i l).
Proof.
  unfold slice. destruct (Z.leb_spec i j), (Z.leb_spec j (zlen l)); simpl;
    (split; [intros [=]; subst; auto | intros (?&?&->)]); auto; lia.
Qed.

Lemma slice_None {A} (l : list A) i j : slice l i j = None ↔ j < i ∨ zlen l < j.
Proof.
  unfold slice. destruct (Z.leb_spec i j), (Z.leb_spec j (zlen l)); simpl;
    (split; [intros [=] | intros]); auto; lia.
Qed.

Lemma slice_length {A} (l : list A) i j s : slice l i j = Some s → 0 <= i → zlen s = j - i.
Proof.
  rewrite slice_Some. intros (?&?&->) ?. rewrite length_ztake, length_zdrop. lia.
Qed.

(** A tail of a slice is the slice from there. *)
Lemma slice_skip {A} (l s : list A) i j k :
  slice l i j = Some s → 0 <= i <= k → k <= j → slice s (k - i) (zlen s) = slice l k j.
Proof.
  intros Hs Hi Hk. pose proof (slice_length _ _ _ _ Hs ltac:(lia)) as Hl.
  apply slice_Some in Hs as (Hij & Hj & ->). unfold slice. rewrite Hl.
  rewrite !(proj2 (Z.leb_le _ _)) by lia. simpl. f_equal. unfold ztake, zdrop.
  apply list_eq. intros x. destruct (decide (x < Z.to_nat (j - k))%nat).
  - rewrite !lookup_take_lt, !lookup_drop, lookup_take_lt, lookup_drop by lia. f_equal. lia.
  - rewrite !lookup_take_ge by lia. done.
Qed.

Lemma ztake_zlen {A} (l : list A) : ztake (zlen l) l = l.
Proof. unfold ztake. rewrite Nat2Z.id. apply firstn_all. Qed.

Lemma ztake_app {A} (l k : list A) : ztake (zlen l) (l ++ k) = l.
Proof. unfold ztake. rewrite Nat2Z.id, take_app_length. done. Qed.

Lemma zdrop_app {A} (l k : list A) : zdrop (zlen l) (l ++ k) = k.
Proof. unfold zdrop. rewrite Nat2Z.id, drop_app_length. done. Qed.

Lemma ztake_zdrop {A} n (l : list A) : ztake n l ++ zdrop n l = l.
Proof. apply take_drop. Qed.

Lemma ztake_add {A} n m (l : list A) : 0 <= n → 0 <= m → ztake (n + m) l = ztake n l ++ ztake m (zdrop n l).
Proof. intros. unfold ztake, zdrop. rewrite take_take_drop. f_equal. lia. Qed.

Lemma nth_z_lt {A} (l : list A) i x : nth_z l i = Some x → 0 <= i → i < zlen l.
Proof. unfold nth_z. intros ?%lookup_lt_Some ?. lia. Qed.

Lemma nth_z_is_Some {A} (l : list A) i : 0 <= i < zlen l → ∃ x, nth_z l i = Some x.
Proof. intros ?. apply lookup_lt_is_Some_2. lia. Qed.

(** *** Filters *)

Lemma list_filter_all {A} (P : A → Prop) `{!∀ x, Decision (P x)} l : Forall P l → filter P l = l.
Proof. induction 1; [done|]. rewrite filter_cons_True by done. by f_equal. Qed.

Lemma list_filter_none {A} (P : A → Prop) `{!∀ x, Decision (P x)} l :
  Forall (λ x, ¬ P x) l → filter P l = [].
Proof. induction 1; [done|]. by rewrite filter_cons_False. Qed.

Lemma StronglySorted_filter {A} (R : A → A → Prop) (P : A → Prop) `{!∀ x, Decision (P x)} l :
  StronglySorted R l → StronglySorted R (filter P l).
Proof.
  induction 1 as [|x l Hs IH Hx]; [constructor|]. rewrite filter_cons. case_decide; [|done].
  constructor; [done|]. rewrite Forall_forall in *. intros y [_ Hy]%list_elem_of_filter. auto.
Qed.

(** *** Saturating arithmetic *)

(** A saturated sum below the maximum did not saturate. *)
Lemma sat_add_le a b c : sat_add a b <= c → c < U64_MAX → a + b <= c.
Proof. unfold sat_add. lia. Qed.

(** *** Sequence arithmetic *)

Lemma wrap_u32_range x : is_u32 (wrap_u32 x).
Proof. unfold wrap_u32. pose proof (Z.mod_pos_bound x 4294967296). zlia. Qed.

Lemma wrap_u32_id x : is_u32 x → wrap_u32 x = x.
Proof. intros. unfold wrap_u32. apply Z.mod_small. zlia. Qed.

Lemma seq_delta_range a b : -2147483648 <= seq_delta a b < 2147483648.
Proof.
  unfold seq_delta, as_i32, wrapping_sub. pose proof (wrap_u32_range (a - b)).
  case_zb; zlia.
Qed.

(** Adding the signed distance to [b] gives [a] back. *)
Lemma wrapping_add_seq_delta a b : is_u32 a → wrapping_add b (seq_delta a b) = a.
Proof.
  intros Ha. unfold wrapping_add, seq_delta, as_i32, wrapping_sub, wrap_u32.
  case_zb.
  - rewrite Zplus_mod_idemp_r. replace (b + (a - b)) with a by lia.
    apply Z.mod_small. zlia.
  - replace (b + ((a - b) mod 4294967296 - 4294967296))
      with (b + (a - b) mod 4294967296 + (-1) * 4294967296) by lia.
    rewrite Z_mod_plus_full, Zplus_mod_idemp_r.
    replace (b + (a - b)) with a by lia. apply Z.mod_small. zlia.
Qed.

(** Within half the sequence space the distance is exact. *)
Lemma seq_delta_add b d :
  -2147483648 <= d < 2147483648 → seq_delta (wrapping_add b d) b = d.
Proof.
  intros Hd. unfold seq_delta, wrapping_sub, wrapping_add, wrap_u32.
  rewrite Zminus_mod_idemp_l. replace (b + d - b) with d by lia.
  unfold as_i32. destruct (Z.ltb_spec d 0).
  - replace (d mod 4294967296) with (d + 4294967296).
    + case_zb; lia.
    + rewrite <- (Z_mod_plus_full d 1). symmetry. apply Z.mod_small. lia.
  - rewrite Z.mod_small by lia. case_zb; lia.
Qed.

Lemma wrapping_add_assoc a x y : wrapping_add (wrapping_add a x) y = wrapping_add a (x + y).
Proof. unfold wrapping_add, wrap_u32. rewrite Zplus_mod_idemp_l. f_equal. lia. Qed.

Lemma seq_delta_refl a : seq_delta a a = 0.
Proof. unfold seq_delta, wrapping_sub. rewrite Z.sub_diag. done. Qed.

(** *** Vectors *)

Section vec_lemmas.
Context `{VecPolicy} {A : Type}.
Implicit Types v : vec A.

Lemma vec_new_wf : vec_wf (A := A) vec_new.
Proof. done. Qed.

Lemma vec_reserve_ge v n : zlen (vlist v) + n <= vec_reserve v n.
Proof. unfold vec_reserve. case_zb; [done|]. apply vp_reserve_ge. Qed.

Lemma vec_reserve_mono v n : vec_wf v → 0 <= n → vec_wf v ∧ 0 <= vec_reserve v n.
Proof. intros. split; [done|]. pose proof (vec_reserve_ge v n). lia. Qed.

Lemma vec_reserve_le v n B :
  vcap v <= 2 * B → zlen (vlist v) + n <= B → 4 <= B → vec_reserve v n <= 2 * B.
Proof.
  intros Hcap Hlen HB. unfold vec_reserve. case_zb; [done|].
  etrans; [apply vp_reserve_le|]. lia.
Qed.

Lemma vec_extend_wf v l : vec_wf (vec_extend v l).
Proof.
  unfold vec_wf, vec_extend; simpl. rewrite length_app.
  pose proof (vec_reserve_ge v (zlen l)). lia.
Qed.

Lemma vec_truncate_wf v n : vec_wf v → vec_wf (vec_truncate v n).
Proof. unfold vec_wf; simpl. rewrite length_ztake. lia. Qed.

Lemma vec_resize_wf v n x : vec_wf v → vec_wf (vec_resize v n x).
Proof.
  intros. unfold vec_resize. case_zb; auto using vec_truncate_wf, vec_extend_wf.
Qed.

Lemma vec_set_wf v i x : vec_wf v → vec_wf (vec_set v i x).
Proof. unfold vec_wf; simpl. rewrite length_insert. done. Qed.

Lemma vec_from_elem_wf x n : 0 <= n → vec_wf (vec_from_elem x n : vec A).
Proof.
  intros. unfold vec_wf; simpl. rewrite length_zreplicate.
  pose proof (vp_from_elem_ge n). lia.
Qed.

Lemma length_vec_resize v n x : 0 <= n → zlen (vlist (vec_resize v n x)) = n.
Proof.
  intros. unfold vec_resize. case_zb; simpl.
  - rewrite length_ztake. lia.
  - rewrite length_app, length_zreplicate. lia.
Qed.

Lemma vec_resize_cap_le v n x B :
  vcap v <= 2 * B → 0 <= n <= B → 4 <= B → vcap (vec_resize v n x) <= 2 * B.
Proof.
  intros. unfold vec_resize. case_zb; simpl; [done|].
  apply vec_reserve_le; [done| |done]. rewrite length_zreplicate. lia.
Qed.

End vec_lemmas.

#[export] Hint Resolve vec_new_wf vec_extend_wf vec_truncate_wf vec_resize_wf
  vec_set_wf vec_from_elem_wf : monitor.

(** *** Sorting by key *)

Section sort_lemmas.
Context {A : Type} (key : A → Z).

Let le_key (x y : A) : Prop := key x <= key y.

Lemma insert_by_key_perm x l : insert_by_key key x l ≡ₚ x :: l.
Proof.
  induction l as [|y l IH]; simpl; [done|]. case_zb; [done|].
  rewrite IH. apply Permutation_swap.
Qed.

Lemma sort_by_key_perm l : sort_by_key key l ≡ₚ l.
Proof.
  induction l as [|x l IH]; simpl; [done|]. by rewrite insert_by_key_perm, IH.
Qed.

Lemma insert_by_key_sorted x l :
  StronglySorted le_key l → StronglySorted le_key (insert_by_key key x l).
Proof.
  induction 1 as [|y l Hl IH Hy]; simpl; [repeat constructor|].
  case_zb.
  - constructor; [by constructor|]. constructor; [done|].
    eapply Forall_impl; [exact Hy|]. unfold le_key. intros; simpl in *; lia.
  - constructor; [done|]. rewrite insert_by_key_perm. constructor; [|done].
    unfold le_key. lia.
Qed.

Lemma sort_by_key_sorted l : StronglySorted le_key (sort_by_key key l).
Proof. induction l; simpl; [constructor|]. by apply insert_by_key_sorted. Qed.

Lemma min_from_spec best l :
  (min_from key best l = best ∨ min_from key best l ∈ l) ∧
  key (min_from key best l) <= key best ∧
  ∀ y, y ∈ l → key (min_from key best l) <= key y.
Proof.
  revert best. induction l as [|y l IH]; intros best; simpl.
  { split; [by left|]. split; [done|]. intros ? []%not_elem_of_nil. }
  destruct (IH (if key y <? key best then y else best)) as (Hin & Hle & Hall).
  split; [|split].
  - destruct Hin as [->|Hin]; [|right; by right].
    case_zb; [right; left|by left].
  - etrans; [exact Hle|]. case_zb; lia.
  - intros z [->|Hz]%elem_of_cons; [|by apply Hall].
    etrans; [exact Hle|]. case_zb; lia.
Qed.

Lemma min_by_key_spec l x :
  min_by_key key l = Some x → x ∈ l ∧ ∀ y, y ∈ l → key x <= key y.
Proof.
  destruct l as [|a l]; [done|]. simpl. intros [= <-].
  destruct (min_from_spec a l) as (Hin & Hle & Hall). split.
  - destruct Hin as [->|]; [left|by right].
  - intros y [->|]%elem_of_cons; auto.
Qed.

Lemma min_by_key_None l : min_by_key key l = None ↔ l = [].
Proof. by destruct l. Qed.

End sort_lemmas.

(** *** Maps *)

Section map_lemmas.
Context {K : Type} `{Countable K} {V : Type}.
Implicit Types m : gmap K V.

Lemma elem_of_iter `{IterOrder} m k v : (k, v) ∈ iter m ↔ m !! k = Some v.
Proof. rewrite iter_perm. apply elem_of_map_to_list. Qed.

Lemma NoDup_iter_fst `{IterOrder} m : NoDup (iter m).*1.
Proof. rewrite iter_perm. apply NoDup_fst_map_to_list. Qed.

Lemma length_iter `{IterOrder} m : length (iter m) = size m.
Proof. rewrite iter_perm. apply length_map_to_list. Qed.

Lemma map_total_empty (cost : V → Z) : map_total cost (∅ : gmap K V) = 0.
Proof. apply map_fold_empty. Qed.

Lemma map_total_insert (cost : V → Z) m k v :
  m !! k = None → map_total cost (<[k:=v]> m) = cost v + map_total cost m.
Proof.
  intros. unfold map_total. rewrite map_fold_insert_L; [done| |done].
  intros; lia.
Qed.

Lemma map_total_delete (cost : V → Z) m k v :
  m !! k = Some v → map_total cost m = cost v + map_total cost (delete k m).
Proof.
  intros Hk. rewrite <- (map_total_insert cost _ k v) by apply lookup_delete_eq.
  by rewrite insert_delete_id.
Qed.

Lemma map_total_replace (cost : V → Z) m k v w :
  m !! k = Some v → map_total cost (<[k:=w]> m) = map_total cost m - cost v + cost w.
Proof.
  intros Hk. rewrite <- insert_delete_eq, map_total_insert by apply lookup_delete_eq.
  rewrite (map_total_delete cost m k v Hk). lia.
Qed.

Lemma map_total_nonneg (cost : V → Z) m :
  (∀ k v, m !! k = Some v → 0 <= cost v) → 0 <= map_total cost m.
Proof.
  induction m as [|k v m Hk IH] using map_ind; intros Hc.
  { by rewrite map_total_empty. }
  rewrite map_total_insert by done.
  assert (0 <= cost v) by (apply (Hc k); by rewrite lookup_insert_eq).
  enough (0 <= map_total cost m) by lia. apply IH. intros j w Hj.
  apply (Hc j). rewrite lookup_insert_ne; [done|]. by intros ->; simplify_eq.
Qed.

Lemma size_delete_Some m k v : m !! k = Some v → size m = S (size (delete k m)).
Proof.
  intros Hk. rewrite (map_size_delete_Some k m) by eauto.
  destruct (size m) eqn:E; [|done]. apply map_size_empty_inv in E. by simplify_map_eq.
Qed.

End map_lemmas.
