(* ===== verification/Float64.v ===== *)
(** * Binary64 numbers

    The [f64] arithmetic of the throughput rates: the IEEE 754 binary64 format
    with rounding to nearest, ties to even, as the Standard Library specifies
    it ([SpecFloat], 53 bits of precision, exponents below 1024). *)

From Stdlib Require Import ZArith SpecFloat.
From S2P Require Import Prelude.

Definition f64 : Set := spec_float.

#[export] Instance f64_eq_dec : EqDecision f64.
Proof. unfold f64. solve_decision. Defined.

Module F64.
Definition prec : Z := 53.
Definition emax : Z := 1024.

(** [n as f64], of an unsigned integer. *)
Definition of_int (n : Z) : f64 := binary_normalize prec emax n 0 false.

Definition add : f64 → f64 → f64 := SFadd prec emax.
Definition mul : f64 → f64 → f64 := SFmul prec emax.
Definition div : f64 → f64 → f64 := SFdiv prec emax.

(** [x <= y]: false when either is not a number. *)
Definition le : f64 → f64 → bool := SFleb.

Definition zero : f64 := S754_zero false.

(** [Duration::as_secs_f64], of nanoseconds. *)
Definition as_secs (nanos : Z) : f64 :=
  add (of_int (nanos / 1000000000)) (div (of_int (nanos mod 1000000000)) (of_int 1000000000)).

Definition is_nan (x : f64) : bool := match x with S754_nan => true | _ => false end.
End F64.

(** Integers up to 2^53 are exact, the next odd one is not. *)
Example of_int_rounds :
  F64.of_int 9007199254740992 = F64.mul (F64.of_int 4503599627370496) (F64.of_int 2) ∧
  F64.of_int 9007199254740993 = F64.of_int 9007199254740992 ∧
  F64.as_secs 1500000000 = F64.div (F64.of_int 3) (F64.of_int 2) ∧
  F64.le (F64.as_secs 0) F64.zero = true ∧ F64.le (F64.as_secs 1) F64.zero = false.
Proof. by vm_compute. Qed.
