(* ===== verification/Budget.v ===== *)
(** * Oldest-first eviction under a count and a byte ceiling

    The fragment reassembler and the TCP reassembler of
    [capture-agent/src/reassembly.rs] each bound their table with the same
    pass: when either ceiling is exceeded, list the entries, sort them by
    [last_seen_ms], and drop the oldest until both ceilings hold.  The pass is
    written here once, over any table whose entries are [Budgeted]: they carry
    an accounted size and a last-seen time. *)

From S2P Require Import Prelude.

Class Budgeted (V : Type) := {
  accounted : V → Z;
  last_seen : V → Z
}.

Section budget.
Context `{IterOrder} {K : Type} `{Countable K} {V : Type} `{Budgeted V}.
Implicit Types (m : gmap K V) (ks : list K).

Definition within (max_n max_b : Z) (m : gmap K V) (held : Z) : bool :=
  (Z.of_nat (size m) <=? max_n) && (held <=? max_b).

Definition by_age (m : gmap K V) : list (K * Z) :=
  sort_by_key snd ((λ kv : K * V, (kv.1, last_seen kv.2)) <$> iter m).

Fixpoint evict_loop (max_n max_b : Z) (ks : list K) (m : gmap K V) (held evicted : Z)
    : gmap K V * Z * Z :=
  match ks with
  | [] => (m, held, evicted)
  | k :: ks' =>
      if within max_n max_b m held then (m, held, evicted)
      else
        match m !! k with
        | Some v =>
            evict_loop max_n max_b ks' (delete k m) (sat_sub held (accounted v)) (evicted + 1)
        | None => evict_loop max_n max_b ks' m held evicted
        end
  end.

Definition evict_oldest (max_n max_b : Z) (m : gmap K V) (held evicted : Z)
    : gmap K V * Z * Z :=
  if within max_n max_b m held then (m, held, evicted)
  else evict_loop max_n max_b (by_age m).*1 m held evicted.

(** The byte counter is the exact sum of the entries' accounted sizes. *)
Definition accounts (m : gmap K V) (held : Z) : Prop :=
  held = map_total accounted m ∧ ∀ k v, m !! k = Some v → 0 <= accounted v.

Lemma within_true max_n max_b m held :
  within max_n max_b m held = true ↔ Z.of_nat (size m) <= max_n ∧ held <= max_b.
Proof. unfold within. rewrite andb_true_iff, !Z.leb_le. done. Qed.

Lemma accounts_empty : accounts ∅ 0.
Proof. split; [by rewrite map_total_empty|]. intros k v. by rewrite lookup_empty. Qed.

Lemma accounts_nonneg m held : accounts m held → 0 <= held.
Proof. intros [-> Hn]. by apply map_total_nonneg. Qed.

(** An entry never weighs more than the whole table. *)
Lemma accounts_entry_le m held k v :
  accounts m held → m !! k = Some v → 0 <= accounted v <= held.
Proof.
  intros [-> Hn] Hk. split; [by eapply Hn|].
  rewrite (map_total_delete _ m k v Hk).
  enough (0 <= map_total accounted (delete k m)) by lia.
  apply map_total_nonneg. intros j w [_ Hj]%lookup_delete_Some. by eapply Hn.
Qed.

Lemma accounts_delete m held k v :
  accounts m held → m !! k = Some v →
  accounts (delete k m) (sat_sub held (accounted v)).
Proof.
  intros Ha Hk. pose proof (accounts_entry_le _ _ _ _ Ha Hk) as Hle.
  destruct Ha as [-> Hn]. split.
  - unfold sat_sub. rewrite (map_total_delete accounted m k v Hk) in *. lia.
  - intros j w [_ Hj]%lookup_delete_Some. by eapply Hn.
Qed.

Lemma accounts_insert m held k v :
  accounts m held → m !! k = None → 0 <= accounted v →
  accounts (<[k:=v]> m) (held + accounted v).
Proof.
  intros [-> Hn] Hk Hv. split; [rewrite map_total_insert by done; lia|].
  intros j w [[_ <-]|[_ Hj]]%lookup_insert_Some; [done|]. by eapply Hn.
Qed.

Lemma accounts_update m held k v w :
  accounts m held → m !! k = Some v → 0 <= accounted w →
  accounts (<[k:=w]> m) (held - accounted v + accounted w).
Proof.
  intros [-> Hn] Hk Hw. split; [symmetry; by apply map_total_replace|].
  intros j u [[_ <-]|[_ Hj]]%lookup_insert_Some; [done|]. by eapply Hn.
Qed.

(** Writing an entry, present or not, changes the total by the difference. *)
Lemma accounts_put m held k w :
  accounts m held → 0 <= accounted w →
  accounts (<[k:=w]> m) (held - from_option accounted 0 (m !! k) + accounted w).
Proof.
  intros Ha Hw. destruct (m !! k) as [v|] eqn:Hk; simpl.
  - by apply accounts_update.
  - rewrite Z.sub_0_r. by apply accounts_insert.
Qed.

(** The same in the code's saturating form: charge the new size, credit the
    old one. *)
Lemma accounts_charge m held k w :
  accounts m held → 0 <= accounted w → held + accounted w <= U64_MAX →
  accounts (<[k:=w]> m)
    (sat_sub (sat_add held (accounted w)) (from_option accounted 0 (m !! k))).
Proof.
  intros Ha Hw Hmax. pose proof (accounts_put m held k w Ha Hw) as Hp.
  assert (0 <= from_option accounted 0 (m !! k) <= held) as Hle.
  { pose proof (accounts_nonneg _ _ Ha). destruct (m !! k) as [v|] eqn:Hk; simpl; [|lia].
    exact (accounts_entry_le _ _ _ _ Ha Hk). }
  replace (sat_sub _ _) with (held - from_option accounted 0 (m !! k) + accounted w); [done|].
  zlia.
Qed.

Lemma evict_loop_subseteq max_n max_b ks m held evicted :
  (evict_loop max_n max_b ks m held evicted).1.1 ⊆ m.
Proof.
  revert m held evicted. induction ks as [|k ks IH]; intros m held evicted; simpl; [done|].
  destruct (within _ _ _ _); [done|]. destruct (m !! k); [|apply IH].
  etrans; [apply IH|]. apply delete_subseteq.
Qed.

Lemma evict_oldest_subseteq max_n max_b m held evicted :
  (evict_oldest max_n max_b m held evicted).1.1 ⊆ m.
Proof.
  unfold evict_oldest. destruct (within _ _ _ _); [done|]. apply evict_loop_subseteq.
Qed.

Lemma evict_loop_spec max_n max_b ks m held evicted :
  0 <= max_n → 0 <= max_b → accounts m held →
  (∀ k, is_Some (m !! k) → k ∈ ks) →
  let '(m', held', evicted') := evict_loop max_n max_b ks m held evicted in
  accounts m' held' ∧ within max_n max_b m' held' = true ∧ m' ⊆ m ∧
  evicted' = evicted + Z.of_nat (size m) - Z.of_nat (size m').
Proof.
  intros Hn Hb. revert m held evicted.
  induction ks as [|k ks IH]; intros m held evicted Ha Hdom; simpl.
  - assert (m = ∅) as ->.
    { apply map_empty. intros k. destruct (m !! k) eqn:E; [|done].
      exfalso. apply (not_elem_of_nil k), Hdom. eauto. }
    destruct Ha as [-> Hac]. split; [by split|]. split; [|split; [done|lia]].
    rewrite within_true, map_size_empty, map_total_empty. lia.
  - destruct (within max_n max_b m held) eqn:Hw; [repeat split; try apply Ha; auto; lia|].
    destruct (m !! k) as [v|] eqn:Hk.
    + specialize (IH (delete k m) (sat_sub held (accounted v)) (evicted + 1)).
      destruct (evict_loop _ _ ks _ _ _) as [[m' held'] ev'].
      destruct IH as (IHa & IHw & IHs & IHe).
      * by apply accounts_delete.
      * intros j [w Hj]. apply lookup_delete_Some in Hj as [Hne Hj].
        destruct (proj1 (elem_of_cons _ _ _) (Hdom j ltac:(eauto))); congruence || done.
      * split; [done|]. split; [done|]. split.
        -- etrans; [exact IHs|]. apply delete_subseteq.
        -- pose proof (size_delete_Some m k v Hk). lia.
    + apply IH; [done|]. intros j Hj. specialize (Hdom j Hj).
      apply elem_of_cons in Hdom as [->|]; [|done]. destruct Hj; congruence.
Qed.

Lemma elem_of_by_age m k t : (k, t) ∈ by_age m ↔ ∃ v, m !! k = Some v ∧ last_seen v = t.
Proof.
  unfold by_age. rewrite sort_by_key_perm, list_elem_of_fmap. split.
  - intros ([k' v] & [= -> ->] & Hin). apply elem_of_iter in Hin. eauto.
  - intros (v & Hk & <-). exists (k, v). split; [done|]. by apply elem_of_iter.
Qed.

(** [evict_oldest] re-establishes both ceilings and the accounting, only
    removes entries, and counts each removal. *)
Lemma evict_oldest_spec max_n max_b m held evicted :
  0 <= max_n → 0 <= max_b → accounts m held →
  let '(m', held', evicted') := evict_oldest max_n max_b m held evicted in
  accounts m' held' ∧ within max_n max_b m' held' = true ∧ m' ⊆ m ∧
  evicted' = evicted + Z.of_nat (size m) - Z.of_nat (size m').
Proof.
  intros Hn Hb Ha. unfold evict_oldest.
  destruct (within max_n max_b m held) eqn:Hw; [repeat split; try apply Ha; auto; lia|].
  apply evict_loop_spec; [done..|].
  intros k [v Hk]. apply list_elem_of_fmap. exists (k, last_seen v).
  split; [done|]. apply elem_of_by_age. eauto.
Qed.

Lemma evict_oldest_within max_n max_b m held evicted :
  within max_n max_b m held = true →
  evict_oldest max_n max_b m held evicted = (m, held, evicted).
Proof. unfold evict_oldest. by intros ->. Qed.

(** What the loop keeps is at least as recent as what it drops. *)
Lemma evict_loop_oldest max_n max_b l m held evicted k v j w :
  StronglySorted (λ x y : K * Z, x.2 <= y.2) l →
  (∀ k v, m !! k = Some v → (k, last_seen v) ∈ l) →
  (∀ k t, (k, t) ∈ l → ∀ v, m !! k = Some v → last_seen v = t) →
  let m' := (evict_loop max_n max_b l.*1 m held evicted).1.1 in
  m !! k = Some v → m' !! k = None → m' !! j = Some w → last_seen v <= last_seen w.
Proof.
  revert m held evicted.
  induction l as [|[x t] l IH]; intros m held evicted Hs Hin Hval; simpl; [congruence|].
  apply StronglySorted_inv in Hs as [Hs Hall].
  destruct (within max_n max_b m held); simpl; [congruence|].
  destruct (m !! x) as [u|] eqn:Hx.
  - intros Hk Hk' Hj.
    destruct (decide (k = x)) as [->|Hne].
    + assert (u = v) as -> by congruence.
      pose proof (lookup_weaken _ _ _ _ Hj (evict_loop_subseteq _ _ _ _ _ _)) as [Hne Hjm]%lookup_delete_Some.
      rewrite (Hval x t ltac:(left) v Hx).
      apply Hin in Hjm. apply elem_of_cons in Hjm as [[= ? ?]|Hjl]; [congruence|].
      rewrite Forall_forall in Hall. by apply (Hall _ Hjl).
    + eapply IH; [done| | | |exact Hk'|exact Hj].
      * intros y z [Hyx Hy]%lookup_delete_Some. apply Hin in Hy.
        apply elem_of_cons in Hy as [[= ? ?]|]; [congruence|done].
      * intros y z Hy z' [_ Hz]%lookup_delete_Some. eapply Hval; [by right|done].
      * by rewrite lookup_delete_ne.
  - apply IH; [done| |].
    + intros y z Hy. pose proof (Hin y z Hy) as Hy'.
      apply elem_of_cons in Hy' as [[= ? ?]|]; [congruence|done].
    + intros y z Hy. eapply Hval. by right.
Qed.

Lemma evict_oldest_lru max_n max_b m held evicted k v j w :
  let m' := (evict_oldest max_n max_b m held evicted).1.1 in
  m !! k = Some v → m' !! k = None → m' !! j = Some w → last_seen v <= last_seen w.
Proof.
  unfold evict_oldest. destruct (within _ _ _ _); simpl; [congruence|].
  apply evict_loop_oldest.
  - apply sort_by_key_sorted.
  - intros x y Hx. apply elem_of_by_age. eauto.
  - intros x t (u & Hu & <-)%elem_of_by_age y Hy. congruence.
Qed.

End budget.
