(* ===== verification/Coverage.v ===== *)
(** * Coverage buffers

    The (data, filled) pair both reassemblers of
    [capture-agent/src/reassembly.rs] write into, with its first-seen-wins
    overlap policy ([write_first_seen_wins]) and its incremental scan for the
    contiguous prefix ([contiguous_len_from]).

    The abstract view of a pair is [cell]: the byte held at an index, if any.
    A write is the left-biased union of what is held with the part of the
    piece below the cap. *)

From S2P Require Import Prelude.

Record WriteOutcome := mkOutcome {
  newly_written : Z;
  conflicting : Z;
  hit_cap : bool
}.

#[export] Instance eta_WriteOutcome : RecordEta WriteOutcome :=
  fun r => mkOutcome (newly_written r) (conflicting r) (hit_cap r).

Section coverage.
Context `{VecPolicy}.
Implicit Types (data : vec Z) (filled : vec bool).

(** The byte loop, from index [idx] on. *)
Fixpoint write_loop (idx : Z) (bs : bytes) (data : vec Z) (filled : vec bool)
    (out : WriteOutcome) : vec Z * vec bool * WriteOutcome :=
  match bs with
  | [] => (data, filled, out)
  | byte :: bs' =>
      match nth_z (vlist filled) idx with
      | Some true =>
          write_loop (idx + 1) bs' data filled
            (if bool_decide (nth_z (vlist data) idx = Some byte) then out
             else out <| conflicting ::= Z.succ |>)
      | _ =>
          write_loop (idx + 1) bs' (vec_set data idx byte) (vec_set filled idx true)
            (out <| newly_written ::= Z.succ |>)
      end
  end.

Definition write_first_seen_wins (data : vec Z) (filled : vec bool) (offset : Z)
    (bs : bytes) (cap : Z) : vec Z * vec bool * WriteOutcome :=
  match checked_add offset (zlen bs) with
  | None => (data, filled, mkOutcome 0 0 true)
  | Some end_ =>
      let out := mkOutcome 0 0 (cap <? end_) in
      let usable_end := Z.min end_ cap in
      if usable_end <=? offset then (data, filled, out)
      else
        let grow := zlen (vlist data) <? usable_end in
        let data := if grow then vec_resize data usable_end 0 else data in
        let filled := if grow then vec_resize filled usable_end false else filled in
        write_loop offset (ztake (usable_end - offset) bs) data filled out
  end.

End coverage.

(** Length of the leading run of held positions. *)
Fixpoint run_true (l : list bool) : Z :=
  match l with
  | true :: l' => 1 + run_true l'
  | _ => 0
  end.

(** The scan resumes at [known] instead of at 0. *)
Definition contiguous_len_from (filled : list bool) (known : Z) : Z :=
  let len := Z.min known (zlen filled) in
  len + run_true (zdrop len filled).

(** ** The abstract view *)

Definition cell (d : list Z) (f : list bool) (i : nat) : option Z :=
  match f !! i with Some true => d !! i | _ => None end.

(** The part of a piece that lies below the cap. *)
Definition piece (offset : Z) (bs : bytes) (cap : Z) (i : nat) : option Z :=
  if (offset <=? Z.of_nat i) && (Z.of_nat i <? cap) then bs !! (i - Z.to_nat offset)%nat
  else None.

Definition first_seen (old new : option Z) : option Z :=
  match old with Some b => Some b | None => new end.

Fixpoint count_true (l : list bool) : Z :=
  match l with
  | [] => 0
  | b :: l' => Z.b2z b + count_true l'
  end.

(** How many bytes of a piece starting at [idx] disagree with what is held. *)
Fixpoint disagreements (held : nat → option Z) (idx : Z) (bs : bytes) : Z :=
  match bs with
  | [] => 0
  | b :: bs' =>
      match held (Z.to_nat idx) with
      | Some c => if bool_decide (c = b) then 0 else 1
      | None => 0
      end + disagreements held (idx + 1) bs'
  end.

(** ** Well-formed pairs *)

Definition cov_wf (data : vec Z) (filled : vec bool) (cap : Z) : Prop :=
  length (vlist data) = length (vlist filled) ∧ zlen (vlist data) <= cap ∧
  vec_wf data ∧ vec_wf filled ∧ vcap data <= 2 * cap ∧ vcap filled <= 2 * cap.

Section coverage_lemmas.
Context `{VecPolicy}.
Implicit Types (data : vec Z) (filled : vec bool).

Lemma write_loop_lengths idx bs data filled out :
  let '(data', filled', _) := write_loop idx bs data filled out in
  length (vlist data') = length (vlist data) ∧
  length (vlist filled') = length (vlist filled) ∧
  vcap data' = vcap data ∧ vcap filled' = vcap filled.
Proof.
  revert idx data filled out.
  induction bs as [|b bs IH]; intros idx data filled out; simpl; [done|].
  destruct (nth_z (vlist filled) idx) as [[]|]; [apply IH|..];
    specialize (IH (idx + 1) (vec_set data idx b) (vec_set filled idx true)
      (out <| newly_written ::= Z.succ |>));
    destruct (write_loop _ _ _ _ _) as [[d' f'] o']; simpl in *;
    by rewrite !length_insert in IH.
Qed.

Lemma cell_set_other d f i j b :
  i ≠ j → cell (<[i:=b]> d) (<[i:=true]> f) j = cell d f j.
Proof. intros. unfold cell. by rewrite !list_lookup_insert_ne by done. Qed.

Lemma cell_set_same d f i b :
  (i < length d)%nat → (i < length f)%nat → cell (<[i:=b]> d) (<[i:=true]> f) i = Some b.
Proof. intros. unfold cell. by rewrite !list_lookup_insert_eq by done. Qed.

(** Inside the buffers, the loop is the first-seen union with the piece. *)
Lemma write_loop_cell idx bs data filled out i :
  0 <= idx → length (vlist data) = length (vlist filled) →
  idx + zlen bs <= zlen (vlist data) →
  let '(data', filled', _) := write_loop idx bs data filled out in
  cell (vlist data') (vlist filled') i =
    first_seen (cell (vlist data) (vlist filled) i)
      (if idx <=? Z.of_nat i then bs !! (i - Z.to_nat idx)%nat else None).
Proof.
  revert idx data filled out.
  induction bs as [|b bs IH]; intros idx data filled out Hidx Hlen Hfit; simpl.
  { rewrite lookup_nil. case_zb; by destruct (cell _ _ _). }
  simpl in Hfit.
  assert (Hshift : (idx <=? Z.of_nat i) = true → i ≠ Z.to_nat idx →
    (b :: bs) !! (i - Z.to_nat idx)%nat =
      if idx + 1 <=? Z.of_nat i then bs !! (i - Z.to_nat (idx + 1))%nat else None).
  { intros Hle%Z.leb_le Hne. case_zb; [|lia].
    replace (i - Z.to_nat idx)%nat with (S (i - Z.to_nat (idx + 1))) by lia. done. }
  destruct (nth_z (vlist filled) idx) as [[]|] eqn:Hf.
  - specialize (IH (idx + 1) data filled
      (if bool_decide (nth_z (vlist data) idx = Some b) then out
       else out <| conflicting ::= Z.succ |>)).
    destruct (write_loop _ _ _ _ _) as [[d' f'] o'].
    rewrite IH by (done || lia). destruct (decide (i = Z.to_nat idx)) as [->|Hne].
    + assert (is_Some (cell (vlist data) (vlist filled) (Z.to_nat idx))) as [c ->]; [|done].
      unfold cell, nth_z in *. rewrite Hf. apply lookup_lt_is_Some_2. lia.
    + destruct (Z.leb_spec idx (Z.of_nat i)).
      * rewrite Hshift by (done || lia). done.
      * case_zb; [lia|done].
  - specialize (IH (idx + 1) (vec_set data idx b) (vec_set filled idx true)
      (out <| newly_written ::= Z.succ |>)).
    destruct (write_loop _ _ _ _ _) as [[d' f'] o']. simpl in IH.
    rewrite !length_insert in IH. rewrite IH by (done || lia).
    destruct (decide (i = Z.to_nat idx)) as [->|Hne].
    + rewrite cell_set_same by lia.
      replace (cell (vlist data) (vlist filled) (Z.to_nat idx)) with (@None Z).
      2:{ unfold cell, nth_z in *. by rewrite Hf. }
      rewrite (proj2 (Z.leb_le idx _)) by lia. by rewrite Nat.sub_diag.
    + rewrite cell_set_other by done. destruct (Z.leb_spec idx (Z.of_nat i)).
      * rewrite Hshift by (done || lia). done.
      * case_zb; [lia|done].
  - exfalso. unfold nth_z in Hf. apply lookup_ge_None in Hf. lia.
Qed.

Lemma cell_resize data filled n i :
  zlen (vlist data) < n → length (vlist data) = length (vlist filled) →
  cell (vlist (vec_resize data n 0)) (vlist (vec_resize filled n false)) i =
  cell (vlist data) (vlist filled) i.
Proof.
  intros Hn Hlen. unfold vec_resize. rewrite <- Hlen.
  rewrite (proj2 (Z.leb_gt n (zlen (vlist data)))) by lia. simpl. unfold cell.
  destruct (decide (i < length (vlist filled))%nat) as [Hi|Hi].
  - rewrite !lookup_app_l by lia. done.
  - rewrite (lookup_ge_None_2 (vlist filled)) by lia.
    rewrite (lookup_app_r (vlist filled)) by lia. unfold zreplicate.
    destruct (replicate _ false !! _) as [c|] eqn:E; [|done].
    by apply lookup_replicate in E as [-> _].
Qed.

Lemma cov_wf_empty cap : 0 <= cap → cov_wf vec_new vec_new cap.
Proof. intros. unfold cov_wf, vec_wf; simpl. lia. Qed.

(** The write keeps the pair well formed. *)
Lemma write_wf data filled offset bs cap :
  0 <= offset → 4 <= cap → cov_wf data filled cap →
  let '(data', filled', _) := write_first_seen_wins data filled offset bs cap in
  cov_wf data' filled' cap.
Proof.
  intros Ho Hc (Hlen & Hcap & Hwd & Hwf & Hcd & Hcf). unfold write_first_seen_wins.
  destruct (checked_add offset (zlen bs)) as [e|]; [|by repeat split].
  destruct (Z.leb_spec (Z.min e cap) offset); [by repeat split|].
  set (n := Z.min e cap) in *.
  assert (Hpair : cov_wf (if zlen (vlist data) <? n then vec_resize data n 0 else data)
            (if zlen (vlist data) <? n then vec_resize filled n false else filled) cap).
  { case_zb; [|by repeat split]. unfold cov_wf.
    assert (0 <= n <= cap) by lia.
    pose proof (length_vec_resize data n 0 ltac:(lia)).
    pose proof (length_vec_resize filled n false ltac:(lia)).
    repeat split; auto using vec_resize_wf, vec_resize_cap_le; lia. }
  destruct Hpair as (? & ? & ? & ? & ? & ?).
  pose proof (write_loop_lengths offset (ztake (n - offset) bs)
    (if zlen (vlist data) <? n then vec_resize data n 0 else data)
    (if zlen (vlist data) <? n then vec_resize filled n false else filled)
    (mkOutcome 0 0 (cap <? e))) as Hl.
  destruct (write_loop _ _ _ _ _) as [[d' f'] o']. unfold cov_wf, vec_wf in *.
  destruct Hl as (-> & -> & -> & ->). repeat split; lia.
Qed.

Lemma write_length data filled offset bs cap :
  0 <= offset →
  let '(data', _, _) := write_first_seen_wins data filled offset bs cap in
  zlen (vlist data) <= zlen (vlist data') <= Z.max (zlen (vlist data)) (offset + zlen bs).
Proof.
  intros Ho. unfold write_first_seen_wins, checked_add.
  destruct (Z.leb_spec (offset + zlen bs) USIZE_MAX); [|lia].
  set (n := Z.min (offset + zlen bs) cap) in *.
  destruct (Z.leb_spec n offset); [lia|].
  pose proof (write_loop_lengths offset (ztake (n - offset) bs)
    (if zlen (vlist data) <? n then vec_resize data n 0 else data)
    (if zlen (vlist data) <? n then vec_resize filled n false else filled)
    (mkOutcome 0 0 (cap <? offset + zlen bs))) as Hl.
  destruct (write_loop _ _ _ _ _) as [[d' f'] o']. destruct Hl as (-> & _).
  case_zb; [|lia]. rewrite length_vec_resize by lia. lia.
Qed.

(** The write as a whole is the first-seen union with the capped piece. *)
Lemma write_cell data filled offset bs cap i :
  0 <= offset → 0 <= cap → zlen bs <= USIZE_MAX - offset →
  length (vlist data) = length (vlist filled) →
  let '(data', filled', _) := write_first_seen_wins data filled offset bs cap in
  cell (vlist data') (vlist filled') i =
    first_seen (cell (vlist data) (vlist filled) i) (piece offset bs cap i).
Proof.
  intros Ho Hc Hfit Hlen. unfold write_first_seen_wins, checked_add.
  destruct (Z.leb_spec (offset + zlen bs) USIZE_MAX); [|lia].
  set (n := Z.min (offset + zlen bs) cap).
  assert (Hpiece : piece offset bs cap i =
    if offset <=? Z.of_nat i then ztake (n - offset) bs !! (i - Z.to_nat offset)%nat else None).
  { unfold piece, ztake. destruct (Z.leb_spec offset (Z.of_nat i)); [|done]. simpl.
    case_zb.
    - destruct (decide (i - Z.to_nat offset < Z.to_nat (n - offset))%nat).
      + by rewrite lookup_take_lt.
      + rewrite lookup_take_ge by lia. apply lookup_ge_None. lia.
    - by rewrite lookup_take_ge by lia. }
  rewrite Hpiece. destruct (Z.leb_spec n offset) as [Hle|Hgt].
  { case_zb; [|by destruct (cell _ _ _)].
    unfold ztake. rewrite lookup_take_ge by lia. by destruct (cell _ _ _). }
  assert (Hbs : zlen (ztake (n - offset) bs) = n - offset) by (rewrite length_ztake; lia).
  case_zb.
  - pose proof (length_vec_resize data n 0 ltac:(lia)) as Hd.
    pose proof (length_vec_resize filled n false ltac:(lia)) as Hf.
    pose proof (write_loop_cell offset (ztake (n - offset) bs) (vec_resize data n 0)
      (vec_resize filled n false) (mkOutcome 0 0 (cap <? offset + zlen bs)) i Ho
      ltac:(lia) ltac:(lia)) as Hw.
    destruct (write_loop _ _ _ _ _) as [[d' f'] o'].
    by rewrite Hw, cell_resize by done.
  - pose proof (write_loop_cell offset (ztake (n - offset) bs) data filled
      (mkOutcome 0 0 (cap <? offset + zlen bs)) i Ho Hlen ltac:(lia)) as Hw.
    by destruct (write_loop _ _ _ _ _) as [[d' f'] o'].
Qed.

Lemma count_true_insert f i :
  f !! i = Some false → count_true (<[i:=true]> f) = count_true f + 1.
Proof.
  revert i. induction f as [|b f IH]; intros [|i] Hi; simplify_eq/=; [lia|].
  rewrite IH by done. lia.
Qed.

Lemma count_true_app f g : count_true (f ++ g) = count_true f + count_true g.
Proof. induction f as [|b f IH]; simpl; [done|]. rewrite IH. lia. Qed.

Lemma count_true_replicate n : count_true (replicate n false) = 0.
Proof. induction n; simpl; auto. Qed.

Lemma count_true_resize filled n :
  zlen (vlist filled) < n →
  count_true (vlist (vec_resize filled n false)) = count_true (vlist filled).
Proof.
  intros. unfold vec_resize. case_zb; [lia|]. simpl.
  unfold zreplicate. rewrite count_true_app, count_true_replicate. lia.
Qed.

(** The loop's counters: each byte is newly written, identical to the held
    one, or a conflict. *)
Lemma write_loop_counts idx bs data filled out :
  0 <= idx → length (vlist data) = length (vlist filled) →
  idx + zlen bs <= zlen (vlist data) →
  let '(_, filled', out') := write_loop idx bs data filled out in
  newly_written out' - newly_written out = count_true (vlist filled') - count_true (vlist filled) ∧
  conflicting out' =
    conflicting out + disagreements (cell (vlist data) (vlist filled)) idx bs ∧
  hit_cap out' = hit_cap out.
Proof.
  revert idx data filled out.
  induction bs as [|b bs IH]; intros idx data filled out Hidx Hlen Hfit; simpl.
  { split; [lia|]. split; [lia|done]. }
  simpl in Hfit.
  destruct (nth_z (vlist filled) idx) as [[]|] eqn:Hf.
  - specialize (IH (idx + 1) data filled
      (if bool_decide (nth_z (vlist data) idx = Some b) then out
       else out <| conflicting ::= Z.succ |>)).
    destruct (write_loop _ _ _ _ _) as [[d' f'] o'].
    destruct IH as (IHn & IHc & IHh); [lia|done|lia|].
    assert (Hcell : cell (vlist data) (vlist filled) (Z.to_nat idx) = nth_z (vlist data) idx).
    { unfold cell, nth_z in *. by rewrite Hf. }
    destruct (nth_z_is_Some (vlist data) idx) as [c Hc]; [lia|].
    rewrite Hcell, Hc. rewrite IHc, IHh.
    rewrite Hc in IHn |- *. split; [rewrite <- IHn; by destruct (bool_decide _)|].
    destruct (bool_decide_reflect (c = b)) as [->|Hne].
    + rewrite bool_decide_eq_true_2 by done. split; [lia|done].
    + rewrite bool_decide_eq_false_2 by congruence. simpl. split; [lia|done].
  - specialize (IH (idx + 1) (vec_set data idx b) (vec_set filled idx true)
      (out <| newly_written ::= Z.succ |>)).
    destruct (write_loop _ _ _ _ _) as [[d' f'] o']. simpl in IH.
    rewrite !length_insert in IH. destruct IH as (IHn & IHc & IHh); [lia|done|lia|].
    rewrite count_true_insert in IHn by done.
    split; [lia|]. split; [|done]. rewrite IHc. simpl. f_equal.
    replace (cell (vlist data) (vlist filled) (Z.to_nat idx)) with (@None Z).
    2:{ unfold cell, nth_z in *. by rewrite Hf. }
    rewrite Z.add_0_l. clear -Hidx.
    assert (Hlt : (Z.to_nat idx < Z.to_nat (idx + 1))%nat) by lia.
    revert Hlt. generalize (idx + 1) as j. intros j.
    revert j. induction bs as [|c bs IHbs]; intros j Hlt; simpl; [done|].
    rewrite cell_set_other by lia. f_equal. apply IHbs. lia.
  - exfalso. unfold nth_z in Hf. apply lookup_ge_None in Hf. lia.
Qed.

Lemma disagreements_ext held held' idx bs :
  (∀ i, held i = held' i) → disagreements held idx bs = disagreements held' idx bs.
Proof.
  intros Heq. revert idx. induction bs as [|b bs IH]; intros idx; simpl; [done|].
  by rewrite Heq, IH.
Qed.

Lemma write_counts data filled offset bs cap :
  0 <= offset → 0 <= cap → zlen bs <= USIZE_MAX - offset →
  length (vlist data) = length (vlist filled) →
  let '(_, filled', out) := write_first_seen_wins data filled offset bs cap in
  newly_written out = count_true (vlist filled') - count_true (vlist filled) ∧
  conflicting out =
    disagreements (cell (vlist data) (vlist filled)) offset (ztake (cap - offset) bs) ∧
  hit_cap out = (cap <? offset + zlen bs).
Proof.
  intros Ho Hc Hfit Hlen. unfold write_first_seen_wins, checked_add.
  destruct (Z.leb_spec (offset + zlen bs) USIZE_MAX); [|lia].
  set (n := Z.min (offset + zlen bs) cap).
  assert (Htake : ztake (cap - offset) bs = ztake (n - offset) bs).
  { unfold ztake. destruct (Z.le_gt_cases (offset + zlen bs) cap).
    - rewrite !take_ge by lia. done.
    - f_equal. lia. }
  rewrite Htake. destruct (Z.leb_spec n offset) as [Hle|Hgt].
  { simpl. unfold ztake. replace (Z.to_nat (n - offset)) with 0%nat by lia.
    simpl. split; [lia|done]. }
  assert (Hbs : zlen (ztake (n - offset) bs) = n - offset) by (rewrite length_ztake; lia).
  case_zb.
  - pose proof (length_vec_resize data n 0 ltac:(lia)) as Hd.
    pose proof (length_vec_resize filled n false ltac:(lia)) as Hf.
    pose proof (write_loop_counts offset (ztake (n - offset) bs) (vec_resize data n 0)
      (vec_resize filled n false) (mkOutcome 0 0 (cap <? offset + zlen bs)) Ho
      ltac:(lia) ltac:(lia)) as Hw.
    destruct (write_loop _ _ _ _ _) as [[d' f'] o']. simpl in Hw.
    destruct Hw as (Hn & -> & ->). rewrite count_true_resize in Hn by lia.
    split; [lia|]. split; [|done]. apply disagreements_ext.
    intros. by apply cell_resize.
  - pose proof (write_loop_counts offset (ztake (n - offset) bs) data filled
      (mkOutcome 0 0 (cap <? offset + zlen bs)) Ho Hlen ltac:(lia)) as Hw.
    destruct (write_loop _ _ _ _ _) as [[d' f'] o']. simpl in Hw.
    destruct Hw as (Hn & -> & ->). split; [lia|done].
Qed.

(** *** The contiguous prefix *)

Lemma run_true_bounds f : 0 <= run_true f <= zlen f.
Proof. induction f as [|[] f IH]; simpl; lia. Qed.

Lemma run_true_lt f i : Z.of_nat i < run_true f → f !! i = Some true.
Proof.
  revert i. induction f as [|[] f IH]; intros i; simpl; [lia| |lia].
  destruct i; simpl; [done|]. intros. apply IH. lia.
Qed.

Lemma run_true_stop f : f !! Z.to_nat (run_true f) ≠ Some true.
Proof.
  induction f as [|[] f IH]; simpl; [done| |done].
  pose proof (run_true_bounds f).
  replace (Z.to_nat (1 + run_true f)) with (S (Z.to_nat (run_true f))) by lia. done.
Qed.

Lemma run_true_drop f n : Z.of_nat n <= run_true f → run_true f = Z.of_nat n + run_true (drop n f).
Proof.
  revert f. induction n as [|n IH]; intros f Hn; [rewrite drop_0; lia|].
  destruct f as [|[] f]; simpl in *; [lia| |lia].
  rewrite (IH f) by lia. lia.
Qed.

Lemma contiguous_from_known f known :
  0 <= known <= run_true f → contiguous_len_from f known = run_true f.
Proof.
  intros Hk. unfold contiguous_len_from, zdrop. pose proof (run_true_bounds f).
  rewrite Z.min_l by lia. symmetry.
  rewrite (run_true_drop f (Z.to_nat known)) by lia. lia.
Qed.

Lemma run_true_ge f n :
  (n <= length f)%nat → (∀ i, (i < n)%nat → f !! i = Some true) → Z.of_nat n <= run_true f.
Proof.
  intros Hn Hall. destruct (Z.le_gt_cases (Z.of_nat n) (run_true f)) as [|Hlt]; [done|].
  exfalso. apply (run_true_stop f), Hall. pose proof (run_true_bounds f). lia.
Qed.

(** Every position of the contiguous prefix shows its held byte. *)
Lemma cell_prefix d f i : Z.of_nat i < run_true f → cell d f i = d !! i.
Proof. intros Hi. unfold cell. by rewrite run_true_lt. Qed.

(** Cells that are held stay held, so the prefix never shrinks. *)
Lemma run_true_mono d f d' f' :
  length d = length f →
  (∀ i b, cell d f i = Some b → cell d' f' i = Some b) → run_true f <= run_true f'.
Proof.
  intros Hlen Hpres. pose proof (run_true_bounds f).
  assert (Hlen' : ∀ i, (i < Z.to_nat (run_true f))%nat → f' !! i = Some true).
  { intros i Hi. destruct (lookup_lt_is_Some_2 d i) as [b Hb]; [lia|].
    assert (cell d f i = Some b) as Hc%Hpres by (rewrite cell_prefix by lia; done).
    unfold cell in Hc. destruct (f' !! i) as [[]|]; done. }
  transitivity (Z.of_nat (Z.to_nat (run_true f))); [lia|]. apply run_true_ge; [|done].
  destruct (Z.to_nat (run_true f)) as [|n] eqn:E; [lia|].
  specialize (Hlen' n ltac:(lia)). apply lookup_lt_Some in Hlen'. lia.
Qed.

(** After a write, the resumed scan finds the whole contiguous run. *)
Lemma write_prefix data filled offset bs cap known :
  0 <= offset → 0 <= cap → zlen bs <= USIZE_MAX - offset →
  length (vlist data) = length (vlist filled) →
  0 <= known <= run_true (vlist filled) →
  let '(_, filled', _) := write_first_seen_wins data filled offset bs cap in
  contiguous_len_from (vlist filled') known = run_true (vlist filled').
Proof.
  intros Ho Hc Hfit Hlen Hk.
  pose proof (λ i, write_cell data filled offset bs cap i Ho Hc Hfit Hlen) as Hcell.
  destruct (write_first_seen_wins _ _ _ _ _) as [[d' f'] out].
  apply contiguous_from_known. split; [lia|]. etrans; [apply Hk|].
  apply (run_true_mono (vlist data) (vlist filled) (vlist d')); [done|].
  intros i b Hi. by rewrite Hcell, Hi.
Qed.

(** Writing over bytes that are all held changes nothing and only counts the
    disagreements. *)
Lemma write_loop_held idx bs data filled out :
  0 <= idx →
  (∀ i, (i < length bs)%nat →
     is_Some (cell (vlist data) (vlist filled) (Z.to_nat idx + i))) →
  write_loop idx bs data filled out =
    (data, filled, out <| conflicting ::=
       Z.add (disagreements (cell (vlist data) (vlist filled)) idx bs) |>).
Proof.
  revert idx out. induction bs as [|b bs IH]; intros idx out Hi Hheld; simpl.
  { by destruct out. }
  destruct (Hheld 0%nat ltac:(simpl; lia)) as [c Hc]. rewrite Nat.add_0_r in Hc.
  rewrite Hc. unfold cell in Hc. unfold nth_z.
  destruct (vlist filled !! Z.to_nat idx) as [[]|]; try done. rewrite Hc.
  rewrite IH; [|lia|].
  - destruct (decide (c = b)) as [->|Hne].
    + rewrite !bool_decide_eq_true_2 by done. simpl. by destruct out.
    + rewrite !bool_decide_eq_false_2 by congruence. destruct out. simpl.
      f_equal. unfold modify_field. simpl. f_equal. lia.
  - intros i Hlt. replace (Z.to_nat (idx + 1) + i)%nat with (Z.to_nat idx + S i)%nat by lia.
    apply Hheld. simpl. lia.
Qed.

Lemma write_held data filled offset bs cap :
  0 <= offset → 0 < zlen bs → zlen bs <= USIZE_MAX - offset →
  offset + zlen bs <= zlen (vlist data) → zlen (vlist data) <= cap →
  (∀ i, (i < length bs)%nat →
     is_Some (cell (vlist data) (vlist filled) (Z.to_nat offset + i))) →
  write_first_seen_wins data filled offset bs cap =
    (data, filled, mkOutcome 0 (disagreements (cell (vlist data) (vlist filled)) offset bs) false).
Proof.
  intros Ho Hne Hmax Hlen Hcap Hheld. unfold write_first_seen_wins, checked_add.
  rewrite (proj2 (Z.leb_le _ _)) by lia. rewrite Z.min_l by lia.
  rewrite (proj2 (Z.leb_gt _ _)) by lia. rewrite !(proj2 (Z.ltb_ge _ _)) by lia.
  replace (offset + zlen bs - offset) with (zlen bs) by lia. rewrite ztake_zlen.
  rewrite write_loop_held by done. unfold modify_field. simpl. by rewrite Z.add_0_r.
Qed.

End coverage_lemmas.

(** ** Properties *)

(** C33: [write_first_seen_wins] implements the first-seen-wins policy on
    every input.  The cell at each index is what was held there before, else
    the piece's byte if the index is below the cap; [newly_written] is exactly
    the growth of the held set, [conflicting] exactly the number of
    overlapping bytes that disagree with the held ones, [hit_cap] is set
    exactly when the piece runs past the cap, and the buffers stay within
    their logical cap and twice that in capacity. *)
Theorem write_first_seen_wins_refines `{VecPolicy} data filled offset bs cap :
  0 <= offset → 4 <= cap → zlen bs <= USIZE_MAX - offset → cov_wf data filled cap →
  let '(data', filled', out) := write_first_seen_wins data filled offset bs cap in
  cov_wf data' filled' cap ∧
  (∀ i, cell (vlist data') (vlist filled') i =
        first_seen (cell (vlist data) (vlist filled) i) (piece offset bs cap i)) ∧
  newly_written out = count_true (vlist filled') - count_true (vlist filled) ∧
  conflicting out =
    disagreements (cell (vlist data) (vlist filled)) offset (ztake (cap - offset) bs) ∧
  hit_cap out = (cap <? offset + zlen bs).
Proof.
  intros Ho Hc Hfit Hwf. pose proof (proj1 Hwf) as Hlen.
  pose proof (write_wf data filled offset bs cap Ho Hc Hwf) as Hw.
  pose proof (λ i, write_cell data filled offset bs cap i Ho ltac:(lia) Hfit Hlen) as Hcell.
  pose proof (write_counts data filled offset bs cap Ho ltac:(lia) Hfit Hlen) as Hcnt.
  destruct (write_first_seen_wins data filled offset bs cap) as [[d' f'] out]. by split.
Qed.

Lemma write_first_seen_wins_refines_witness :
  let data := mkVec [1; 2; 0; 4] 8 in
  let filled := mkVec [true; true; false; true] 8 in
  let '(data', filled', out) := write_first_seen_wins data filled 1 [9; 3; 4; 5; 6] 5 in
  vlist data' = [1; 2; 3; 4; 5] ∧ newly_written out = 2 ∧ conflicting out = 1 ∧
  hit_cap out = true ∧ cov_wf data' filled' 5.
Proof.
  pose proof (write_first_seen_wins_refines
    (mkVec [1; 2; 0; 4] 8) (mkVec [true; true; false; true] 8) 1 [9; 3; 4; 5; 6] 5
    ltac:(lia) ltac:(lia) ltac:(vm_compute; discriminate)
    ltac:(unfold cov_wf, vec_wf; simpl; lia)) as H.
  vm_compute write_first_seen_wins in *. destruct H as (? & _). by repeat split.
Defined.

(** The incremental prefix scan agrees with a scan from scratch.
    [contiguous_len_from] resumed at any position already known to be
    contiguous returns the length of the longest leading run of held
    positions: everything before it is held and the position itself is not. *)
Theorem contiguous_len_from_correct (filled : list bool) (known : Z) :
  0 <= known <= zlen filled →
  (∀ i, Z.of_nat i < known → filled !! i = Some true) →
  let n := contiguous_len_from filled known in
  n = contiguous_len_from filled 0 ∧ known <= n <= zlen filled ∧
  (∀ i, Z.of_nat i < n → filled !! i = Some true) ∧
  filled !! Z.to_nat n ≠ Some true.
Proof.
  intros Hk Hall n.
  assert (Z.of_nat (Z.to_nat known) <= run_true filled).
  { apply run_true_ge; [lia|]. intros i Hi. apply Hall. lia. }
  pose proof (run_true_bounds filled).
  assert (n = run_true filled) as -> by (apply contiguous_from_known; lia).
  split; [symmetry; apply contiguous_from_known; lia|]. split; [lia|].
  split; [intros i; apply run_true_lt|apply run_true_stop].
Qed.

Lemma contiguous_len_from_correct_witness :
  contiguous_len_from [true; true; true; false; true] 2 = 3 ∧
  contiguous_len_from [true; true; true; false; true] 2 =
  contiguous_len_from [true; true; true; false; true] 0.
Proof.
  split; [reflexivity|].
  apply (contiguous_len_from_correct [true; true; true; false; true] 2); simpl; [lia|].
  intros [|[|i]] Hi; [reflexivity|reflexivity|lia].
Defined.
