(* ===== verification/ReplayClock.v ===== *)
(** * The replay clock

    [ReplayClock] of [capture-agent/src/reassembly.rs]: the clock stream
    reassembly and flow aging run on while a capture file is replayed.  It
    turns each frame's recorded timestamp into elapsed milliseconds, holds on
    reordered frames, ignores a lone outlier and follows a confirmed reset.

    A [SystemTime] is a [Z] count of nanoseconds, a [Duration] a [Z] in
    [0, DURATION_MAX]. *)

From S2P Require Import Prelude.

Definition NANOS_PER_MILLI : Z := 1000000.

(** [Duration::MAX]: [u64::MAX] seconds and 999,999,999 nanoseconds. *)
Definition DURATION_MAX : Z := U64_MAX * 1000000000 + 999999999.

(** [Duration::saturating_add]. *)
Definition duration_add (a b : Z) : Z := Z.min (a + b) DURATION_MAX.

(** [a.duration_since(b)]: the step forward, or how far [a] is behind. *)
Definition duration_since (a b : Z) : result Z Z :=
  if b <=? a then Ok (a - b) else Err (b - a).

Module ReplayClock.

Record t := mk {
  latest : option Z;
  pending_reset : option Z;
  elapsed : Z
}.

#[global] Instance eta_t : RecordEta t := fun r => mk (latest r) (pending_reset r) (elapsed r).

Definition default : t := mk None None 0.

(** [REPLAY_REORDER_TOLERANCE], 60 s. *)
Definition REORDER_TOLERANCE : Z := 60 * 1000000000.

(** [u64::try_from(self.elapsed.as_millis()).unwrap_or(u64::MAX)]. *)
Definition elapsed_ms (c : t) : Z := Z.min (elapsed c / NANOS_PER_MILLI) U64_MAX.

Definition now_ms (c : t) (frame_timestamp : Z) : t * Z :=
  match latest c with
  | None => (c <| latest := Some frame_timestamp |>, 0)
  | Some last =>
      let c' :=
        match duration_since frame_timestamp last with
        | Ok step =>
            c <| pending_reset := None |>
              <| elapsed := duration_add (elapsed c) step |>
              <| latest := Some frame_timestamp |>
        | Err behind =>
            if behind <=? REORDER_TOLERANCE then c <| pending_reset := None |>
            else
              match pending_reset c with
              | None => c <| pending_reset := Some frame_timestamp |>
              | Some pending =>
                  let c1 := c <| pending_reset := None |> in
                  let c2 :=
                    match duration_since frame_timestamp pending with
                    | Ok step => c1 <| elapsed := duration_add (elapsed c) step |>
                    | Err _ => c1
                    end in
                  c2 <| latest := Some frame_timestamp |>
              end
        end in
      (c', elapsed_ms c')
  end.

(** The clock over a whole capture file: one reading per frame. *)
Fixpoint run (c : t) (frames : list Z) : t * list Z :=
  match frames with
  | [] => (c, [])
  | ts :: frames' =>
      let '(c1, now) := now_ms c ts in
      let '(c2, rest) := run c1 frames' in
      (c2, now :: rest)
  end.

(** A reachable clock: nothing elapsed before the first frame. *)
Definition wf (c : t) : Prop :=
  0 <= elapsed c <= DURATION_MAX ∧ (latest c = None → elapsed c = 0).

(** Frames that arrive in order up to the tolerance: each is at most
    [REORDER_TOLERANCE] behind the latest one so far. *)
Fixpoint nearly_sorted (latest : Z) (frames : list Z) : Prop :=
  match frames with
  | [] => True
  | ts :: frames' =>
      latest - REORDER_TOLERANCE <= ts ∧ nearly_sorted (Z.max latest ts) frames'
  end.

Lemma duration_since_cases a b :
  (b <= a ∧ duration_since a b = Ok (a - b)) ∨ (a < b ∧ duration_since a b = Err (b - a)).
Proof. unfold duration_since. case_zb; auto. Qed.

Lemma duration_add_ge a b : 0 <= b → a <= DURATION_MAX → a <= duration_add a b <= DURATION_MAX.
Proof. unfold duration_add. lia. Qed.

Lemma default_wf : wf default.
Proof. unfold wf, default, DURATION_MAX; simpl. zlia. Qed.

Lemma now_ms_step c ts :
  wf c → let '(c', now) := now_ms c ts in
  wf c' ∧ elapsed c <= elapsed c' ∧ is_Some (latest c') ∧ now = elapsed_ms c'.
Proof.
  intros [Hb Hn]. unfold now_ms. destruct (latest c) as [last|] eqn:Hl.
  - unfold wf. destruct (duration_since_cases ts last) as [[Hle ->]|[Hlt ->]]; simpl.
    + pose proof (duration_add_ge (elapsed c) (ts - last)). repeat split; try done; eauto; lia.
    + case_zb; simpl; [rewrite Hl; repeat split; try done; eauto; lia|].
      destruct (pending_reset c) as [p|]; simpl; [|rewrite Hl; repeat split; try done; eauto; lia].
      destruct (duration_since_cases ts p) as [[Hle ->]|[Hlt' ->]]; simpl;
        [pose proof (duration_add_ge (elapsed c) (ts - p))|]; repeat split; try done; eauto; lia.
  - simpl. unfold wf, elapsed_ms; simpl. rewrite (Hn eq_refl).
    repeat split; try done; eauto; unfold DURATION_MAX; zlia.
Qed.

Lemma elapsed_ms_mono c c' : elapsed c <= elapsed c' → elapsed_ms c <= elapsed_ms c'.
Proof.
  intros. unfold elapsed_ms. apply Z.min_le_compat_r, Z.div_le_mono; [|done].
  unfold NANOS_PER_MILLI; lia.
Qed.

Lemma run_readings c frames :
  wf c → wf (run c frames).1 ∧
  StronglySorted Z.le (run c frames).2 ∧ Forall (Z.le (elapsed_ms c)) (run c frames).2.
Proof.
  revert c. induction frames as [|ts frames IH]; intros c Hwf; simpl.
  { split; [done|]. split; constructor. }
  pose proof (now_ms_step c ts Hwf) as Hs. destruct (now_ms c ts) as [c1 now].
  destruct Hs as (Hwf1 & Hmono & _ & ->).
  specialize (IH c1 Hwf1). destruct (run c1 frames) as [c2 rest]. simpl in *.
  destruct IH as (? & ? & ?). split; [done|]. split; [by constructor|].
  constructor; [by apply elapsed_ms_mono|].
  eapply Forall_impl; [done|]. intros x Hx. simpl in *.
  etrans; [|exact Hx]. by apply elapsed_ms_mono.
Qed.

Lemma run_nearly_sorted c start last frames :
  latest c = Some last → elapsed c = last - start → start <= last →
  nearly_sorted last frames →
  foldr Z.max last frames - start <= DURATION_MAX →
  let c' := (run c frames).1 in
  latest c' = Some (foldr Z.max last frames) ∧ elapsed c' = foldr Z.max last frames - start.
Proof.
  assert (Hmax : ∀ l a b, foldr Z.max (Z.max a b) l = Z.max b (foldr Z.max a l)).
  { induction l as [|x l IHl]; intros; simpl; [lia|]. rewrite IHl. lia. }
  revert c last. induction frames as [|ts frames IH]; intros c last Hl He Hs Hn Hb; simpl.
  { done. }
  destruct Hn as [Hnear Hn]. simpl in Hb.
  assert (Hge : last <= foldr Z.max last frames).
  { clear. induction frames; simpl; lia. }
  specialize (IH (now_ms c ts).1 (Z.max last ts)).
  destruct (now_ms c ts) as [c1 now] eqn:E. simpl in IH.
  destruct (run c1 frames) as [c2 rest]. simpl in *.
  rewrite Hmax in IH.
  unfold now_ms in E. rewrite Hl in E.
  destruct (duration_since_cases ts last) as [[Hle Hd]|[Hlt Hd]]; rewrite Hd in E;
    injection E as <- <-.
  - apply IH; simpl; [f_equal; lia|unfold duration_add; lia|lia|done|lia].
  - destruct (Z.leb_spec (last - ts) REORDER_TOLERANCE); [|unfold REORDER_TOLERANCE in *; lia].
    apply IH; simpl; [rewrite Hl; f_equal; lia|lia|lia|done|lia].
Qed.

End ReplayClock.

(** ** Properties *)

(** The replay clock never runs backwards.  Whatever timestamps a capture
    file holds, in whatever order, the readings taken frame by frame are
    nondecreasing and representable as [u64]. *)
Theorem replay_clock_monotone (frames : list Z) :
  StronglySorted Z.le (ReplayClock.run ReplayClock.default frames).2 ∧
  Forall is_u64 (ReplayClock.run ReplayClock.default frames).2.
Proof.
  destruct (ReplayClock.run_readings ReplayClock.default frames ReplayClock.default_wf)
    as (_ & Hs & Hge).
  split; [done|]. apply Forall_forall. intros x Hx. split.
  - rewrite Forall_forall in Hge. apply (Hge x Hx).
  - clear Hs Hge. revert Hx. generalize ReplayClock.default. 
    induction frames as [|ts frames IH]; intros c; simpl; [by intros ?%not_elem_of_nil|].
    destruct (ReplayClock.now_ms c ts) as [c1 now] eqn:E.
    specialize (IH c1). destruct (ReplayClock.run c1 frames) as [c2 rest]. simpl in *.
    intros [->|Hx]%elem_of_cons; [|by apply IH].
    unfold ReplayClock.now_ms in E. destruct (ReplayClock.latest c); injection E as _ <-.
    + unfold ReplayClock.elapsed_ms. lia.
    + zlia.
Qed.

(** Reordering within the tolerance costs nothing.  When every frame is at
    most 60 s behind the latest one before it, the final reading is the
    distance from the first frame to the latest one, rounded down to
    milliseconds once: gaps are counted exactly once and never lost to
    per-frame rounding. *)
Theorem replay_clock_measures_span (start : Z) (frames : list Z) :
  ReplayClock.nearly_sorted start frames →
  foldr Z.max start frames - start <= DURATION_MAX →
  ReplayClock.elapsed_ms (ReplayClock.run ReplayClock.default (start :: frames)).1 =
  Z.min ((foldr Z.max start frames - start) / NANOS_PER_MILLI) U64_MAX.
Proof.
  intros Hn Hb. simpl.
  pose proof (ReplayClock.run_nearly_sorted
    (ReplayClock.default <| ReplayClock.latest := Some start |>) start start frames
    eq_refl ltac:(simpl; lia) ltac:(lia) Hn Hb) as [_ He].
  destruct (ReplayClock.run _ frames) as [c' rest]. simpl in *.
  unfold ReplayClock.elapsed_ms. by rewrite He.
Qed.

Lemma replay_clock_measures_span_witness :
  ReplayClock.elapsed_ms
    (ReplayClock.run ReplayClock.default [1000; 2001000; 1500000; 5003999]).1 = 5.
Proof.
  rewrite (replay_clock_measures_span 1000 [2001000; 1500000; 5003999]).
  - reflexivity.
  - vm_compute. repeat split; discriminate.
  - vm_compute. discriminate.
Defined.

(** A lone outlier is ignored and a confirmed step back is followed.  For
    a running clock with no reset pending, a frame more than 60 s behind
    changes no reading; if the next frame is back on the old timeline the
    outlier leaves no trace at all, and if the next frame is far behind too
    the clock moves to the new timeline, charging only the time that passed
    on it. *)
Theorem replay_clock_outlier_or_reset (c : ReplayClock.t) (last far next : Z) :
  ReplayClock.latest c = Some last → ReplayClock.pending_reset c = None →
  far < last - ReplayClock.REORDER_TOLERANCE →
  let '(c1, now1) := ReplayClock.now_ms c far in
  now1 = ReplayClock.elapsed_ms c ∧
  (last - ReplayClock.REORDER_TOLERANCE <= next →
     ReplayClock.now_ms c1 next = ReplayClock.now_ms c next) ∧
  (next < last - ReplayClock.REORDER_TOLERANCE →
     let c2 := (ReplayClock.now_ms c1 next).1 in
     ReplayClock.latest c2 = Some next ∧ ReplayClock.pending_reset c2 = None ∧
     ReplayClock.elapsed c2 =
       if far <=? next then duration_add (ReplayClock.elapsed c) (next - far)
       else ReplayClock.elapsed c).
Proof.
  destruct c as [l p e]; simpl. intros -> -> Hfar.
  unfold ReplayClock.now_ms, duration_since, ReplayClock.REORDER_TOLERANCE in *; simpl.
  repeat (case_zb; try lia); simpl; repeat split; intros;
    repeat (case_zb; try lia); done.
Qed.

Lemma replay_clock_outlier_or_reset_witness :
  let c := ReplayClock.mk (Some 100000000000) None 7000000 in
  let c1 := (ReplayClock.now_ms c 5000000).1 in
  (ReplayClock.now_ms c1 100003000000).2 = 10 ∧
  ReplayClock.elapsed (ReplayClock.now_ms c1 9000000).1 = 11000000.
Proof.
  pose proof (replay_clock_outlier_or_reset
    (ReplayClock.mk (Some 100000000000) None 7000000) 100000000000 5000000 100003000000
    eq_refl eq_refl eq_refl) as (_ & H1 & _).
  pose proof (replay_clock_outlier_or_reset
    (ReplayClock.mk (Some 100000000000) None 7000000) 100000000000 5000000 9000000
    eq_refl eq_refl eq_refl) as (_ & _ & H2).
  split.
  - refine (eq_trans (f_equal snd (H1 _)) _); [vm_compute; discriminate|reflexivity].
  - destruct H2 as (_ & _ & H2); [reflexivity|]. exact H2.
Defined.
