(* ===== verification/Packet.v ===== *)
(** * Decoded packets and flow identities

    The data the capture pipeline passes around: the decoded frame of
    [capture-agent/src/parse.rs] ([ParsedPacket], [Ipv4Fragment],
    [TcpFlags]), the flow identity of [capture-agent/src/flow.rs]
    ([FlowKey]), and the application-layer verdicts of
    [capture-agent/src/l7.rs] ([L7Info], [L7Sniff], [DnsAnswer]). *)

From S2P Require Import Prelude.

(** ** Link and transport *)

Inductive LinkType := Ethernet | NullLoopback | Raw.

Inductive TransportProtocol := Tcp | Udp | Icmp | Other.

Record TcpFlags := mkTcpFlags {
  syn : bool;
  ack : bool;
  fin : bool;
  rst : bool;
  window_size : Z;
  ack_number : Z
}.

Record Ipv4Fragment := mkIpv4Fragment {
  identification : Z;
  offset_bytes : Z;
  more_fragments : bool;
  frag_protocol : Z;
  frag_header : bytes;
  frag_payload : bytes
}.

Record ParsedPacket := mkParsedPacket {
  src_mac : bytes;
  dst_mac : bytes;
  src_ip : bytes;
  dst_ip : bytes;
  protocol : TransportProtocol;
  src_port : option Z;
  dst_port : option Z;
  tcp_flags : option TcpFlags;
  tcp_seq : option Z;
  ttl : Z;
  total_len : Z;
  payload : bytes;
  header_bytes : bytes;
  ip_header_len : Z;
  transport_header_len : Z;
  ip_version : Z;
  ip_checksum : option Z;
  vlan_tag : option bytes;
  ip_declared_payload_len : Z;
  ip_fragment : option Ipv4Fragment
}.

#[export] Instance eta_ParsedPacket : RecordEta ParsedPacket :=
  fun r => mkParsedPacket (src_mac r) (dst_mac r) (src_ip r) (dst_ip r) (protocol r)
    (src_port r) (dst_port r) (tcp_flags r) (tcp_seq r) (ttl r) (total_len r)
    (payload r) (header_bytes r) (ip_header_len r) (transport_header_len r)
    (ip_version r) (ip_checksum r) (vlan_tag r) (ip_declared_payload_len r)
    (ip_fragment r).

(** ** Flow identity *)

Record FlowKey := mkFlowKey {
  fk_protocol : TransportProtocol;
  local_addr : bytes;
  local_port : Z;
  remote_addr : bytes;
  remote_port : Z
}.

(** ** Application layer *)

Record DnsAnswer := mkDnsAnswer {
  ans_name : bytes;
  ans_rtype : Z;
  ans_ttl : Z;
  ans_data : bytes;
  ans_data_truncated : bool
}.

Inductive L7Info :=
| L7Http (method path : bytes)
| L7HttpResponse (status : bytes) (reason content_type : option bytes)
    (content_length : option Z)
| L7Dns (query_name : bytes) (id qtype : Z)
| L7DnsResponse (query_name : bytes) (id qtype rcode answer_count : Z)
    (answers : list DnsAnswer)
| L7TlsClientHello (sni : bytes) (ja3 ja3_label client_random : option bytes)
    (sni_offset sni_len : Z)
| L7None.

Inductive L7Sniff :=
| Decided (info : L7Info)
| NeedMoreBytes (at_least : Z)
| Undecided.

(** ** Decidable equality and hash keys *)

#[export] Instance LinkType_eq_dec : EqDecision LinkType.
Proof. solve_decision. Defined.
#[export] Instance TransportProtocol_eq_dec : EqDecision TransportProtocol.
Proof. solve_decision. Defined.
#[export] Instance FlowKey_eq_dec : EqDecision FlowKey.
Proof. solve_decision. Defined.

#[export] Instance TransportProtocol_countable : Countable TransportProtocol.
Proof.
  refine (inj_countable'
    (λ p, match p with Tcp => 0 | Udp => 1 | Icmp => 2 | Other => 3 end)
    (λ n, match n with 0 => Tcp | 1 => Udp | 2 => Icmp | _ => Other end) _).
  by intros [].
Defined.

#[export] Instance FlowKey_countable : Countable FlowKey.
Proof.
  refine (inj_countable'
    (λ k, (fk_protocol k, local_addr k, local_port k, remote_addr k, remote_port k))
    (λ '(p, la, lp, ra, rp), mkFlowKey p la lp ra rp) _).
  by intros [].
Defined.
