(* ===== verification/Fragments.v ===== *)
(** * IPv4 fragment reassembly

    [IpFragmentReassembler] of [capture-agent/src/reassembly.rs]: groups of
    fragments keyed as RFC 791 says, written into coverage buffers
    ([Coverage]), bounded by a group count, a byte total and a timeout
    ([Budget]), and handed back as a rebuilt IPv4 datagram once complete or
    once provably incompletable.

    The IPv4 header codec is the third-party [etherparse] crate: the class
    [Ipv4Codec] is its interface as [rebuild_ipv4_datagram] uses it. *)

From S2P Require Import Prelude Packet Budget Coverage.

(** ** Status and counters *)

Inductive ReassemblyStatus :=
| Reassembled
| IncompleteTruncatedAtCapture
| IncompleteMissingFrames.

#[export] Instance ReassemblyStatus_eq_dec : EqDecision ReassemblyStatus.
Proof. solve_decision. Defined.

Definition is_complete (s : ReassemblyStatus) : bool :=
  match s with Reassembled => true | _ => false end.

Record ReassemblyCounters := mkCounters {
  completed : Z;
  incomplete_truncated_at_capture : Z;
  incomplete_missing_frames : Z;
  abandoned_without_completing : Z;
  evicted_idle : Z;
  evicted_capacity : Z;
  conflicting_overlap_bytes : Z;
  conflicting_terminal_fragments : Z
}.

#[export] Instance eta_ReassemblyCounters : RecordEta ReassemblyCounters :=
  fun r => mkCounters (completed r) (incomplete_truncated_at_capture r)
    (incomplete_missing_frames r) (abandoned_without_completing r) (evicted_idle r)
    (evicted_capacity r) (conflicting_overlap_bytes r) (conflicting_terminal_fragments r).

Definition zero_counters : ReassemblyCounters := mkCounters 0 0 0 0 0 0 0 0.

(** The outcome counter a finished buffer is charged to. *)
Definition count_status (s : ReassemblyStatus) (c : ReassemblyCounters) : ReassemblyCounters :=
  match s with
  | Reassembled => c <| completed ::= Z.succ |>
  | IncompleteTruncatedAtCapture => c <| incomplete_truncated_at_capture ::= Z.succ |>
  | IncompleteMissingFrames => c <| incomplete_missing_frames ::= Z.succ |>
  end.

(** ** Caps *)

Definition MAX_FRAGMENT_GROUP_BYTES : Z := 65535.
Definition MAX_FRAGMENT_GROUPS : Z := 512.
Definition MAX_FRAGMENT_BYTES_TOTAL : Z := 4 * 1024 * 1024.
Definition FRAGMENT_TIMEOUT_MS : Z := 15000.

(** ** The header codec *)

Class Ipv4Codec := {
  ipv4_header : Type;
  ipv4_from_slice : bytes → option ipv4_header;
  ipv4_with_more_fragments : bool → ipv4_header → ipv4_header;
  ipv4_with_fragment_offset : Z → ipv4_header → ipv4_header;
  ipv4_set_payload_len : Z → ipv4_header → option ipv4_header;
  ipv4_calc_header_checksum : ipv4_header → Z;
  ipv4_with_header_checksum : Z → ipv4_header → ipv4_header;
  ipv4_write : ipv4_header → option bytes
}.

(** [IpFragOffset::try_new]: a 13-bit value. *)
Definition frag_offset_try_new (v : Z) : option Z := if v <=? 8191 then Some v else None.

Definition rebuild_ipv4_datagram `{Ipv4Codec} (header payload : bytes) : option bytes :=
  h ← ipv4_from_slice header;
  let h := ipv4_with_more_fragments false h in
  off ← frag_offset_try_new 0;
  let h := ipv4_with_fragment_offset off h in
  h ← ipv4_set_payload_len (zlen payload) h;
  let h := ipv4_with_header_checksum (ipv4_calc_header_checksum h) h in
  out ← ipv4_write h;
  Some (out ++ payload).

(** ** Groups *)

Record FragmentKey := mkFragmentKey {
  fk_src : bytes;
  fk_dst : bytes;
  fk_identification : Z;
  fk_ip_protocol : Z
}.

#[export] Instance FragmentKey_eq_dec : EqDecision FragmentKey.
Proof. solve_decision. Defined.
#[export] Instance FragmentKey_countable : Countable FragmentKey.
Proof.
  refine (inj_countable' (λ k, (fk_src k, fk_dst k, fk_identification k, fk_ip_protocol k))
    (λ '(s, d, i, p), mkFragmentKey s d i p) _).
  by intros [].
Defined.

Record ReassembledDatagram := mkDatagram {
  dg_bytes : bytes;
  dg_status : ReassemblyStatus;
  dg_payload_len : Z
}.

Module FragmentGroup.

Record t := mk {
  data : vec Z;
  filled : vec bool;
  prefix_len : Z;
  total_len : option Z;
  header : option bytes;
  short_captured_at : option Z;
  first_seen_ms : Z;
  last_seen_ms : Z
}.

#[global] Instance eta_t : RecordEta t :=
  fun r => mk (data r) (filled r) (prefix_len r) (total_len r) (header r)
    (short_captured_at r) (first_seen_ms r) (last_seen_ms r).

Definition new (now_ms : Z) : t := mk vec_new vec_new 0 None None None now_ms now_ms.

Definition is_expired (g : t) (now_ms : Z) : bool :=
  (FRAGMENT_TIMEOUT_MS <? sat_sub now_ms (last_seen_ms g))
  || (FRAGMENT_TIMEOUT_MS <? sat_sub now_ms (first_seen_ms g)).

Definition accounted_bytes (g : t) : Z := sat_add (vcap (data g)) (vcap (filled g)).

Definition status (g : t) : ReassemblyStatus :=
  if match total_len g with Some total => total <=? prefix_len g | None => false end
  then Reassembled
  else if match short_captured_at g with Some at_ => at_ <=? prefix_len g | None => false end
  then IncompleteTruncatedAtCapture
  else IncompleteMissingFrames.

End FragmentGroup.

#[export] Instance FragmentGroup_budgeted : Budgeted FragmentGroup.t := {
  accounted := FragmentGroup.accounted_bytes;
  last_seen := FragmentGroup.last_seen_ms
}.

(** [short_captured_at.map_or(hole_at, |at| at.min(hole_at))]. *)
Definition min_hole (at_ : option Z) (hole_at : Z) : Z :=
  match at_ with Some a => Z.min a hole_at | None => hole_at end.

(** ** The reassembler *)

Module IpFragmentReassembler.

Record t := mk {
  groups : gmap FragmentKey FragmentGroup.t;
  bytes_held : Z;
  counters : ReassemblyCounters
}.

#[global] Instance eta_t : RecordEta t := fun r => mk (groups r) (bytes_held r) (counters r).

Definition new : t := mk ∅ 0 zero_counters.

Definition groups_held (st : t) : Z := Z.of_nat (size (groups st)).

(** Drops every group, keeping the lifetime counters. *)
Definition clear (st : t) : t := st <| groups := ∅ |> <| bytes_held := 0 |>.

Section operations.
Context `{VecPolicy} `{IterOrder} `{Ipv4Codec}.

Definition take_group (st : t) (key : FragmentKey) (status : ReassemblyStatus)
    : t * option ReassembledDatagram :=
  match groups st !! key with
  | None => (st, None)
  | Some group =>
      let st :=
        st <| groups ::= delete key |>
           <| bytes_held ::= λ h, sat_sub h (FragmentGroup.accounted_bytes group) |>
           <| counters ::= count_status status |> in
      let emitted :=
        header ← FragmentGroup.header group;
        let payload_len :=
          match FragmentGroup.total_len group with
          | Some total => Z.min (FragmentGroup.prefix_len group) total
          | None => FragmentGroup.prefix_len group
          end in
        payload ← slice (vlist (FragmentGroup.data group)) 0 payload_len;
        bs ← rebuild_ipv4_datagram header payload;
        Some (mkDatagram bs status payload_len) in
      (st, emitted)
  end.

Definition evict_oldest_until (st : t) (max_groups max_bytes : Z) : t :=
  let '(gs, held, evicted) :=
    evict_oldest max_groups max_bytes (groups st) (bytes_held st)
      (evicted_capacity (counters st)) in
  st <| groups := gs |> <| bytes_held := held |>
     <| counters ::= λ c, c <| evicted_capacity := evicted |> |>.

Definition expire (st : t) (key : FragmentKey) : t * option ReassembledDatagram :=
  match groups st !! key with
  | None => (st, None)
  | Some group =>
      take_group (st <| counters ::= λ c, c <| evicted_idle ::= Z.succ |> |>) key
        (FragmentGroup.status group)
  end.

(** The key of a frame's fragment group. *)
Definition key_of (packet : ParsedPacket) (fragment : Ipv4Fragment) : FragmentKey :=
  mkFragmentKey (src_ip packet) (dst_ip packet) (identification fragment)
    (frag_protocol fragment).

(** A last fragment that would move a known end, or that ends before bytes
    the group already holds. *)
Definition terminal_conflict (packet : ParsedPacket) (fragment : Ipv4Fragment)
    (group : FragmentGroup.t) : bool :=
  if more_fragments fragment then false
  else
    let end_ := sat_add (offset_bytes fragment) (ip_declared_payload_len packet) in
    match FragmentGroup.total_len group with
    | Some existing => negb (existing =? end_)
    | None => existsb id (zdrop end_ (vlist (FragmentGroup.filled group)))
    end.

(** What an accepted fragment says about its datagram: the first header, the
    earliest hole left by a short capture, the total length. *)
Definition note_fragment (packet : ParsedPacket) (fragment : Ipv4Fragment)
    (group : FragmentGroup.t) : FragmentGroup.t :=
  let offset := offset_bytes fragment in
  let declared := ip_declared_payload_len packet in
  let group :=
    if (offset =? 0) && bool_decide (FragmentGroup.header group = None)
    then group <| FragmentGroup.header := Some (frag_header fragment) |>
    else group in
  let group :=
    if wrap_u32 (zlen (frag_payload fragment)) <? declared then
      group <| FragmentGroup.short_captured_at ::= λ at_,
        Some (min_hole at_ (sat_add offset (zlen (frag_payload fragment)))) |>
    else group in
  if more_fragments fragment then group
  else group <| FragmentGroup.total_len := Some (sat_add offset declared) |>.

(** The group after an accepted fragment, and the write's outcome. *)
Definition absorb (packet : ParsedPacket) (fragment : Ipv4Fragment)
    (group : FragmentGroup.t) : FragmentGroup.t * WriteOutcome :=
  let group := note_fragment packet fragment group in
  let '(data, filled, written) :=
    write_first_seen_wins (FragmentGroup.data group) (FragmentGroup.filled group)
      (offset_bytes fragment) (frag_payload fragment) MAX_FRAGMENT_GROUP_BYTES in
  (group <| FragmentGroup.data := data |> <| FragmentGroup.filled := filled |>
         <| FragmentGroup.prefix_len ::= contiguous_len_from (vlist filled) |>, written).

(** Before a fragment joins its group: make room for a new group at the
    ceiling, and drop a group of that key that already timed out. *)
Definition prepare_key (st : t) (key : FragmentKey) (now_ms : Z) : t :=
  let st :=
    if bool_decide (groups st !! key = None) && (MAX_FRAGMENT_GROUPS <=? groups_held st)
    then evict_oldest_until st (sat_sub MAX_FRAGMENT_GROUPS 1) MAX_FRAGMENT_BYTES_TOTAL
    else st in
  match groups st !! key with
  | Some group => if FragmentGroup.is_expired group now_ms then fst (expire st key) else st
  | None => st
  end.

Definition feed (st : t) (packet : ParsedPacket) (now_ms : Z)
    : t * option ReassembledDatagram :=
  match ip_fragment packet with
  | None => (st, None)
  | Some fragment =>
      let key := key_of packet fragment in
      let st := prepare_key st key now_ms in
      let group :=
        default (FragmentGroup.new now_ms) (groups st !! key)
          <| FragmentGroup.last_seen_ms := now_ms |> in
      if terminal_conflict packet fragment group then
        (st <| groups ::= <[key := group]> |>
            <| counters ::= λ c, c <| conflicting_terminal_fragments ::= Z.succ |> |>, None)
      else
        let before := FragmentGroup.accounted_bytes group in
        let '(group, written) := absorb packet fragment group in
        let after := FragmentGroup.accounted_bytes group in
        let status := FragmentGroup.status group in
        let st :=
          st <| groups ::= <[key := group]> |>
             <| bytes_held ::= λ h, sat_sub (sat_add h after) before |>
             <| counters ::= λ c,
                  c <| conflicting_overlap_bytes ::= Z.add (conflicting written) |> |> in
        let '(st, emitted) :=
          match status with
          | Reassembled | IncompleteTruncatedAtCapture => take_group st key status
          | IncompleteMissingFrames =>
              ((if hit_cap written then
                 match groups st !! key with
                 | Some dropped =>
                     st <| groups ::= delete key |>
                        <| bytes_held ::= λ h,
                             sat_sub h (FragmentGroup.accounted_bytes dropped) |>
                        <| counters ::= λ c,
                             c <| abandoned_without_completing ::= Z.succ |> |>
                 | None => st
                 end
               else st), None)
          end in
        (evict_oldest_until st MAX_FRAGMENT_GROUPS MAX_FRAGMENT_BYTES_TOTAL, emitted)
  end.

(** Expires each listed group in turn, collecting what could be rebuilt. *)
Fixpoint expire_all (st : t) (keys : list FragmentKey) : t * list ReassembledDatagram :=
  match keys with
  | [] => (st, [])
  | key :: keys' =>
      let '(st1, d) := expire st key in
      let '(st2, ds) := expire_all st1 keys' in
      (st2, option_list d ++ ds)
  end.

Definition evict_stale (st : t) (now_ms : Z) : t * list ReassembledDatagram :=
  let expired :=
    (filter (λ kg, FragmentGroup.is_expired kg.2 now_ms = true) (iter (groups st))).*1 in
  let '(st, out) := expire_all st expired in
  (evict_oldest_until st MAX_FRAGMENT_GROUPS MAX_FRAGMENT_BYTES_TOTAL, out).

(** A capture: frames with their clock readings, fed in order. *)
Fixpoint feed_all (st : t) (frames : list (ParsedPacket * Z))
    : t * list (option ReassembledDatagram) :=
  match frames with
  | [] => (st, [])
  | (p, now) :: frames' =>
      let '(st1, d) := feed st p now in
      let '(st2, ds) := feed_all st1 frames' in
      (st2, d :: ds)
  end.

End operations.

End IpFragmentReassembler.

(** ** Invariant *)

(** A group's buffers are well formed and its prefix is the contiguous run. *)
Definition group_wf (g : FragmentGroup.t) : Prop :=
  cov_wf (FragmentGroup.data g) (FragmentGroup.filled g) MAX_FRAGMENT_GROUP_BYTES ∧
  FragmentGroup.prefix_len g = run_true (vlist (FragmentGroup.filled g)).

(** [bytes_held] is the exact reserved capacity of the groups held. *)
Definition frag_inv (st : IpFragmentReassembler.t) : Prop :=
  accounts (IpFragmentReassembler.groups st) (IpFragmentReassembler.bytes_held st) ∧
  ∀ k g, IpFragmentReassembler.groups st !! k = Some g → group_wf g.

Definition frag_bounded (st : IpFragmentReassembler.t) : Prop :=
  IpFragmentReassembler.groups_held st <= MAX_FRAGMENT_GROUPS ∧
  IpFragmentReassembler.bytes_held st <= MAX_FRAGMENT_BYTES_TOTAL.

(** The header fields of a decoded fragment, at their widths. *)
Definition fragment_ok (packet : ParsedPacket) : Prop :=
  match ip_fragment packet with
  | None => True
  | Some f =>
      is_u32 (offset_bytes f) ∧ is_u32 (ip_declared_payload_len packet) ∧
      zlen (frag_payload f) <= U32_MAX
  end.

(** ** Fragments of one datagram

    [honest P k p]: frame [p] carries a fragment of key [k] whose payload is
    the slice of the datagram payload [P] at its offset, captured in full, and
    which has MF clear only if it reaches the end of [P]. *)

Definition honest (P : bytes) (k : FragmentKey) (p : ParsedPacket) : Prop :=
  ∃ f, ip_fragment p = Some f ∧ IpFragmentReassembler.key_of p f = k ∧
    0 <= offset_bytes f ∧
    slice P (offset_bytes f) (offset_bytes f + zlen (frag_payload f)) = Some (frag_payload f) ∧
    ip_declared_payload_len p = zlen (frag_payload f) ∧
    (more_fragments f = false → offset_bytes f + zlen (frag_payload f) = zlen P).

(** A group that holds only bytes of [P]. *)
Definition group_honest (P : bytes) (g : FragmentGroup.t) : Prop :=
  group_wf g ∧
  (∀ i b, cell (vlist (FragmentGroup.data g)) (vlist (FragmentGroup.filled g)) i = Some b →
          P !! i = Some b) ∧
  zlen (vlist (FragmentGroup.data g)) <= zlen P ∧
  (∀ n, FragmentGroup.total_len g = Some n → n = zlen P) ∧
  FragmentGroup.short_captured_at g = None.

(** The positions of the datagram a list of frames covers. *)
Definition covers (p : ParsedPacket) (i : nat) : Prop :=
  match ip_fragment p with
  | Some f => offset_bytes f <= Z.of_nat i < offset_bytes f + zlen (frag_payload f)
  | None => False
  end.

#[export] Instance covers_dec p i : Decision (covers p i).
Proof. unfold covers. destruct (ip_fragment p); apply _. Defined.

Definition is_terminal (p : ParsedPacket) : Prop :=
  match ip_fragment p with Some f => more_fragments f = false | None => False end.

(** Every byte of [P] is covered and its end is known. *)
Definition complete (P : bytes) (frames : list ParsedPacket) : Prop :=
  (∀ i, (i < length P)%nat → Exists (λ p, covers p i) frames) ∧ Exists is_terminal frames.

(** A frame of a capture in which every fragment of key [k] is honest. *)
Definition frame_ok (P : bytes) (k : FragmentKey) (p : ParsedPacket) : Prop :=
  fragment_ok p ∧
  (honest P k p ∨ ∀ f, ip_fragment p = Some f → IpFragmentReassembler.key_of p f ≠ k).

(** The header of the first frame that starts the datagram. *)
Fixpoint first_header (frames : list ParsedPacket) : option bytes :=
  match frames with
  | [] => None
  | p :: frames' =>
      match ip_fragment p with
      | Some f => if offset_bytes f =? 0 then Some (frag_header f) else first_header frames'
      | None => first_header frames'
      end
  end.

(** The datagram a group emits when [take_group] finds it complete. *)
Definition emitted_datagram `{Ipv4Codec} (header : option bytes) (P : bytes) : option ReassembledDatagram :=
  h ← header;
  bs ← rebuild_ipv4_datagram h P;
  Some (mkDatagram bs Reassembled (zlen P)).

(** A table that holds at most the group of [k]. *)
Definition single (k : FragmentKey) (og : option FragmentGroup.t)
    : gmap FragmentKey FragmentGroup.t :=
  match og with Some g => {[k := g]} | None => ∅ end.

(** What the frames [seen] of a datagram leave in their group. *)
Definition holds (P : bytes) (t0 : Z) (seen : list ParsedPacket) (g : FragmentGroup.t) : Prop :=
  group_honest P g ∧
  (∀ i, cell (vlist (FragmentGroup.data g)) (vlist (FragmentGroup.filled g)) i =
        if decide (Exists (λ p, covers p i) seen) then P !! i else None) ∧
  (FragmentGroup.total_len g = Some (zlen P) ↔ Exists is_terminal seen) ∧
  FragmentGroup.header g = first_header seen ∧
  t0 <= FragmentGroup.first_seen_ms g ∧ t0 <= FragmentGroup.last_seen_ms g.

(** The operations the capture loop applies to its reassembler, in any order:
    frames, periodic sweeps, and the reset on a new capture. *)
Inductive frag_step `{VecPolicy} `{IterOrder} `{Ipv4Codec} :
    IpFragmentReassembler.t → IpFragmentReassembler.t → Prop :=
| step_feed st p now :
    fragment_ok p → frag_step st (IpFragmentReassembler.feed st p now).1
| step_evict_stale st now :
    frag_step st (IpFragmentReassembler.evict_stale st now).1
| step_clear st :
    frag_step st (IpFragmentReassembler.clear st).

(** The reassembler part way through one datagram. *)
Definition collecting (P : bytes) (k : FragmentKey) (t0 : Z) (seen : list ParsedPacket)
    (st : IpFragmentReassembler.t) : Prop :=
  frag_inv st ∧ frag_bounded st ∧
  ∃ og, IpFragmentReassembler.groups st = single k og ∧
    ∀ now, t0 <= now → holds P t0 seen (default (FragmentGroup.new now) og).

(** A frame of the datagram [P], captured within its timeout. *)
Definition timely (P : bytes) (k : FragmentKey) (t0 : Z) (fr : ParsedPacket * Z) : Prop :=
  honest P k fr.1 ∧ fragment_ok fr.1 ∧ t0 <= fr.2 <= t0 + FRAGMENT_TIMEOUT_MS.

Section fragment_lemmas.
Context `{VecPolicy} `{IterOrder} `{Ipv4Codec}.
Import IpFragmentReassembler.
Implicit Types (st : t) (g : FragmentGroup.t).

Lemma accounted_range g : group_wf g → 0 <= FragmentGroup.accounted_bytes g <= 262140.
Proof.
  intros [(_ & _ & Hd & Hf & Hcd & Hcf) _]. unfold FragmentGroup.accounted_bytes, vec_wf in *.
  unfold MAX_FRAGMENT_GROUP_BYTES in *. zlia.
Qed.

Lemma new_group_wf now : group_wf (FragmentGroup.new now).
Proof. split; [|done]. apply cov_wf_empty. done. Qed.

Lemma note_fragment_frame packet fragment g :
  let g' := note_fragment packet fragment g in
  FragmentGroup.data g' = FragmentGroup.data g ∧
  FragmentGroup.filled g' = FragmentGroup.filled g ∧
  FragmentGroup.prefix_len g' = FragmentGroup.prefix_len g ∧
  FragmentGroup.first_seen_ms g' = FragmentGroup.first_seen_ms g ∧
  FragmentGroup.last_seen_ms g' = FragmentGroup.last_seen_ms g.
Proof.
  unfold note_fragment. destruct (_ && _), (_ <? _), (more_fragments fragment); done.
Qed.

Lemma absorb_wf packet fragment g :
  is_u32 (offset_bytes fragment) → zlen (frag_payload fragment) <= U32_MAX →
  group_wf g → group_wf (absorb packet fragment g).1.
Proof.
  intros Ho Hlen [Hcov Hpre]. unfold absorb.
  destruct (note_fragment_frame packet fragment g) as (Hd & Hf & Hp & _).
  rewrite Hd, Hf.
  pose proof (write_wf _ _ (offset_bytes fragment) (frag_payload fragment)
    MAX_FRAGMENT_GROUP_BYTES ltac:(zlia) ltac:(done) Hcov) as Hw.
  pose proof (write_prefix _ _ (offset_bytes fragment) (frag_payload fragment)
    MAX_FRAGMENT_GROUP_BYTES (FragmentGroup.prefix_len g) ltac:(zlia) ltac:(done)
    ltac:(zlia) (proj1 Hcov)
    ltac:(rewrite Hpre; pose proof (run_true_bounds (vlist (FragmentGroup.filled g))); lia))
    as Hr.
  destruct (write_first_seen_wins _ _ _ _ _) as [[d' f'] out]. simpl.
  split; simpl; [done|]. by rewrite Hp.
Qed.

Lemma frag_inv_delete st k g :
  frag_inv st → groups st !! k = Some g →
  frag_inv (st <| groups ::= delete k |>
               <| bytes_held ::= λ h, sat_sub h (FragmentGroup.accounted_bytes g) |>).
Proof.
  intros [Ha Hwf] Hk. split; simpl.
  - by apply (accounts_delete _ _ _ _ Ha Hk).
  - intros j g' [_ Hj]%lookup_delete_Some. by eapply Hwf.
Qed.

Lemma frag_bounded_delete st k g :
  frag_inv st → frag_bounded st → groups st !! k = Some g →
  frag_bounded (st <| groups ::= delete k |>
                   <| bytes_held ::= λ h, sat_sub h (FragmentGroup.accounted_bytes g) |>).
Proof.
  intros [Ha Hwf] [Hn Hb] Hk. unfold frag_bounded, groups_held in *; simpl.
  pose proof (size_delete_Some _ _ _ Hk). pose proof (accounted_range g (Hwf _ _ Hk)).
  pose proof (accounts_nonneg _ _ Ha). unfold sat_sub. lia.
Qed.

(** Counters are not part of the invariant. *)
Lemma frag_inv_counters st c : frag_inv (st <| counters := c |>) ↔ frag_inv st.
Proof. done. Qed.

Lemma take_group_inv st k s :
  frag_inv st → frag_inv (take_group st k s).1.
Proof.
  intros Hinv. unfold take_group. destruct (groups st !! k) as [g|] eqn:Hk; [|done].
  exact (frag_inv_delete st k g Hinv Hk).
Qed.

Lemma expire_inv st k : frag_inv st → frag_inv (expire st k).1.
Proof.
  intros Hinv. unfold expire. destruct (groups st !! k); [|done].
  apply take_group_inv. exact Hinv.
Qed.

Lemma evict_oldest_until_inv st max_n max_b :
  0 <= max_n → 0 <= max_b → frag_inv st →
  let st' := evict_oldest_until st max_n max_b in
  frag_inv st' ∧ groups_held st' <= max_n ∧ bytes_held st' <= max_b ∧
  groups st' ⊆ groups st.
Proof.
  intros Hn Hb [Ha Hwf]. unfold evict_oldest_until.
  pose proof (evict_oldest_spec max_n max_b (groups st) (bytes_held st)
    (evicted_capacity (counters st)) Hn Hb Ha) as He.
  destruct (evict_oldest _ _ _ _ _) as [[gs held] ev].
  destruct He as (Ha' & Hw & Hsub & _). apply within_true in Hw as [Hw1 Hw2].
  split; [|done]. split; [done|]. simpl. intros k g Hk. eapply Hwf.
  by eapply lookup_weaken.
Qed.

Lemma take_group_delete st k s :
  groups (take_group st k s).1 = delete k (groups st).
Proof.
  unfold take_group. destruct (groups st !! k) eqn:Hk; [done|].
  by rewrite delete_id.
Qed.

Lemma expire_delete st k : groups (expire st k).1 = delete k (groups st).
Proof.
  unfold expire. destruct (groups st !! k) eqn:Hk.
  - by rewrite take_group_delete.
  - by rewrite delete_id.
Qed.

Lemma prepare_key_inv st k now :
  frag_inv st → frag_bounded st →
  let st' := prepare_key st k now in
  frag_inv st' ∧ frag_bounded st' ∧
  (groups st' !! k = None → groups_held st' < MAX_FRAGMENT_GROUPS).
Proof.
  intros Hinv Hb. unfold prepare_key.
  set (st1 := if bool_decide _ && _ then _ else st).
  assert (Hst1 : frag_inv st1 ∧ frag_bounded st1 ∧
    (groups st1 !! k = None → groups_held st1 < MAX_FRAGMENT_GROUPS)).
  { unfold st1. case_bool_decide as Hk; simpl.
    - destruct (Z.leb_spec MAX_FRAGMENT_GROUPS (groups_held st)); [|done].
      destruct (evict_oldest_until_inv st (sat_sub MAX_FRAGMENT_GROUPS 1)
        MAX_FRAGMENT_BYTES_TOTAL ltac:(done) ltac:(done) Hinv) as (? & ? & ? & ?).
      unfold frag_bounded. change (sat_sub MAX_FRAGMENT_GROUPS 1) with 511 in *.
      unfold MAX_FRAGMENT_GROUPS in *. split; [done|]. split; [split; [lia|done]|lia].
    - split; [done|]. split; [done|]. congruence. }
  clearbody st1. destruct Hst1 as (Hinv1 & Hb1 & Hroom).
  destruct (groups st1 !! k) as [g|] eqn:Hk; [|rewrite Hk; auto].
  destruct (FragmentGroup.is_expired g now).
  - split; [by apply expire_inv|]. unfold expire. rewrite Hk. unfold take_group; simpl.
    rewrite Hk. simpl. pose proof (frag_bounded_delete st1 k g Hinv1 Hb1 Hk) as Hd.
    split; [exact Hd|]. intros _. unfold frag_bounded, groups_held in *; simpl in *.
    pose proof (size_delete_Some _ _ _ Hk). lia.
  - split; [done|]. split; [done|]. congruence.
Qed.

(** The entry a fragment starts from weighs what the table holds for it. *)
Lemma start_group_accounted st k now :
  FragmentGroup.accounted_bytes
    (default (FragmentGroup.new now) (groups st !! k) <| FragmentGroup.last_seen_ms := now |>)
  = from_option accounted 0 (groups st !! k).
Proof. by destruct (groups st !! k). Qed.

Lemma start_group_wf st k now :
  frag_inv st →
  group_wf (default (FragmentGroup.new now) (groups st !! k)
              <| FragmentGroup.last_seen_ms := now |>).
Proof.
  intros [_ Hwf]. destruct (groups st !! k) as [g|] eqn:Hk; simpl.
  - exact (Hwf _ _ Hk).
  - exact (new_group_wf now).
Qed.

(** Replacing a key's entry and charging the difference keeps the invariant. *)
Lemma frag_inv_put st k g :
  frag_inv st → frag_bounded st → group_wf g →
  frag_inv (st <| groups ::= <[k := g]> |>
               <| bytes_held ::= λ h, sat_sub (sat_add h (FragmentGroup.accounted_bytes g))
                    (from_option accounted 0 (groups st !! k)) |>).
Proof.
  intros [Ha Hwf] [_ Hb] Hg. pose proof (accounted_range g Hg) as Hr. split; simpl.
  - apply (accounts_charge _ _ k g Ha); [apply Hr|].
    cbn [accounted FragmentGroup_budgeted]. unfold MAX_FRAGMENT_BYTES_TOTAL in *. zlia.
  - intros j g' [[_ <-]|[_ Hj]]%lookup_insert_Some; [done|]. by eapply Hwf.
Qed.

Lemma feed_inv st packet now :
  frag_inv st → frag_bounded st → fragment_ok packet →
  frag_inv (feed st packet now).1 ∧ frag_bounded (feed st packet now).1.
Proof.
  intros Hinv Hb Hok. unfold feed, fragment_ok in *.
  destruct (ip_fragment packet) as [f|]; [|done]. destruct Hok as (Ho & Hd & Hl).
  set (k := key_of packet f).
  destruct (prepare_key_inv st k now Hinv Hb) as (Hinv1 & Hb1 & Hroom).
  set (st1 := prepare_key st k now) in *. clearbody st1. clear st Hinv Hb.
  pose proof (start_group_wf st1 k now Hinv1) as Hg.
  pose proof (start_group_accounted st1 k now) as Hacc.
  set (g := default _ _ <| FragmentGroup.last_seen_ms := now |>) in *. clearbody g.
  destruct (terminal_conflict packet f g).
  - simpl. pose proof (frag_inv_put st1 k g Hinv1 Hb1 Hg) as Hp. rewrite <- Hacc in Hp.
    pose proof (accounted_range g Hg). pose proof (accounts_nonneg _ _ (proj1 Hinv1)).
    destruct Hb1 as [Hb1 Hb2]. unfold MAX_FRAGMENT_BYTES_TOTAL in *.
    split.
    + destruct Hp as [Hp1 Hp2]. split; [|exact Hp2]. simpl in *.
      replace (bytes_held st1) with (sat_sub (sat_add (bytes_held st1)
        (FragmentGroup.accounted_bytes g)) (FragmentGroup.accounted_bytes g)) by zlia.
      exact Hp1.
    + split; [|done]. unfold groups_held in *; simpl.
      destruct (groups st1 !! k) eqn:Hk.
      * rewrite map_size_insert_Some by eauto. done.
      * rewrite map_size_insert_None by done. specialize (Hroom eq_refl). lia.
  - pose proof (absorb_wf packet f g Ho Hl Hg) as Hg'.
    destruct (absorb packet f g) as [g' written]. simpl in Hg'.
    pose proof (frag_inv_put st1 k g' Hinv1 Hb1 Hg') as Hp. rewrite <- Hacc in Hp.
    match goal with |- context [take_group ?s k _] => set (st2 := s) end.
    assert (Hinv2 : frag_inv st2) by exact Hp.
    set (emit := match FragmentGroup.status g' with
                 | Reassembled | IncompleteTruncatedAtCapture => _
                 | IncompleteMissingFrames => _ end).
    assert (Hinv3 : frag_inv emit.1).
    { unfold emit. destruct (FragmentGroup.status g'); [by apply take_group_inv..|].
      destruct (hit_cap written); [|done].
      destruct (groups st2 !! k) as [dr|] eqn:Hk2; [|done].
      exact (frag_inv_delete st2 k dr Hinv2 Hk2). }
    destruct emit as [st3 d]. simpl in *.
    destruct (evict_oldest_until_inv st3 MAX_FRAGMENT_GROUPS MAX_FRAGMENT_BYTES_TOTAL
      ltac:(done) ltac:(done) Hinv3) as (? & ? & ? & _). done.
Qed.

Lemma expire_all_inv st ks :
  frag_inv st → frag_inv (expire_all st ks).1 ∧ groups (expire_all st ks).1 ⊆ groups st.
Proof.
  revert st. induction ks as [|k ks IH]; intros st Hinv; simpl; [done|].
  pose proof (expire_inv st k Hinv) as Hi1. pose proof (expire_delete st k) as Hd.
  destruct (expire st k) as [st1 d]. simpl in *.
  specialize (IH st1 Hi1). destruct (expire_all st1 ks) as [st2 ds]. simpl in *.
  split; [apply IH|]. etrans; [apply IH|]. rewrite Hd. apply delete_subseteq.
Qed.

Lemma frag_new_inv : frag_inv IpFragmentReassembler.new ∧ frag_bounded IpFragmentReassembler.new.
Proof.
  split; [split|done]; simpl; [apply accounts_empty|]. intros k g. by rewrite lookup_empty.
Qed.

(** *** Content *)

Lemma honest_piece P off bs i :
  0 <= off → slice P off (off + zlen bs) = Some bs → zlen P <= MAX_FRAGMENT_GROUP_BYTES →
  piece off bs MAX_FRAGMENT_GROUP_BYTES i =
  if decide (off <= Z.of_nat i < off + zlen bs) then P !! i else None.
Proof.
  intros Ho (_ & Hle & Hbs)%slice_Some Hcap. unfold piece.
  destruct (decide _) as [Hin|Hout].
  - rewrite (proj2 (Z.leb_le off _)), (proj2 (Z.ltb_lt _ MAX_FRAGMENT_GROUP_BYTES)) by lia.
    simpl. rewrite Hbs at 1. unfold ztake, zdrop.
    rewrite lookup_take_lt, lookup_drop by lia. f_equal. lia.
  - destruct (Z.leb_spec off (Z.of_nat i)); [|done]. simpl. case_zb; [|done].
    apply lookup_ge_None. lia.
Qed.

Lemma note_fragment_honest P k p f g :
  honest P k p → ip_fragment p = Some f → zlen P <= MAX_FRAGMENT_GROUP_BYTES →
  let g' := note_fragment p f g in
  FragmentGroup.short_captured_at g' = FragmentGroup.short_captured_at g ∧
  FragmentGroup.total_len g' =
    (if more_fragments f then FragmentGroup.total_len g else Some (zlen P)) ∧
  FragmentGroup.header g' =
    match FragmentGroup.header g with
    | Some h => Some h
    | None => if offset_bytes f =? 0 then Some (frag_header f) else None
    end.
Proof.
  intros (f' & Hf & _ & Ho & (_ & Hle & _)%slice_Some & Hd & Hend) Hf' Hcap.
  assert (f' = f) as -> by congruence. clear Hf'. unfold MAX_FRAGMENT_GROUP_BYTES in *.
  unfold note_fragment. rewrite Hd, wrap_u32_id by zlia. rewrite Z.ltb_irrefl.
  assert (Htot : more_fragments f = false →
    sat_add (offset_bytes f) (zlen (frag_payload f)) = zlen P).
  { intros E. specialize (Hend E). zlia. }
  destruct (FragmentGroup.header g) eqn:Hh; destruct (offset_bytes f =? 0) eqn:Hz;
    destruct (more_fragments f); simpl; rewrite ?Hh, ?Htot by done; done.
Qed.

(** An honest fragment is never a terminal conflict on an honest group. *)
Lemma honest_no_conflict P k p f g :
  honest P k p → ip_fragment p = Some f → zlen P <= MAX_FRAGMENT_GROUP_BYTES →
  group_honest P g → terminal_conflict p f g = false.
Proof.
  intros (f' & Hf & _ & Ho & (_ & Hle & _)%slice_Some & Hd & Hend) Hf' Hcap
    ((Hcov & _) & _ & Hlen & Htot & _).
  assert (f' = f) as -> by congruence. unfold terminal_conflict, MAX_FRAGMENT_GROUP_BYTES in *.
  destruct (more_fragments f); [done|]. specialize (Hend eq_refl). rewrite Hd.
  assert (sat_add (offset_bytes f) (zlen (frag_payload f)) = zlen P) as -> by zlia.
  destruct (FragmentGroup.total_len g) as [n|].
  - rewrite (Htot n eq_refl), Z.eqb_refl. done.
  - unfold zdrop. rewrite drop_ge; [done|]. destruct Hcov as [Hlf _]. lia.
Qed.

(** Absorbing an honest fragment adds exactly its positions of [P]. *)
Lemma absorb_honest P k p f g :
  honest P k p → ip_fragment p = Some f → zlen P <= MAX_FRAGMENT_GROUP_BYTES →
  group_honest P g →
  let '(g', written) := absorb p f g in
  group_honest P g' ∧ hit_cap written = false ∧
  (∀ i, cell (vlist (FragmentGroup.data g')) (vlist (FragmentGroup.filled g')) i =
        first_seen (cell (vlist (FragmentGroup.data g)) (vlist (FragmentGroup.filled g)) i)
          (if decide (covers p i) then P !! i else None)) ∧
  FragmentGroup.total_len g' =
    (if more_fragments f then FragmentGroup.total_len g else Some (zlen P)) ∧
  FragmentGroup.header g' =
    match FragmentGroup.header g with
    | Some h => Some h
    | None => if offset_bytes f =? 0 then Some (frag_header f) else None
    end ∧
  FragmentGroup.first_seen_ms g' = FragmentGroup.first_seen_ms g ∧
  FragmentGroup.last_seen_ms g' = FragmentGroup.last_seen_ms g.
Proof.
  intros Hh Hf Hcap (Hwf & Hcell & Hlen & Htot & Hshort).
  pose proof (note_fragment_honest P k p f g Hh Hf Hcap) as (Hs & Ht & Hhd).
  destruct Hh as (f' & Hf' & _ & Ho & Hsl & Hd & Hend).
  assert (f' = f) as -> by congruence.
  pose proof (proj1 (slice_Some _ _ _ _) Hsl) as (_ & Hle & _).
  unfold MAX_FRAGMENT_GROUP_BYTES in Hcap.
  pose proof (absorb_wf p f g ltac:(zlia) ltac:(zlia) Hwf) as Hwf'.
  unfold absorb in *.
  destruct (note_fragment_frame p f g) as (Hdt & Hfl & Hp & Hfs & Hls). rewrite Hdt, Hfl in *.
  pose proof (λ i, write_cell (FragmentGroup.data g) (FragmentGroup.filled g) (offset_bytes f)
    (frag_payload f) MAX_FRAGMENT_GROUP_BYTES i Ho ltac:(done) ltac:(zlia) (proj1 (proj1 Hwf)))
    as Hwc.
  pose proof (write_length (FragmentGroup.data g) (FragmentGroup.filled g) (offset_bytes f)
    (frag_payload f) MAX_FRAGMENT_GROUP_BYTES Ho) as Hwl.
  pose proof (write_counts (FragmentGroup.data g) (FragmentGroup.filled g) (offset_bytes f)
    (frag_payload f) MAX_FRAGMENT_GROUP_BYTES Ho ltac:(done) ltac:(zlia) (proj1 (proj1 Hwf)))
    as Hcnt.
  destruct (write_first_seen_wins _ _ _ _ _) as [[d' fl'] out]. simpl in *.
  assert (Hc : ∀ i, cell (vlist d') (vlist fl') i =
    first_seen (cell (vlist (FragmentGroup.data g)) (vlist (FragmentGroup.filled g)) i)
      (if decide (covers p i) then P !! i else None)).
  { intros i. rewrite Hwc, (honest_piece P) by done.
    f_equal. apply decide_ext. unfold covers. by rewrite Hf. }
  split; [|split; [|split; [exact Hc|by rewrite Ht, Hhd, Hfs, Hls]]].
  - split; [done|]. split; [|split; [simpl; lia|split]]; simpl.
    + intros i b. rewrite Hc. destruct (cell _ _ i) as [c|] eqn:E; simpl.
      * intros [= <-]. by apply Hcell.
      * case_decide; [done|congruence].
    + rewrite Ht. intros n. destruct (more_fragments f); [apply Htot|congruence].
    + by rewrite Hs.
  - destruct Hcnt as (_ & _ & ->). apply Z.ltb_ge. unfold MAX_FRAGMENT_GROUP_BYTES. lia.
Qed.

(** An honest group whose end is known and whose prefix reaches it holds [P]. *)
Lemma honest_payload P g :
  group_honest P g → FragmentGroup.status g = Reassembled →
  FragmentGroup.total_len g = Some (zlen P) ∧ FragmentGroup.prefix_len g = zlen P ∧
  slice (vlist (FragmentGroup.data g)) 0
    (Z.min (FragmentGroup.prefix_len g) (zlen P)) = Some P.
Proof.
  intros ((Hcov & Hpre) & Hcell & Hlen & Htot & Hshort) Hst.
  unfold FragmentGroup.status in Hst. rewrite Hshort in Hst.
  destruct (FragmentGroup.total_len g) as [n|] eqn:Hn; [|done].
  rewrite (Htot n eq_refl) in *. destruct (Z.leb_spec (zlen P) (FragmentGroup.prefix_len g)); [|done].
  pose proof (run_true_bounds (vlist (FragmentGroup.filled g))).
  destruct Hcov as [Hl _].
  assert (FragmentGroup.prefix_len g = zlen P) as Hp by lia.
  split; [done|]. split; [done|]. rewrite Hp, Z.min_id.
  apply slice_Some. split; [lia|]. split; [lia|]. rewrite Z.sub_0_r.
  unfold ztake, zdrop; simpl. rewrite drop_0, Nat2Z.id. apply list_eq. intros i.
  destruct (decide (i < length P)%nat).
  - rewrite lookup_take_lt by done.
    destruct (lookup_lt_is_Some_2 (vlist (FragmentGroup.data g)) i) as [b Hb]; [lia|].
    rewrite Hb. apply Hcell. by rewrite cell_prefix by lia.
  - rewrite lookup_take_ge by lia. apply lookup_ge_None. lia.
Qed.

Lemma honest_not_truncated P g :
  group_honest P g → FragmentGroup.status g ≠ IncompleteTruncatedAtCapture.
Proof.
  intros (_ & _ & _ & _ & Hs). unfold FragmentGroup.status. rewrite Hs.
  destruct (FragmentGroup.total_len g) as [n|]; [by destruct (n <=? _)|done].
Qed.

Lemma evict_oldest_until_groups st max_n max_b :
  groups (evict_oldest_until st max_n max_b) =
  (evict_oldest max_n max_b (groups st) (bytes_held st) (evicted_capacity (counters st))).1.1.
Proof. unfold evict_oldest_until. by destruct (evict_oldest _ _ _ _ _) as [[? ?] ?]. Qed.

Lemma prepare_key_subseteq st k now : groups (prepare_key st k now) ⊆ groups st.
Proof.
  unfold prepare_key. set (st1 := if bool_decide _ && _ then _ else st).
  assert (groups st1 ⊆ groups st).
  { unfold st1. destruct (_ && _); [|done]. rewrite evict_oldest_until_groups.
    apply evict_oldest_subseteq. }
  destruct (groups st1 !! k) as [g|]; [|done].
  destruct (FragmentGroup.is_expired g now); [|done]. rewrite expire_delete.
  etrans; [apply delete_subseteq|done].
Qed.

(** The table after [feed]: only the entry of the frame's own key is written,
    and then at most one pass of the oldest-first eviction runs over it. *)
Lemma feed_groups st p f now :
  ip_fragment p = Some f →
  ∃ m, delete (key_of p f) m = delete (key_of p f) (groups (prepare_key st (key_of p f) now)) ∧
    (groups (feed st p now).1 = m ∨
     ∃ held ev, groups (feed st p now).1 =
       (evict_oldest MAX_FRAGMENT_GROUPS MAX_FRAGMENT_BYTES_TOTAL m held ev).1.1).
Proof.
  intros Hf. unfold feed. rewrite Hf.
  set (k := key_of p f). set (st1 := prepare_key st k now). clearbody st1.
  set (g0 := default _ _ <| FragmentGroup.last_seen_ms := now |>). clearbody g0.
  destruct (terminal_conflict p f g0).
  { simpl. exists (<[k:=g0]> (groups st1)). split; [apply delete_insert_eq|by left]. }
  destruct (absorb p f g0) as [g' written].
  match goal with |- context [take_group ?s _ _] => set (st2 := s) end.
  set (emit := match FragmentGroup.status g' with
               | Reassembled | IncompleteTruncatedAtCapture => _
               | IncompleteMissingFrames => _ end).
  assert (Hemit : delete k (groups emit.1) = delete k (groups st1)).
  { assert (delete k (groups st2) = delete k (groups st1)) as H2 by apply delete_insert_eq.
    unfold emit. destruct (FragmentGroup.status g'); [by rewrite take_group_delete, delete_delete_eq..|].
    destruct (hit_cap written); [|done]. destruct (groups st2 !! k); [|done].
    simpl. by rewrite delete_delete_eq, delete_insert_eq. }
  destruct emit as [st3 d]. exists (groups st3). split; [done|]. right.
  simpl. rewrite evict_oldest_until_groups. eauto.
Qed.

(** What [feed] leaves under another key was already there. *)
Lemma feed_other st p f now k g :
  ip_fragment p = Some f →
  key_of p f ≠ k → groups (feed st p now).1 !! k = Some g → groups st !! k = Some g.
Proof.
  intros Hf Hne Hg. destruct (feed_groups st p f now Hf) as (m & Hm & Hfeed).
  assert (Hmk : m !! k = Some g).
  { destruct Hfeed as [<-|(held & ev & Hfeed)]; [done|]. rewrite Hfeed in Hg.
    eapply lookup_weaken; [exact Hg|]. apply evict_oldest_subseteq. }
  rewrite <- (lookup_delete_ne _ (key_of p f)), Hm, lookup_delete_ne in Hmk by done.
  eapply lookup_weaken; [exact Hmk|]. apply prepare_key_subseteq.
Qed.

Lemma new_group_honest P now : group_honest P (FragmentGroup.new now).
Proof. split; [apply new_group_wf|]. simpl. repeat split; try done; lia. Qed.

Lemma start_group_honest P st k now :
  (∀ g, groups st !! k = Some g → group_honest P g) →
  group_honest P (default (FragmentGroup.new now) (groups st !! k)
                    <| FragmentGroup.last_seen_ms := now |>).
Proof.
  intros Hh. destruct (groups st !! k) as [g|] eqn:Hk; simpl.
  - exact (Hh _ eq_refl).
  - exact (new_group_honest P now).
Qed.

Lemma take_group_honest P st k g :
  groups st !! k = Some g → group_honest P g → FragmentGroup.status g = Reassembled →
  (take_group st k Reassembled).2 = emitted_datagram (FragmentGroup.header g) P.
Proof.
  intros Hk Hg Hst. destruct (honest_payload P g Hg Hst) as (Ht & Hp & Hs).
  unfold take_group, emitted_datagram. rewrite Hk, Ht, Hs. simpl.
  rewrite Hp, Z.min_id. done.
Qed.

(** An honest frame: the group stays honest, and whatever is emitted is [P]. *)
Lemma feed_honest P k st p now :
  zlen P <= MAX_FRAGMENT_GROUP_BYTES →
  frag_inv st → frag_bounded st → fragment_ok p → honest P k p →
  (∀ g, groups st !! k = Some g → group_honest P g) →
  (∀ g, groups (feed st p now).1 !! k = Some g → group_honest P g) ∧
  (∀ d, (feed st p now).2 = Some d → ∃ h, emitted_datagram (Some h) P = Some d).
Proof.
  intros Hcap Hinv Hb Hok Hh Hgs. pose proof Hh as (f & Hf & Hkey & _).
  unfold feed, fragment_ok in *. rewrite Hf in *. destruct Hok as (Ho & Hd & Hl).
  rewrite Hkey.
  destruct (prepare_key_inv st k now Hinv Hb) as (Hinv1 & Hb1 & _).
  pose proof (prepare_key_subseteq st k now) as Hsub.
  set (st1 := prepare_key st k now) in *. clearbody st1.
  assert (Hg : group_honest P (default (FragmentGroup.new now) (groups st1 !! k)
            <| FragmentGroup.last_seen_ms := now |>)).
  { apply start_group_honest. intros g Hg. eapply Hgs, lookup_weaken; eauto. }
  pose proof (start_group_accounted st1 k now) as Hacc.
  set (g0 := default _ _ <| FragmentGroup.last_seen_ms := now |>) in *. clearbody g0.
  rewrite (honest_no_conflict P k p f g0 Hh Hf Hcap Hg).
  pose proof (absorb_honest P k p f g0 Hh Hf Hcap Hg) as Habs.
  destruct (absorb p f g0) as [g' written]. destruct Habs as (Hg' & Hcapf & _).
  pose proof (frag_inv_put st1 k g' Hinv1 Hb1 (proj1 Hg')) as Hp. rewrite <- Hacc in Hp.
  match goal with |- context [take_group ?s _ _] => set (st2 := s) end.
  assert (Hinv2 : frag_inv st2) by exact Hp.
  assert (Hk2 : groups st2 !! k = Some g') by apply lookup_insert_eq.
  rewrite Hcapf. destruct (FragmentGroup.status g') eqn:Hst.
  - pose proof (take_group_honest P st2 k g' Hk2 Hg' Hst) as He.
    pose proof (take_group_delete st2 k Reassembled) as Hdel.
    pose proof (take_group_inv st2 k Reassembled Hinv2) as Hinv3.
    destruct (take_group st2 k Reassembled) as [st3 d]. simpl in *. subst d.
    destruct (evict_oldest_until_inv st3 MAX_FRAGMENT_GROUPS MAX_FRAGMENT_BYTES_TOTAL
      ltac:(done) ltac:(done) Hinv3) as (_ & _ & _ & Hs). split.
    + intros g Hx. pose proof (lookup_weaken _ _ _ _ Hx Hs) as Hy.
      rewrite Hdel, lookup_delete_eq in Hy. done.
    + intros d. destruct (FragmentGroup.header g') as [h|]; [|done]. eauto.
  - by destruct (honest_not_truncated P g' Hg').
  - destruct (evict_oldest_until_inv st2 MAX_FRAGMENT_GROUPS MAX_FRAGMENT_BYTES_TOTAL
      ltac:(done) ltac:(done) Hinv2) as (_ & _ & _ & Hs). simpl. split; [|done].
    intros g Hx. pose proof (lookup_weaken _ _ _ _ Hx Hs). naive_solver.
Qed.

Lemma feed_all_sound P k st frames :
  zlen P <= MAX_FRAGMENT_GROUP_BYTES →
  frag_inv st → frag_bounded st → (∀ g, groups st !! k = Some g → group_honest P g) →
  Forall (λ fr, frame_ok P k fr.1) frames →
  (frag_inv (feed_all st frames).1 ∧ frag_bounded (feed_all st frames).1) ∧
  Forall2 (λ fr out, honest P k fr.1 → ∀ d, out = Some d →
                     ∃ h, emitted_datagram (Some h) P = Some d)
    frames (feed_all st frames).2.
Proof.
  intros Hcap. revert st. induction frames as [|[p now] frames IH];
    intros st Hinv Hb Hgs Hall; simpl; [done|].
  apply Forall_cons in Hall as [[Hok Hp] Hall]. simpl in *.
  destruct (feed_inv st p now Hinv Hb Hok) as [Hinv1 Hb1].
  assert (Hgs1 : ∀ g, groups (feed st p now).1 !! k = Some g → group_honest P g).
  { destruct Hp as [Hh|Hne]; [by apply feed_honest|].
    destruct (ip_fragment p) as [f|] eqn:Hf.
    - intros g Hg. by eapply Hgs, feed_other; eauto.
    - unfold feed. by rewrite Hf. }
  assert (Hout : honest P k p → ∀ d, (feed st p now).2 = Some d →
            ∃ h, emitted_datagram (Some h) P = Some d).
  { intros Hh. by apply (feed_honest P k). }
  destruct (feed st p now) as [st1 d]. simpl in *.
  specialize (IH st1 Hinv1 Hb1 Hgs1 Hall).
  destruct (feed_all st1 frames) as [st2 ds]. simpl in *.
  split; [apply IH|]. constructor; [done|apply IH].
Qed.

(** *** Completion *)

(** With one group in the table nothing is evicted: a frame of that group is
    absorbed, and emitted exactly when it completes the datagram. *)
Lemma feed_single P k st og p f now :
  zlen P <= MAX_FRAGMENT_GROUP_BYTES →
  frag_inv st → frag_bounded st → groups st = single k og →
  honest P k p → ip_fragment p = Some f →
  (∀ g, og = Some g → group_honest P g ∧ FragmentGroup.is_expired g now = false) →
  let g0 := default (FragmentGroup.new now) og <| FragmentGroup.last_seen_ms := now |> in
  let g' := (absorb p f g0).1 in
  (FragmentGroup.status g' = Reassembled →
     groups (feed st p now).1 = ∅ ∧
     (feed st p now).2 = emitted_datagram (FragmentGroup.header g') P) ∧
  (FragmentGroup.status g' ≠ Reassembled →
     groups (feed st p now).1 = single k (Some g') ∧ (feed st p now).2 = None).
Proof.
  intros Hcap Hinv Hb Hsingle Hh Hf Hog g0 g'.
  assert (Hlk : groups st !! k = og).
  { rewrite Hsingle. destruct og; simpl; [by rewrite lookup_singleton_eq|by rewrite lookup_empty]. }
  assert (Hkey : key_of p f = k) by (destruct Hh as (f' & ? & ? & _); congruence).
  assert (Hprep : prepare_key st k now = st).
  { unfold prepare_key.
    assert ((MAX_FRAGMENT_GROUPS <=? groups_held st) = false) as ->.
    { apply Z.leb_gt. unfold groups_held. rewrite Hsingle. destruct og; simpl.
      - by rewrite map_size_singleton.
      - by rewrite map_size_empty. }
    rewrite andb_false_r, Hlk. destruct og as [g|]; [|done].
    by rewrite (proj2 (Hog g eq_refl)). }
  assert (Hg0 : group_honest P g0).
  { unfold g0. rewrite <- Hlk. apply start_group_honest. intros g Hg.
    apply Hog. congruence. }
  pose proof (start_group_accounted st k now) as Hacc. rewrite Hlk in Hacc.
  unfold feed. rewrite Hf, Hkey, Hprep, Hlk. fold g0.
  rewrite (honest_no_conflict P k p f g0 Hh Hf Hcap Hg0).
  pose proof (absorb_honest P k p f g0 Hh Hf Hcap Hg0) as Habs.
  unfold g'. clear g'. destruct (absorb p f g0) as [g' written].
  destruct Habs as (Hg' & Hcapf & _). simpl.
  pose proof (frag_inv_put st k g' Hinv Hb (proj1 Hg')) as Hinv2.
  rewrite Hlk, <- Hacc in Hinv2. fold g0 in Hinv2.
  match goal with |- context [take_group ?s _ _] => set (st2 := s) end.
  assert (Hst2 : frag_inv st2) by exact Hinv2.
  assert (Hgroups2 : groups st2 = single k (Some g')).
  { unfold st2; simpl. rewrite Hsingle. destruct og; simpl.
    - apply insert_singleton_eq.
    - done. }
  assert (Hk2 : groups st2 !! k = Some g') by (rewrite Hgroups2; apply lookup_singleton_eq).
  assert (Hw : ∀ st3, frag_inv st3 → groups st3 ⊆ single k (Some g') →
    groups (evict_oldest_until st3 MAX_FRAGMENT_GROUPS MAX_FRAGMENT_BYTES_TOTAL) = groups st3).
  { intros st3 [[Hheld _] Hwf3] Hsub. unfold evict_oldest_until.
    rewrite evict_oldest_within; [done|]. apply within_true.
    assert (groups st3 = ∅ ∨ groups st3 = {[k := g']}) as [E|E].
    { destruct (groups st3 !! k) as [x|] eqn:Hx.
      - right. apply map_eq. intros j. destruct (decide (j = k)) as [->|].
        + pose proof (lookup_weaken _ _ _ _ Hx Hsub) as Hy. simpl in Hy. congruence.
        + rewrite lookup_singleton_ne by done.
          destruct (groups st3 !! j) eqn:Hj; [|done].
          pose proof (lookup_weaken _ _ _ _ Hj Hsub) as Hy. simpl in Hy.
          by rewrite lookup_singleton_ne in Hy.
      - left. apply map_empty. intros j. destruct (decide (j = k)) as [->|]; [done|].
        destruct (groups st3 !! j) eqn:Hj; [|done].
        pose proof (lookup_weaken _ _ _ _ Hj Hsub) as Hy. simpl in Hy.
        by rewrite lookup_singleton_ne in Hy. }
    - rewrite E, map_size_empty. rewrite E, map_total_empty in Hheld.
      unfold MAX_FRAGMENT_GROUPS, MAX_FRAGMENT_BYTES_TOTAL. lia.
    - rewrite E, map_size_singleton. rewrite E in Hheld.
      rewrite <- insert_empty, map_total_insert, map_total_empty in Hheld by apply lookup_empty.
      pose proof (accounted_range g' (proj1 Hg')).
      cbn [accounted FragmentGroup_budgeted] in Hheld.
      unfold MAX_FRAGMENT_GROUPS, MAX_FRAGMENT_BYTES_TOTAL. lia. }
  rewrite Hcapf. destruct (FragmentGroup.status g') eqn:Hstat.
  - split; [|done]. intros _.
    pose proof (take_group_honest P st2 k g' Hk2 Hg' Hstat) as He.
    pose proof (take_group_delete st2 k Reassembled) as Hdel.
    pose proof (take_group_inv st2 k Reassembled Hst2) as Hinv3.
    destruct (take_group st2 k Reassembled) as [st3 d]. simpl in *.
    rewrite Hgroups2 in Hdel. simpl in Hdel. rewrite delete_singleton_eq in Hdel.
    split; [|done]. rewrite Hw; [done|done|]. rewrite Hdel. apply map_empty_subseteq.
  - by destruct (honest_not_truncated P g' Hg').
  - split; [done|]. intros _. simpl. split; [|done]. rewrite Hw; [done|done|by rewrite Hgroups2].
Qed.

Lemma first_header_app l p f :
  ip_fragment p = Some f →
  first_header (l ++ [p]) =
    match first_header l with
    | Some h => Some h
    | None => if offset_bytes f =? 0 then Some (frag_header f) else None
    end.
Proof.
  intros Hf. induction l as [|q l IH]; simpl; [by rewrite Hf|].
  destruct (ip_fragment q); [|done]. by case_zb.
Qed.

Lemma holds_step P t0 k seen g p f :
  zlen P <= MAX_FRAGMENT_GROUP_BYTES → honest P k p → ip_fragment p = Some f →
  holds P t0 seen g → holds P t0 (seen ++ [p]) (absorb p f g).1.
Proof.
  intros Hcap Hh Hf (Hg & Hcell & Htot & Hhd & Ht1 & Ht2).
  pose proof (absorb_honest P k p f g Hh Hf Hcap Hg) as Habs.
  destruct (absorb p f g) as [g' w]. simpl.
  destruct Habs as (Hg' & _ & Hcell' & Htot' & Hhd' & Hfs & Hls).
  split; [done|]. split; [|split; [|split]].
  - intros i. rewrite Hcell', Hcell.
    destruct (decide (Exists (λ p, covers p i) seen)) as [He|He];
      destruct (decide (Exists (λ p, covers p i) (seen ++ [p]))) as [Ha|Ha]; simpl.
    + destruct (P !! i); [done|]. by case_decide.
    + exfalso. apply Ha, Exists_app. by left.
    + apply Exists_app in Ha as [?|Hp]; [done|]. apply Exists_cons in Hp as [Hp|?%Exists_nil]; [|done].
      by rewrite decide_True.
    + rewrite decide_False; [done|]. intros Hp. apply Ha, Exists_app. right.
      apply Exists_cons. by left.
  - rewrite Htot', Exists_app, Exists_cons, Exists_nil. unfold is_terminal at 2. rewrite Hf.
    destruct (more_fragments f); [rewrite Htot|]; split; auto.
    intros [?|[?|?]]; done.
  - by rewrite Hhd', Hhd, (first_header_app _ _ _ Hf).
  - by rewrite Hfs, Hls.
Qed.

Lemma holds_complete P t0 seen g :
  holds P t0 seen g → FragmentGroup.status g = Reassembled ↔ complete P seen.
Proof.
  intros (Hg & Hcell & Htot & _). split.
  - intros Hst. destruct (honest_payload P g Hg Hst) as (Ht & Hp & _).
    split; [|by apply Htot]. intros i Hi. specialize (Hcell i).
    destruct Hg as ((Hcov & Hpre) & _).
    rewrite cell_prefix in Hcell by lia. case_decide; [done|].
    apply lookup_ge_None in Hcell. destruct Hcov as [Hl _].
    pose proof (run_true_bounds (vlist (FragmentGroup.filled g))). lia.
  - intros [Hall Hterm]. unfold FragmentGroup.status. rewrite (proj2 Htot Hterm).
    destruct Hg as ((Hcov & Hpre) & _). rewrite Hpre.
    assert (Hfill : ∀ i, (i < length P)%nat → vlist (FragmentGroup.filled g) !! i = Some true).
    { intros i Hi. specialize (Hcell i). rewrite decide_True in Hcell by auto.
      destruct (lookup_lt_is_Some_2 P i Hi) as [b Hb]. rewrite Hb in Hcell.
      unfold cell in Hcell. by destruct (vlist _ !! i) as [[]|]. }
    rewrite (proj2 (Z.leb_le _ _)); [done|].
    destruct (length P) as [|n] eqn:HP; [pose proof (run_true_bounds (vlist (FragmentGroup.filled g))); lia|].
    apply run_true_ge; [|done].
    specialize (Hfill n ltac:(lia)). apply lookup_lt_Some in Hfill. lia.
Qed.

Lemma evict_stale_inv st now :
  frag_inv st → frag_inv (evict_stale st now).1 ∧ frag_bounded (evict_stale st now).1.
Proof.
  intros Hinv. unfold evict_stale.
  set (ks := (filter _ _).*1). pose proof (expire_all_inv st ks Hinv) as He.
  destruct (expire_all st ks) as [st1 out]. simpl in *.
  destruct (evict_oldest_until_inv st1 MAX_FRAGMENT_GROUPS MAX_FRAGMENT_BYTES_TOTAL
    ltac:(done) ltac:(done) (proj1 He)) as (? & ? & ? & _). by split.
Qed.

Lemma frag_step_inv st st' :
  frag_step st st' → frag_inv st ∧ frag_bounded st → frag_inv st' ∧ frag_bounded st'.
Proof.
  intros [? p now Hok|? now|?] [Hinv Hb].
  - by apply feed_inv.
  - by apply evict_stale_inv.
  - unfold clear. destruct frag_new_inv as [[? ?] [? ?]]. repeat split; done.
Qed.

(** *** From an empty table to a finished datagram *)

Lemma complete_app P l l' : complete P l → complete P (l ++ l').
Proof.
  intros [Hc Ht]. split; [|apply Exists_app; by left].
  intros i Hi. apply Exists_app. left. auto.
Qed.

Lemma holds_touch P t0 seen g now :
  t0 <= now → holds P t0 seen g → holds P t0 seen (g <| FragmentGroup.last_seen_ms := now |>).
Proof. intros Hn (Hg & Hc & Ht & Hh & Hf & Hl). exact (conj Hg (conj Hc (conj Ht (conj Hh (conj Hf Hn))))). Qed.

Lemma holds_new P t0 now : t0 <= now → holds P t0 [] (FragmentGroup.new now).
Proof.
  intros. split; [apply new_group_honest|]. simpl. split; [|split; [|done]].
  - done.
  - split; [done|]. by intros ?%Exists_nil.
Qed.

Lemma collecting_new P k t0 : collecting P k t0 [] new.
Proof.
  destruct frag_new_inv. split; [done|]. split; [done|].
  exists None. split; [done|]. intros. by apply holds_new.
Qed.

Lemma collecting_fresh P k t0 seen st og g now :
  (∀ now, t0 <= now → holds P t0 seen (default (FragmentGroup.new now) og)) →
  og = Some g → t0 <= now <= t0 + FRAGMENT_TIMEOUT_MS →
  collecting P k t0 seen st → group_honest P g ∧ FragmentGroup.is_expired g now = false.
Proof.
  intros Hh -> Hnow _. destruct (Hh t0 ltac:(lia)) as (Hg & _ & _ & _ & Hf & Hl).
  split; [done|]. simpl in *. unfold FragmentGroup.is_expired, FRAGMENT_TIMEOUT_MS, sat_sub in *.
  apply orb_false_iff. rewrite !Z.ltb_ge. lia.
Qed.

(** One timely frame: the datagram is emitted exactly when it is complete. *)
Lemma feed_collecting P k t0 seen st fr :
  zlen P <= MAX_FRAGMENT_GROUP_BYTES → collecting P k t0 seen st → timely P k t0 fr →
  (complete P (seen ++ [fr.1]) →
     groups (feed st fr.1 fr.2).1 = ∅ ∧
     (feed st fr.1 fr.2).2 = emitted_datagram (first_header (seen ++ [fr.1])) P) ∧
  (¬ complete P (seen ++ [fr.1]) →
     collecting P k t0 (seen ++ [fr.1]) (feed st fr.1 fr.2).1 ∧ (feed st fr.1 fr.2).2 = None).
Proof.
  intros Hcap Hcol (Hh & Hok & Hnow). destruct fr as [p now]. simpl in *.
  pose proof Hcol as (Hinv & Hb & og & Hgs & Hholds).
  pose proof Hh as (f & Hf & _).
  pose proof (λ g e, collecting_fresh P k t0 seen st og g now Hholds e Hnow Hcol) as Hog.
  pose proof (feed_single P k st og p f now Hcap Hinv Hb Hgs Hh Hf Hog) as [Hdone Hmore].
  pose proof (holds_step P t0 k seen _ p f Hcap Hh Hf
    (holds_touch P t0 _ _ now ltac:(lia) (Hholds now ltac:(lia)))) as Hst.
  pose proof (holds_complete _ _ _ _ Hst) as Hiff.
  destruct (feed_inv st p now Hinv Hb Hok) as [Hinv' Hb'].
  split; intros Hc.
  - destruct (Hdone (proj2 Hiff Hc)) as [? ->]. split; [done|].
    by destruct Hst as (_ & _ & _ & -> & _).
  - destruct Hmore as [Hgs' Hout]; [by rewrite Hiff|]. split; [|done].
    split; [done|]. split; [done|]. by eexists.
Qed.

Lemma feed_all_collecting P k t0 frames seen st :
  zlen P <= MAX_FRAGMENT_GROUP_BYTES → collecting P k t0 seen st →
  Forall (timely P k t0) frames → ¬ complete P (seen ++ frames.*1) →
  collecting P k t0 (seen ++ frames.*1) (feed_all st frames).1 ∧
  (feed_all st frames).2 = replicate (length frames) None.
Proof.
  intros Hcap. revert seen st.
  induction frames as [|fr frames IH]; intros seen st Hcol Hall Hnc; simpl in *.
  { by rewrite app_nil_r. }
  apply Forall_cons in Hall as [Hfr Hall].
  destruct (feed_collecting P k t0 seen st fr Hcap Hcol Hfr) as [_ Hmore].
  rewrite (cons_middle fr.1), app_assoc in Hnc.
  destruct Hmore as [Hcol' Hout]. { intros Hc. by apply Hnc, complete_app. }
  destruct fr as [p now]. simpl in *.
  destruct (feed st p now) as [st1 d]. simpl in *. subst d.
  specialize (IH _ st1 Hcol' Hall Hnc).
  destruct (feed_all st1 frames) as [st2 ds]. simpl in *. destruct IH as [IH ->].
  split; [|done]. by rewrite (cons_middle p), app_assoc.
Qed.

Lemma feed_all_app st l1 l2 :
  feed_all st (l1 ++ l2) =
    let '(st1, o1) := feed_all st l1 in
    let '(st2, o2) := feed_all st1 l2 in (st2, o1 ++ o2).
Proof.
  revert st. induction l1 as [|[p now] l1 IH]; intros st; simpl.
  { by destruct (feed_all st l2). }
  destruct (feed st p now) as [st1 d]. rewrite IH.
  destruct (feed_all st1 l1) as [st2 o1]. by destruct (feed_all st2 l2).
Qed.

(** A key with a live group needs no room and is not expired. *)
Lemma prepare_key_live st k g now :
  groups st !! k = Some g → FragmentGroup.is_expired g now = false → prepare_key st k now = st.
Proof.
  intros Hk He. unfold prepare_key. rewrite bool_decide_eq_false_2 by congruence. simpl.
  by rewrite Hk, He.
Qed.

(** Making room for a new group drops older groups before newer ones. *)
Lemma prepare_key_lru st key now k v j w :
  k ≠ key → groups st !! k = Some v →
  groups (prepare_key st key now) !! k = None →
  groups (prepare_key st key now) !! j = Some w →
  FragmentGroup.last_seen_ms v <= FragmentGroup.last_seen_ms w.
Proof.
  intros Hne Hk. unfold prepare_key.
  set (st1 := if bool_decide _ && _ then _ else st).
  assert (Hlru : groups st1 !! k = None → groups st1 !! j = Some w →
            FragmentGroup.last_seen_ms v <= FragmentGroup.last_seen_ms w).
  { unfold st1. destruct (_ && _); [|congruence]. rewrite evict_oldest_until_groups.
    intros Hn Hj. exact (evict_oldest_lru _ _ _ _ _ k v j w Hk Hn Hj). }
  destruct (groups st1 !! key) as [g|]; [|done].
  destruct (FragmentGroup.is_expired g now); [|done].
  rewrite expire_delete, lookup_delete_ne by done.
  intros Hk' [_ Hj]%lookup_delete_Some. auto.
Qed.

End fragment_lemmas.

(** ** Theorems *)

Section fragment_theorems.
Context `{VecPolicy} `{IterOrder} `{Ipv4Codec}.
Import IpFragmentReassembler.

(** Whatever frames, sweeps and resets the capture loop applies, in any
    order, the reassembler stays within its ceilings: at most 512 groups, at
    most 4 MiB reserved, no group buffer above 65535 bytes; and [bytes_held]
    is exactly the capacity the held groups reserve. *)
Theorem frag_reachable_bounded (st : t) :
  rtc frag_step new st →
  groups_held st <= 512 ∧ 0 <= bytes_held st <= 4194304 ∧
  bytes_held st = map_total FragmentGroup.accounted_bytes (groups st) ∧
  (∀ k g, groups st !! k = Some g →
     zlen (vlist (FragmentGroup.data g)) <= 65535 ∧
     FragmentGroup.accounted_bytes g <= 262140 ∧
     FragmentGroup.prefix_len g = run_true (vlist (FragmentGroup.filled g))).
Proof.
  intros Hr. assert (Hi : frag_inv st ∧ frag_bounded st).
  { apply (rtc_ind_r (R := frag_step) (λ x, frag_inv x ∧ frag_bounded x) new); [apply frag_new_inv| |done].
    intros x y _ Hs Hx. by apply (frag_step_inv x y). }
  destruct Hi as [[Ha Hwf] [Hn Hb]]. pose proof (accounts_nonneg _ _ Ha).
  split; [exact Hn|]. split; [split; [done|exact Hb]|]. split; [apply Ha|].
  intros k g Hk. specialize (Hwf k g Hk). pose proof (accounted_range g Hwf).
  destruct Hwf as [(_ & Hl & _) Hp]. unfold MAX_FRAGMENT_GROUP_BYTES in *. auto with lia.
Qed.

(** In any interleaved capture in which the fragments of key [k] are
    slices of one datagram payload [P], whatever else the capture holds, every
    datagram emitted on such a fragment is complete and carries exactly [P]
    behind a rebuilt header: never a byte of another datagram, never a
    reordered or partial payload. *)
Theorem feed_all_emits_only_payload (P : bytes) (k : FragmentKey)
    (frames : list (ParsedPacket * Z)) :
  zlen P <= 65535 → Forall (λ fr, frame_ok P k fr.1) frames →
  Forall2 (λ fr out, honest P k fr.1 → ∀ d, out = Some d →
             ∃ h, rebuild_ipv4_datagram h P = Some (dg_bytes d) ∧
                  dg_status d = Reassembled ∧ dg_payload_len d = zlen P)
    frames (feed_all new frames).2.
Proof.
  intros Hcap Hall. destruct frag_new_inv as [Hinv Hb].
  destruct (feed_all_sound P k new frames Hcap Hinv Hb) as [_ Hf]; [|done|].
  { intros g. simpl. by rewrite lookup_empty. }
  eapply Forall2_impl; [exact Hf|]. intros fr out Ho Hh d Hd.
  destruct (Ho Hh d Hd) as [h He]. exists h. unfold emitted_datagram in He. simpl in He.
  destruct (rebuild_ipv4_datagram h P); simplify_eq/=. done.
Qed.

(** C2: fragments of one datagram in any order, with any overlaps and
    duplicates, captured within the timeout: nothing is emitted until the last
    missing byte and the end are known, and that very frame returns the whole
    datagram and leaves the table empty. *)
Theorem feed_all_reassembles (P : bytes) (k : FragmentKey) (t0 : Z)
    (frames : list (ParsedPacket * Z)) (fr : ParsedPacket * Z) :
  zlen P <= 65535 → Forall (timely P k t0) (frames ++ [fr]) →
  ¬ complete P frames.*1 → complete P (frames ++ [fr]).*1 →
  let '(st, outs) := feed_all new (frames ++ [fr]) in
  outs = replicate (length frames) None
           ++ [emitted_datagram (first_header (frames ++ [fr]).*1) P] ∧
  groups st = ∅.
Proof.
  intros Hcap Hall Hnc Hc. apply Forall_app in Hall as [Hall Hfr].
  apply Forall_cons in Hfr as [Hfr _].
  rewrite feed_all_app.
  destruct (feed_all_collecting P k t0 frames [] new Hcap (collecting_new P k t0) Hall Hnc)
    as [Hcol Hout].
  destruct (feed_all new frames) as [st1 o1]. simpl in *. subst o1.
  destruct (feed_collecting P k t0 _ st1 fr Hcap Hcol Hfr) as [Hdone _].
  rewrite fmap_app in *. simpl in *. destruct (Hdone Hc) as [Hgs Hd].
  destruct fr as [p now]. simpl in *. destruct (feed st1 p now) as [st2 d].
  simpl in *. by subst d.
Qed.

(** A last fragment that contradicts what its group already knows (it
    moves a known end, or it ends before bytes already received) is refused:
    the group keeps every byte, its end and its header, only its last-seen
    time and the conflict counter move, and nothing is emitted. *)
Theorem feed_refuses_conflicting_end (st : t) (p : ParsedPacket) (f : Ipv4Fragment)
    (now : Z) (g : FragmentGroup.t) :
  ip_fragment p = Some f → more_fragments f = false →
  groups st !! key_of p f = Some g → FragmentGroup.is_expired g now = false →
  let end_ := sat_add (offset_bytes f) (ip_declared_payload_len p) in
  (∃ n, FragmentGroup.total_len g = Some n ∧ n ≠ end_) ∨
  (FragmentGroup.total_len g = None ∧
   ∃ i, end_ <= Z.of_nat i ∧ vlist (FragmentGroup.filled g) !! i = Some true) →
  feed st p now =
    (mk (<[key_of p f := g <| FragmentGroup.last_seen_ms := now |>]> (groups st))
        (bytes_held st)
        (counters st <| conflicting_terminal_fragments ::= Z.succ |>), None).
Proof.
  intros Hf Hmf Hk He end_ Hcon. unfold feed. rewrite Hf, (prepare_key_live _ _ g) by done.
  rewrite Hk. simpl.
  assert (terminal_conflict p f (g <| FragmentGroup.last_seen_ms := now |>) = true) as ->; [|done].
  unfold terminal_conflict. rewrite Hmf. simpl.
  destruct Hcon as [(n & -> & Hne)|(-> & i & Hi & Hfi)].
  - apply negb_true_iff, Z.eqb_neq. done.
  - apply existsb_exists. exists true. split; [|done].
    apply list_elem_of_In, list_elem_of_lookup. exists (i - Z.to_nat end_)%nat.
    unfold zdrop. rewrite lookup_drop. rewrite <- Hfi. f_equal.
    fold end_. lia.
Qed.

(** Capacity pressure evicts the least recently seen groups first: a
    group dropped by a frame of another key was last seen no later than any
    group that survived. *)
Theorem feed_evicts_least_recent (st : t) (p : ParsedPacket) (f : Ipv4Fragment) (now : Z)
    (k : FragmentKey) (v : FragmentGroup.t) (j : FragmentKey) (w : FragmentGroup.t) :
  ip_fragment p = Some f → k ≠ key_of p f → j ≠ key_of p f →
  groups st !! k = Some v →
  groups (feed st p now).1 !! k = None →
  groups (feed st p now).1 !! j = Some w →
  FragmentGroup.last_seen_ms v <= FragmentGroup.last_seen_ms w.
Proof.
  intros Hf Hnk Hnj Hk Hk' Hj'. destruct (feed_groups st p f now Hf) as (m & Hm & Hfeed).
  assert (Hlk : ∀ x, x ≠ key_of p f →
            m !! x = groups (prepare_key st (key_of p f) now) !! x).
  { intros x Hx. rewrite <- (lookup_delete_ne m (key_of p f)), Hm by done.
    by rewrite lookup_delete_ne. }
  assert (Hmj : m !! j = Some w).
  { destruct Hfeed as [<-|(held & ev & Hfeed)]; [done|]. rewrite Hfeed in Hj'.
    eapply lookup_weaken; [exact Hj'|]. apply evict_oldest_subseteq. }
  destruct (m !! k) as [v'|] eqn:Hmk.
  - destruct Hfeed as [Hfeed|(held & ev & Hfeed)]; rewrite Hfeed in *; [congruence|].
    rewrite Hlk in Hmk by done. assert (v' = v) as ->.
    { pose proof (lookup_weaken _ _ _ _ Hmk (prepare_key_subseteq st _ now)). congruence. }
    exact (evict_oldest_lru _ _ m held ev k v j w ltac:(by rewrite Hlk) Hk' Hj').
  - rewrite Hlk in Hmk, Hmj by done. exact (prepare_key_lru st _ now k v j w Hnk Hk Hmk Hmj).
Qed.

End fragment_theorems.

(** ** Concrete captures

    A small datagram is enough to run the branches: two
    fragments of one payload, and a codec that keeps header bytes verbatim. *)

#[local] Instance verbatim_codec : Ipv4Codec := {|
  ipv4_header := bytes;
  ipv4_from_slice b := Some b;
  ipv4_with_more_fragments _ h := h;
  ipv4_with_fragment_offset _ h := h;
  ipv4_set_payload_len n h := if n <=? 65515 then Some h else None;
  ipv4_calc_header_checksum _ := 0;
  ipv4_with_header_checksum _ h := h;
  ipv4_write h := Some h
|}.

Definition sample_fragment (offset : Z) (mf : bool) (bs : bytes) (declared : Z) : ParsedPacket :=
  mkParsedPacket [] [] (lit "10.0.0.1") (lit "10.0.0.2") Udp None None None None 64 0 [] []
    20 0 4 None None declared (Some (mkIpv4Fragment 7 offset mf 17 [69; 0] bs)).

Definition sample_key : FragmentKey := mkFragmentKey (lit "10.0.0.1") (lit "10.0.0.2") 7 17.

Definition sample_payload : bytes := [1; 2; 3; 4; 5; 6; 7; 8; 9; 10].

(** The second fragment first, then a duplicate of it, then the first. *)
Definition sample_frames : list (ParsedPacket * Z) :=
  [(sample_fragment 8 false [9; 10] 2, 100); (sample_fragment 8 false [9; 10] 2, 110)].
Definition sample_last : ParsedPacket * Z :=
  (sample_fragment 0 true [1; 2; 3; 4; 5; 6; 7; 8] 8, 200).

Lemma sample_honest offset mf bs :
  0 <= offset <= 10 → slice sample_payload offset (offset + zlen bs) = Some bs →
  (mf = false → offset + zlen bs = 10) →
  honest sample_payload sample_key (sample_fragment offset mf bs (zlen bs)) ∧
  fragment_ok (sample_fragment offset mf bs (zlen bs)).
Proof.
  intros Ho Hs Hmf. pose proof Hs as (_ & Hle & _)%slice_Some. split.
  - eexists. split; [reflexivity|]. simpl. repeat split; auto; lia.
  - unfold fragment_ok. simpl in *. zlia.
Defined.

Lemma sample_timely : Forall (timely sample_payload sample_key 50) (sample_frames ++ [sample_last]).
Proof.
  repeat constructor; simpl; unfold FRAGMENT_TIMEOUT_MS; try lia;
    try (apply (sample_honest 8 false [9; 10]); [lia|reflexivity|reflexivity]);
    apply (sample_honest 0 true [1; 2; 3; 4; 5; 6; 7; 8]); [lia|reflexivity|done].
Defined.

Import IpFragmentReassembler.

Lemma frag_reachable_bounded_witness :
  bytes_held (feed new (sample_fragment 8 false [9; 10] 2) 100).1 = 20 ∧
  bytes_held (feed new (sample_fragment 8 false [9; 10] 2) 100).1 <= 4194304.
Proof.
  split; [vm_compute; reflexivity|].
  apply (frag_reachable_bounded (feed new (sample_fragment 8 false [9; 10] 2) 100).1).
  apply rtc_once. apply step_feed.
  apply (sample_honest 8 false [9; 10]); [lia|reflexivity|reflexivity].
Defined.

Lemma feed_all_emits_only_payload_witness :
  (feed_all new (sample_frames ++ [sample_last])).2 !! 2%nat =
    Some (Some (mkDatagram ([69; 0] ++ sample_payload) Reassembled 10)) ∧
  Forall2 (λ fr out, honest sample_payload sample_key fr.1 → ∀ d, out = Some d →
             ∃ h, rebuild_ipv4_datagram h sample_payload = Some (dg_bytes d) ∧
                  dg_status d = Reassembled ∧ dg_payload_len d = zlen sample_payload)
    (sample_frames ++ [sample_last]) (feed_all new (sample_frames ++ [sample_last])).2.
Proof.
  split; [vm_compute; reflexivity|].
  apply (feed_all_emits_only_payload sample_payload sample_key); [simpl; lia|].
  eapply Forall_impl; [apply sample_timely|]. intros fr (Hh & Hok & _). split; [done|by left].
Defined.

Lemma feed_all_reassembles_witness :
  let '(st, outs) := feed_all new (sample_frames ++ [sample_last]) in
  outs = replicate (length sample_frames) None
           ++ [emitted_datagram (first_header (sample_frames ++ [sample_last]).*1) sample_payload] ∧
  groups st = ∅.
Proof.
  apply (feed_all_reassembles sample_payload sample_key 50).
  - simpl. lia.
  - apply sample_timely.
  - intros [Hc _]. specialize (Hc 0%nat ltac:(simpl; lia)).
    apply Exists_exists in Hc as (p & Hin & Hcov). simpl in Hin.
    repeat (apply elem_of_cons in Hin as [->|Hin]; [unfold covers in Hcov; simpl in Hcov; lia|]).
    by apply not_elem_of_nil in Hin.
  - split; [|apply Exists_exists; eexists; split; [left|reflexivity]].
    intros i Hi. apply Exists_exists. destruct (decide (i < 8)%nat).
    + exists (sample_last.1). split; [simpl; set_solver|].
      unfold covers; simpl. lia.
    + eexists. split; [left|]. unfold covers; simpl in *. lia.
Defined.

Lemma feed_refuses_conflicting_end_witness :
  let st := (feed new (sample_fragment 8 false [9; 10] 2) 100).1 in
  (feed st (sample_fragment 0 false [6; 6; 6; 6] 4) 120).2 = None ∧
  conflicting_terminal_fragments
    (counters (feed st (sample_fragment 0 false [6; 6; 6; 6] 4) 120).1) = 1.
Proof.
  intros st.
  assert (∃ g, groups st !! sample_key = Some g ∧ FragmentGroup.total_len g = Some 10 ∧
               FragmentGroup.is_expired g 120 = false) as (g & Hg & Ht & He).
  { eexists. vm_compute. repeat split. }
  rewrite (feed_refuses_conflicting_end st (sample_fragment 0 false [6; 6; 6; 6] 4) _ 120 g
    eq_refl eq_refl Hg He ltac:(left; eauto)).
  split; reflexivity.
Defined.

Lemma feed_evicts_least_recent_witness :
  let big (id : Z) := mkFragmentKey [] [] id 17 in
  let group (seen : Z) := FragmentGroup.mk (mkVec [] 3000000) (mkVec [] 0) 0 None None None 0 seen in
  let st := mk (<[big 1 := group 10]> (<[big 2 := group 20]> ∅)) 6000000 zero_counters in
  let st' := (feed st (sample_fragment 8 false [9; 10] 2) 100).1 in
  groups st' !! big 1 = None ∧ groups st' !! big 2 = Some (group 20) ∧
  FragmentGroup.last_seen_ms (group 10) <= FragmentGroup.last_seen_ms (group 20).
Proof.
  intros big group st st'.
  assert (groups st' !! big 1 = None) as Hn by (vm_compute; reflexivity).
  assert (groups st' !! big 2 = Some (group 20)) as Hs by (vm_compute; reflexivity).
  split; [exact Hn|]. split; [exact Hs|].
  eapply (feed_evicts_least_recent st (sample_fragment 8 false [9; 10] 2) _ 100
    (big 1) _ (big 2)); [reflexivity|done|done|reflexivity|exact Hn|exact Hs].
Defined.
