(* ===== verification/TcpSegments.v ===== *)
(** * TCP segment reassembly

    [TcpStream] and [TcpReassembler] of [capture-agent/src/reassembly.rs]:
    one coverage buffer per direction of a connection, addressed by sequence
    number with 32-bit wrap-around, shifted when an earlier segment arrives
    late, and bounded by a byte cap per direction, a table size, a byte total,
    a decision window and an idle timeout.

    The abstract view of a direction is [stream_at]: the byte held at an
    absolute sequence number, if any. *)

From S2P Require Import Prelude Packet Budget Coverage Fragments.

(** ** Caps *)

Definition MAX_TCP_STREAM_BYTES : Z := 16 * 1024.
Definition MAX_TCP_STREAMS : Z := 2048.
Definition MAX_TCP_BYTES_TOTAL : Z := 4 * 1024 * 1024.
Definition TCP_STREAM_IDLE_MS : Z := 30000.
Definition TCP_DECISION_WINDOW_MS : Z := 2000.

(** ** Keys *)

Record TcpStreamKey := mkTcpStreamKey { ts_flow : FlowKey; from_local : bool }.

#[export] Instance TcpStreamKey_eq_dec : EqDecision TcpStreamKey.
Proof. solve_decision. Defined.
#[export] Instance TcpStreamKey_countable : Countable TcpStreamKey.
Proof.
  refine (inj_countable' (λ k, (ts_flow k, from_local k))
    (λ '(f, l), mkTcpStreamKey f l) _).
  by intros [].
Defined.

(** ** One direction *)

Module TcpStream.

Record t := mk {
  base_seq : Z;
  data : vec Z;
  filled : vec bool;
  prefix_len : Z;
  short_captured_at : option Z;
  finished : bool;
  first_seen_ms : Z;
  last_seen_ms : Z
}.

#[global] Instance eta_t : RecordEta t :=
  fun r => mk (base_seq r) (data r) (filled r) (prefix_len r) (short_captured_at r)
    (finished r) (first_seen_ms r) (last_seen_ms r).

Definition is_idle (s : t) (now_ms : Z) : bool :=
  TCP_STREAM_IDLE_MS <? sat_sub now_ms (last_seen_ms s).

Definition accounted_bytes (s : t) : Z := sat_add (vcap (data s)) (vcap (filled s)).

Definition new (seq now_ms : Z) : t := mk seq vec_new vec_new 0 None false now_ms now_ms.

Definition release (s : t) : t :=
  s <| data := vec_new |> <| filled := vec_new |> <| prefix_len := 0 |>.

Definition status (s : t) : ReassemblyStatus :=
  if match short_captured_at s with Some at_ => at_ <=? prefix_len s | None => false end
  then IncompleteTruncatedAtCapture
  else if prefix_len s <? zlen (vlist (filled s)) then IncompleteMissingFrames
  else Reassembled.

Section operations.
Context `{VecPolicy}.

Definition rebase (s : t) (shift new_base : Z) : t :=
  let data' :=
    vec_truncate (vec_extend (vec_from_elem 0 shift) (vlist (data s))) MAX_TCP_STREAM_BYTES in
  let filled' :=
    vec_truncate (vec_extend (vec_from_elem false shift) (vlist (filled s)))
      MAX_TCP_STREAM_BYTES in
  s <| data := data' |> <| filled := filled' |> <| base_seq := new_base |>
    <| prefix_len := 0 |>
    <| short_captured_at ::= fmap (λ at_, sat_add at_ shift) |>.

(** Where a segment goes: the buffer offset of its first byte, after shifting
    the buffer when the segment starts before everything held; [None] when it
    is too far back or beyond the cap. *)
Definition place (s : t) (seq : Z) : option (t * Z) :=
  let rel := seq_delta seq (base_seq s) in
  if rel <? 0 then
    let shift := Z.abs rel in
    if MAX_TCP_STREAM_BYTES <? sat_add shift (zlen (vlist (data s))) then None
    else Some (rebase s shift seq, 0)
  else if MAX_TCP_STREAM_BYTES <? rel then None
  else Some (s, rel).

(** The write at that offset and what it says about the direction. *)
Definition write_at (s : t) (offset : Z) (payload : bytes) (declared_payload_len : Z)
    : t * WriteOutcome :=
  let '(data', filled', written) :=
    write_first_seen_wins (data s) (filled s) offset payload MAX_TCP_STREAM_BYTES in
  let s := s <| data := data' |> <| filled := filled' |> in
  let s :=
    if wrap_u32 (zlen payload) <? declared_payload_len then
      s <| short_captured_at ::= λ at_,
             Some (min_hole at_ (sat_add offset (zlen payload))) |>
    else s in
  let s := s <| prefix_len ::= contiguous_len_from (vlist (filled s)) |> in
  ((if hit_cap written then s <| finished := true |> else s), written).

End operations.

End TcpStream.

#[export] Instance TcpStream_budgeted : Budgeted TcpStream.t := {
  accounted := TcpStream.accounted_bytes;
  last_seen := TcpStream.last_seen_ms
}.

(** ** The reassembler *)

Module TcpReassembler.

Record t := mk {
  streams : gmap TcpStreamKey TcpStream.t;
  bytes_held : Z;
  counters : ReassemblyCounters
}.

#[global] Instance eta_t : RecordEta t := fun r => mk (streams r) (bytes_held r) (counters r).

Definition new : t := mk ∅ 0 zero_counters.

Definition streams_held (st : t) : Z := Z.of_nat (size (streams st)).

Definition clear (st : t) : t := st <| streams := ∅ |> <| bytes_held := 0 |>.

Definition prefix (st : t) (key : TcpStreamKey) : bytes :=
  default []
    (s ← streams st !! key;
     slice (vlist (TcpStream.data s)) 0 (TcpStream.prefix_len s)).

Definition has_buffer (st : t) (key : TcpStreamKey) : bool :=
  bool_decide (is_Some (streams st !! key)).

Definition base_seq (st : t) (key : TcpStreamKey) : option Z :=
  TcpStream.base_seq <$> streams st !! key.

(** Removing an entry and crediting its bytes. *)
Definition remove (st : t) (key : TcpStreamKey) (s : TcpStream.t) : t :=
  st <| streams ::= delete key |>
     <| bytes_held ::= λ h, sat_sub h (TcpStream.accounted_bytes s) |>.

Definition finish (st : t) (key : TcpStreamKey) (status : ReassemblyStatus) : t :=
  match streams st !! key with
  | Some s => remove st key s <| counters ::= count_status status |>
  | None => st
  end.

Definition drop_direction (st : t) (key : TcpStreamKey) : t :=
  match streams st !! key with Some s => remove st key s | None => st end.

Definition drop_flow (st : t) (flow : FlowKey) : t :=
  drop_direction (drop_direction st (mkTcpStreamKey flow true)) (mkTcpStreamKey flow false).

Definition remove_idle (st : t) (key : TcpStreamKey) : t :=
  match streams st !! key with
  | Some s => remove st key s <| counters ::= λ c, c <| evicted_idle ::= Z.succ |> |>
  | None => st
  end.

Section operations.
Context `{VecPolicy} `{IterOrder}.

Definition max_buffered_len (st : t) : Z :=
  foldr Z.max 0
    ((λ ks, Z.max (zlen (vlist (TcpStream.data ks.2))) (zlen (vlist (TcpStream.filled ks.2))))
       <$> iter (streams st)).

Definition evict_oldest_until (st : t) (max_streams max_bytes : Z) : t :=
  let '(ss, held, evicted) :=
    evict_oldest max_streams max_bytes (streams st) (bytes_held st)
      (evicted_capacity (counters st)) in
  st <| streams := ss |> <| bytes_held := held |>
     <| counters ::= λ c, c <| evicted_capacity := evicted |> |>.

(** Room for a new direction, and an idle entry of this key dropped. *)
Definition prepare_key (st : t) (key : TcpStreamKey) (now_ms : Z) : t :=
  let st :=
    if bool_decide (streams st !! key = None) && (MAX_TCP_STREAMS <=? streams_held st)
    then evict_oldest_until st (sat_sub MAX_TCP_STREAMS 1) MAX_TCP_BYTES_TOTAL
    else st in
  match streams st !! key with
  | Some s => if TcpStream.is_idle s now_ms then remove_idle st key else st
  | None => st
  end.

Definition feed (st : t) (key : TcpStreamKey) (seq : Z) (payload : bytes)
    (declared_payload_len now_ms : Z) : t * option ReassemblyStatus :=
  if bool_decide (payload = []) then (st, None)
  else
    let st := prepare_key st key now_ms in
    let stream :=
      default (TcpStream.new seq now_ms) (streams st !! key)
        <| TcpStream.last_seen_ms := now_ms |> in
    if TcpStream.finished stream then (remove st key stream, None)
    else if TCP_DECISION_WINDOW_MS <? sat_sub now_ms (TcpStream.first_seen_ms stream) then
      (st <| streams ::= <[key := TcpStream.release stream <| TcpStream.finished := true |>]> |>
          <| bytes_held ::= λ h, sat_sub h (TcpStream.accounted_bytes stream) |>
          <| counters ::= λ c, c <| abandoned_without_completing ::= Z.succ |> |>, None)
    else
      let before := TcpStream.accounted_bytes stream in
      match TcpStream.place stream seq with
      | None => (st <| streams ::= <[key := stream]> |>, None)
      | Some (placed, offset) =>
          let '(stream, written) := TcpStream.write_at placed offset payload declared_payload_len in
          let after := TcpStream.accounted_bytes stream in
          let st :=
            st <| streams ::= <[key := stream]> |>
               <| bytes_held ::= λ h, sat_sub (sat_add h after) before |>
               <| counters ::= λ c,
                    let c := c <| conflicting_overlap_bytes ::= Z.add (conflicting written) |> in
                    if hit_cap written then c <| abandoned_without_completing ::= Z.succ |>
                    else c |> in
          (evict_oldest_until st MAX_TCP_STREAMS MAX_TCP_BYTES_TOTAL,
           if (0 <? newly_written written) || hit_cap written
           then Some (TcpStream.status stream) else None)
      end.

Definition evict_stale (st : t) (now_ms : Z) : t :=
  let idle := (filter (λ ks, TcpStream.is_idle ks.2 now_ms = true) (iter (streams st))).*1 in
  evict_oldest_until (foldl remove_idle st idle) MAX_TCP_STREAMS MAX_TCP_BYTES_TOTAL.

End operations.

End TcpReassembler.

(** ** Specifications *)

(** The byte held at an absolute sequence number. *)
Definition stream_at (s : TcpStream.t) (q : Z) : option Z :=
  let d := seq_delta q (TcpStream.base_seq s) in
  if d <? 0 then None
  else cell (vlist (TcpStream.data s)) (vlist (TcpStream.filled s)) (Z.to_nat d).

(** The byte a segment carries at an absolute sequence number. *)
Definition segment_at (seq : Z) (payload : bytes) (q : Z) : option Z :=
  let d := seq_delta q seq in
  if d <? 0 then None else payload !! Z.to_nat d.

(** Buffers well formed, prefix exact, base a sequence number. *)
Definition stream_wf (s : TcpStream.t) : Prop :=
  cov_wf (TcpStream.data s) (TcpStream.filled s) MAX_TCP_STREAM_BYTES ∧
  TcpStream.prefix_len s = run_true (vlist (TcpStream.filled s)) ∧
  is_u32 (TcpStream.base_seq s).

Definition tcp_inv (st : TcpReassembler.t) : Prop :=
  accounts (TcpReassembler.streams st) (TcpReassembler.bytes_held st) ∧
  ∀ k s, TcpReassembler.streams st !! k = Some s → stream_wf s.

Definition tcp_bounded (st : TcpReassembler.t) : Prop :=
  TcpReassembler.streams_held st <= MAX_TCP_STREAMS ∧
  TcpReassembler.bytes_held st <= MAX_TCP_BYTES_TOTAL.

(** Every operation the capture loop applies, in any order. *)
Inductive tcp_step `{VecPolicy} `{IterOrder} : TcpReassembler.t → TcpReassembler.t → Prop :=
| tcp_step_feed st key seq payload declared now :
    is_u32 seq → zlen payload <= U32_MAX →
    tcp_step st (TcpReassembler.feed st key seq payload declared now).1
| tcp_step_finish st key status : tcp_step st (TcpReassembler.finish st key status)
| tcp_step_drop_flow st flow : tcp_step st (TcpReassembler.drop_flow st flow)
| tcp_step_evict_stale st now : tcp_step st (TcpReassembler.evict_stale st now)
| tcp_step_clear st : tcp_step st (TcpReassembler.clear st).

(** A direction that still buffers at [now]. *)
Definition buffering (s : TcpStream.t) (now : Z) : Prop :=
  TcpStream.finished s = false ∧ TcpStream.is_idle s now = false ∧
  sat_sub now (TcpStream.first_seen_ms s) <= TCP_DECISION_WINDOW_MS.

(** *** Segments of one byte stream

    A segment [(seq, payload, now)] of the stream [S] whose first byte has
    sequence number [isn], captured in full. *)
Definition segment : Type := (Z * bytes * Z).

Definition seg_offset (isn : Z) (sg : segment) : Z := seq_delta sg.1.1 isn.

Definition seg_honest (S : bytes) (isn t0 : Z) (sg : segment) : Prop :=
  is_u32 sg.1.1 ∧ sg.1.2 ≠ [] ∧ 0 <= seg_offset isn sg ∧
  slice S (seg_offset isn sg) (seg_offset isn sg + zlen sg.1.2) = Some sg.1.2 ∧
  t0 <= sg.2 <= t0 + TCP_DECISION_WINDOW_MS.

Definition seg_covers (isn : Z) (i : nat) (sg : segment) : Prop :=
  seg_offset isn sg <= Z.of_nat i < seg_offset isn sg + zlen sg.1.2.

#[export] Instance seg_covers_dec isn i sg : Decision (seg_covers isn i sg).
Proof. unfold seg_covers. apply _. Defined.
#[global] Typeclasses Opaque seg_covers.

(** Feeding a capture of one direction. *)
Fixpoint feed_segments `{VecPolicy} `{IterOrder} (st : TcpReassembler.t) (key : TcpStreamKey)
    (segs : list segment) : TcpReassembler.t :=
  match segs with
  | [] => st
  | (seq, payload, now) :: segs' =>
      feed_segments (TcpReassembler.feed st key seq payload (zlen payload) now).1 key segs'
  end.

(** What the segments [seen] leave in their direction. *)
Definition stream_holds (S : bytes) (isn t0 : Z) (seen : list segment) (s : TcpStream.t) : Prop :=
  ∃ base, TcpStream.base_seq s = wrapping_add isn base ∧ 0 <= base ∧
    (∀ i, Exists (seg_covers isn i) seen → base <= Z.of_nat i) ∧
    base + zlen (vlist (TcpStream.data s)) <= zlen S ∧
    (∀ i, (i < length S)%nat →
       stream_at s (wrapping_add isn (Z.of_nat i)) =
         if decide (Exists (seg_covers isn i) seen) then S !! i else None) ∧
    TcpStream.finished s = false ∧
    t0 <= TcpStream.first_seen_ms s ∧ t0 <= TcpStream.last_seen_ms s.

(** The reassembler part way through one direction. *)
Definition tcp_collecting (S : bytes) (isn t0 : Z) (key : TcpStreamKey) (seen : list segment)
    (st : TcpReassembler.t) : Prop :=
  tcp_inv st ∧ tcp_bounded st ∧
  (seen = [] ∧ TcpReassembler.streams st = ∅ ∨
   ∃ s, TcpReassembler.streams st = {[key := s]} ∧ stream_holds S isn t0 seen s).

(** ** Lemmas *)

Section tcp_lemmas.
Context `{VecPolicy} `{IterOrder}.
Import TcpReassembler.
Implicit Types (st : t) (s : TcpStream.t).

Lemma stream_accounted_range s : stream_wf s → 0 <= TcpStream.accounted_bytes s <= 65536.
Proof.
  intros ((_ & _ & Hd & Hf & Hcd & Hcf) & _). unfold TcpStream.accounted_bytes, vec_wf in *.
  unfold MAX_TCP_STREAM_BYTES in *. zlia.
Qed.

Lemma new_stream_wf seq now : is_u32 seq → stream_wf (TcpStream.new seq now).
Proof. intros. split; [by apply cov_wf_empty|done]. Qed.

Lemma release_wf s : stream_wf s → stream_wf (TcpStream.release s <| TcpStream.finished := true |>).
Proof. intros (_ & _ & ?). split; [by apply cov_wf_empty|done]. Qed.

(** Concatenating behind a shift keeps the pair well formed. *)
Lemma rebase_cov s shift base :
  0 <= shift → shift + zlen (vlist (TcpStream.data s)) <= MAX_TCP_STREAM_BYTES →
  cov_wf (TcpStream.data s) (TcpStream.filled s) MAX_TCP_STREAM_BYTES →
  let s' := TcpStream.rebase s shift base in
  cov_wf (TcpStream.data s') (TcpStream.filled s') MAX_TCP_STREAM_BYTES ∧
  vlist (TcpStream.data s') = zreplicate shift 0 ++ vlist (TcpStream.data s) ∧
  vlist (TcpStream.filled s') = zreplicate shift false ++ vlist (TcpStream.filled s).
Proof.
  intros Hs Hcap (Hlen & Hc & Hwd & Hwf & Hcd & Hcf). simpl.
  pose proof (vp_from_elem_le shift) as Hfe. unfold MAX_TCP_STREAM_BYTES in *.
  assert (Hfull : ∀ A (x : A) (l : list A), length l = length (vlist (TcpStream.data s)) →
            ztake 16384 (zreplicate shift x ++ l) = zreplicate shift x ++ l).
  { intros A x l Hl. apply take_ge. rewrite length_app, length_zreplicate. lia. }
  rewrite !Hfull by done. split; [|done].
  unfold cov_wf, vec_wf; simpl. rewrite !Hfull by done.
  rewrite !length_app, !length_zreplicate.
  assert (Hle : ∀ A (x : A) (l : list A), length l = length (vlist (TcpStream.data s)) →
     Z.of_nat (Z.to_nat shift + length l) <= vec_reserve (vec_from_elem x shift) (zlen l) <= 2 * 16384).
  { intros A x l Hl. split.
    - pose proof (vec_reserve_ge (vec_from_elem x shift) (zlen l)) as Hr. simpl in Hr.
      rewrite length_zreplicate in Hr. lia.
    - apply vec_reserve_le; simpl; rewrite ?length_zreplicate; lia. }
  pose proof (Hle _ 0 (vlist (TcpStream.data s)) eq_refl).
  pose proof (Hle _ false (vlist (TcpStream.filled s)) ltac:(done)).
  repeat split; try lia; done.
Qed.

Lemma rebase_fields s shift base :
  let s' := TcpStream.rebase s shift base in
  TcpStream.prefix_len s' = 0 ∧ TcpStream.base_seq s' = base ∧
  TcpStream.finished s' = TcpStream.finished s ∧
  TcpStream.first_seen_ms s' = TcpStream.first_seen_ms s ∧
  TcpStream.last_seen_ms s' = TcpStream.last_seen_ms s ∧
  TcpStream.short_captured_at s' =
    (λ at_, sat_add at_ shift) <$> TcpStream.short_captured_at s.
Proof. done. Qed.

Lemma Some_pair_inv {A B} (a a' : A) (b b' : B) :
  Some (a, b) = Some (a', b') → a' = a ∧ b' = b.
Proof. by intros [= <- <-]. Qed.

Lemma place_cases s seq s' off :
  TcpStream.place s seq = Some (s', off) →
  let rel := seq_delta seq (TcpStream.base_seq s) in
  (0 <= rel <= MAX_TCP_STREAM_BYTES ∧ s' = s ∧ off = rel) ∨
  (rel < 0 ∧ - rel + zlen (vlist (TcpStream.data s)) <= MAX_TCP_STREAM_BYTES ∧
   s' = TcpStream.rebase s (- rel) seq ∧ off = 0).
Proof.
  unfold TcpStream.place. set (rel := seq_delta _ _).
  destruct (Z.ltb_spec rel 0) as [Hneg|].
  - rewrite Z.abs_neq by lia.
    destruct (Z.ltb_spec MAX_TCP_STREAM_BYTES (sat_add (- rel) (zlen (vlist (TcpStream.data s)))))
      as [|Hle]; [done|].
    intros [-> ->]%Some_pair_inv. right.
    split; [done|]. split; [by apply sat_add_le|done].
  - destruct (Z.ltb_spec MAX_TCP_STREAM_BYTES rel); [done|].
    intros [-> ->]%Some_pair_inv. left. done.
Qed.

(** [place] leaves a well-formed pair whose recorded prefix is not beyond the
    real one, and a segment's position in it. *)
Lemma place_wf s seq s' off :
  is_u32 seq → stream_wf s → TcpStream.place s seq = Some (s', off) →
  cov_wf (TcpStream.data s') (TcpStream.filled s') MAX_TCP_STREAM_BYTES ∧
  0 <= TcpStream.prefix_len s' <= run_true (vlist (TcpStream.filled s')) ∧
  is_u32 (TcpStream.base_seq s') ∧ 0 <= off <= MAX_TCP_STREAM_BYTES.
Proof.
  intros Hseq (Hcov & Hpre & Hb) [(Hr & -> & ->)|(Hr & Hcap & Heq & ->)]%place_cases.
  - pose proof (run_true_bounds (vlist (TcpStream.filled s))).
    split; [done|]. split; [lia|]. split; [done|lia].
  - destruct (rebase_cov s _ seq (Z.lt_le_incl _ _ (proj2 (Z.opp_pos_neg _) Hr)) Hcap Hcov)
      as (Hc & _).
    destruct (rebase_fields s (- seq_delta seq (TcpStream.base_seq s)) seq)
      as (Hp & Hbase & _).
    rewrite <- Heq in Hc, Hp, Hbase. rewrite Hp, Hbase.
    pose proof (run_true_bounds (vlist (TcpStream.filled s'))).
    split; [done|]. split; [lia|]. split; [done|]. unfold MAX_TCP_STREAM_BYTES. lia.
Qed.

Lemma write_at_wf s off payload declared :
  0 <= off <= MAX_TCP_STREAM_BYTES → zlen payload <= U32_MAX →
  cov_wf (TcpStream.data s) (TcpStream.filled s) MAX_TCP_STREAM_BYTES →
  0 <= TcpStream.prefix_len s <= run_true (vlist (TcpStream.filled s)) →
  is_u32 (TcpStream.base_seq s) →
  stream_wf (TcpStream.write_at s off payload declared).1.
Proof.
  intros Ho Hl Hcov Hpre Hb. unfold TcpStream.write_at.
  assert (zlen payload <= USIZE_MAX - off) as Hmax by (unfold MAX_TCP_STREAM_BYTES in *; zlia).
  pose proof (write_wf _ _ off payload MAX_TCP_STREAM_BYTES (proj1 Ho) ltac:(done) Hcov) as Hw.
  pose proof (write_prefix _ _ off payload MAX_TCP_STREAM_BYTES (TcpStream.prefix_len s)
    (proj1 Ho) ltac:(done) Hmax (proj1 Hcov) Hpre) as Hp.
  destruct (write_first_seen_wins _ _ _ _ _) as [[d' f'] w].
  destruct (hit_cap w), (_ <? declared); done.
Qed.

Lemma tcp_inv_remove st k s :
  tcp_inv st → streams st !! k = Some s → tcp_inv (remove st k s).
Proof.
  intros [Ha Hwf] Hk. split; simpl.
  - exact (accounts_delete _ _ _ _ Ha Hk).
  - intros j s' [_ Hj]%lookup_delete_Some. by eapply Hwf.
Qed.

Lemma tcp_bounded_remove st k s : tcp_inv st → streams st !! k = Some s → tcp_bounded st →
  tcp_bounded (remove st k s) ∧ streams_held (remove st k s) < MAX_TCP_STREAMS.
Proof.
  intros [Ha _] Hk [Hn Hb]. unfold tcp_bounded, streams_held in *; simpl.
  pose proof (size_delete_Some _ _ _ Hk).
  pose proof (accounts_entry_le _ _ _ _ Ha Hk) as He. pose proof (accounts_nonneg _ _ Ha).
  cbn [accounted TcpStream_budgeted] in He. unfold sat_sub. lia.
Qed.

Lemma tcp_counters_irrelevant st c :
  (tcp_inv (st <| counters := c |>) ↔ tcp_inv st) ∧
  (tcp_bounded (st <| counters := c |>) ↔ tcp_bounded st).
Proof. done. Qed.

Lemma tcp_new_inv : tcp_inv new ∧ tcp_bounded new.
Proof.
  split; [split; [apply accounts_empty|]|done]. intros k s. simpl. by rewrite lookup_empty.
Qed.

Lemma evict_until_streams st max_n max_b :
  streams (evict_oldest_until st max_n max_b) =
  (evict_oldest max_n max_b (streams st) (bytes_held st) (evicted_capacity (counters st))).1.1.
Proof. unfold evict_oldest_until. by destruct (evict_oldest _ _ _ _ _) as [[? ?] ?]. Qed.

Lemma evict_until_inv st max_n max_b :
  0 <= max_n → 0 <= max_b → tcp_inv st →
  let st' := evict_oldest_until st max_n max_b in
  tcp_inv st' ∧ streams_held st' <= max_n ∧ bytes_held st' <= max_b ∧ streams st' ⊆ streams st.
Proof.
  intros Hn Hb [Ha Hwf]. unfold evict_oldest_until.
  pose proof (evict_oldest_spec max_n max_b (streams st) (bytes_held st)
    (evicted_capacity (counters st)) Hn Hb Ha) as He.
  destruct (evict_oldest _ _ _ _ _) as [[ss held] ev].
  destruct He as (Ha' & Hw & Hsub & _). apply within_true in Hw as [Hw1 Hw2].
  split; [|done]. split; [done|]. simpl. intros k s Hk. eapply Hwf. by eapply lookup_weaken.
Qed.

Lemma remove_idle_inv st k : tcp_inv st → tcp_inv (remove_idle st k).
Proof.
  intros Hinv. unfold remove_idle. destruct (streams st !! k) as [s|] eqn:Hk; [|done].
  exact (tcp_inv_remove st k s Hinv Hk).
Qed.

Lemma tcp_prepare_inv st k now :
  tcp_inv st → tcp_bounded st →
  let st' := prepare_key st k now in
  tcp_inv st' ∧ tcp_bounded st' ∧ streams st' ⊆ streams st ∧
  (streams st' !! k = None → streams_held st' < MAX_TCP_STREAMS).
Proof.
  intros Hinv Hb. unfold prepare_key.
  set (st1 := if bool_decide _ && _ then _ else st).
  assert (Hst1 : tcp_inv st1 ∧ tcp_bounded st1 ∧ streams st1 ⊆ streams st ∧
    (streams st1 !! k = None → streams_held st1 < MAX_TCP_STREAMS)).
  { unfold st1. case_bool_decide as Hk; simpl.
    - destruct (Z.leb_spec MAX_TCP_STREAMS (streams_held st)); [|done].
      destruct (evict_until_inv st (sat_sub MAX_TCP_STREAMS 1) MAX_TCP_BYTES_TOTAL
        ltac:(done) ltac:(done) Hinv) as (? & ? & ? & ?).
      change (sat_sub MAX_TCP_STREAMS 1) with 2047 in *. unfold tcp_bounded, MAX_TCP_STREAMS in *.
      split; [done|]. split; [split; [lia|done]|]. split; [done|lia].
    - split; [done|]. split; [done|]. split; [done|]. congruence. }
  clearbody st1. destruct Hst1 as (Hinv1 & Hb1 & Hsub & Hroom).
  destruct (streams st1 !! k) as [s|] eqn:Hk; [|rewrite Hk; auto].
  destruct (TcpStream.is_idle s now); [|by split_and!; [done..|congruence]].
  unfold remove_idle. rewrite Hk.
  destruct (tcp_bounded_remove st1 k s Hinv1 Hk Hb1) as [Hbr Hlt].
  split; [exact (tcp_inv_remove st1 k s Hinv1 Hk)|]. split; [exact Hbr|].
  split; [|done]. simpl. etrans; [apply delete_subseteq|done].
Qed.

(** The entry a segment starts from. *)
Lemma start_stream st k seq now :
  tcp_inv st → is_u32 seq →
  let s := default (TcpStream.new seq now) (streams st !! k) <| TcpStream.last_seen_ms := now |> in
  stream_wf s ∧ TcpStream.accounted_bytes s = from_option accounted 0 (streams st !! k).
Proof.
  intros [_ Hwf] Hseq. destruct (streams st !! k) as [s|] eqn:Hk; simpl.
  - split; [exact (Hwf _ _ Hk)|done].
  - split; [exact (new_stream_wf seq now Hseq)|done].
Qed.

Lemma tcp_inv_put st k s f :
  tcp_inv st → tcp_bounded st → stream_wf s →
  tcp_inv (st <| streams ::= <[k := s]> |>
              <| bytes_held ::= λ h, sat_sub (sat_add h (TcpStream.accounted_bytes s))
                   (from_option accounted 0 (streams st !! k)) |>
              <| counters ::= f |>).
Proof.
  intros [Ha Hwf] [_ Hb] Hs. pose proof (stream_accounted_range s Hs) as Hr. split; simpl.
  - apply (accounts_charge _ _ k s Ha); [apply Hr|].
    cbn [accounted TcpStream_budgeted]. unfold MAX_TCP_BYTES_TOTAL in *. zlia.
  - intros j s' [[_ <-]|[_ Hj]]%lookup_insert_Some; [done|]. by eapply Hwf.
Qed.

(** Replacing an entry by one of the same weight, or by an empty one. *)
Lemma tcp_inv_swap st k s n :
  tcp_inv st → stream_wf s →
  n = sat_sub (bytes_held st) (from_option accounted 0 (streams st !! k) - accounted s) →
  accounted s = 0 ∨ accounted s = from_option accounted 0 (streams st !! k) →
  tcp_inv (st <| streams ::= <[k := s]> |> <| bytes_held := n |>).
Proof.
  intros [Ha Hwf] Hs -> Hacc. pose proof (stream_accounted_range s Hs) as Hr. split; simpl.
  - pose proof (accounts_put _ _ k s Ha ltac:(apply Hr)) as Hp.
    pose proof (accounts_nonneg _ _ Ha).
    assert (0 <= from_option accounted 0 (streams st !! k) <= bytes_held st).
    { destruct (streams st !! k) as [s'|] eqn:Hk; simpl; [|lia].
      exact (accounts_entry_le _ _ _ _ Ha Hk). }
    replace (sat_sub _ _) with
      (bytes_held st - from_option accounted 0 (streams st !! k) + accounted s); [done|].
    cbn [accounted TcpStream_budgeted] in *. unfold sat_sub. lia.
  - intros j s' [[_ <-]|[_ Hj]]%lookup_insert_Some; [done|]. by eapply Hwf.
Qed.

Lemma insert_size_bound st k s :
  tcp_bounded st → (streams st !! k = None → streams_held st < MAX_TCP_STREAMS) →
  Z.of_nat (size (<[k := s]> (streams st))) <= MAX_TCP_STREAMS.
Proof.
  intros [Hn _] Hroom. unfold streams_held in *. destruct (streams st !! k) eqn:Hk.
  - rewrite map_size_insert_Some by eauto. done.
  - rewrite map_size_insert_None by done. specialize (Hroom eq_refl). lia.
Qed.

Lemma tcp_feed_inv st key seq payload declared now :
  is_u32 seq → zlen payload <= U32_MAX → tcp_inv st → tcp_bounded st →
  tcp_inv (feed st key seq payload declared now).1 ∧
  tcp_bounded (feed st key seq payload declared now).1.
Proof.
  intros Hseq Hlen Hinv Hb. unfold feed. case_bool_decide; [done|].
  destruct (tcp_prepare_inv st key now Hinv Hb) as (Hinv1 & Hb1 & _ & Hroom).
  set (st1 := prepare_key st key now) in *. clearbody st1. clear st Hinv Hb.
  destruct (start_stream st1 key seq now Hinv1 Hseq) as [Hs Hacc].
  set (s := default _ _ <| TcpStream.last_seen_ms := now |>) in *.
  assert (Hin : TcpStream.finished s = true → ∃ s0, streams st1 !! key = Some s0 ∧
            TcpStream.accounted_bytes s0 = TcpStream.accounted_bytes s).
  { unfold s. destruct (streams st1 !! key) as [s0|]; [by exists s0|done]. }
  clearbody s. destruct (TcpStream.finished s) eqn:Hfin.
  { destruct (Hin eq_refl) as (s0 & Hk & He). unfold remove. rewrite <- He.
    split; [exact (tcp_inv_remove st1 key s0 Hinv1 Hk)|].
    exact (proj1 (tcp_bounded_remove st1 key s0 Hinv1 Hk Hb1)). }
  clear Hin. pose proof Hb1 as [_ Hbytes]. pose proof (accounts_nonneg _ _ (proj1 Hinv1)).
  case_zb.
  { rewrite Hacc. split.
    - apply (tcp_inv_swap st1 key (TcpStream.release s <| TcpStream.finished := true |>));
        [done|by apply release_wf| |by left]. simpl.
      cbn [accounted TcpStream_budgeted]. by rewrite Z.sub_0_r.
    - rewrite <- Hacc. split; [by apply insert_size_bound|].
      pose proof (stream_accounted_range s Hs). simpl. unfold sat_sub. lia. }
  destruct (TcpStream.place s seq) as [[placed off]|] eqn:Hplace; simpl.
  - destruct (place_wf s seq placed off Hseq Hs Hplace) as (Hc & Hp & Hu & Ho).
    pose proof (write_at_wf placed off payload declared Ho Hlen Hc Hp Hu) as Hw.
    destruct (TcpStream.write_at placed off payload declared) as [s' written]. simpl in *.
    rewrite Hacc.
    match goal with |- context [evict_oldest_until ?x _ _] => set (st2 := x) end.
    assert (tcp_inv st2) as Hinv2 by exact (tcp_inv_put st1 key s' _ Hinv1 Hb1 Hw).
    destruct (evict_until_inv st2 MAX_TCP_STREAMS MAX_TCP_BYTES_TOTAL ltac:(done) ltac:(done)
      Hinv2) as (? & ? & ? & _). done.
  - split; [|split; [by apply insert_size_bound|done]].
    apply (tcp_inv_swap st1 key s); [done|done| |by right].
    rewrite <- Hacc. cbn [accounted TcpStream_budgeted]. unfold sat_sub. lia.
Qed.

Lemma finish_inv st key status : tcp_inv st ∧ tcp_bounded st →
  tcp_inv (finish st key status) ∧ tcp_bounded (finish st key status).
Proof.
  intros [Hinv Hb]. unfold finish. destruct (streams st !! key) as [s|] eqn:Hk; [|done].
  split; [exact (tcp_inv_remove st key s Hinv Hk)|].
  exact (proj1 (tcp_bounded_remove st key s Hinv Hk Hb)).
Qed.

Lemma drop_direction_inv st key : tcp_inv st ∧ tcp_bounded st →
  tcp_inv (drop_direction st key) ∧ tcp_bounded (drop_direction st key).
Proof.
  intros [Hinv Hb]. unfold drop_direction. destruct (streams st !! key) as [s|] eqn:Hk; [|done].
  split; [exact (tcp_inv_remove st key s Hinv Hk)|].
  exact (proj1 (tcp_bounded_remove st key s Hinv Hk Hb)).
Qed.

Lemma tcp_evict_stale_inv st now :
  tcp_inv st → tcp_inv (evict_stale st now) ∧ tcp_bounded (evict_stale st now).
Proof.
  intros Hinv. unfold evict_stale. set (ks := (filter _ _).*1). clearbody ks.
  assert (tcp_inv (foldl remove_idle st ks)) as Hi.
  { revert st Hinv. induction ks as [|k ks IH]; intros st Hinv; simpl; [done|].
    by apply IH, remove_idle_inv. }
  destruct (evict_until_inv _ MAX_TCP_STREAMS MAX_TCP_BYTES_TOTAL ltac:(done) ltac:(done) Hi)
    as (? & ? & ? & _). done.
Qed.

Lemma tcp_step_inv st st' :
  tcp_step st st' → tcp_inv st ∧ tcp_bounded st → tcp_inv st' ∧ tcp_bounded st'.
Proof.
  intros [? key seq payload declared now Hs Hl|? key status|? flow|? now|?] [Hinv Hb].
  - by apply tcp_feed_inv.
  - by apply finish_inv.
  - by do 2 apply drop_direction_inv.
  - by apply tcp_evict_stale_inv.
  - unfold clear. destruct tcp_new_inv as [[? ?] [? ?]]. repeat split; done.
Qed.

(** *** The view by sequence number *)

(** Two positions counted from one origin differ by their distance. *)
Lemma seq_delta_origin a x y :
  -2147483648 <= x - y < 2147483648 →
  seq_delta (wrapping_add a x) (wrapping_add a y) = x - y.
Proof.
  intros Hd. rewrite <- (seq_delta_add (wrapping_add a y) (x - y) Hd). f_equal.
  unfold wrapping_add, wrap_u32. rewrite Zplus_mod_idemp_l. f_equal. lia.
Qed.

Lemma wrapping_add_0 a : is_u32 a → wrapping_add a 0 = a.
Proof. intros. unfold wrapping_add. rewrite Z.add_0_r. by apply wrap_u32_id. Qed.

Lemma cell_bound d f i b : cell d f i = Some b → (i < length d)%nat.
Proof. unfold cell. destruct (f !! i) as [[]|]; intros Hi; [by eapply lookup_lt_Some|done..]. Qed.

Lemma cell_shift n d f i :
  cell (replicate n 0 ++ d) (replicate n false ++ f) i =
    if decide (i < n)%nat then None else cell d f (i - n).
Proof.
  unfold cell. case_decide.
  - rewrite (lookup_app_l (replicate n false)) by (by rewrite length_replicate).
    by rewrite lookup_replicate_2.
  - rewrite !lookup_app_r by (rewrite length_replicate; lia).
    by rewrite !length_replicate.
Qed.

(** In a stream of at most the cap, a byte held at [q] sits at offset [d]. *)
Lemma stream_at_offset s d :
  stream_wf s → 0 <= d < 2147483648 →
  stream_at s (wrapping_add (TcpStream.base_seq s) d) =
    cell (vlist (TcpStream.data s)) (vlist (TcpStream.filled s)) (Z.to_nat d).
Proof.
  intros (_ & _ & Hb) Hd. unfold stream_at. rewrite seq_delta_add by lia.
  by rewrite (proj2 (Z.ltb_ge d 0)) by lia.
Qed.

(** Shifting the buffer moves no byte in sequence space. *)
Lemma rebase_view s shift q :
  stream_wf s → is_u32 q → 0 <= shift →
  shift + zlen (vlist (TcpStream.data s)) <= MAX_TCP_STREAM_BYTES →
  -2147483648 + shift <= seq_delta q (TcpStream.base_seq s) < 2147483648 - shift →
  stream_at (TcpStream.rebase s shift (wrapping_add (TcpStream.base_seq s) (- shift))) q =
  stream_at s q.
Proof.
  intros (Hcov & _ & Hb) Hq Hs Hcap Hr.
  destruct (rebase_cov s shift (wrapping_add (TcpStream.base_seq s) (- shift)) Hs Hcap Hcov)
    as (_ & Hd & Hf).
  destruct (rebase_fields s shift (wrapping_add (TcpStream.base_seq s) (- shift)))
    as (_ & Hbase & _).
  set (s' := TcpStream.rebase _ _ _) in *. clearbody s'.
  unfold stream_at. rewrite Hbase, Hd, Hf.
  set (d := seq_delta q (TcpStream.base_seq s)) in *.
  assert (seq_delta q (wrapping_add (TcpStream.base_seq s) (- shift)) = d + shift) as ->.
  { rewrite <- (wrapping_add_seq_delta q (TcpStream.base_seq s) Hq). fold d.
    rewrite seq_delta_origin; lia. }
  unfold zreplicate. rewrite cell_shift.
  destruct (Z.ltb_spec (d + shift) 0), (Z.ltb_spec d 0); try lia; [done|..].
  - by rewrite decide_True by lia.
  - rewrite decide_False by lia. f_equal. lia.
Qed.

Lemma write_at_fields s off payload declared :
  let '(s', w) := TcpStream.write_at s off payload declared in
  TcpStream.base_seq s' = TcpStream.base_seq s ∧
  TcpStream.first_seen_ms s' = TcpStream.first_seen_ms s ∧
  TcpStream.last_seen_ms s' = TcpStream.last_seen_ms s ∧
  TcpStream.finished s' = hit_cap w || TcpStream.finished s ∧
  (TcpStream.data s', TcpStream.filled s', w) =
    write_first_seen_wins (TcpStream.data s) (TcpStream.filled s) off payload
      MAX_TCP_STREAM_BYTES.
Proof.
  unfold TcpStream.write_at. destruct (write_first_seen_wins _ _ _ _ _) as [[d f] w].
  by destruct (hit_cap w), (_ <? declared).
Qed.

(** The write is the first-seen union with the segment, inside the window of
    [MAX_TCP_STREAM_BYTES] bytes after the base. *)
Lemma write_at_view s off payload declared q :
  0 <= off <= MAX_TCP_STREAM_BYTES → zlen payload <= U32_MAX →
  cov_wf (TcpStream.data s) (TcpStream.filled s) MAX_TCP_STREAM_BYTES →
  is_u32 q →
  let d := seq_delta q (TcpStream.base_seq s) in
  stream_at (TcpStream.write_at s off payload declared).1 q =
    first_seen (stream_at s q)
      (if (0 <=? d) && (d <? MAX_TCP_STREAM_BYTES)
       then segment_at (wrapping_add (TcpStream.base_seq s) off) payload q else None).
Proof.
  intros Ho Hl Hcov Hq d. pose proof (write_at_fields s off payload declared) as Hf.
  destruct (TcpStream.write_at s off payload declared) as [s' w].
  destruct Hf as (Hbase & _ & _ & _ & Hw). simpl. unfold stream_at. rewrite Hbase. fold d.
  pose proof (seq_delta_range q (TcpStream.base_seq s)) as Hr. fold d in Hr.
  destruct (Z.ltb_spec d 0), (Z.leb_spec 0 d); try lia; [done|]. simpl.
  pose proof (write_cell (TcpStream.data s) (TcpStream.filled s) off payload
    MAX_TCP_STREAM_BYTES (Z.to_nat d) (proj1 Ho) ltac:(done)
    ltac:(unfold MAX_TCP_STREAM_BYTES in *; zlia) (proj1 Hcov)) as Hc.
  rewrite <- Hw in Hc. rewrite Hc. f_equal. unfold piece. rewrite Z2Nat.id by lia.
  destruct (Z.ltb_spec d MAX_TCP_STREAM_BYTES) as [Hlt|]; [|by rewrite andb_false_r].
  rewrite andb_true_r. unfold segment_at.
  assert (seq_delta q (wrapping_add (TcpStream.base_seq s) off) = d - off) as ->.
  { rewrite <- (wrapping_add_seq_delta q (TcpStream.base_seq s) Hq) at 1. fold d.
    apply seq_delta_origin. unfold MAX_TCP_STREAM_BYTES in *. lia. }
  destruct (Z.leb_spec off d), (Z.ltb_spec (d - off) 0); try lia; [|done]. f_equal. lia.
Qed.

Lemma stream_at_bound s q b :
  stream_wf s → stream_at s q = Some b →
  0 <= seq_delta q (TcpStream.base_seq s) < MAX_TCP_STREAM_BYTES.
Proof.
  intros ((_ & Hcap & _) & _) Hq. unfold stream_at in Hq. case_zb; [done|].
  apply cell_bound in Hq. lia.
Qed.

(** Placing a segment moves no byte in sequence space, and puts the
    segment's first byte at its own sequence number. *)
Lemma place_view s seq placed off :
  is_u32 seq → stream_wf s → TcpStream.place s seq = Some (placed, off) →
  wrapping_add (TcpStream.base_seq placed) off = seq ∧
  (∀ q b, is_u32 q → stream_at s q = Some b → stream_at placed q = Some b) ∧
  (∀ q, is_u32 q → 0 <= seq_delta q (TcpStream.base_seq placed) < MAX_TCP_STREAM_BYTES →
        stream_at placed q = stream_at s q).
Proof.
  intros Hseq Hs Hp%place_cases. pose proof Hs as (_ & _ & Hb).
  pose proof (wrapping_add_seq_delta seq (TcpStream.base_seq s) Hseq) as Hsd.
  set (rel := seq_delta seq (TcpStream.base_seq s)) in *.
  destruct Hp as [(Hr & -> & ->)|(Hr & Hcap & -> & ->)]; [done|].
  assert (Hview : ∀ q, is_u32 q →
    -2147483648 + - rel <= seq_delta q (TcpStream.base_seq s) < 2147483648 - - rel →
    stream_at (TcpStream.rebase s (- rel) seq) q = stream_at s q).
  { intros q Hq Hd. rewrite <- (rebase_view s (- rel) q) by (done || lia).
    by rewrite Z.opp_involutive, Hsd. }
  destruct (rebase_fields s (- rel) seq) as (_ & Hbase & _). rewrite Hbase.
  split; [by apply wrapping_add_0|].
  unfold MAX_TCP_STREAM_BYTES in *. split.
  - intros q b Hq Hqb. pose proof (stream_at_bound s q b Hs Hqb) as Hd.
    unfold MAX_TCP_STREAM_BYTES in *. rewrite Hview; [done|done|lia].
  - intros q Hq Hd. apply Hview; [done|].
    assert (seq_delta q (TcpStream.base_seq s) = seq_delta q seq + rel) as ->; [|lia].
    rewrite <- (wrapping_add_seq_delta q seq Hq) at 1.
    rewrite <- Hsd at 1. rewrite wrapping_add_assoc.
    rewrite seq_delta_add by lia. lia.
Qed.

(** An entry that still buffers is not disturbed before the write. *)
Lemma tcp_prepare_live st key s now :
  streams st !! key = Some s → TcpStream.is_idle s now = false → prepare_key st key now = st.
Proof.
  intros Hk Hi. unfold prepare_key. rewrite bool_decide_eq_false_2 by congruence.
  simpl. by rewrite Hk, Hi.
Qed.

(** One segment on a direction that buffers, or a new one, step by step. *)
Lemma feed_step st key seq payload declared now s :
  payload ≠ [] → prepare_key st key now = st →
  default (TcpStream.new seq now) (streams st !! key) = s →
  TcpStream.finished s = false →
  sat_sub now (TcpStream.first_seen_ms s) <= TCP_DECISION_WINDOW_MS →
  let s0 := s <| TcpStream.last_seen_ms := now |> in
  feed st key seq payload declared now =
    match TcpStream.place s0 seq with
    | None => (st <| streams ::= <[key := s0]> |>, None)
    | Some (placed, off) =>
        let '(s', w) := TcpStream.write_at placed off payload declared in
        (evict_oldest_until
           (st <| streams ::= <[key := s']> |>
               <| bytes_held ::= λ h, sat_sub (sat_add h (TcpStream.accounted_bytes s'))
                    (TcpStream.accounted_bytes s0) |>
               <| counters ::= λ c,
                    let c := c <| conflicting_overlap_bytes ::= Z.add (conflicting w) |> in
                    if hit_cap w then c <| abandoned_without_completing ::= Z.succ |> else c |>)
           MAX_TCP_STREAMS MAX_TCP_BYTES_TOTAL,
         if (0 <? newly_written w) || hit_cap w then Some (TcpStream.status s') else None)
    end.
Proof.
  intros Hp Hprep <- Hfin Hwin s0. unfold feed. rewrite bool_decide_eq_false_2 by done.
  rewrite Hprep. fold s0. unfold s0 at 1 3. simpl. rewrite Hfin.
  by rewrite (proj2 (Z.ltb_ge _ _) Hwin).
Qed.

(** What a buffering direction's entry can be after a segment. *)
Lemma feed_buffering_entry st key seq payload declared now s s' :
  payload ≠ [] → streams st !! key = Some s → buffering s now →
  streams (feed st key seq payload declared now).1 !! key = Some s' →
  let s0 := s <| TcpStream.last_seen_ms := now |> in
  s' = s0 ∨
  ∃ placed off, TcpStream.place s0 seq = Some (placed, off) ∧
    s' = (TcpStream.write_at placed off payload declared).1.
Proof.
  intros Hp Hk (Hfin & Hidle & Hwin).
  rewrite (feed_step st key seq payload declared now s); [|done|by eapply tcp_prepare_live
    |by rewrite Hk|done|done]. simpl. destruct (TcpStream.place _ seq) as [[placed off]|]; simpl.
  - destruct (TcpStream.write_at placed off payload declared) as [s'' w] eqn:Hw. simpl.
    rewrite evict_until_streams. intros Hl.
    pose proof (lookup_weaken _ _ _ _ Hl (evict_oldest_subseteq _ _ _ _ _)) as Hx.
    simpl in Hx. rewrite lookup_insert_eq in Hx. simplify_eq. right.
    exists placed, off. by rewrite Hw.
  - rewrite lookup_insert_eq. intros [= <-]. by left.
Qed.

(** *** Any segmentation of one byte stream *)

Lemma stream_holds_new S isn t0 seq payload now :
  is_u32 seq → is_u32 isn → seg_honest S isn t0 (seq, payload, now) →
  stream_holds S isn t0 [] (TcpStream.new seq now).
Proof.
  intros Hseq Hisn (_ & _ & Ho & Hs & Ht). simpl in *. exists (seg_offset isn (seq, payload, now)).
  pose proof Hs as (_ & Hle & _)%slice_Some. unfold seg_offset in *. simpl in *.
  split; [by rewrite wrapping_add_seq_delta|]. split; [done|].
  split; [by intros i ?%Exists_nil|]. split; [lia|]. split; [|split; [done|lia]].
  intros i Hi. unfold stream_at; simpl. by case_zb.
Qed.

(** A segment of [S] is always placed, and moves the base to the earliest
    offset seen. *)
Lemma place_honest S isn t0 sg base s :
  zlen S <= MAX_TCP_STREAM_BYTES → stream_wf s → seg_honest S isn t0 sg →
  TcpStream.base_seq s = wrapping_add isn base → 0 <= base →
  base + zlen (vlist (TcpStream.data s)) <= zlen S →
  ∃ placed, let base' := Z.min base (seg_offset isn sg) in
    TcpStream.place s sg.1.1 = Some (placed, seg_offset isn sg - base') ∧
    TcpStream.base_seq placed = wrapping_add isn base' ∧
    base' + zlen (vlist (TcpStream.data placed)) <= zlen S ∧
    TcpStream.finished placed = TcpStream.finished s ∧
    TcpStream.first_seen_ms placed = TcpStream.first_seen_ms s ∧
    TcpStream.last_seen_ms placed = TcpStream.last_seen_ms s.
Proof.
  intros Hcap Hs (Hseq & _ & Ho & Hsl & _) Hbase Hb Hlen.
  pose proof Hsl as (_ & Hle & _)%slice_Some. unfold MAX_TCP_STREAM_BYTES in Hcap.
  set (o := seg_offset isn sg) in *.
  assert (sg.1.1 = wrapping_add isn o) as Hsq by (symmetry; by apply wrapping_add_seq_delta).
  assert (Hrel : seq_delta sg.1.1 (TcpStream.base_seq s) = o - base).
  { rewrite Hbase, Hsq. apply seq_delta_origin. lia. }
  unfold TcpStream.place. rewrite Hrel. unfold MAX_TCP_STREAM_BYTES at 1 2.
  destruct (Z.ltb_spec (o - base) 0).
  - rewrite Z.abs_neq, Z.min_r by lia. rewrite (proj2 (Z.ltb_ge _ _)).
    2: { unfold sat_add. lia. }
    destruct (rebase_cov s (- (o - base)) sg.1.1) as (_ & Hd & _);
      [lia|unfold MAX_TCP_STREAM_BYTES; lia|apply Hs|].
    destruct (rebase_fields s (- (o - base)) sg.1.1) as (_ & Hbs & Hf & H1s & H2s & _).
    eexists. split; [by rewrite Z.sub_diag|]. rewrite Hd, Hbs, Hf, H1s, H2s.
    split; [done|]. split; [|done]. rewrite length_app, length_zreplicate. lia.
  - rewrite Z.min_l by lia. rewrite (proj2 (Z.ltb_ge _ _)) by lia. by eexists.
Qed.

(** The bytes an honest segment carries, by stream position. *)
Lemma segment_at_honest S isn t0 sg i :
  zlen S <= MAX_TCP_STREAM_BYTES → seg_honest S isn t0 sg → (i < length S)%nat →
  segment_at sg.1.1 sg.1.2 (wrapping_add isn (Z.of_nat i)) =
    if decide (seg_covers isn i sg) then S !! i else None.
Proof.
  intros Hcap (Hseq & _ & Ho & Hsl & _) Hi. unfold MAX_TCP_STREAM_BYTES in Hcap.
  pose proof Hsl as (_ & Hle & Heq)%slice_Some. unfold segment_at, seg_covers.
  set (o := seg_offset isn sg) in *.
  assert (sg.1.1 = wrapping_add isn o) as -> by (symmetry; by apply wrapping_add_seq_delta).
  rewrite seq_delta_origin by lia.
  destruct (Z.ltb_spec (Z.of_nat i - o) 0).
  { by rewrite decide_False by lia. }
  case_decide as Hc; [|apply lookup_ge_None_2; lia].
  rewrite Heq. unfold ztake, zdrop. rewrite lookup_take_lt, lookup_drop by lia.
  f_equal. lia.
Qed.

Lemma Exists_snoc {A} (P : A → Prop) l x : Exists P (l ++ [x]) ↔ Exists P l ∨ P x.
Proof. rewrite Exists_app, Exists_cons, Exists_nil. tauto. Qed.

Lemma first_seen_decide {A} (Q : A → Prop) `{!∀ x, Decision (Q x)} l x (o : option Z) :
  first_seen (if decide (Exists Q l) then o else None) (if decide (Q x) then o else None) =
    if decide (Exists Q (l ++ [x])) then o else None.
Proof.
  destruct (decide (Exists Q (l ++ [x]))) as [He|He]; rewrite Exists_snoc in He.
  - destruct He; [rewrite decide_True by done|rewrite (decide_True (P := Q x)) by done].
    + destruct o; [done|]. by case_decide.
    + by destruct o; case_decide.
  - rewrite !decide_False by tauto. done.
Qed.

Lemma stream_holds_step S isn t0 seen s sg declared :
  zlen S <= MAX_TCP_STREAM_BYTES → is_u32 isn → stream_wf s →
  seg_honest S isn t0 sg → stream_holds S isn t0 seen s →
  ∃ placed off, TcpStream.place s sg.1.1 = Some (placed, off) ∧
    stream_holds S isn t0 (seen ++ [sg]) (TcpStream.write_at placed off sg.1.2 declared).1.
Proof.
  intros Hcap Hisn Hs Hsg (base & Hbase & Hb & Hmin & Hlen & Hview & Hfin & Ht1 & Ht2).
  destruct (place_honest S isn t0 sg base s Hcap Hs Hsg Hbase Hb Hlen)
    as (placed & Hpl & Hpb & Hplen & Hpf & Hp1 & Hp2).
  pose proof Hsg as (Hseq & _ & Ho & Hsl & _). pose proof Hsl as (_ & Hle & Heq)%slice_Some.
  destruct (place_view s _ _ _ Hseq Hs Hpl) as (Hsq & _ & Hpv).
  destruct (place_wf s _ _ _ Hseq Hs Hpl) as (Hpc & _ & _ & Hoff).
  set (o := seg_offset isn sg) in *. set (base' := Z.min base o) in *.
  exists placed, (o - base'). split; [done|].
  assert (Hl32 : zlen sg.1.2 <= U32_MAX) by (unfold MAX_TCP_STREAM_BYTES in *; zlia).
  pose proof (λ q Hq, write_at_view placed (o - base') sg.1.2 declared q Hoff Hl32 Hpc Hq) as Hwv.
  pose proof (write_at_fields placed (o - base') sg.1.2 declared) as Hwf.
  pose proof (write_length (TcpStream.data placed) (TcpStream.filled placed) (o - base')
    sg.1.2 MAX_TCP_STREAM_BYTES (proj1 Hoff)) as Hwl.
  pose proof (write_counts (TcpStream.data placed) (TcpStream.filled placed) (o - base')
    sg.1.2 MAX_TCP_STREAM_BYTES (proj1 Hoff) ltac:(done)
    ltac:(unfold MAX_TCP_STREAM_BYTES in *; zlia) (proj1 Hpc)) as Hwc.
  destruct (TcpStream.write_at placed (o - base') sg.1.2 declared) as [s' w]. simpl in *.
  destruct Hwf as (Hsb & Hs1 & Hs2 & Hsf & Hww). rewrite <- Hww in Hwl, Hwc.
  exists base'. rewrite Hsb, Hs1, Hs2, Hsf, Hpf, Hp1, Hp2, Hpb.
  split; [done|]. split; [lia|]. split; [|split; [lia|split; [|split; [|done]]]].
  - intros i [Hi|Hi]%Exists_snoc; [specialize (Hmin i Hi); lia|].
    unfold seg_covers in Hi. fold o in Hi. lia.
  - intros i Hi. rewrite Hwv by apply wrap_u32_range. rewrite Hsq, Hpb.
    assert (Hd : seq_delta (wrapping_add isn (Z.of_nat i)) (wrapping_add isn base') =
              Z.of_nat i - base').
    { apply seq_delta_origin. unfold MAX_TCP_STREAM_BYTES in *. lia. }
    rewrite Hd, (segment_at_honest S isn t0 sg i Hcap Hsg Hi).
    destruct (Z.leb_spec 0 (Z.of_nat i - base')); simpl.
    + rewrite (proj2 (Z.ltb_lt _ _)) by lia.
      rewrite Hpv by (rewrite ?Hpb, ?Hd; lia || apply wrap_u32_range).
      rewrite Hview by done. apply (first_seen_decide (seg_covers isn i)).
    + unfold stream_at. rewrite Hpb, Hd, (proj2 (Z.ltb_lt _ _)) by lia.
      rewrite decide_False; [done|]. intros [He|He]%Exists_snoc; [specialize (Hmin i He); lia|].
      unfold seg_covers in He. fold o in He. lia.
  - destruct Hwc as (_ & _ & ->). rewrite orb_false_iff. split; [|done].
    apply Z.ltb_ge. lia.
Qed.

Lemma evict_until_single st key s :
  tcp_inv st → streams st = {[key := s]} →
  streams (evict_oldest_until st MAX_TCP_STREAMS MAX_TCP_BYTES_TOTAL) = {[key := s]}.
Proof.
  intros [[Hheld _] Hwf] Hs. rewrite evict_until_streams, evict_oldest_within; [done|].
  apply within_true. rewrite Hs, map_size_singleton. split; [done|].
  rewrite Hheld, Hs, <- insert_empty, map_total_insert, map_total_empty by apply lookup_empty.
  pose proof (stream_accounted_range s (Hwf key s ltac:(by rewrite Hs; apply lookup_singleton_eq))).
  cbn [accounted TcpStream_budgeted]. unfold MAX_TCP_BYTES_TOTAL. lia.
Qed.

Lemma stream_holds_touch S isn t0 seen s now :
  t0 <= now → stream_holds S isn t0 seen s →
  stream_holds S isn t0 seen (s <| TcpStream.last_seen_ms := now |>).
Proof.
  intros Hn (base & ? & ? & ? & ? & ? & ? & ? & ?). exists base. by split_and!.
Qed.

(** The entry an honest segment finds, on both sides of the first one. *)
Lemma collecting_entry S isn t0 key seen st sg :
  is_u32 isn → tcp_collecting S isn t0 key seen st → seg_honest S isn t0 sg →
  let s := default (TcpStream.new sg.1.1 sg.2) (streams st !! key) in
  prepare_key st key sg.2 = st ∧ stream_holds S isn t0 seen s ∧
  sat_sub sg.2 (TcpStream.first_seen_ms s) <= TCP_DECISION_WINDOW_MS ∧
  (∀ s', <[key := s']> (streams st) = {[key := s']}).
Proof.
  intros Hisn (_ & _ & Hst) Hsg. pose proof Hsg as (Hseq & _ & _ & _ & Ht).
  unfold TCP_DECISION_WINDOW_MS in *.
  destruct Hst as [[-> Hst]|(s & Hst & Hh)].
  - unfold prepare_key, streams_held. rewrite Hst, lookup_empty, map_size_empty. simpl.
    rewrite Hst, lookup_empty. split; [done|]. split; [|split; [unfold sat_sub; lia|done]].
    destruct sg as [[seq payload] now]. by apply (stream_holds_new _ _ _ _ payload).
  - assert (Hk : streams st !! key = Some s) by (rewrite Hst; apply lookup_singleton_eq).
    rewrite Hk. simpl. pose proof Hh as (base & _ & _ & _ & _ & _ & _ & H1s & H2s). split.
    + apply (tcp_prepare_live st key s); [done|]. unfold TcpStream.is_idle, sat_sub.
      apply Z.ltb_ge. unfold TCP_STREAM_IDLE_MS. lia.
    + split; [done|]. split; [unfold sat_sub; lia|].
      intros s'. rewrite Hst. apply insert_singleton_eq.
Qed.

Lemma feed_collecting_segment S isn t0 key seen st sg :
  zlen S <= MAX_TCP_STREAM_BYTES → is_u32 isn → tcp_collecting S isn t0 key seen st →
  seg_honest S isn t0 sg →
  tcp_collecting S isn t0 key (seen ++ [sg])
    (feed st key sg.1.1 sg.1.2 (zlen sg.1.2) sg.2).1.
Proof.
  intros Hcap Hisn Hcol Hsg. pose proof Hcol as (Hinv & Hb & _).
  pose proof Hsg as (Hseq & Hne & _ & Hsl & Ht). pose proof Hsl as (_ & Hle & _)%slice_Some.
  assert (Hlen : zlen sg.1.2 <= U32_MAX).
  { pose proof Hsg as (_ & _ & Ho & _). unfold MAX_TCP_STREAM_BYTES in *. zlia. }
  destruct (tcp_feed_inv st key sg.1.1 sg.1.2 (zlen sg.1.2) sg.2 Hseq Hlen Hinv Hb) as [Hinv' Hb'].
  split; [done|]. split; [done|]. right. clear Hinv' Hb'.
  destruct (collecting_entry S isn t0 key seen st sg Hisn Hcol Hsg) as (Hprep & Hh & Hwin & Hins).
  destruct (start_stream st key sg.1.1 sg.2 Hinv Hseq) as [Hwf Hacc].
  rewrite (feed_step st key sg.1.1 sg.1.2 (zlen sg.1.2) sg.2 _ Hne Hprep eq_refl); [|by destruct Hh as (?&?&?&?&?&?&?&?)|done].
  simpl. set (s0 := default _ _ <| TcpStream.last_seen_ms := sg.2 |>) in *.
  assert (Hh0 : stream_holds S isn t0 seen s0) by (apply stream_holds_touch; [lia|done]).
  clearbody s0.
  destruct (stream_holds_step S isn t0 seen s0 sg (zlen sg.1.2) Hcap Hisn Hwf Hsg Hh0)
    as (placed & off & Hpl & Hh'). rewrite Hpl.
  destruct (place_wf s0 _ _ _ Hseq Hwf Hpl) as (Hc & Hp & Hu & Ho).
  pose proof (write_at_wf placed off sg.1.2 (zlen sg.1.2) Ho Hlen Hc Hp Hu) as Hw.
  destruct (TcpStream.write_at placed off sg.1.2 (zlen sg.1.2)) as [s' w]. simpl in *.
  exists s'. split; [|done]. apply evict_until_single; [|apply Hins].
  rewrite Hacc. exact (tcp_inv_put st key s' _ Hinv Hb Hw).
Qed.

Lemma feed_segments_collecting S isn t0 key segs seen st :
  zlen S <= MAX_TCP_STREAM_BYTES → is_u32 isn → tcp_collecting S isn t0 key seen st →
  Forall (seg_honest S isn t0) segs →
  tcp_collecting S isn t0 key (seen ++ segs) (feed_segments st key segs).
Proof.
  intros Hcap Hisn. revert seen st.
  induction segs as [|[[seq payload] now] segs IH]; intros seen st Hcol Hall; simpl.
  { by rewrite app_nil_r. }
  apply Forall_cons in Hall as [Hsg Hall]. rewrite cons_middle, app_assoc.
  apply IH; [|done]. exact (feed_collecting_segment S isn t0 key seen st _ Hcap Hisn Hcol Hsg).
Qed.

(** The contiguous prefix of a direction that holds pieces of [S]. *)
Lemma stream_holds_prefix S isn t0 seen s :
  zlen S <= MAX_TCP_STREAM_BYTES → stream_wf s → stream_holds S isn t0 seen s →
  ∃ base, TcpStream.base_seq s = wrapping_add isn base ∧ 0 <= base ∧
    ∃ p, slice (vlist (TcpStream.data s)) 0 (TcpStream.prefix_len s) = Some p ∧
    p = ztake (zlen p) (zdrop base S) ∧
    ((∀ i, (i < length S)%nat → Exists (seg_covers isn i) seen) → S ≠ [] → base = 0 ∧ p = S).
Proof.
  intros Hcap ((Hlen & Hmax & _) & Hpre & Hu) (base & Hb & Hb0 & Hmin & Hfit & Hview & _).
  exists base. split; [done|]. split; [done|].
  pose proof (run_true_bounds (vlist (TcpStream.filled s))) as Hrun.
  set (n := run_true (vlist (TcpStream.filled s))) in *.
  assert (Hcell : ∀ i, (i < length (vlist (TcpStream.data s)))%nat →
     cell (vlist (TcpStream.data s)) (vlist (TcpStream.filled s)) i =
     stream_at s (wrapping_add isn (base + Z.of_nat i))).
  { intros i Hi. unfold stream_at. rewrite Hb.
    rewrite seq_delta_origin by (unfold MAX_TCP_STREAM_BYTES in *; lia).
    rewrite (proj2 (Z.ltb_ge _ _)) by lia. f_equal. lia. }
  rewrite Hpre. exists (ztake n (vlist (TcpStream.data s))).
  split; [apply slice_Some; rewrite Z.sub_0_r; split; [lia|]; split; [lia|done]|].
  assert (Hp : ztake n (vlist (TcpStream.data s)) = ztake n (zdrop base S)).
  { apply list_eq. intros i. unfold ztake, zdrop.
    destruct (decide (i < Z.to_nat n)%nat) as [Hi|]; [|by rewrite !lookup_take_ge by lia].
    rewrite !lookup_take_lt, lookup_drop by lia.
    rewrite <- (cell_prefix _ (vlist (TcpStream.filled s))), Hcell by lia.
    replace (base + Z.of_nat i) with (Z.of_nat (Z.to_nat base + i)) by lia.
    specialize (Hview (Z.to_nat base + i)%nat ltac:(lia)).
    assert (Hx : is_Some (stream_at s (wrapping_add isn (Z.of_nat (Z.to_nat base + i))))).
    { replace (Z.of_nat (Z.to_nat base + i)) with (base + Z.of_nat i) by lia.
      rewrite <- Hcell, cell_prefix by lia. apply lookup_lt_is_Some_2. lia. }
    rewrite Hview in Hx |- *. case_decide; [done|]. by destruct Hx. }
  rewrite length_ztake. split.
  { rewrite Hp at 1. f_equal. lia. }
  intros Hall Hne. assert (base = 0) as ->.
  { specialize (Hmin 0%nat (Hall 0%nat ltac:(destruct S; simpl; [done|lia]))). lia. }
  split; [done|]. rewrite Hp. unfold zdrop. simpl. rewrite drop_0.
  apply take_ge. enough (zlen S <= n) by lia.
  destruct (decide (length S <= length (vlist (TcpStream.filled s)))%nat) as [Hl|Hl].
  - apply run_true_ge; [done|]. intros i Hi. specialize (Hview i Hi).
    rewrite decide_True in Hview by auto. specialize (Hcell i ltac:(lia)).
    rewrite Z.add_0_l, Hview in Hcell. destruct (lookup_lt_is_Some_2 S i Hi) as [b Hbi].
    rewrite Hbi in Hcell. unfold cell in Hcell. by destruct (vlist (TcpStream.filled s) !! i) as [[]|].
  - exfalso. set (i := (length S - 1)%nat).
    specialize (Hview i ltac:(lia)). rewrite decide_True in Hview by (apply Hall; lia).
    destruct (lookup_lt_is_Some_2 S i ltac:(lia)) as [b Hbi]. rewrite Hbi in Hview.
    unfold stream_at in Hview. rewrite Hb, seq_delta_origin in Hview
      by (unfold MAX_TCP_STREAM_BYTES in *; lia).
    case_zb; [done|]. apply cell_bound in Hview. lia.
Qed.

(** *** Retransmissions *)

Lemma retransmitted_cells s seq (payload : bytes) :
  stream_wf s → is_u32 seq → zlen payload <= U32_MAX →
  0 <= seq_delta seq (TcpStream.base_seq s) < MAX_TCP_STREAM_BYTES →
  (∀ i, (i < length payload)%nat → is_Some (stream_at s (wrapping_add seq (Z.of_nat i)))) →
  ∀ i, (i < length payload)%nat →
    is_Some (cell (vlist (TcpStream.data s)) (vlist (TcpStream.filled s))
               (Z.to_nat (seq_delta seq (TcpStream.base_seq s)) + i)).
Proof.
  intros Hwf Hseq Hlen Hoff Hheld. set (off := seq_delta _ _) in *.
  assert (Hstep : ∀ i, (i < length payload)%nat → off + Z.of_nat i < 2147483648 →
    is_Some (cell (vlist (TcpStream.data s)) (vlist (TcpStream.filled s)) (Z.to_nat off + i))).
  { intros i Hi Hlt. specialize (Hheld i Hi).
    rewrite <- (wrapping_add_seq_delta seq (TcpStream.base_seq s) Hseq) in Hheld.
    fold off in Hheld. rewrite wrapping_add_assoc, stream_at_offset in Hheld by (done || lia).
    by replace (Z.to_nat off + i)%nat with (Z.to_nat (off + Z.of_nat i)) by lia. }
  intros i Hi. apply Hstep; [done|].
  destruct (Z.lt_ge_cases (off + Z.of_nat i) 2147483648) as [|Hge]; [done|]. exfalso.
  destruct (Hstep (Z.to_nat MAX_TCP_STREAM_BYTES)) as [b Hb]; unfold MAX_TCP_STREAM_BYTES in *; [lia|lia|].
  apply cell_bound in Hb. destruct Hwf as ((_ & Hmax & _) & _).
  unfold MAX_TCP_STREAM_BYTES in *. lia.
Qed.

(** Writing bytes that are all held only counts the disagreements. *)
Lemma write_at_held s off payload :
  stream_wf s ∧ (∀ i, (i < length payload)%nat →
    is_Some (cell (vlist (TcpStream.data s)) (vlist (TcpStream.filled s)) (Z.to_nat off + i))) →
  (0 < length payload)%nat → 0 <= off → zlen payload <= U32_MAX →
  TcpStream.write_at s off payload (zlen payload) =
    (s, mkOutcome 0 (disagreements (cell (vlist (TcpStream.data s)) (vlist (TcpStream.filled s)))
                       off payload) false).
Proof.
  intros [((Hl & Hmax & _) & Hpre & _) Hheld] Hpos Ho Hlen. unfold TcpStream.write_at.
  assert (off + zlen payload <= zlen (vlist (TcpStream.data s))).
  { destruct (Hheld (length payload - 1)%nat ltac:(lia)) as [b Hb].
    apply cell_bound in Hb. lia. }
  rewrite write_held; [|done|lia|unfold MAX_TCP_STREAM_BYTES in *; zlia|done|done|done].
  rewrite wrap_u32_id by zlia. rewrite Z.ltb_irrefl. simpl.
  unfold modify_field; simpl. f_equal. destruct s; simpl in *. f_equal.
  rewrite Hpre. apply contiguous_from_known. pose proof (run_true_bounds (vlist filled)). lia.
Qed.

Lemma evict_within_bounds st :
  streams_held st <= MAX_TCP_STREAMS → bytes_held st <= MAX_TCP_BYTES_TOTAL →
  evict_oldest_until st MAX_TCP_STREAMS MAX_TCP_BYTES_TOTAL = st.
Proof.
  intros Hn Hb. unfold evict_oldest_until.
  rewrite evict_oldest_within by (by apply within_true). by destruct st as [? ? []].
Qed.

Lemma sat_swap h a : 0 <= h → 0 <= a → h + a <= U64_MAX → sat_sub (sat_add h a) a = h.
Proof. intros. zlia. Qed.

End tcp_lemmas.

(** ** Theorems *)

Section tcp_theorems.
Context `{VecPolicy} `{IterOrder}.
Import TcpReassembler.

(** Whatever segments, decisions, flow drops, sweeps and resets are
    applied, in any order, the reassembler holds at most 2048 directions and
    reserves at most 4 MiB, [bytes_held] is exactly what its buffers reserve,
    no direction buffers more than 16 KiB, and every prefix it reports stops
    at the first hole. *)
Theorem tcp_reachable_bounded (st : t) :
  rtc tcp_step new st →
  streams_held st <= 2048 ∧ 0 <= bytes_held st <= 4194304 ∧
  bytes_held st = map_total TcpStream.accounted_bytes (streams st) ∧
  (∀ k s, streams st !! k = Some s →
     zlen (vlist (TcpStream.data s)) <= 16384 ∧
     TcpStream.accounted_bytes s <= 65536 ∧
     prefix st k = ztake (run_true (vlist (TcpStream.filled s))) (vlist (TcpStream.data s))).
Proof.
  intros Hr. assert (Hi : tcp_inv st ∧ tcp_bounded st).
  { apply (rtc_ind_r (R := tcp_step) (λ x, tcp_inv x ∧ tcp_bounded x) new);
      [apply tcp_new_inv| |done]. intros x y _ Hs Hx. by apply (tcp_step_inv x y). }
  destruct Hi as [[Ha Hwf] [Hn Hb]]. pose proof (accounts_nonneg _ _ Ha).
  split; [exact Hn|]. split; [split; [done|exact Hb]|]. split; [apply Ha|].
  intros k s Hk. specialize (Hwf k s Hk). pose proof (stream_accounted_range s Hwf).
  destruct Hwf as ((Hlen & Hl & _) & Hp & _). split; [exact Hl|]. split; [lia|].
  unfold prefix. rewrite Hk. simpl. rewrite Hp.
  pose proof (run_true_bounds (vlist (TcpStream.filled s))).
  unfold slice. rewrite (proj2 (Z.leb_le 0 _)), (proj2 (Z.leb_le _ (zlen _))) by lia.
  by rewrite Z.sub_0_r.
Qed.

(** The view of a buffering direction before and after a segment. *)
Lemma feed_view (st : t) (key : TcpStreamKey) (seq : Z) (payload : bytes)
    (declared now : Z) (s s' : TcpStream.t) :
  tcp_inv st → is_u32 seq → zlen payload <= U32_MAX →
  streams st !! key = Some s → buffering s now →
  streams (feed st key seq payload declared now).1 !! key = Some s' →
  ∀ q, is_u32 q →
    (∀ b, stream_at s q = Some b → stream_at s' q = Some b) ∧
    (∀ b, stream_at s' q = Some b →
          stream_at s q = Some b ∨ segment_at seq payload q = Some b).
Proof.
  intros Hinv Hseq Hlen Hk Hbuf Hk' q Hq.
  destruct (decide (payload = [])) as [->|Hne].
  { unfold feed in Hk'. rewrite bool_decide_eq_true_2 in Hk' by done. simpl in Hk'.
    simplify_eq. auto. }
  pose proof (proj2 Hinv key s Hk) as Hwf.
  destruct (feed_buffering_entry st key seq payload declared now s s' Hne Hk Hbuf Hk')
    as [->|(placed & off & Hpl & ->)]; [by auto|].
  set (s0 := s <| TcpStream.last_seen_ms := now |>) in *.
  assert (Hwf0 : stream_wf s0) by exact Hwf.
  destruct (place_wf s0 seq placed off Hseq Hwf0 Hpl) as (Hc & _ & _ & Ho).
  destruct (place_view s0 seq placed off Hseq Hwf0 Hpl) as (Hsq & Hpres & Hsame).
  rewrite (write_at_view placed off payload declared q Ho Hlen Hc Hq), Hsq. split.
  - intros b Hb. change (stream_at s q) with (stream_at s0 q) in Hb.
    by rewrite (Hpres q b Hq Hb).
  - intros b. destruct (Z.leb_spec 0 (seq_delta q (TcpStream.base_seq placed))) as [Hd|Hd]; simpl.
    + destruct (Z.ltb_spec (seq_delta q (TcpStream.base_seq placed)) MAX_TCP_STREAM_BYTES).
      * rewrite (Hsame q Hq) by lia. change (stream_at s0 q) with (stream_at s q).
        destruct (stream_at s q); simpl; auto.
      * unfold stream_at at 1. rewrite (proj2 (Z.ltb_ge _ _)) by lia.
        destruct (cell _ _ _) as [c|] eqn:Hcell; simpl; [|done].
        apply cell_bound in Hcell. destruct Hc as (_ & Hc & _). lia.
    + unfold stream_at at 1. rewrite (proj2 (Z.ltb_lt _ _)) by lia. done.
Qed.

(** C17: the monitor's view of a buffering direction is immutable: a segment,
    wherever it falls and whatever it carries, changes no byte already held at
    any sequence number, and every byte it adds is its own byte at that
    sequence number.  Holds across buffer shifts and 32-bit wrap-around. *)
Theorem feed_first_seen_wins (st : t) (key : TcpStreamKey) (seq : Z) (payload : bytes)
    (declared now : Z) (s s' : TcpStream.t) :
  tcp_inv st → is_u32 seq → zlen payload <= U32_MAX →
  streams st !! key = Some s → buffering s now →
  streams (feed st key seq payload declared now).1 !! key = Some s' →
  ∀ q, is_u32 q →
    (∀ b, stream_at s q = Some b → stream_at s' q = Some b) ∧
    (∀ b, stream_at s' q = Some b →
          stream_at s q = Some b ∨ segment_at seq payload q = Some b).
Proof. apply feed_view. Qed.

(** A segment whose bytes are all held already, a retransmission or an
    overlap rewrite attempt, reports no change and leaves buffers, accounting
    and every other direction as they were; only the last-seen time moves, and
    the conflict counter grows by the number of bytes that disagree. *)
Theorem feed_retransmission (st : t) (key : TcpStreamKey) (seq : Z) (payload : bytes)
    (now : Z) (s : TcpStream.t) :
  tcp_inv st → tcp_bounded st → payload ≠ [] → zlen payload <= U32_MAX → is_u32 seq →
  streams st !! key = Some s → buffering s now →
  (∀ i, (i < length payload)%nat → is_Some (stream_at s (wrapping_add seq (Z.of_nat i)))) →
  feed st key seq payload (zlen payload) now =
    (mk (<[key := s <| TcpStream.last_seen_ms := now |>]> (streams st)) (bytes_held st)
        (counters st <| conflicting_overlap_bytes ::=
           Z.add (disagreements (cell (vlist (TcpStream.data s)) (vlist (TcpStream.filled s)))
                    (seq_delta seq (TcpStream.base_seq s)) payload) |>), None).
Proof.
  intros Hinv Hb Hne Hlen Hseq Hk (Hfin & Hidle & Hwin) Hheld.
  pose proof (proj2 Hinv key s Hk) as Hwf. pose proof Hwf as (Hcov & Hpre & Hbase).
  set (off := seq_delta seq (TcpStream.base_seq s)) in *.
  assert (Hpos : (0 < length payload)%nat) by (destruct payload; [done|simpl; lia]).
  assert (Hoff : 0 <= off < MAX_TCP_STREAM_BYTES).
  { destruct (Hheld 0%nat Hpos) as [b Hb0]. simpl in Hb0. rewrite wrapping_add_0 in Hb0 by done.
    exact (stream_at_bound s seq b Hwf Hb0). }
  assert (Hcells : ∀ i, (i < length payload)%nat →
    is_Some (cell (vlist (TcpStream.data s)) (vlist (TcpStream.filled s)) (Z.to_nat off + i)))
    by (by apply retransmitted_cells).
  rewrite (feed_step st key seq payload (zlen payload) now s); [|done|by eapply tcp_prepare_live
    |by rewrite Hk|done|done].
  set (s0 := s <| TcpStream.last_seen_ms := now |>).
  assert (Hpl : TcpStream.place s0 seq = Some (s0, off)).
  { unfold TcpStream.place. change (TcpStream.base_seq s0) with (TcpStream.base_seq s). fold off.
    rewrite (proj2 (Z.ltb_ge off 0)), (proj2 (Z.ltb_ge _ off)) by lia. done. }
  rewrite Hpl, (write_at_held s0 off payload (conj Hwf Hcells) Hpos (proj1 Hoff) Hlen).
  assert (sat_sub (sat_add (bytes_held st) (TcpStream.accounted_bytes s0))
            (TcpStream.accounted_bytes s0) = bytes_held st) as Hsat.
  { pose proof (stream_accounted_range s Hwf). pose proof (accounts_nonneg _ _ (proj1 Hinv)).
    destruct Hb as [_ Hb]. unfold MAX_TCP_BYTES_TOTAL in Hb.
    change (TcpStream.accounted_bytes s0) with (TcpStream.accounted_bytes s).
    apply sat_swap; zlia. }
  cbn iota beta zeta. rewrite evict_within_bounds; simpl.
  - unfold modify_field; simpl. by rewrite Hsat.
  - unfold streams_held; simpl. rewrite map_size_insert_Some by eauto. apply Hb.
  - unfold modify_field; simpl. rewrite Hsat. apply Hb.
Qed.

(** C1: however a byte stream of at most 16 KiB is cut into segments, in
    whatever order, overlap and repetition they arrive within the decision
    window, the reported prefix is at every point a contiguous slice of that
    stream, and once the segments cover it the prefix is the whole stream and
    the reported base is its first sequence number. *)
Theorem feed_segments_reassembles (S : bytes) (isn t0 : Z) (key : TcpStreamKey)
    (segs : list segment) :
  zlen S <= 16384 → is_u32 isn → Forall (seg_honest S isn t0) segs →
  let st := feed_segments new key segs in
  (∃ base, prefix st key = ztake (zlen (prefix st key)) (zdrop base S)) ∧
  (S ≠ [] → (∀ i, (i < length S)%nat → Exists (seg_covers isn i) segs) →
   prefix st key = S ∧ base_seq st key = Some isn).
Proof.
  intros Hcap Hisn Hall st.
  assert (Hcol : tcp_collecting S isn t0 key segs st).
  { apply (feed_segments_collecting S isn t0 key segs []); try done.
    destruct tcp_new_inv. split; [done|]. split; [done|by left]. }
  destruct Hcol as (Hinv & _ & [[-> Hst]|(s & Hst & Hh)]); unfold prefix, base_seq.
  - rewrite Hst, lookup_empty. simpl. split; [exists 0; done|]. intros Hne Hcov.
    by specialize (Hcov 0%nat ltac:(destruct S; simpl; [done|lia])) as ?%Exists_nil.
  - assert (Hk : streams st !! key = Some s) by (rewrite Hst; apply lookup_singleton_eq).
    rewrite Hk. simpl.
    destruct (stream_holds_prefix S isn t0 segs s Hcap (proj2 Hinv _ _ Hk) Hh)
      as (base & Hb & Hb0 & p & Hsl & Hp & Hfull).
    rewrite Hsl. simpl. split; [by exists base|]. intros Hne Hcov.
    destruct (Hfull Hcov Hne) as [-> ->]. split; [done|]. by rewrite Hb, wrapping_add_0.
Qed.

End tcp_theorems.

(** ** A concrete direction

    Six bytes whose sequence numbers wrap past 2^32, the tail captured before
    the head. *)

Definition sample_tcp_key : TcpStreamKey :=
  mkTcpStreamKey (mkFlowKey Tcp (lit "10.0.0.1") 50000 (lit "10.0.0.2") 80) true.
Definition sample_stream : bytes := [71; 69; 84; 32; 47; 13].
Definition sample_isn : Z := 4294967294.
Definition sample_segs : list segment :=
  [(1, [32; 47; 13], 1000); (sample_isn, [71; 69; 84; 32], 1010)].

Lemma sample_segs_honest : Forall (seg_honest sample_stream sample_isn 900) sample_segs.
Proof.
  repeat constructor; simpl; try done; vm_compute; done.
Defined.

(** The reassembler after the tail only. *)
Definition sample_tcp : TcpReassembler.t :=
  (TcpReassembler.feed TcpReassembler.new sample_tcp_key 1 [32; 47; 13] 3 1000).1.

Definition sample_tcp_entry : TcpStream.t :=
  TcpStream.mk 1 (mkVec [32; 47; 13] 8) (mkVec [true; true; true] 8) 3 None false 1000 1000.

Lemma sample_tcp_inv : tcp_inv sample_tcp ∧ tcp_bounded sample_tcp.
Proof.
  destruct tcp_new_inv as [Hi Hb].
  exact (tcp_feed_inv TcpReassembler.new sample_tcp_key 1 [32; 47; 13] 3 1000
    ltac:(zlia) ltac:(simpl; zlia) Hi Hb).
Defined.

Lemma sample_tcp_lookup :
  TcpReassembler.streams sample_tcp !! sample_tcp_key = Some sample_tcp_entry.
Proof. vm_compute. reflexivity. Defined.

Lemma sample_tcp_buffering : buffering sample_tcp_entry 1010.
Proof. repeat split; vm_compute; done. Defined.

Import TcpReassembler.

Lemma tcp_reachable_bounded_witness :
  bytes_held sample_tcp = 16 ∧ streams_held sample_tcp <= 2048.
Proof.
  split; [vm_compute; reflexivity|].
  exact (proj1 (tcp_reachable_bounded sample_tcp (rtc_once _ _ (tcp_step_feed
    TcpReassembler.new sample_tcp_key 1 [32; 47; 13] 3 1000 ltac:(zlia) ltac:(simpl; zlia))))).
Defined.

Lemma feed_first_seen_wins_witness :
  let st' := (feed sample_tcp sample_tcp_key sample_isn [1; 1; 1; 99; 99] 5 1010).1 in
  ∃ s', streams st' !! sample_tcp_key = Some s' ∧ stream_at s' 1 = Some 32.
Proof.
  intros st'. eexists. assert (Hs : streams st' !! sample_tcp_key = Some
    (TcpStream.mk sample_isn (mkVec [1; 1; 1; 32; 47; 13] 8)
      (mkVec [true; true; true; true; true; true] 8) 6 None false 1000 1010))
    by (vm_compute; reflexivity).
  split; [exact Hs|].
  apply (feed_first_seen_wins sample_tcp sample_tcp_key sample_isn [1; 1; 1; 99; 99] 5 1010
    sample_tcp_entry _ (proj1 sample_tcp_inv) ltac:(unfold sample_isn; zlia) ltac:(simpl; zlia)
    sample_tcp_lookup sample_tcp_buffering Hs 1 ltac:(zlia)).
  vm_compute. reflexivity.
Defined.

Lemma feed_retransmission_witness :
  let r := feed sample_tcp sample_tcp_key 2 [47; 7] (zlen [47; 7]) 1010 in
  r.2 = None ∧ bytes_held r.1 = 16 ∧ conflicting_overlap_bytes (counters r.1) = 1.
Proof.
  intros r. unfold r.
  rewrite (feed_retransmission sample_tcp sample_tcp_key 2 [47; 7] 1010 sample_tcp_entry
    (proj1 sample_tcp_inv) (proj2 sample_tcp_inv) ltac:(done) ltac:(simpl; zlia) ltac:(zlia)
    sample_tcp_lookup sample_tcp_buffering).
  - split; [reflexivity|]. split; vm_compute; reflexivity.
  - intros i Hi. simpl in Hi. destruct i as [|[|i]]; [by eexists..|lia].
Defined.

Lemma feed_segments_reassembles_witness :
  prefix (feed_segments new sample_tcp_key sample_segs) sample_tcp_key = sample_stream.
Proof.
  apply (feed_segments_reassembles sample_stream sample_isn 900 sample_tcp_key sample_segs);
    [simpl; lia|unfold sample_isn; zlia|apply sample_segs_honest|done|].
  intros i Hi. simpl in Hi. destruct (decide (i < 3)%nat).
  - apply Exists_cons. right. apply Exists_cons. left. unfold seg_covers, seg_offset; simpl.
    rewrite seq_delta_refl. lia.
  - apply Exists_cons. left. change (seg_offset sample_isn _) with 3. 
    unfold seg_covers. change (seg_offset sample_isn _) with 3. simpl. lia.
Defined.
