(* ===== verification/DnsFraming.v ===== *)
(** * DNS-over-TCP message boundaries

    [DnsTcpFraming], [looks_like_dns_tcp_start] and [dns_tcp_walk] of
    [capture-agent/src/reassembly.rs]: where the next length-prefixed DNS
    message starts in a stream direction, kept as a sequence number (and, when
    a segment ends between the two bytes of a length prefix, the high byte),
    so that a segment from inside a message is not read as a new one. *)

From S2P Require Import Prelude Packet Budget Coverage Fragments TcpSegments.

(** ** The walk over length prefixes *)

(** The bytes of a segment, preceded by a carried prefix byte if any:
    [at(i)] of the source is [nth_z (walk_bytes carry bytes) i]. *)
Definition walk_bytes (carry : option Z) (bs : bytes) : bytes := option_list carry ++ bs.

(** The loop from [pos] on.  The outer option is the fuel, the inner one the
    walk's own result. *)
Fixpoint walk_loop (fuel : nat) (bs : bytes) (base_seq pos : Z)
    : option (option (Z * option Z)) :=
  match fuel with
  | O => None
  | S fuel' =>
      if pos <? zlen bs then
        match nth_z bs pos, nth_z bs (pos + 1) with
        | Some hi, Some lo =>
            let declared := be16 hi lo in
            if declared <? 12 then
              Some (if 0 <? pos then Some (wrapping_add base_seq (wrap_u32 pos), None) else None)
            else walk_loop fuel' bs base_seq (pos + (2 + declared))
        | _, _ => Some (Some (wrapping_add base_seq (wrap_u32 (pos + 1)), nth_z bs pos))
        end
      else Some (Some (wrapping_add base_seq (wrap_u32 pos), None))
  end.

Definition dns_tcp_walk (bs : bytes) (base_seq : Z) (carry : option Z)
    (response_only continuing : bool) : option (Z * option Z) :=
  let all := walk_bytes carry bs in
  if response_only
     && negb (match nth_z all 4 with
              | Some flags => negb (Z.land flags 128 =? 0)
              | None => continuing
              end)
  then None
  else default None (walk_loop (S (length all)) all base_seq 0).

(** ** A header a DNS message could have *)

Definition looks_like_dns_tcp_start (bs : bytes) : bool :=
  match slice bs 2 14 with
  | None => false
  | Some header =>
      let byte l i := default 0 (nth_z l i) in
      let declared := be16 (byte bs 0) (byte bs 1) in
      let count at_ := be16 (byte header at_) (byte header (at_ + 1)) in
      let high := byte header 2 in
      let low := byte header 3 in
      let is_response := negb (Z.land high 128 =? 0) in
      let opcode := Z.land (Z.shiftr high 3) 15 in
      let rcode := Z.land low 15 in
      let least_bytes := 12 + 5 * count 4 + 11 * (count 6 + count 8 + count 10) in
      bool_decide (opcode ∈ [0; 1; 2; 4; 5; 6])
      && (Z.land low 64 =? 0)
      && (rcode <=? 11)
      && (is_response || ((rcode =? 0) && (count 4 <=? 1)))
      && (least_bytes <=? declared)
  end.

(** ** The boundary table *)

Record DnsBoundary := mkBoundary {
  next_message_seq : Z;
  pending_high : option Z;
  boundary_last_seen_ms : Z
}.

Module DnsTcpFraming.

(** The [HashMap] of the struct is its only field. *)
Abbreviation t := (gmap TcpStreamKey DnsBoundary).

Definition new : t := ∅.

Definition forget (fr : t) (key : TcpStreamKey) : t := delete key fr.

Definition drop_flow (fr : t) (flow : FlowKey) : t :=
  delete (mkTcpStreamKey flow false) (delete (mkTcpStreamKey flow true) fr).

Definition evict_stale (fr : t) (now_ms : Z) : t :=
  filter (λ kb, sat_sub now_ms (boundary_last_seen_ms kb.2) <= TCP_STREAM_IDLE_MS) fr.

Section operations.
Context `{IterOrder}.

Definition record (fr : t) (key : TcpStreamKey) (boundary : DnsBoundary) : t :=
  let fr :=
    if bool_decide (fr !! key = None) && (MAX_TCP_STREAMS <=? Z.of_nat (size fr)) then
      match min_by_key (λ kb : TcpStreamKey * DnsBoundary, boundary_last_seen_ms kb.2) (iter fr) with
      | Some (oldest, _) => delete oldest fr
      | None => fr
      end
    else fr in
  <[key := boundary]> fr.

Definition walk_and_record (fr : t) (key : TcpStreamKey) (base_seq : Z) (carry : option Z)
    (bs : bytes) (response_only : bool) (now_ms : Z) : t :=
  let continuing := bool_decide (is_Some (fr !! key)) in
  match dns_tcp_walk bs base_seq carry response_only continuing with
  | Some (next, pending) => record fr key (mkBoundary next pending now_ms)
  | None => forget fr key
  end.

Definition skip_inside_message (fr : t) (key : TcpStreamKey) (seq : Z) (payload : bytes)
    (response_only : bool) (now_ms : Z) : t * bool :=
  match fr !! key with
  | None => (fr, false)
  | Some entry =>
      if TCP_STREAM_IDLE_MS <? sat_sub now_ms (boundary_last_seen_ms entry) then
        (delete key fr, false)
      else
        let delta := seq_delta seq (next_message_seq entry) in
        if (0 <? delta) || ((delta =? 0) && bool_decide (pending_high entry = None)) then
          (fr, false)
        else
          let offset := Z.abs delta in
          match slice payload offset (zlen payload) with
          | Some (b :: suffix) =>
              let base :=
                wrapping_sub (next_message_seq entry)
                  (Z.b2z (bool_decide (is_Some (pending_high entry)))) in
              (walk_and_record fr key base (pending_high entry) (b :: suffix) response_only now_ms,
               true)
          | _ => (fr, true)
          end
  end.

Definition note_consumed (fr : t) (key : TcpStreamKey) (seq : Z) (payload : bytes)
    (response_only : bool) (now_ms : Z) : t :=
  if bool_decide (payload = []) then fr
  else
    let '(fr, skipped) := skip_inside_message fr key seq payload response_only now_ms in
    if skipped then fr
    else
      let starts_message :=
        match fr !! key with
        | Some entry => next_message_seq entry =? seq
        | None => looks_like_dns_tcp_start payload
        end in
      if starts_message then walk_and_record fr key seq None payload response_only now_ms
      else fr.

Definition is_past_boundary (fr : t) (key : TcpStreamKey) (seq : Z) : bool :=
  match fr !! key with
  | None => true
  | Some entry => 0 <? seq_delta seq (next_message_seq entry)
  end.

Definition record_message (fr : t) (key : TcpStreamKey) (base_seq : Z) (bs : bytes)
    (other_protocol response_only : bool) (now_ms : Z) : t :=
  if response_only && other_protocol then forget fr key
  else if is_past_boundary fr key base_seq && negb (looks_like_dns_tcp_start bs) then fr
  else walk_and_record fr key base_seq None bs response_only now_ms.

Definition covers_first_message (fr : t) (key : TcpStreamKey) (base_seq : Z) (bs : bytes)
    : bool :=
  match bs with
  | hi :: lo :: _ =>
      let declared := be16 hi lo in
      if zlen bs <? 2 + declared then false
      else
        let end_ := wrapping_add base_seq (wrap_u32 (2 + declared)) in
        match fr !! key with
        | Some entry => 0 <=? seq_delta (next_message_seq entry) end_
        | None => false
        end
  | _ => false
  end.

End operations.

End DnsTcpFraming.

(** ** Specifications *)

(** A framed message: its two-byte length and its bytes. *)
Definition frame (m : bytes) : bytes := [zlen m `div` 256; zlen m `mod` 256] ++ m.
Definition framed (msgs : list bytes) : bytes := concat (frame <$> msgs).

(** A DNS message as it can be framed: at least a header, at most 65535. *)
Definition dns_message (m : bytes) : Prop := 12 <= zlen m <= U16_MAX.

(** The boundary after the first [n] bytes of a stream of framed messages:
    the start of the first message not yet begun, or, when [n] splits a length
    prefix, the position of its low byte and the high byte already seen. *)
Fixpoint boundary_after (msgs : list bytes) (n : Z) : Z * option Z :=
  match msgs with
  | [] => (0, None)
  | m :: msgs' =>
      if n <=? 0 then (0, None)
      else if n =? 1 then (1, Some (zlen m `div` 256))
      else
        let '(b, pending) := boundary_after msgs' (n - zlen (frame m)) in
        (zlen (frame m) + b, pending)
  end.

(** The entry a direction holds after the first [n] bytes, [isn] being the
    sequence number of the first. *)
Definition entry_after (msgs : list bytes) (isn n now : Z) : DnsBoundary :=
  let '(b, pending) := boundary_after msgs n in
  mkBoundary (wrapping_add isn b) pending now.

Definition framing_bounded (fr : DnsTcpFraming.t) : Prop :=
  Z.of_nat (size fr) <= MAX_TCP_STREAMS.

(** The operations on the table, in any order. *)
Inductive framing_step `{IterOrder} : DnsTcpFraming.t → DnsTcpFraming.t → Prop :=
| framing_skip fr key seq payload ro now :
    framing_step fr (DnsTcpFraming.skip_inside_message fr key seq payload ro now).1
| framing_consumed fr key seq payload ro now :
    framing_step fr (DnsTcpFraming.note_consumed fr key seq payload ro now)
| framing_message fr key seq payload other ro now :
    framing_step fr (DnsTcpFraming.record_message fr key seq payload other ro now)
| framing_forget fr key : framing_step fr (DnsTcpFraming.forget fr key)
| framing_drop_flow fr flow : framing_step fr (DnsTcpFraming.drop_flow fr flow)
| framing_evict fr now : framing_step fr (DnsTcpFraming.evict_stale fr now).

(** Printable ASCII. *)
Definition printable (b : Z) : Prop := 32 <= b <= 126.

(** A response: the QR bit of its flags is set. *)
Definition is_response_message (m : bytes) : Prop :=
  ∃ flags, m !! 2%nat = Some flags ∧ Z.land flags 128 ≠ 0.

(** What a direction may carry: framed messages, and responses only on a
    direction that is only trusted to answer. *)
Definition direction_ok (response_only : bool) (msgs : list bytes) : Prop :=
  Forall dns_message msgs ∧ (response_only = true → Forall is_response_message msgs).

(** A stream consumed in segments that end at the given positions and times. *)
Fixpoint consume_cuts `{IterOrder} (fr : DnsTcpFraming.t) (key : TcpStreamKey) (stream : bytes)
    (isn n : Z) (ro : bool) (cuts : list (Z * Z)) : DnsTcpFraming.t :=
  match cuts with
  | [] => fr
  | (m, now) :: cuts' =>
      let payload := default [] (slice stream n m) in
      consume_cuts (DnsTcpFraming.note_consumed fr key (wrapping_add isn n) payload ro now)
        key stream isn m ro cuts'
  end.

(** Cuts that advance through [len] bytes, within the idle time of [t0]. *)
Fixpoint cuts_ok (t0 n len : Z) (cuts : list (Z * Z)) : Prop :=
  match cuts with
  | [] => True
  | (m, now) :: cuts' =>
      n < m <= len ∧ t0 <= now <= t0 + TCP_STREAM_IDLE_MS ∧ cuts_ok t0 m len cuts'
  end.

Definition last_cut (n : Z) (cuts : list (Z * Z)) : Z := default n (fst <$> last cuts).

(** ** Lemmas *)

Section walk_lemmas.

Lemma wrapping_add_wrap a x : wrapping_add a (wrap_u32 x) = wrapping_add a x.
Proof. unfold wrapping_add, wrap_u32. by rewrite Zplus_mod_idemp_r. Qed.

Lemma zlen_frame m : zlen (frame m) = 2 + zlen m.
Proof. unfold frame. rewrite length_app. cbn [length]. lia. Qed.

Lemma framed_cons m msgs : framed (m :: msgs) = frame m ++ framed msgs.
Proof. done. Qed.

Lemma framed_app d r : framed (d ++ r) = framed d ++ framed r.
Proof. unfold framed. by rewrite fmap_app, concat_app. Qed.

Lemma frame_be16 m hi lo :
  frame m !! 0%nat = Some hi → frame m !! 1%nat = Some lo → be16 hi lo = zlen m.
Proof.
  unfold frame, be16. simpl. intros [= <-] [= <-].
  pose proof (Z.div_mod (zlen m) 256). lia.
Qed.

Lemma boundary_after_nonpos msgs n : n <= 0 → boundary_after msgs n = (0, None).
Proof. intros. destruct msgs; simpl; [done|]. by rewrite (proj2 (Z.leb_le _ _)). Qed.

(** The walk from a message start over the first [n] bytes of the messages
    that follow finds exactly the boundary after those bytes. *)
Lemma walk_loop_framed msgs fuel bs base pos n :
  Forall dns_message msgs → 0 <= pos → 0 <= n <= zlen (framed msgs) →
  zlen bs = pos + n → zdrop pos bs = ztake n (framed msgs) → n < Z.of_nat fuel →
  walk_loop fuel bs base pos =
    let '(b, pending) := boundary_after msgs n in
    Some (Some (wrapping_add base (pos + b), pending)).
Proof.
  revert fuel pos n. induction msgs as [|m msgs IH]; intros fuel pos n Hall Hpos Hn Hlen Hd Hf.
  all: destruct fuel as [|fuel]; [lia|]; cbn [walk_loop boundary_after].
  { change (zlen (framed [])) with 0 in Hn. rewrite (proj2 (Z.ltb_ge _ _)) by lia.
    by rewrite wrapping_add_wrap, Z.add_0_r. }
  apply Forall_cons in Hall as [Hm Hall]. unfold dns_message in Hm.
  destruct (Z.leb_spec n 0).
  { rewrite (proj2 (Z.ltb_ge _ _)) by lia. by rewrite wrapping_add_wrap, Z.add_0_r. }
  rewrite (proj2 (Z.ltb_lt _ _)) by lia.
  assert (Hat : ∀ i, (Z.of_nat i < n) → nth_z bs (pos + Z.of_nat i) = framed (m :: msgs) !! i).
  { intros i Hi. unfold nth_z. replace (Z.to_nat (pos + Z.of_nat i)) with (Z.to_nat pos + i)%nat by lia.
    rewrite <- lookup_drop. change (drop (Z.to_nat pos) bs) with (zdrop pos bs). rewrite Hd.
    unfold ztake. by rewrite lookup_take_lt by lia. }
  pose proof (Hat 0%nat ltac:(lia)) as Hhi. rewrite Z.add_0_r in Hhi. rewrite Hhi.
  rewrite framed_cons. change ((frame m ++ framed msgs) !! 0%nat) with (Some (zlen m `div` 256)).
  destruct (Z.eqb_spec n 1) as [->|].
  { assert (nth_z bs (pos + 1) = None) as ->.
    { unfold nth_z. apply lookup_ge_None. lia. }
    by rewrite wrapping_add_wrap. }
  pose proof (Hat 1%nat ltac:(lia)) as Hlo. change (Z.of_nat 1) with 1 in Hlo. rewrite Hlo.
  rewrite framed_cons. change ((frame m ++ framed msgs) !! 1%nat) with (Some (zlen m `mod` 256)).
  cbn iota beta zeta. rewrite (frame_be16 m) by done.
  rewrite (proj2 (Z.ltb_ge _ _)) by lia.
  rewrite framed_cons, length_app, Nat2Z.inj_add in Hn. rewrite zlen_frame in *.
  destruct (Z.le_gt_cases (2 + zlen m) n).
  - rewrite (IH fuel (pos + (2 + zlen m)) (n - (2 + zlen m))); [|done|lia|lia|lia| |lia].
    + destruct (boundary_after msgs (n - (2 + zlen m))) as [b p]. do 3 f_equal. f_equal. lia.
    + rewrite framed_cons in Hd. unfold zdrop, ztake in *.
      replace (Z.to_nat (pos + (2 + zlen m))) with (Z.to_nat pos + length (frame m))%nat
        by (pose proof (zlen_frame m); lia).
      rewrite <- drop_drop, Hd, take_app, drop_app, (take_ge (frame m)), drop_all by (pose proof (zlen_frame m); lia).
      rewrite Nat.sub_diag, drop_0. simpl. f_equal. pose proof (zlen_frame m); lia.
  - rewrite boundary_after_nonpos by lia. destruct fuel as [|fuel]; [lia|]. cbn [walk_loop].
    rewrite (proj2 (Z.ltb_ge _ _)) by lia. by rewrite wrapping_add_wrap, Z.add_0_r.
Qed.

(** The fuel given by [dns_tcp_walk] is enough on any bytes. *)
Lemma walk_loop_total fuel bs base pos :
  0 <= pos → Z.max 0 (zlen bs - pos) < Z.of_nat fuel → is_Some (walk_loop fuel bs base pos).
Proof.
  revert pos. induction fuel as [|fuel IH]; intros pos Hpos Hf; simpl; [lia|].
  case_zb; [|by eexists]. destruct (nth_z bs pos) as [hi|] eqn:Hhi; [|by eexists].
  destruct (nth_z bs (pos + 1)) as [lo|]; [|by eexists]. case_zb; [by eexists|].
  apply IH; lia.
Qed.

(** *** The boundary as a function of how much was seen *)

(** What precedes the boundary are whole messages, and the carried byte is the
    first byte of the next one. *)
Lemma boundary_after_split msgs n :
  Forall dns_message msgs → 0 <= n <= zlen (framed msgs) →
  ∃ d r, msgs = d ++ r ∧
    match boundary_after msgs n with
    | (b, None) => b = zlen (framed d) ∧ n <= b
    | (b, Some h) => b = zlen (framed d) + 1 ∧ b = n ∧
        ∃ m r', r = m :: r' ∧ h = zlen m `div` 256
    end.
Proof.
  revert n. induction msgs as [|m msgs IH]; intros n Hall Hn; cbn [boundary_after].
  { exists [], []. change (zlen (framed [])) with 0 in Hn. split; [done|]. split; [done|lia]. }
  apply Forall_cons in Hall as [Hm Hall]. rewrite framed_cons, length_app in Hn.
  destruct (Z.leb_spec n 0).
  { exists [], (m :: msgs). split; [done|]. split; [done|lia]. }
  destruct (Z.eqb_spec n 1) as [->|].
  { exists [], (m :: msgs). split; [done|]. split; [done|]. split; [done|]. by exists m, msgs. }
  destruct (Z.le_gt_cases (zlen (frame m)) n).
  - destruct (IH (n - zlen (frame m)) Hall ltac:(lia)) as (d & r & -> & Hb).
    exists (m :: d), r. split; [done|]. rewrite framed_cons, length_app.
    destruct (boundary_after (d ++ r) (n - zlen (frame m))) as [b [h|]]; cbn iota beta.
    2: lia.
    destruct Hb as (Hb1 & Hb2 & Hb3). split; [lia|]. split; [lia|done].
  - rewrite boundary_after_nonpos by lia. exists [m], msgs. split; [done|].
    rewrite framed_cons, length_app. change (zlen (framed [])) with 0.
    change (length (framed [])) with 0%nat. lia.
Qed.

(** Boundaries past whole messages shift by their length. *)
Lemma boundary_after_app d r k :
  Forall dns_message d → 0 <= k →
  boundary_after (d ++ r) (zlen (framed d) + k) =
    let '(b, p) := boundary_after r k in (zlen (framed d) + b, p).
Proof.
  intros Hd Hk. induction Hd as [|m d Hm Hd IH]; cbn [app boundary_after].
  { change (zlen (framed [])) with 0. rewrite Z.add_0_l. by destruct (boundary_after r k). }
  rewrite framed_cons, length_app. pose proof (zlen_frame m). unfold dns_message in Hm.
  rewrite (proj2 (Z.leb_gt _ _)), (proj2 (Z.eqb_neq _ _)) by lia.
  replace (Z.of_nat (length (frame m) + length (framed d)) + k - zlen (frame m))
    with (zlen (framed d) + k) by lia.
  rewrite IH. destruct (boundary_after r k) as [b p]. f_equal. lia.
Qed.

(** Inside a message the boundary does not move. *)
Lemma boundary_after_stable msgs n m :
  0 <= n <= m → m <= (boundary_after msgs n).1 → boundary_after msgs m = boundary_after msgs n.
Proof.
  revert n m. induction msgs as [|x msgs IH]; intros n m Hn Hm; cbn [boundary_after] in *; [done|].
  destruct (Z.leb_spec n 0), (Z.leb_spec m 0); cbn [fst] in *; try lia; [done|].
  destruct (Z.eqb_spec n 1) as [->|], (Z.eqb_spec m 1) as [->|]; cbn [fst] in *; try lia; [done|].
  destruct (Z.le_gt_cases 0 (n - zlen (frame x))).
  - rewrite (IH (n - zlen (frame x)) (m - zlen (frame x))); [done|lia|].
    destruct (boundary_after msgs (n - zlen (frame x))). cbn [fst] in *. lia.
  - rewrite (boundary_after_nonpos _ (n - _)) in * by lia. cbn [fst] in Hm.
    by rewrite boundary_after_nonpos by lia.
Qed.

Lemma boundary_after_fst_le msgs n :
  Forall dns_message msgs → 0 <= n <= zlen (framed msgs) →
  n <= (boundary_after msgs n).1 <= zlen (framed msgs).
Proof.
  intros Hall Hn. destruct (boundary_after_split msgs n Hall Hn) as (d & r & -> & Hb).
  rewrite framed_app, length_app in *. destruct (boundary_after _ n) as [b [h|]]; simpl.
  - destruct Hb as (-> & Hb & m & r' & -> & _). rewrite framed_cons, length_app.
    pose proof (zlen_frame m). lia.
  - lia.
Qed.

(** The flags byte of the first message of a walk passes the direction's
    test, or is not there yet. *)
Lemma walk_guard msgs n ro :
  direction_ok ro msgs → ro
    && negb (match nth_z (ztake n (framed msgs)) 4 with
             | Some flags => negb (Z.land flags 128 =? 0) | None => true end) = false.
Proof.
  intros [Hd Hr]. destruct ro; [|done]. specialize (Hr eq_refl). simpl.
  destruct (nth_z _ 4) as [fl|] eqn:Hfl; [|done]. apply negb_false_iff, negb_true_iff, Z.eqb_neq.
  unfold nth_z, ztake in Hfl. apply lookup_take_Some in Hfl as [Hfl _].
  destruct Hr as [|m msgs (f & Hf & Hne) _]; [done|]. rewrite framed_cons in Hfl.
  assert (frame m !! 4%nat = Some f) as Hx by done.
  rewrite lookup_app_l in Hfl by (by apply lookup_lt_Some in Hx). 
  change (Z.to_nat 4) with 4%nat in Hfl. congruence.
Qed.

(** A walk that starts at a message start. *)
Lemma dns_tcp_walk_framed msgs ro carry bs base n :
  direction_ok ro msgs → 0 <= n <= zlen (framed msgs) →
  walk_bytes carry bs = ztake n (framed msgs) →
  dns_tcp_walk bs base carry ro true =
    let '(b, p) := boundary_after msgs n in Some (wrapping_add base b, p).
Proof.
  intros Hok Hn Hw. unfold dns_tcp_walk. rewrite Hw, (walk_guard msgs n ro Hok).
  rewrite (walk_loop_framed msgs _ _ _ 0 n); [|apply Hok|lia|done|rewrite length_ztake; lia|done|rewrite length_ztake; lia].
  by destruct (boundary_after msgs n).
Qed.

End walk_lemmas.

Section framing_lemmas.
Context `{IterOrder}.
Import DnsTcpFraming.
Implicit Types fr : t.

Lemma record_lookup fr key b : record fr key b !! key = Some b.
Proof. unfold record. apply lookup_insert_eq. Qed.

Lemma record_bounded fr key b : framing_bounded fr → framing_bounded (record fr key b).
Proof.
  unfold framing_bounded, record. intros Hb. destruct (fr !! key) as [e|] eqn:Hk.
  - rewrite bool_decide_eq_false_2 by done. rewrite andb_false_l.
    by rewrite map_size_insert_Some by eauto.
  - rewrite bool_decide_eq_true_2 by done. rewrite andb_true_l.
    destruct (Z.leb_spec MAX_TCP_STREAMS (Z.of_nat (size fr))).
    + destruct (min_by_key _ (iter fr)) as [[oldest e]|] eqn:Hmin.
      * apply min_by_key_spec in Hmin as [Hin%elem_of_iter _].
        pose proof (size_delete_Some _ _ _ Hin).
        rewrite map_size_insert_None; [lia|]. rewrite lookup_delete_ne; [done|congruence].
      * apply min_by_key_None in Hmin. pose proof (length_iter fr) as Hl. rewrite Hmin in Hl.
        unfold MAX_TCP_STREAMS in *. simpl in Hl. lia.
    + rewrite map_size_insert_None by done. lia.
Qed.

Lemma delete_bounded fr key : framing_bounded fr → framing_bounded (delete key fr).
Proof.
  unfold framing_bounded. intros Hb. etrans; [|exact Hb].
  apply inj_le, map_subseteq_size, delete_subseteq.
Qed.

Lemma walk_and_record_bounded fr key base carry bs ro now :
  framing_bounded fr → framing_bounded (walk_and_record fr key base carry bs ro now).
Proof.
  intros. unfold walk_and_record. destruct (dns_tcp_walk _ _ _ _ _) as [[next p]|].
  - by apply record_bounded.
  - by apply delete_bounded.
Qed.

Lemma skip_bounded fr key seq payload ro now :
  framing_bounded fr → framing_bounded (skip_inside_message fr key seq payload ro now).1.
Proof.
  intros. unfold skip_inside_message. destruct (fr !! key) as [e|]; [|done].
  case_zb; [by apply delete_bounded|]. destruct (_ || _); [done|].
  destruct (slice _ _ _) as [[|b l]|]; [done| |done]. by apply walk_and_record_bounded.
Qed.

Lemma framing_step_bounded fr fr' : framing_step fr fr' → framing_bounded fr → framing_bounded fr'.
Proof.
  intros [? key seq payload ro now|? key seq payload ro now|? key seq payload other ro now
         |? key|? flow|? now] Hb.
  - by apply skip_bounded.
  - unfold note_consumed. case_bool_decide; [done|].
    pose proof (skip_bounded fr0 key seq payload ro now Hb) as Hs.
    destruct (skip_inside_message _ _ _ _ _ _) as [fr1 []]; [done|]. simpl in Hs.
    destruct (match fr1 !! key with Some _ => _ | None => _ end); [|done].
    by apply walk_and_record_bounded.
  - unfold record_message. destruct (ro && other); [by apply delete_bounded|].
    destruct (_ && _); [done|]. by apply walk_and_record_bounded.
  - by apply delete_bounded.
  - by do 2 apply delete_bounded.
  - unfold framing_bounded, evict_stale in *. etrans; [|exact Hb].
    apply inj_le, map_subseteq_size, map_filter_subseteq.
Qed.

(** *** Segments of a stream of framed messages *)

(** What is recorded when the bytes from a boundary up to [m] are walked. *)
Lemma walk_from_boundary fr key d r isn m ro now e :
  direction_ok ro (d ++ r) → zlen (framed d) <= m <= zlen (framed (d ++ r)) →
  fr !! key = Some e →
  ∀ carry bs, walk_bytes carry bs = ztake (m - zlen (framed d)) (framed r) →
  walk_and_record fr key (wrapping_add isn (zlen (framed d))) carry bs ro now !! key =
    Some (entry_after (d ++ r) isn m now).
Proof.
  intros [Hall Hro] Hm Hk carry bs Hw. unfold walk_and_record.
  rewrite bool_decide_eq_true_2 by eauto.
  assert (Hr : direction_ok ro r).
  { split; [by apply Forall_app in Hall as [_ ?]|].
    intros Ht. specialize (Hro Ht). by apply Forall_app in Hro as [_ ?]. }
  rewrite framed_app, length_app in Hm.
  rewrite (dns_tcp_walk_framed r ro carry bs _ (m - zlen (framed d)) Hr ltac:(lia) Hw).
  unfold entry_after. apply Forall_app in Hall as [Hd _].
  replace m with (zlen (framed d) + (m - zlen (framed d))) at 2 by lia.
  rewrite boundary_after_app by (done || lia).
  destruct (boundary_after r (m - zlen (framed d))) as [b p].
  rewrite record_lookup, wrapping_add_assoc. done.
Qed.

Lemma slice_framed d r m :
  zlen (framed d) <= m <= zlen (framed (d ++ r)) →
  slice (framed (d ++ r)) (zlen (framed d)) m = Some (ztake (m - zlen (framed d)) (framed r)).
Proof.
  intros Hm. unfold slice. rewrite !(proj2 (Z.leb_le _ _)) by lia. simpl.
  by rewrite framed_app, zdrop_app.
Qed.

(** A carried high byte is the byte before the low one. *)
Lemma slice_framed_carry d m0 r m :
  zlen (framed d) + 1 <= m <= zlen (framed (d ++ m0 :: r)) →
  ∃ bs, slice (framed (d ++ m0 :: r)) (zlen (framed d) + 1) m = Some bs ∧
    walk_bytes (Some (zlen m0 `div` 256)) bs = ztake (m - zlen (framed d)) (framed (m0 :: r)).
Proof.
  intros Hm. eexists. split.
  { unfold slice. by rewrite !(proj2 (Z.leb_le _ _)) by lia. }
  rewrite framed_app. unfold walk_bytes, zdrop, ztake. simpl option_list.
  replace (Z.to_nat (zlen (framed d) + 1)) with (length (framed d) + 1)%nat by lia.
  rewrite <- drop_drop, drop_app_length.
  replace (Z.to_nat (m - zlen (framed d))) with (S (Z.to_nat (m - (zlen (framed d) + 1)))) by lia.
  done.
Qed.

(** The bytes of a segment past the boundary, walked with the carried byte,
    move the boundary to the end of the segment. *)
Lemma walk_past_boundary fr key msgs isn n m ro now e b p x suffix :
  direction_ok ro msgs → 0 <= n → b < m <= zlen (framed msgs) →
  boundary_after msgs n = (b, p) → n <= b → fr !! key = Some e → is_u32 isn →
  slice (framed msgs) b m = Some (x :: suffix) →
  walk_and_record fr key (wrapping_sub (wrapping_add isn b) (Z.b2z (bool_decide (is_Some p))))
    p (x :: suffix) ro now !! key = Some (entry_after msgs isn m now).
Proof.
  intros Hok Hn Hm Hba Hnb Hk Hisn Hsl.
  destruct (boundary_after_split msgs n (proj1 Hok) ltac:(lia)) as (d & r & -> & Hb).
  rewrite Hba in Hb. destruct p as [h|]; cbn iota in Hb.
  - destruct Hb as (-> & _ & m0 & r' & -> & ->).
    destruct (slice_framed_carry d m0 r' m ltac:(lia)) as (bs & Hbs & Hw).
    rewrite Hsl in Hbs. simplify_eq.
    rewrite bool_decide_eq_true_2 by eauto. cbn [Z.b2z].
    replace (wrapping_sub (wrapping_add isn (zlen (framed d) + 1)) 1)
      with (wrapping_add isn (zlen (framed d))).
    + by apply (walk_from_boundary fr key d (m0 :: r') isn m ro now e Hok ltac:(lia) Hk).
    + unfold wrapping_sub, wrapping_add, wrap_u32. rewrite Zminus_mod_idemp_l. f_equal. lia.
  - destruct Hb as [-> _]. rewrite slice_framed in Hsl by lia. injection Hsl as Hsl.
    rewrite bool_decide_eq_false_2 by (by intros []). cbn [Z.b2z].
    replace (wrapping_sub (wrapping_add isn (zlen (framed d))) 0)
      with (wrapping_add isn (zlen (framed d))).
    + by apply (walk_from_boundary fr key d r isn m ro now e Hok ltac:(lia) Hk).
    + unfold wrapping_sub. rewrite Z.sub_0_r, wrap_u32_id; [done|]. apply wrap_u32_range.
Qed.

Lemma slice_nonempty {A} (l : list A) i j :
  0 <= i < j → j <= zlen l → ∃ x s, slice l i j = Some (x :: s).
Proof.
  intros Hi Hj. destruct (slice l i j) as [[|x s]|] eqn:Hs.
  - apply slice_length in Hs; simpl in *; lia.
  - by exists x, s.
  - apply slice_None in Hs. lia.
Qed.

(** The walk of a segment that carries the stream on from byte [n]. *)
Lemma skip_contiguous fr key msgs isn n m ro t now payload :
  direction_ok ro msgs → zlen (framed msgs) < 2147483648 → is_u32 isn → 0 <= n < m →
  m <= zlen (framed msgs) → slice (framed msgs) n m = Some payload →
  fr !! key = Some (entry_after msgs isn n t) → sat_sub now t <= TCP_STREAM_IDLE_MS →
  let '(fr', skipped) := skip_inside_message fr key (wrapping_add isn n) payload ro now in
  skipped = negb (bool_decide (boundary_after msgs n = (n, None))) ∧
  if skipped
  then ∃ t', t' ∈ [t; now] ∧ fr' !! key = Some (entry_after msgs isn m t')
  else fr' = fr.
Proof.
  intros Hok Hbig Hisn Hn Hm Hsl Hk Hidle. unfold skip_inside_message.
  pose proof (boundary_after_fst_le msgs n (proj1 Hok) ltac:(lia)) as Hle.
  pose proof (boundary_after_stable msgs n m ltac:(lia)) as Hstable.
  pose proof (λ e b p x suffix, walk_past_boundary fr key msgs isn n m ro now e b p x suffix
    Hok ltac:(lia)) as Hwalk.
  unfold entry_after in Hk.
  destruct (boundary_after msgs n) as [b p] eqn:Hba. cbn [fst] in *. rewrite Hk.
  cbn [boundary_last_seen_ms next_message_seq pending_high].
  rewrite (proj2 (Z.ltb_ge _ _)) by done.
  rewrite seq_delta_origin by lia. rewrite (proj2 (Z.ltb_ge 0 (n - b))) by lia. cbn [orb].
  destruct ((n - b =? 0) && bool_decide (p = None)) eqn:Hat.
  { apply andb_true_iff in Hat as [Hz%Z.eqb_eq Hp%bool_decide_eq_true].
    rewrite bool_decide_eq_true_2; [done|]. subst p. f_equal. lia. }
  rewrite (bool_decide_eq_false_2 ((b, p) = (n, None))).
  2: { intros [= -> ->]. rewrite Z.sub_diag, bool_decide_eq_true_2 in Hat; done. }
  replace (Z.abs (n - b)) with (b - n) by lia.
  pose proof (slice_length _ _ _ _ Hsl ltac:(lia)) as Hlen.
  destruct (Z.le_gt_cases m b) as [Hmb|Hmb].
  - assert (slice payload (b - n) (zlen payload) = None ∨
            slice payload (b - n) (zlen payload) = Some []) as [-> | ->].
    { destruct (Z.eq_dec m b) as [<-|]; [right|left; apply slice_None; lia].
      unfold slice. rewrite !(proj2 (Z.leb_le _ _)) by lia. simpl.
      unfold ztake. by rewrite Hlen, Z.sub_diag. }
    + split; [done|]. exists t. split; [left|]. unfold entry_after. by rewrite Hstable.
    + split; [done|]. exists t. split; [left|]. unfold entry_after. by rewrite Hstable.
  - rewrite (slice_skip (framed msgs) payload n m b Hsl) by lia.
    destruct (slice_nonempty (framed msgs) b m ltac:(lia) Hm) as (x & suffix & Hxs). rewrite Hxs.
    split; [done|]. exists now. split; [right; left|]. by eapply Hwalk; [| |lia|exact Hk|..].
Qed.

(** A consumed segment keeps the boundary exact. *)
Lemma note_consumed_contiguous fr key msgs isn n m ro t now payload :
  direction_ok ro msgs → zlen (framed msgs) < 2147483648 → is_u32 isn → 0 <= n < m →
  m <= zlen (framed msgs) → slice (framed msgs) n m = Some payload →
  fr !! key = Some (entry_after msgs isn n t) → sat_sub now t <= TCP_STREAM_IDLE_MS →
  ∃ t', t' ∈ [t; now] ∧
    note_consumed fr key (wrapping_add isn n) payload ro now !! key =
      Some (entry_after msgs isn m t').
Proof.
  intros Hok Hbig Hisn Hn Hm Hsl Hk Hidle. unfold note_consumed.
  pose proof (slice_length _ _ _ _ Hsl ltac:(lia)) as Hlen.
  rewrite bool_decide_eq_false_2 by (intros ->; simpl in Hlen; lia).
  pose proof (skip_contiguous fr key msgs isn n m ro t now payload
    Hok Hbig Hisn Hn Hm Hsl Hk Hidle) as Hskip.
  destruct (skip_inside_message _ _ _ _ _ _) as [fr' skipped].
  destruct Hskip as [Hs Hres]. destruct skipped; [done|]. subst fr'.
  symmetry in Hs. apply negb_false_iff, bool_decide_eq_true in Hs.
  rewrite Hk. unfold entry_after at 1. rewrite Hs. cbn [next_message_seq]. rewrite Z.eqb_refl.
  exists now. split; [right; left|].
  destruct (slice_nonempty (framed msgs) n m ltac:(lia) Hm) as (x & suffix & Hxs).
  rewrite Hxs in Hsl. simplify_eq.
  pose proof (walk_past_boundary fr key msgs isn n m ro now _ n None x suffix
    Hok ltac:(lia) ltac:(lia) Hs ltac:(lia) Hk Hisn Hxs) as Hw.
  rewrite bool_decide_eq_false_2 in Hw by (by intros []). cbn [Z.b2z] in Hw.
  unfold wrapping_sub in Hw. rewrite Z.sub_0_r, wrap_u32_id in Hw by apply wrap_u32_range. done.
Qed.

End framing_lemmas.

(** ** Theorems *)

Section framing_theorems.
Context `{IterOrder}.
Import DnsTcpFraming.

(** C28: however a stream of DNS-over-TCP messages is cut into segments, cuts
    inside length prefixes included, the tracker ends with exactly the start of
    the first message not yet begun (or the half-read length prefix): the
    boundary it keeps does not depend on the segmentation. *)
Theorem consume_cuts_boundary (fr : t) (key : TcpStreamKey) (msgs : list bytes)
    (isn n t0 seen : Z) (ro : bool) (cuts : list (Z * Z)) :
  direction_ok ro msgs → zlen (framed msgs) < 2147483648 → is_u32 isn → 0 <= n →
  fr !! key = Some (entry_after msgs isn n seen) → t0 <= seen →
  cuts_ok t0 n (zlen (framed msgs)) cuts →
  ∃ seen', t0 <= seen' ∧
    consume_cuts fr key (framed msgs) isn n ro cuts !! key =
      Some (entry_after msgs isn (last_cut n cuts) seen').
Proof.
  intros Hok Hbig Hisn. revert fr n seen.
  induction cuts as [|[m now] cuts IH]; intros fr n seen Hn Hk Ht Hcuts; simpl.
  { by exists seen. }
  destruct Hcuts as (Hm & Hnow & Hcuts).
  destruct (slice (framed msgs) n m) as [payload|] eqn:Hsl; [|apply slice_None in Hsl; lia].
  destruct (note_consumed_contiguous fr key msgs isn n m ro seen now payload
    Hok Hbig Hisn ltac:(lia) ltac:(lia) Hsl Hk ltac:(unfold sat_sub, TCP_STREAM_IDLE_MS in *; lia))
    as (t' & Ht' & Hk').
  simpl. replace (last_cut n ((m, now) :: cuts)) with (last_cut m cuts).
  - apply (IH _ m t'); [lia|exact Hk'| |done]. set_unfold in Ht'. lia.
  - unfold last_cut. rewrite last_cons. by destruct (last cuts).
Qed.

(** A segment that continues the stream is skipped as the inside of a
    message exactly when it does not start at a message start, and a segment
    at a message start leaves the tracker untouched, to be read as a message. *)
Theorem skip_inside_message_exact (fr : t) (key : TcpStreamKey) (msgs : list bytes)
    (isn n m seen now : Z) (ro : bool) (payload : bytes) :
  direction_ok ro msgs → zlen (framed msgs) < 2147483648 → is_u32 isn → 0 <= n < m →
  slice (framed msgs) n m = Some payload →
  fr !! key = Some (entry_after msgs isn n seen) → sat_sub now seen <= 30000 →
  let '(fr', skipped) := skip_inside_message fr key (wrapping_add isn n) payload ro now in
  (skipped = false ↔ ∃ d r, msgs = d ++ r ∧ n = zlen (framed d)) ∧
  (skipped = false → fr' = fr) ∧
  (skipped = true → ∃ seen', fr' !! key = Some (entry_after msgs isn m seen')).
Proof.
  intros Hok Hbig Hisn Hn Hsl Hk Hidle. pose proof Hsl as (_ & Hm & _)%slice_Some.
  pose proof (skip_contiguous fr key msgs isn n m ro seen now payload
    Hok Hbig Hisn Hn Hm Hsl Hk Hidle) as Hskip.
  destruct (skip_inside_message _ _ _ _ _ _) as [fr' skipped]. destruct Hskip as [Hs Hres].
  split; [|split].
  - rewrite Hs, negb_false_iff, bool_decide_eq_true. split.
    + intros Hb. destruct (boundary_after_split msgs n (proj1 Hok) ltac:(lia)) as (d & r & -> & Hsp).
      rewrite Hb in Hsp. exists d, r. split; [done|]. lia.
    + intros (d & r & -> & ->). destruct Hok as [Hall _]. apply Forall_app in Hall as [Hd _].
      rewrite <- (Z.add_0_r (zlen (framed d))) at 1.
      rewrite boundary_after_app by done. rewrite boundary_after_nonpos by done.
      by rewrite Z.add_0_r.
  - by intros ->.
  - intros ->. destruct Hres as (t' & _ & ?). by exists t'.
Qed.

(** The boundary table never exceeds 2048 directions, whatever is fed to
    it in whatever order. *)
Theorem framing_reachable_bounded (fr : t) :
  rtc framing_step new fr → Z.of_nat (size fr) <= 2048.
Proof.
  intros Hr. apply (rtc_ind_r (R := framing_step) framing_bounded new); [done| |done].
  intros x y _ Hs Hx. by apply (framing_step_bounded x y).
Qed.

End framing_theorems.

(** Printable text never passes for the start of a DNS-over-TCP message,
    so an HTTP or SMTP line from port 53 records no boundary. *)
Theorem printable_not_dns_start (bs : bytes) :
  Forall printable bs → looks_like_dns_tcp_start bs = false.
Proof.
  intros Hp. unfold looks_like_dns_tcp_start.
  destruct (slice bs 2 14) as [header|] eqn:Hs; [|done].
  pose proof (slice_length _ _ _ _ Hs ltac:(lia)) as Hl.
  apply slice_Some in Hs as (_ & Hlen & Hh).
  assert (Hph : Forall printable header).
  { rewrite Hh. by apply Forall_take, Forall_drop. }
  assert (Hbyte : ∀ l i, Forall printable l → 0 <= i < zlen l → printable (default 0 (nth_z l i))).
  { intros l i Hl' Hi. destruct (nth_z_is_Some l i Hi) as [x Hx]. rewrite Hx. simpl.
    rewrite Forall_forall in Hl'. apply Hl'. by eapply list_elem_of_lookup_2. }
  pose proof (Hbyte bs 0 Hp ltac:(lia)). pose proof (Hbyte bs 1 Hp ltac:(lia)).
  pose proof (Hbyte header 4 Hph ltac:(lia)). pose proof (Hbyte header 5 Hph ltac:(lia)).
  pose proof (Hbyte header 6 Hph ltac:(lia)). pose proof (Hbyte header 7 Hph ltac:(lia)).
  pose proof (Hbyte header 8 Hph ltac:(lia)). pose proof (Hbyte header 9 Hph ltac:(lia)).
  pose proof (Hbyte header 10 Hph ltac:(lia)). pose proof (Hbyte header 11 Hph ltac:(lia)).
  unfold printable, be16 in *. apply andb_false_iff. right. apply Z.leb_gt.
  change (4 + 1) with 5. change (6 + 1) with 7. change (8 + 1) with 9. change (10 + 1) with 11.
  lia.
Qed.

(** ** A concrete stream: a 12-byte and a 13-byte message, cut inside the
    second length prefix *)

Definition sample_msgs : list bytes :=
  [[0; 1; 128; 0; 0; 0; 0; 0; 0; 0; 0; 0]; [0; 2; 128; 0; 0; 0; 0; 0; 0; 0; 0; 0; 7]].

Definition sample_framing (n : Z) : DnsTcpFraming.t :=
  {[sample_tcp_key := entry_after sample_msgs 4294967290 n 1000]}.

Lemma sample_direction_ok : direction_ok true sample_msgs.
Proof.
  split; [repeat constructor; simpl; zlia|]. intros _.
  repeat constructor; eexists; (split; [reflexivity|done]).
Defined.

Lemma consume_cuts_boundary_witness :
  let fr := consume_cuts (sample_framing 5) sample_tcp_key (framed sample_msgs) 4294967290 5 true
    [(15, 1100); (20, 1200)] in
  next_message_seq <$> fr !! sample_tcp_key = Some 23.
Proof.
  destruct (consume_cuts_boundary (sample_framing 5) sample_tcp_key sample_msgs 4294967290 5 1000 1000
    true [(15, 1100); (20, 1200)] sample_direction_ok ltac:(vm_compute; done)
    ltac:(zlia) ltac:(lia) ltac:(vm_compute; reflexivity) ltac:(lia)) as (seen' & _ & Hk).
  - vm_compute. repeat split; done.
  - cbv zeta. rewrite Hk. vm_compute. reflexivity.
Defined.

Lemma skip_inside_message_exact_witness :
  (DnsTcpFraming.skip_inside_message (sample_framing 14) sample_tcp_key
     (wrapping_add 4294967290 14) (ztake 6 (zdrop 14 (framed sample_msgs))) true 1100).2 = false.
Proof.
  pose proof (skip_inside_message_exact (sample_framing 14) sample_tcp_key sample_msgs
    4294967290 14 20 1000 1100 true (ztake 6 (zdrop 14 (framed sample_msgs)))
    sample_direction_ok ltac:(vm_compute; done) ltac:(zlia) ltac:(lia)
    ltac:(vm_compute; reflexivity) ltac:(vm_compute; reflexivity) ltac:(vm_compute; done)) as Hx.
  destruct (DnsTcpFraming.skip_inside_message _ _ _ _ _ _) as [fr' skipped].
  apply Hx. exists [[0; 1; 128; 0; 0; 0; 0; 0; 0; 0; 0; 0]],
    [[0; 2; 128; 0; 0; 0; 0; 0; 0; 0; 0; 0; 7]]. done.
Defined.

Lemma framing_reachable_bounded_witness :
  Z.of_nat (size (DnsTcpFraming.record_message DnsTcpFraming.new sample_tcp_key 9
    (framed sample_msgs) false true 1000)) <= 2048.
Proof.
  apply (framing_reachable_bounded (DnsTcpFraming.record_message DnsTcpFraming.new sample_tcp_key 9
    (framed sample_msgs) false true 1000)).
  apply rtc_once, framing_message.
Defined.

Lemma printable_not_dns_start_witness :
  looks_like_dns_tcp_start (lit "GET /index.html HTTP/1.1") = false.
Proof.
  apply (printable_not_dns_start (lit "GET /index.html HTTP/1.1")).
  repeat constructor; vm_compute; done.
Defined.
