(* ===== verification/RateLimit.v ===== *)
(** * Event rate limiting

    [PacketEventLimiter] of [capture-agent/src/rate_limit.rs]: a
    minimum-interval throttle on the per-packet events sent to the browser. *)

From S2P Require Import Prelude.

Module PacketEventLimiter.

Record t := mk { min_interval_ms : option Z; last_allowed_ms : option Z }.

#[global] Instance eta_t : RecordEta t := fun r => mk (min_interval_ms r) (last_allowed_ms r).

Definition new (max_per_window window_ms : Z) : t :=
  mk (if max_per_window =? 0 then None else Some (window_ms / max_per_window)) None.

Definition allow (l : t) (now_ms : Z) : t * bool :=
  match min_interval_ms l with
  | None => (l, false)
  | Some min_interval =>
      let due :=
        match last_allowed_ms l with
        | None => true
        | Some last => min_interval <=? sat_sub now_ms last
        end in
      ((if due then l <| last_allowed_ms := Some now_ms |> else l), due)
  end.

(** The times at which a sequence of candidate events is let through. *)
Fixpoint admitted (l : t) (times : list Z) : list Z :=
  match times with
  | [] => []
  | now :: times' =>
      let '(l', ok) := allow l now in
      if ok then now :: admitted l' times' else admitted l' times'
  end.

End PacketEventLimiter.

(** ** Specifications *)

(** Consecutive elements at least [i] apart, the first at least [i] after
    [from]. *)
Fixpoint spaced (i : Z) (from : option Z) (l : list Z) : Prop :=
  match l with
  | [] => True
  | x :: l' =>
      match from with Some y => y + i <= x | None => True end ∧ spaced i (Some x) l'
  end.

Definition in_window (a len x : Z) : bool := (a <=? x) && (x <? a + len).

(** ** Lemmas *)

Section limiter_lemmas.
Import PacketEventLimiter.

Lemma admitted_spaced i l times :
  0 < i → min_interval_ms l = Some i → spaced i (last_allowed_ms l) (admitted l times).
Proof.
  intros Hi. revert l. induction times as [|now times IH]; intros l Hl; simpl; [done|].
  unfold allow. rewrite Hl. destruct (last_allowed_ms l) as [last|] eqn:Hlast.
  - destruct (Z.leb_spec i (sat_sub now last)) as [Hd|Hd].
    + simpl. split; [unfold sat_sub in Hd; lia|].
      exact (IH (mk (min_interval_ms l) (Some now)) Hl).
    + rewrite <- Hlast. by apply IH.
  - simpl. split; [done|]. exact (IH (mk (min_interval_ms l) (Some now)) Hl).
Qed.

(** Spaced elements at or after [y] that fit below [e]. *)
Lemma spaced_count i y l e :
  0 < i → spaced i (Some y) l →
  i * zlen (filter (λ x, x < e) l) <= Z.max 0 (e - y - 1).
Proof.
  intros Hi. revert y. induction l as [|x l IH]; intros y Hs; simpl; [lia|].
  destruct Hs as [Hy Hs]. specialize (IH x Hs). rewrite filter_cons.
  case_decide; simpl; [|lia]. nia.
Qed.

Lemma spaced_ge i y l : 0 < i → spaced i (Some y) l → Forall (λ x, y + i <= x) l.
Proof.
  intros Hi. revert y. induction l as [|x l IH]; intros y Hs; [constructor|].
  destruct Hs as [Hy Hs]. constructor; [done|]. specialize (IH x Hs).
  eapply Forall_impl; [exact IH|]. intros; simpl in *; lia.
Qed.

(** In a window of length [len] there are at most [ceil(len / i)]. *)
Lemma spaced_window i from l a len :
  0 < i → 0 <= len → spaced i from l →
  i * zlen (filter (λ x, in_window a len x = true) l) <= len + i - 1.
Proof.
  intros Hi Hlen. revert from. induction l as [|x l IH]; intros from Hs; simpl; [lia|].
  destruct Hs as [_ Hs]. rewrite filter_cons. case_decide as Hx; [|by apply (IH (Some x))].
  unfold in_window in Hx. apply andb_true_iff in Hx as [Ha%Z.leb_le Hb%Z.ltb_lt].
  assert (Hsub : (length (filter (λ x, in_window a len x = true) l)
                  <= length (filter (λ x, (x < a + len)%Z) l))%nat).
  { clear. induction l as [|z l IH]; simpl; [lia|]. rewrite !filter_cons.
    destruct (decide (in_window a len z = true)) as [Hz|];
      destruct (decide (z < a + len)) as [|Hn]; simpl; try lia.
    exfalso. apply Hn. unfold in_window in Hz. by apply andb_true_iff in Hz as [_ ?%Z.ltb_lt]. }
  pose proof (spaced_count i x l (a + len) Hi Hs). simpl. nia.
Qed.

End limiter_lemmas.

(** ** Theorems *)

(** When the budget divides the window, no half-open window of that
    length, wherever it starts, lets through more events than the budget,
    whatever the candidate times are (a clock that steps back included), and
    any two events let through are a full interval apart. *)
Theorem limiter_budget (max_per_window k : Z) (times : list Z) (a : Z) :
  0 < max_per_window → 0 < k →
  let l := PacketEventLimiter.new max_per_window (k * max_per_window) in
  spaced k None (PacketEventLimiter.admitted l times) ∧
  zlen (filter (λ x, in_window a (k * max_per_window) x = true)
          (PacketEventLimiter.admitted l times)) <= max_per_window.
Proof.
  intros Hm Hk l. assert (Hl : PacketEventLimiter.min_interval_ms l = Some k).
  { unfold l, PacketEventLimiter.new; simpl. rewrite (proj2 (Z.eqb_neq _ _)) by lia.
    by rewrite Z.div_mul by lia. }
  pose proof (admitted_spaced k l times Hk Hl) as Hs. split; [exact Hs|].
  pose proof (spaced_window k _ _ a (k * max_per_window) Hk ltac:(nia) Hs). nia.
Qed.

Lemma limiter_budget_witness :
  PacketEventLimiter.admitted (PacketEventLimiter.new 2 (500 * 2)) [0; 400; 500; 999; 1000]
    = [0; 500; 1000] ∧
  zlen (filter (λ x, in_window 0 (500 * 2) x = true)
    (PacketEventLimiter.admitted (PacketEventLimiter.new 2 (500 * 2)) [0; 400; 500; 999; 1000])) <= 2.
Proof.
  split; [reflexivity|].
  exact (proj2 (limiter_budget 2 500 [0; 400; 500; 999; 1000] 0 ltac:(lia) ltac:(lia))).
Defined.

(** A candidate is refused only because the budget is zero or an event
    was let through less than an interval before, and an event that is due is
    let through and starts the next interval. *)
Theorem limiter_allow_iff (l : PacketEventLimiter.t) (now : Z) :
  let '(l', ok) := PacketEventLimiter.allow l now in
  (ok = false ↔
     PacketEventLimiter.min_interval_ms l = None ∨
     ∃ i last, PacketEventLimiter.min_interval_ms l = Some i ∧
               PacketEventLimiter.last_allowed_ms l = Some last ∧ sat_sub now last < i) ∧
  (ok = true → PacketEventLimiter.last_allowed_ms l' = Some now) ∧ (ok = false → l' = l) ∧
  PacketEventLimiter.min_interval_ms l' = PacketEventLimiter.min_interval_ms l.
Proof.
  unfold PacketEventLimiter.allow. destruct (PacketEventLimiter.min_interval_ms l) as [i|] eqn:Hi.
  - destruct (PacketEventLimiter.last_allowed_ms l) as [last|] eqn:Hl.
    + destruct (Z.leb_spec i (sat_sub now last)); simpl; rewrite ?Hi.
      * split; [|done]. split; [done|]. intros [|(? & ? & [= <-] & [= <-] & ?)]; [done|lia].
      * split; [|done]. split; [|done]. intros _. right. eauto.
    + simpl. split; [|done]. split; [done|]. intros [|(? & ? & _ & ? & _)]; done.
  - split; [|done]. split; [by left|done].
Qed.

(** When the budget does not divide the window the interval is rounded
    down, so a window can carry more events than the budget: 600 events a
    second are configured and a 1 kHz stream passes whole. *)
Theorem limiter_rounding_exceeds_budget :
  let times := Z.of_nat <$> seq 0 1000 in
  zlen (PacketEventLimiter.admitted (PacketEventLimiter.new 600 1000) times) = 1000 ∧
  Forall (λ x, in_window 0 1000 x = true)
    (PacketEventLimiter.admitted (PacketEventLimiter.new 600 1000) times).
Proof.
  split; [vm_compute; reflexivity|].
  assert (PacketEventLimiter.admitted (PacketEventLimiter.new 600 1000)
            (Z.of_nat <$> seq 0 1000) = (Z.of_nat <$> seq 0 1000)) as ->
    by (vm_compute; reflexivity).
  apply Forall_forall. intros x (n & -> & Hn)%list_elem_of_fmap. apply elem_of_seq in Hn.
  unfold in_window. rewrite (proj2 (Z.leb_le _ _)), (proj2 (Z.ltb_lt _ _)) by lia. done.
Qed.
