(* ===== verification/RingBuffer.v ===== *)
(** * The decrypted-content ring

    [DecryptedRingBuffer] of [capture-agent/src/ring_buffer.rs]: a byte-capped
    FIFO of decrypted TLS payloads, charged by allocation size, whose oldest
    entries are zeroed and dropped.

    [mlock] and [munlock] are system calls that change no value the program
    reads; the probe's outcome is an argument of [new].  Zeroing is the
    [zeroize] crate's: the class [Zeroizer] states that no byte survives. *)

From S2P Require Import Prelude.

Class Zeroizer := {
  zeroize : vec Z → vec Z;
  zeroize_zeroes : ∀ v, Forall (λ b, b = 0) (vlist (zeroize v))
}.

Inductive DecryptionDirection := ClientToServer | ServerToClient.

Record DecryptedRingEntry := mkRingEntry {
  entry_direction : option DecryptionDirection;
  entry_bytes : vec Z
}.

Module DecryptedRingBuffer.

Record t := mk {
  capacity_bytes : Z;
  used_bytes : Z;
  entries : list DecryptedRingEntry;
  mlock_engaged : bool
}.

#[global] Instance eta_t : RecordEta t :=
  fun r => mk (capacity_bytes r) (used_bytes r) (entries r) (mlock_engaged r).

Definition new (capacity : Z) (mlock_ok : bool) : t := mk capacity 0 [] mlock_ok.

Definition bytes_held (r : t) : Z := used_bytes r.

Section operations.
Context `{Zeroizer}.

Definition evict_oldest (r : t) : t * option (vec Z) :=
  match entries r with
  | [] => (r, None)
  | oldest :: rest =>
      (r <| entries := rest |>
         <| used_bytes ::= λ u, sat_sub u (vcap (entry_bytes oldest)) |>,
       Some (zeroize (entry_bytes oldest)))
  end.

(** [while used > capacity { if evict_oldest().is_none() { break } }]: one
    step per entry. *)
Fixpoint evict_while (n : nat) (r : t) : t :=
  match n with
  | O => r
  | S n' =>
      if capacity_bytes r <? used_bytes r then
        match evict_oldest r with
        | (r', Some _) => evict_while n' r'
        | (r', None) => r'
        end
      else r
  end.

Definition push_entry (r : t) (direction : option DecryptionDirection) (data : vec Z) : t :=
  let r :=
    r <| used_bytes ::= λ u, sat_add u (vcap data) |>
      <| entries ::= λ es, es ++ [mkRingEntry direction data] |> in
  evict_while (S (length (entries r))) r.

Definition push (r : t) (data : vec Z) : t := push_entry r None data.

Definition push_for_direction (r : t) (direction : DecryptionDirection) (data : vec Z) : t :=
  push_entry r (Some direction) data.

Fixpoint clear_loop (n : nat) (r : t) : t :=
  match n with
  | O => r
  | S n' =>
      match evict_oldest r with
      | (r', Some _) => clear_loop n' r'
      | (r', None) => r'
      end
  end.

Definition clear (r : t) : t := clear_loop (S (length (entries r))) r.

Definition drain_since (r : t) (cursor : Z) : list DecryptedRingEntry * Z :=
  (zdrop (Z.min cursor (zlen (entries r))) (entries r), zlen (entries r)).

(** A sequence of pushes. *)
Definition push_all (r : t) (es : list DecryptedRingEntry) : t :=
  foldl (λ r e, push_entry r (entry_direction e) (entry_bytes e)) r es.

(** A consumer that drains after every push, from its last cursor. *)
Fixpoint poll_each (r : t) (cursor : Z) (es : list DecryptedRingEntry)
    : list DecryptedRingEntry :=
  match es with
  | [] => []
  | e :: es' =>
      let r := push_entry r (entry_direction e) (entry_bytes e) in
      let '(got, cursor) := drain_since r cursor in
      got ++ poll_each r cursor es'
  end.

End operations.

End DecryptedRingBuffer.

(** ** Specifications *)

(** Allocation held by a list of entries. *)
Fixpoint ring_cost (es : list DecryptedRingEntry) : Z :=
  match es with
  | [] => 0
  | e :: es' => vcap (entry_bytes e) + ring_cost es'
  end.

Definition entry_ok (e : DecryptedRingEntry) : Prop := vec_wf (entry_bytes e).

(** [kept] is the longest suffix of [all] within [capacity]. *)
Definition longest_suffix (capacity : Z) (all kept : list DecryptedRingEntry) : Prop :=
  ∃ dropped, all = dropped ++ kept ∧ ring_cost kept <= capacity ∧
    ∀ d e, dropped = d ++ [e] → capacity < ring_cost (e :: kept).

(** ** Lemmas *)

Section ring_lemmas.
Context `{Zeroizer}.
Import DecryptedRingBuffer.

Lemma ring_cost_app a b : ring_cost (a ++ b) = ring_cost a + ring_cost b.
Proof. induction a; simpl; lia. Qed.

Lemma ring_cost_nonneg es : Forall entry_ok es → 0 <= ring_cost es.
Proof.
  induction 1 as [|e es He _ IH]; simpl; [done|]. unfold entry_ok, vec_wf in He. lia.
Qed.

(** The eviction loop stops at the longest suffix that fits. *)
Lemma evict_while_spec n r :
  0 <= capacity_bytes r → Forall entry_ok (entries r) → used_bytes r = ring_cost (entries r) →
  (length (entries r) < n)%nat →
  let r' := evict_while n r in
  capacity_bytes r' = capacity_bytes r ∧ mlock_engaged r' = mlock_engaged r ∧
  used_bytes r' = ring_cost (entries r') ∧
  longest_suffix (capacity_bytes r) (entries r) (entries r').
Proof.
  revert r. induction n as [|n IH]; intros r Hc Hok Hu Hn; simpl; [lia|].
  destruct (Z.ltb_spec (capacity_bytes r) (used_bytes r)) as [Hover|Hfit].
  2: { split_and!; try done. exists []. split; [done|]. split; [lia|]. by intros []. }
  unfold evict_oldest. destruct (entries r) as [|e es] eqn:He; simpl in *; [lia|].
  apply Forall_cons in Hok as [Hoke Hok]. pose proof (ring_cost_nonneg es Hok).
  pose proof Hoke as Hoke'. unfold entry_ok, vec_wf in Hoke'.
  destruct (IH (mk (capacity_bytes r) (sat_sub (used_bytes r) (vcap (entry_bytes e))) es
                  (mlock_engaged r))) as (Hc' & Hm' & Hu' & dropped & Hd & Hfits & Hmax); simpl;
    [done|done|unfold sat_sub; lia|lia|]. simpl in *.
  split_and!; [exact Hc'|exact Hm'|exact Hu'|].
  exists (e :: dropped). split; [simpl; by rewrite Hd at 1|]. split; [exact Hfits|].
  intros d x Hdx. destruct d as [|y d]; simplify_eq/=.
  - rewrite Hu, Hd in Hover. exact Hover.
  - by eapply Hmax.
Qed.

Lemma push_entry_spec r d data :
  0 <= capacity_bytes r → Forall entry_ok (entries r) → vec_wf data →
  used_bytes r = ring_cost (entries r) → used_bytes r + vcap data <= U64_MAX →
  let r' := push_entry r d data in
  capacity_bytes r' = capacity_bytes r ∧ mlock_engaged r' = mlock_engaged r ∧
  used_bytes r' = ring_cost (entries r') ∧
  longest_suffix (capacity_bytes r) (entries r ++ [mkRingEntry d data]) (entries r').
Proof.
  intros Hc Hok Hd Hu Hmax. unfold push_entry.
  apply (evict_while_spec _ (mk (capacity_bytes r) (sat_add (used_bytes r) (vcap data))
    (entries r ++ [mkRingEntry d data]) (mlock_engaged r))); simpl; [done| | |lia].
  - apply Forall_app. split; [done|]. by constructor.
  - rewrite ring_cost_app. simpl. unfold sat_add. lia.
Qed.

Lemma longest_suffix_ok capacity all kept :
  longest_suffix capacity all kept → Forall entry_ok all → Forall entry_ok kept.
Proof. intros (d & -> & _) Hall. by apply Forall_app in Hall as [_ ?]. Qed.

(** The longest fitting suffix of a longer history only looks at what was
    kept of the shorter one. *)
Lemma longest_suffix_snoc capacity all kept e kept' :
  Forall entry_ok (all ++ [e]) → longest_suffix capacity all kept →
  longest_suffix capacity (kept ++ [e]) kept' → longest_suffix capacity (all ++ [e]) kept'.
Proof.
  intros Hok (d1 & -> & _ & Hm1) (d2 & Heq & Hfit & Hm2).
  exists (d1 ++ d2). split; [by rewrite <- !app_assoc, <- Heq|]. split; [done|].
  intros d x Hd. destruct d2 as [|y d2 _] using rev_ind.
  - rewrite app_nil_r in Hd. simpl in Heq. subst d1. specialize (Hm1 _ _ eq_refl).
    rewrite <- Heq. simpl in *. rewrite ring_cost_app. simpl.
    apply Forall_app in Hok as [_ [He _]%Forall_cons]. unfold entry_ok, vec_wf in He. lia.
  - rewrite app_assoc in Hd. apply app_inj_tail in Hd as [_ ->]. by eapply Hm2.
Qed.

End ring_lemmas.

(** ** Theorems *)

Section ring_theorems.
Context `{Zeroizer}.
Import DecryptedRingBuffer.

(** After any sequence of pushes the ring holds exactly the longest
    suffix of what was pushed whose allocations fit the capacity, in order,
    and [bytes_held] is exactly their allocation. *)
Theorem push_all_longest_suffix (capacity : Z) (mlock_ok : bool)
    (es : list DecryptedRingEntry) :
  0 <= capacity → Forall entry_ok es → capacity + ring_cost es <= U64_MAX →
  let r := push_all (new capacity mlock_ok) es in
  longest_suffix capacity es (entries r) ∧ bytes_held r = ring_cost (entries r) ∧
  0 <= bytes_held r <= capacity.
Proof.
  intros Hc Hok Hmax. unfold bytes_held.
  enough (Hen : let r := push_all (new capacity mlock_ok) es in
    capacity_bytes r = capacity ∧ longest_suffix capacity es (entries r) ∧
    used_bytes r = ring_cost (entries r)).
  { destruct Hen as (_ & Hl & Hu). split; [done|]. split; [done|]. rewrite Hu.
    pose proof (ring_cost_nonneg _ (longest_suffix_ok _ _ _ Hl Hok)).
    destruct Hl as (_ & _ & ? & _). done. }
  induction es as [|e es IH] using rev_ind; simpl.
  { split; [done|]. split; [|done]. exists []. split; [done|]. split; [done|]. by intros []. }
  pose proof Hok as [Hok1 [Hoke _]%Forall_cons]%Forall_app. rewrite ring_cost_app in Hmax.
  unfold entry_ok, vec_wf in Hoke. simpl in Hmax.
  destruct (IH Hok1 ltac:(lia)) as (Hcap & Hl & Hu). unfold push_all. rewrite foldl_app. simpl.
  fold (push_all (new capacity mlock_ok) es). set (r := push_all _ es) in *. clearbody r.
  pose proof (ring_cost_nonneg _ (longest_suffix_ok _ _ _ Hl Hok1)) as Hnn.
  destruct (push_entry_spec r (entry_direction e) (entry_bytes e)) as (Hc' & _ & Hu' & Hl').
  - lia.
  - by eapply longest_suffix_ok.
  - done.
  - done.
  - pose proof (ring_cost_nonneg _ Hok1). destruct Hl as (d & Hd & Hfit & _). lia.
  - split; [by rewrite Hc', Hcap|]. split; [|done].
    rewrite Hcap in Hl'. destruct e as [dir data]. by eapply longest_suffix_snoc.
Qed.

(** While nothing has to be evicted, a consumer that polls with the
    cursor it was handed gets every entry exactly once, in order. *)
Theorem poll_each_complete (capacity : Z) (mlock_ok : bool) (es : list DecryptedRingEntry) :
  Forall entry_ok es → ring_cost es <= capacity → capacity + ring_cost es <= U64_MAX →
  poll_each (new capacity mlock_ok) 0 es = es.
Proof.
  intros Hok Hfit Hmax.
  enough (Hen : ∀ seen r, Forall entry_ok (seen ++ es) → ring_cost (seen ++ es) <= capacity →
    capacity + ring_cost (seen ++ es) <= U64_MAX →
    entries r = seen → used_bytes r = ring_cost seen → capacity_bytes r = capacity →
    poll_each r (zlen seen) es = es) by exact (Hen [] (new capacity mlock_ok) Hok Hfit Hmax eq_refl eq_refl eq_refl).
  clear Hok Hfit Hmax. induction es as [|e es IH]; intros seen r Hok Hfit Hmax He Hu Hc; [done|].
  simpl. pose proof Hok as [Hd [Hoke Hes]%Forall_cons]%Forall_app.
  rewrite ring_cost_app in Hfit, Hmax. simpl in *.
  pose proof (ring_cost_nonneg _ Hd). pose proof (ring_cost_nonneg _ Hes).
  pose proof Hoke as Hoke'. unfold entry_ok, vec_wf in Hoke'.
  destruct (push_entry_spec r (entry_direction e) (entry_bytes e))
    as (Hc' & _ & Hu' & dropped & Hall & Hkept & Hmaxi);
    [lia|by rewrite He|done|by rewrite He|lia|].
  set (r' := push_entry r (entry_direction e) (entry_bytes e)) in *. clearbody r'.
  rewrite He in Hall.
  assert (He' : mkRingEntry (entry_direction e) (entry_bytes e) = e) by (by destruct e).
  rewrite He' in Hall. assert (Hx : entries r' = seen ++ [e]).
  { destruct dropped as [|x d _] using rev_ind; [done|]. exfalso.
    specialize (Hmaxi d x eq_refl). rewrite Hc in Hmaxi.
    assert (ring_cost (seen ++ [e]) = ring_cost d + ring_cost (x :: entries r')) as Hcost.
    { by rewrite Hall, <- app_assoc, ring_cost_app. }
    assert (Forall entry_ok d).
    { assert (Hf : Forall entry_ok ((d ++ [x]) ++ entries r'))
        by (rewrite <- Hall; apply Forall_app; split; [done|by constructor]).
      by apply Forall_app in Hf as [[? _]%Forall_app _]. }
    pose proof (ring_cost_nonneg d ltac:(done)). rewrite ring_cost_app in Hcost. simpl in *. lia. }
  unfold drain_since. rewrite Hx, length_app. simpl. rewrite Z.min_l by lia. rewrite zdrop_app.
  simpl. f_equal. replace (Z.of_nat (length seen + 1)) with (zlen (seen ++ [e]))
    by (rewrite length_app; simpl; lia).
  apply IH; rewrite <- ?app_assoc, ?ring_cost_app; simpl; try done; try lia.
  rewrite Hu', Hx, ring_cost_app. simpl. lia.
Qed.

(** Once an eviction happens, the cursor counts entries that are gone:
    a forward-only consumer misses a payload it never saw. *)
Theorem drain_since_skips_after_eviction :
  let a := mkRingEntry None (mkVec [1; 1; 1] 3) in
  let b := mkRingEntry None (mkVec [2; 2; 2] 3) in
  let r1 := push_all (new 4 true) [a] in
  let '(got1, cursor) := drain_since r1 0 in
  let r2 := push_all r1 [b] in
  let '(got2, _) := drain_since r2 cursor in
  got1 = [a] ∧ entries r2 = [b] ∧ got2 = [].
Proof. vm_compute. done. Qed.

(** Clearing empties the ring and credits every byte. *)
Theorem clear_empties (r : t) :
  Forall entry_ok (entries r) → used_bytes r = ring_cost (entries r) →
  clear r = mk (capacity_bytes r) 0 [] (mlock_engaged r).
Proof.
  unfold clear. intros Hok Hu. assert (Hn : (length (entries r) < S (length (entries r)))%nat) by lia.
  revert Hn. generalize (S (length (entries r))). intros n. revert r Hok Hu.
  induction n as [|n IH]; intros r Hok Hu Hn; [lia|]. simpl. unfold evict_oldest.
  destruct (entries r) as [|e es] eqn:He; simpl in *.
  - destruct r; simpl in *. by subst.
  - apply Forall_cons in Hok as [Hoke Hok]. pose proof (ring_cost_nonneg es Hok).
    apply (IH (mk (capacity_bytes r) (sat_sub (used_bytes r) (vcap (entry_bytes e))) es
                (mlock_engaged r))); simpl; [done|unfold sat_sub; lia|lia].
Qed.

End ring_theorems.

(** ** A concrete ring *)

#[local] Instance zero_fill : Zeroizer.
Proof.
  refine {| zeroize v := mkVec (replicate (length (vlist v)) 0) (vcap v) |}.
  intros v. simpl. by apply Forall_replicate.
Defined.

Definition sample_ring_entries : list DecryptedRingEntry :=
  [mkRingEntry None (mkVec [1; 2; 3; 4; 5] 5); mkRingEntry None (mkVec [6; 7; 8; 9; 10] 5);
   mkRingEntry None (mkVec [11; 12] 2)].

Lemma sample_ring_ok : Forall entry_ok sample_ring_entries.
Proof. repeat constructor; done. Defined.

Import DecryptedRingBuffer.

Lemma push_all_longest_suffix_witness :
  bytes_held (push_all (new 10 true) sample_ring_entries) = 7 ∧
  bytes_held (push_all (new 10 true) sample_ring_entries) <= 10.
Proof.
  split; [reflexivity|].
  apply (push_all_longest_suffix 10 true sample_ring_entries ltac:(lia) sample_ring_ok
    ltac:(simpl; zlia)).
Defined.

Lemma poll_each_complete_witness : poll_each (new 12 true) 0 sample_ring_entries = sample_ring_entries.
Proof.
  apply (poll_each_complete 12 true sample_ring_entries sample_ring_ok); simpl; zlia.
Defined.

Lemma clear_empties_witness :
  clear (push_all (new 10 true) sample_ring_entries) = new 10 true.
Proof.
  apply (clear_empties (push_all (new 10 true) sample_ring_entries)); [|reflexivity].
  vm_compute. repeat constructor; done.
Defined.
