(* ===== verification/DnsNames.v ===== *)
(** * Names observed in DNS responses

    [ObservedDnsNames] of [capture-agent/src/dns_names.rs]: one name per
    address, learned from A/AAAA records whose owner is the question or is
    reachable from it through the response's CNAMEs, kept until an expiry
    clamped between one hour and one day, in a table bounded by a capacity and
    indexed by expiry.

    The [BTreeSet] index is a list in the set's order. *)

From S2P Require Import Prelude Packet.

Definition MIN_NAME_RETENTION_MS : Z := 3600000.
Definition MAX_NAME_RETENTION_MS : Z := 86400000.
Definition MAX_NAME_BYTES : Z := 253.
Definition RTYPE_A : Z := 1.
Definition RTYPE_CNAME : Z := 5.
Definition RTYPE_AAAA : Z := 28.

(** ** Learnable names *)

Definition is_ascii_digit (b : Z) : bool := (48 <=? b) && (b <=? 57).
Definition is_ascii_alphanumeric (b : Z) : bool :=
  is_ascii_digit b || ((65 <=? b) && (b <=? 90)) || ((97 <=? b) && (b <=? 122)).

(** The leading elements that satisfy [p], and the rest. *)
Fixpoint take_while {A} (p : A → bool) (l : list A) : list A :=
  match l with [] => [] | x :: l' => if p x then x :: take_while p l' else [] end.
Fixpoint drop_while {A} (p : A → bool) (l : list A) : list A :=
  match l with [] => [] | x :: l' => if p x then drop_while p l' else l end.

(** [name.trim_end_matches('.').rsplit('.').next()]. *)
Definition last_label (name : bytes) : bytes :=
  let trimmed := reverse (drop_while (λ b, b =? 46) (reverse name)) in
  reverse (take_while (λ b, negb (b =? 46)) (reverse trimmed)).

Definition is_learnable_name (name : bytes) : bool :=
  negb (bool_decide (name = []))
  && (zlen name <=? MAX_NAME_BYTES)
  && forallb (λ b, is_ascii_alphanumeric b || bool_decide (b ∈ [45; 95; 46])) name
  && (bool_decide (last_label name = []) || negb (forallb is_ascii_digit (last_label name))).

(** ** The expiry index *)

Definition expiry_key : Type := (Z * Z * bytes).

Definition key_le (k1 k2 : expiry_key) : bool :=
  let '(x1, s1, a1) := k1 in
  let '(x2, s2, a2) := k2 in
  (x1 <? x2) || ((x1 =? x2) && ((s1 <? s2) || ((s1 =? s2) && bytes_le a1 a2))).

Fixpoint bt_insert (k : expiry_key) (l : list expiry_key) : list expiry_key :=
  match l with
  | [] => [k]
  | y :: l' =>
      if bool_decide (k = y) then l
      else if key_le k y then k :: l else y :: bt_insert k l'
  end.

Definition bt_remove (k : expiry_key) (l : list expiry_key) : list expiry_key :=
  filter (λ y, y ≠ k) l.

(** ** The table *)

Module Entry.
Record t := mk { name : bytes; expires_ms : Z; seq : Z }.
End Entry.

Module ObservedDnsNames.

Record t := mk {
  capacity : Z;
  entries : gmap bytes Entry.t;
  by_expiry : list expiry_key;
  next_seq : Z;
  evictions : Z
}.

#[global] Instance eta_t : RecordEta t :=
  fun r => mk (capacity r) (entries r) (by_expiry r) (next_seq r) (evictions r).

Definition new (capacity : Z) : t := mk capacity ∅ [] 0 0.

Definition len (r : t) : Z := Z.of_nat (size (entries r)).

Definition clear (r : t) : t := r <| entries := ∅ |> <| by_expiry := [] |>.

Definition lookup (r : t) (addr : bytes) (now_ms : Z) : option bytes :=
  match entries r !! addr with
  | Some e => if now_ms <? Entry.expires_ms e then Some (Entry.name e) else None
  | None => None
  end.

(** The loop pops the front of the index, one entry per turn. *)
Fixpoint purge_loop (now_ms : Z) (es : gmap bytes Entry.t) (idx : list expiry_key)
    : gmap bytes Entry.t * list expiry_key :=
  match idx with
  | [] => (es, [])
  | (expires, _, addr) :: idx' =>
      if now_ms <? expires then (es, idx) else purge_loop now_ms (delete addr es) idx'
  end.

Definition purge_expired (r : t) (now_ms : Z) : t :=
  let '(es, idx) := purge_loop now_ms (entries r) (by_expiry r) in
  r <| entries := es |> <| by_expiry := idx |>.

Definition insert (r : t) (addr : bytes) (nm : bytes) (expires : Z) : t :=
  let r :=
    match entries r !! addr with
    | Some old =>
        r <| entries ::= delete addr |>
          <| by_expiry ::= bt_remove (Entry.expires_ms old, Entry.seq old, addr) |>
    | None =>
        if capacity r <=? len r then
          match by_expiry r with
          | (_, _, victim) :: rest =>
              r <| by_expiry := rest |> <| entries ::= delete victim |>
                <| evictions ::= Z.succ |>
          | [] => r
          end
        else r
    end in
  if capacity r =? 0 then r
  else
    let s := next_seq r in
    r <| next_seq ::= Z.succ |>
      <| by_expiry ::= bt_insert (expires, s, addr) |>
      <| entries ::= <[addr := Entry.mk nm expires s]> |>.

(** One pass over the CNAME records. *)
Fixpoint cname_pass (answers : list DnsAnswer) (reachable : list bytes) : list bytes :=
  match answers with
  | [] => reachable
  | a :: answers' =>
      let reachable :=
        if ans_rtype a =? RTYPE_CNAME then
          let target := to_ascii_lowercase (ans_data a) in
          if existsb (eq_ignore_ascii_case (ans_name a)) reachable
             && negb (bool_decide (target ∈ reachable))
          then reachable ++ [target] else reachable
        else reachable in
      cname_pass answers' reachable
  end.

(** At most one pass per record, stopping when a pass adds nothing. *)
Fixpoint cname_passes (n : nat) (answers : list DnsAnswer) (reachable : list bytes)
    : list bytes :=
  match n with
  | O => reachable
  | S n' =>
      let reachable' := cname_pass answers reachable in
      if bool_decide (length reachable' = length reachable) then reachable'
      else cname_passes n' answers reachable'
  end.

Definition reachable_names (name : bytes) (answers : list DnsAnswer) : list bytes :=
  cname_passes (length answers) answers [name].

(** Whether an answer gives an address to the question. *)
Definition names_address (reachable : list bytes) (a : DnsAnswer) : bool :=
  bool_decide (ans_rtype a ∈ [RTYPE_A; RTYPE_AAAA])
  && negb (bool_decide (ans_data a = []))
  && existsb (eq_ignore_ascii_case (ans_name a)) reachable.

Definition retention (a : DnsAnswer) : Z :=
  Z.max MIN_NAME_RETENTION_MS (Z.min (ans_ttl a * 1000) MAX_NAME_RETENTION_MS).

Definition learn_response (r : t) (query_name : bytes) (answers : list DnsAnswer) (now_ms : Z)
    : t :=
  if negb (is_learnable_name query_name) then r
  else
    let r := purge_expired r now_ms in
    let name := to_ascii_lowercase query_name in
    let reachable := reachable_names name answers in
    foldl (λ r a,
      if names_address reachable a
      then insert r (ans_data a) name (sat_add now_ms (retention a)) else r) r answers.

End ObservedDnsNames.

(** ** Specifications *)

(** The index lists exactly the entries, soonest expiry first. *)
Definition index_ok (es : gmap bytes Entry.t) (idx : list expiry_key) : Prop :=
  NoDup idx ∧ StronglySorted (λ k1 k2 : expiry_key, k1.1.1 <= k2.1.1) idx ∧
  ∀ x s a, (x, s, a) ∈ idx ↔ ∃ e, es !! a = Some e ∧ Entry.expires_ms e = x ∧ Entry.seq e = s.

Definition names_inv (r : ObservedDnsNames.t) : Prop :=
  index_ok (ObservedDnsNames.entries r) (ObservedDnsNames.by_expiry r) ∧
  (∀ a e, ObservedDnsNames.entries r !! a = Some e → Entry.seq e < ObservedDnsNames.next_seq r) ∧
  0 <= ObservedDnsNames.capacity r ∧ ObservedDnsNames.len r <= ObservedDnsNames.capacity r.

Inductive names_step : ObservedDnsNames.t → ObservedDnsNames.t → Prop :=
| names_learn r q answers now :
    names_step r (ObservedDnsNames.learn_response r q answers now)
| names_clear r : names_step r (ObservedDnsNames.clear r).

(** One CNAME edge, names compared without case. *)
Definition cname_edge (answers : list DnsAnswer) (n1 n2 : bytes) : Prop :=
  ∃ a, a ∈ answers ∧ ans_rtype a = RTYPE_CNAME ∧
    to_ascii_lowercase (ans_name a) = to_ascii_lowercase n1 ∧
    n2 = to_ascii_lowercase (ans_data a).

(** An answer that gives the address [addr] to the question [q]. *)
Definition justified (q : bytes) (answers : list DnsAnswer) (addr : bytes) (a : DnsAnswer) : Prop :=
  a ∈ answers ∧ ans_rtype a ∈ [RTYPE_A; RTYPE_AAAA] ∧ ans_data a = addr ∧ addr ≠ [] ∧
  ∃ n, rtc (cname_edge answers) (to_ascii_lowercase q) n ∧
       to_ascii_lowercase (ans_name a) = to_ascii_lowercase n.

(** ** Lemmas *)

Lemma to_ascii_lowercase_idem s : to_ascii_lowercase (to_ascii_lowercase s) = to_ascii_lowercase s.
Proof.
  unfold to_ascii_lowercase. rewrite <- list_fmap_compose. apply list_fmap_ext. intros _ b _.
  simpl. unfold ascii_lower_byte.
  destruct ((65 <=? b) && (b <=? 90)) eqn:Hb; [|by rewrite Hb].
  apply andb_true_iff in Hb as [?%Z.leb_le ?%Z.leb_le].
  by rewrite (proj2 (Z.leb_gt (b + 32) 90)), andb_false_r by lia.
Qed.

Lemma eq_ignore_ascii_case_true s t :
  eq_ignore_ascii_case s t = true ↔ to_ascii_lowercase s = to_ascii_lowercase t.
Proof. unfold eq_ignore_ascii_case. apply bool_decide_eq_true. Qed.

Lemma existsb_owner a l :
  existsb (eq_ignore_ascii_case (ans_name a)) l = true ↔
  ∃ n, n ∈ l ∧ to_ascii_lowercase (ans_name a) = to_ascii_lowercase n.
Proof.
  rewrite existsb_exists. split.
  - intros (n & Hn & He). exists n. rewrite list_elem_of_In.
    by rewrite <- eq_ignore_ascii_case_true.
  - intros (n & Hn & He). exists n. rewrite <- list_elem_of_In.
    by rewrite eq_ignore_ascii_case_true.
Qed.

(** *** CNAME reachability *)

Section cname.
Import ObservedDnsNames.
Context (answers : list DnsAnswer).

Definition targets (l : list DnsAnswer) : list bytes := (to_ascii_lowercase ∘ ans_data) <$> l.

(** One pass over a suffix [l] of the answers. *)
Lemma cname_pass_spec l r :
  l ⊆ answers → NoDup r →
  ∃ extra, cname_pass l r = r ++ extra ∧ NoDup (r ++ extra) ∧
    extra ⊆ targets l ∧
    (∀ Q : bytes → Prop, (∀ n1 n2, Q n1 → cname_edge answers n1 n2 → Q n2) →
       Forall Q r → Forall Q (r ++ extra)) ∧
    (extra = [] → ∀ n1 n2, n1 ∈ r → cname_edge l n1 n2 → n2 ∈ r).
Proof.
  revert r. induction l as [|a l IH]; intros r Hl Hnd; simpl.
  { exists []. rewrite app_nil_r. split_and!; try done. intros _ n1 n2 _ (a & Ha & _).
    by apply not_elem_of_nil in Ha. }
  assert (Hla : l ⊆ answers) by (intros x Hx; apply Hl; by right).
  set (target := to_ascii_lowercase (ans_data a)).
  destruct (Z.eqb_spec (ans_rtype a) RTYPE_CNAME) as [Hc|Hc]; simpl.
  2: { destruct (IH r Hla Hnd) as (extra & He & Hn & Hs & HQ & Hclosed).
       exists extra. split_and!; try done.
       - intros x Hx. right. by apply Hs.
       - intros Hnil n1 n2 Hn1 (b & Hb & Hbc & Hbn & ->).
         apply elem_of_cons in Hb as [->|Hb]; [done|]. apply (Hclosed Hnil n1 _ Hn1). by exists b. }
  destruct (existsb (eq_ignore_ascii_case (ans_name a)) r) eqn:Hex; simpl.
  - apply existsb_owner in Hex as (n & Hn & Hna).
    assert (Hedge : cname_edge answers n target).
    { exists a. split; [apply Hl; left|]. done. }
    case_bool_decide as Ht; simpl.
    + destruct (IH r Hla Hnd) as (extra & He & Hnn & Hs & HQ & Hclosed).
      exists extra. split_and!; try done.
      * intros x Hx. right. by apply Hs.
      * intros Hnil n1 n2 Hn1 (b & Hb & Hbc & Hbn & ->).
        apply elem_of_cons in Hb as [->|Hb]; [done|]. apply (Hclosed Hnil n1 _ Hn1). by exists b.
    + destruct (IH (r ++ [target])) as (extra & He & Hnn & Hs & HQ & _); [done| |].
      { apply NoDup_app. split; [done|]. split; [|apply NoDup_singleton].
        intros x Hx ->%list_elem_of_singleton. done. }
      exists (target :: extra). rewrite <- app_assoc in *. split_and!; try done.
      * intros x [->|Hx]%elem_of_cons; [left|right; by apply Hs].
      * intros Q Hstep HQr. apply HQ; [done|]. apply Forall_app. split; [done|].
        constructor; [|done]. apply (Hstep n); [|done]. by eapply Forall_forall in HQr.
  - destruct (IH r Hla Hnd) as (extra & He & Hnn & Hs & HQ & Hclosed).
    exists extra. split_and!; try done.
    + intros x Hx. right. by apply Hs.
    + intros Hnil n1 n2 Hn1 (b & Hb & Hbc & Hbn & ->).
      apply elem_of_cons in Hb as [->|Hb]; [|apply (Hclosed Hnil n1 _ Hn1); by exists b].
      assert (existsb (eq_ignore_ascii_case (ans_name a)) r = true) as Ht
        by (apply existsb_owner; by exists n1). congruence.
Qed.

Lemma cname_passes_spec n q r :
  NoDup r → (∃ k, r = q :: k ∧ k ⊆ targets answers) →
  Forall (rtc (cname_edge answers) q) r →
  (length answers < length r + n)%nat →
  let res := cname_passes n answers r in
  Forall (rtc (cname_edge answers) q) res ∧ q ∈ res ∧
  ∀ n1 n2, n1 ∈ res → cname_edge answers n1 n2 → n2 ∈ res.
Proof.
  revert r. induction n as [|n IH]; intros r Hnd (k & -> & Hk) Hrtc Hlen; simpl.
  - split; [done|]. split; [left|]. intros n1 n2 _ (a & Ha & _ & _ & ->).
    (* as many names as there are targets: every target is in *)
    right. apply list_elem_of_In. apply NoDup_cons in Hnd as [_ Hnd].
    apply (NoDup_length_incl (l := k) (l' := targets answers)).
    + by apply NoDup_ListNoDup.
    + unfold targets. rewrite length_fmap. simpl in Hlen. lia.
    + intros x Hx%list_elem_of_In. by apply list_elem_of_In, Hk.
    + apply list_elem_of_In, list_elem_of_fmap. by exists a.
  - destruct (cname_pass_spec answers (q :: k) ltac:(done) Hnd)
      as (extra & He & Hn & Hs & HQ & Hclosed). rewrite He.
    assert (Hq : Forall (rtc (cname_edge answers) q) ((q :: k) ++ extra)).
    { apply HQ; [|done]. intros n1 n2 ? ?. by eapply rtc_r. }
    case_bool_decide as Hsame.
    + rewrite length_app in Hsame. destruct extra; [|simpl in Hsame; lia].
      rewrite app_nil_r in *. split; [done|]. split; [left|]. by apply Hclosed.
    + apply IH; [done| |done|].
      * exists (k ++ extra). split; [done|]. intros x [?|?]%elem_of_app; auto.
      * rewrite length_app in *. destruct extra; simpl in *; lia.
Qed.

(** The names computed are exactly those reachable through CNAMEs. *)
Lemma reachable_names_spec q n :
  n ∈ reachable_names q answers ↔ rtc (cname_edge answers) q n.
Proof.
  unfold reachable_names.
  destruct (cname_passes_spec (length answers) q [q]) as (Hrtc & Hq & Hclosed).
  - apply NoDup_singleton.
  - exists []. split; [done|]. intros x. by intros ?%not_elem_of_nil.
  - by constructor.
  - simpl. lia.
  - split.
    + intros Hn. by eapply Forall_forall in Hrtc.
    + intros Hr. apply (rtc_ind_r (R := cname_edge answers)
        (λ z, z ∈ cname_passes (length answers) answers [q]) q); [done| |done].
      intros y z _ Hyz Hy. by eapply Hclosed.
Qed.

End cname.

(** *** The expiry index *)

Section index.
Import ObservedDnsNames.
Implicit Types (idx : list expiry_key) (es : gmap bytes Entry.t) (r : t).

Lemma bt_insert_perm k idx : k ∉ idx → bt_insert k idx ≡ₚ k :: idx.
Proof.
  induction idx as [|y idx IH]; intros Hk; simpl; [done|].
  apply not_elem_of_cons in Hk as [Hy Hk]. rewrite bool_decide_eq_false_2 by done.
  destruct (key_le k y); [done|]. rewrite IH by done. apply Permutation_swap.
Qed.

Lemma key_le_expiry k y : if key_le k y then k.1.1 <= y.1.1 else y.1.1 <= k.1.1.
Proof.
  destruct k as [[x1 s1] a1], y as [[x2 s2] a2]. simpl.
  destruct (Z.ltb_spec x1 x2), (Z.eqb_spec x1 x2); simpl; try lia.
  by destruct ((s1 <? s2) || _); lia.
Qed.

Lemma bt_insert_sorted k idx :
  k ∉ idx → StronglySorted (λ k1 k2 : expiry_key, k1.1.1 <= k2.1.1) idx →
  StronglySorted (λ k1 k2 : expiry_key, k1.1.1 <= k2.1.1) (bt_insert k idx).
Proof.
  intros Hk Hs. induction Hs as [|y idx Hs IH Hy]; simpl; [repeat constructor|].
  apply not_elem_of_cons in Hk as [Hne Hk]. rewrite bool_decide_eq_false_2 by done.
  pose proof (key_le_expiry k y) as Hle. destruct (key_le k y).
  - constructor; [by constructor|]. constructor; [done|].
    eapply Forall_impl; [exact Hy|]. intros z Hz. simpl in *. lia.
  - constructor; [by apply IH|]. rewrite bt_insert_perm by done. by constructor.
Qed.

Lemma index_ok_empty : index_ok ∅ [].
Proof.
  split; [constructor|]. split; [constructor|]. intros x s a. rewrite elem_of_nil.
  split; [done|]. intros (e & He & _). by rewrite lookup_empty in He.
Qed.

Lemma index_ok_remove es idx a e :
  index_ok es idx → es !! a = Some e →
  index_ok (delete a es) (bt_remove (Entry.expires_ms e, Entry.seq e, a) idx).
Proof.
  intros (Hnd & Hs & Hio) Ha. unfold bt_remove. split; [by apply NoDup_filter|]. split.
  - by apply StronglySorted_filter.
  - intros x s b. rewrite list_elem_of_filter, Hio. split.
    + intros (Hne & e' & He' & <- & <-). exists e'. rewrite lookup_delete_ne; [done|].
      intros ->. simplify_eq.
    + intros (e' & He' & <- & <-). apply lookup_delete_Some in He' as [Hne He'].
      split; [congruence|]. by exists e'.
Qed.

Lemma index_ok_insert es idx a e :
  index_ok es idx → es !! a = None →
  index_ok (<[a := e]> es) (bt_insert (Entry.expires_ms e, Entry.seq e, a) idx).
Proof.
  intros (Hnd & Hs & Hio) Ha.
  assert (Hk : (Entry.expires_ms e, Entry.seq e, a) ∉ idx).
  { intros (e' & He' & _)%Hio. congruence. }
  split; [rewrite bt_insert_perm by done; by constructor|].
  split; [by apply bt_insert_sorted|]. intros x s b. rewrite bt_insert_perm by done.
  rewrite elem_of_cons, Hio. split.
  - intros [[= -> -> ->]|(e' & He' & <- & <-)].
    + exists e. by rewrite lookup_insert_eq.
    + exists e'. rewrite lookup_insert_ne; [done|]. intros ->. congruence.
  - intros (e' & He' & <- & <-). apply lookup_insert_Some in He' as [[-> ->]|[Hne He']].
    + by left.
    + right. by exists e'.
Qed.

(** The front of the index is the entry expiring soonest. *)
Lemma index_ok_pop es x s a idx :
  index_ok es ((x, s, a) :: idx) →
  (∃ e, es !! a = Some e ∧ Entry.expires_ms e = x ∧ Entry.seq e = s) ∧
  index_ok (delete a es) idx ∧
  (∀ b e, es !! b = Some e → x <= Entry.expires_ms e).
Proof.
  intros Hi. pose proof Hi as (Hnd & Hs & Hio).
  destruct (proj1 (Hio x s a) ltac:(left)) as (e & He & Hx & Hsq).
  split; [by exists e|]. apply NoDup_cons in Hnd as [Hni Hnd].
  apply StronglySorted_inv in Hs as [Hs Hall]. split.
  - pose proof (index_ok_remove es _ a e Hi He) as Hr.
    unfold bt_remove in Hr. rewrite filter_cons_False, Hx, Hsq in Hr by (rewrite Hx, Hsq; tauto).
    rewrite list_filter_all in Hr; [done|].
    apply Forall_forall. intros y Hy ->. by apply Hni.
  - intros b e' He'.
    assert (Hin : (Entry.expires_ms e', Entry.seq e', b) ∈ (x, s, a) :: idx)
      by (apply Hio; by exists e').
    apply elem_of_cons in Hin as [[= -> _ _]|Hin]; [done|].
    rewrite Forall_forall in Hall. exact (Hall _ Hin).
Qed.

Lemma purge_loop_spec now es idx :
  index_ok es idx →
  let '(es', idx') := purge_loop now es idx in
  index_ok es' idx' ∧ es' = filter (λ ae, now < Entry.expires_ms ae.2) es.
Proof.
  revert es. induction idx as [|[[x s] a] idx IH]; intros es Hi; simpl.
  { split; [done|]. symmetry. apply map_filter_id. intros a e He.
    destruct Hi as (_ & _ & Hio). exfalso.
    apply (not_elem_of_nil (Entry.expires_ms e, Entry.seq e, a)), Hio. by exists e. }
  destruct (index_ok_pop es x s a idx Hi) as ((e & He & Hx & Hs) & Hi' & Hmin).
  case_zb.
  - split; [done|]. symmetry. apply map_filter_id. intros b e' He'. simpl.
    specialize (Hmin b e' He'). lia.
  - specialize (IH (delete a es) Hi'). destruct (purge_loop now (delete a es) idx) as [es' idx'].
    destruct IH as [IH1 IH2]. split; [done|]. rewrite IH2, map_filter_delete.
    apply delete_id. apply map_lookup_filter_None. right. intros e' He'. simpl.
    simplify_eq. lia.
Qed.

Lemma purge_inv r now :
  names_inv r → names_inv (purge_expired r now) ∧
  entries (purge_expired r now) = filter (λ ae, now < Entry.expires_ms ae.2) (entries r) ∧
  capacity (purge_expired r now) = capacity r.
Proof.
  intros (Hi & Hseq & Hc & Hlen). unfold purge_expired.
  pose proof (purge_loop_spec now (entries r) (by_expiry r) Hi) as Hp.
  destruct (purge_loop now (entries r) (by_expiry r)) as [es idx]. destruct Hp as [Hp1 ->].
  split; [|done]. split; [done|]. simpl. split.
  - intros a e [He _]%map_lookup_filter_Some. by eapply Hseq.
  - split; [done|]. unfold len in *; simpl. etrans; [|exact Hlen].
    apply inj_le, map_subseteq_size, map_filter_subseteq.
Qed.

(** The slot an insertion works on: the address is free, and there is room
    unless the capacity is zero. *)
Lemma insert_spec r addr nm expires :
  names_inv r →
  let r' := insert r addr nm expires in
  names_inv r' ∧ capacity r' = capacity r ∧
  (capacity r ≠ 0 → ∃ s, entries r' !! addr = Some (Entry.mk nm expires s)) ∧
  (∀ a, a ≠ addr → entries r' !! a = entries r !! a ∨
     entries r' !! a = None ∧ capacity r <= len r ∧
     (∃ e, entries r !! a = Some e ∧
           ∀ b e', entries r !! b = Some e' → Entry.expires_ms e <= Entry.expires_ms e')).
Proof.
  intros (Hi & Hseq & Hc & Hlen). unfold insert.
  set (r1 := match entries r !! addr with Some old => _ | None => _ end).
  assert (Hr1 : index_ok (entries r1) (by_expiry r1) ∧ entries r1 !! addr = None ∧
    entries r1 ⊆ entries r ∧ next_seq r1 = next_seq r ∧ capacity r1 = capacity r ∧
    (capacity r ≠ 0 → len r1 < capacity r) ∧ len r1 <= capacity r ∧
    (∀ a, a ≠ addr → entries r1 !! a = entries r !! a ∨
       entries r1 !! a = None ∧ capacity r <= len r ∧
       (∃ e, entries r !! a = Some e ∧
           ∀ b e', entries r !! b = Some e' → Entry.expires_ms e <= Entry.expires_ms e'))).
  { unfold r1, len in *. destruct (entries r !! addr) as [old|] eqn:Ha; simpl.
    - pose proof (size_delete_Some _ _ _ Ha) as Hsz.
      split_and!; [by apply index_ok_remove|apply lookup_delete_eq|apply delete_subseteq|done..| |lia|].
      + lia.
      + intros a Hne. left. by rewrite lookup_delete_ne.
    - destruct (Z.leb_spec (capacity r) (Z.of_nat (size (entries r)))) as [Hfull|Hroom].
      + destruct (by_expiry r) as [|[[x s] victim] rest] eqn:Hidx; simpl.
        * assert (entries r = ∅) as Hemp.
          { apply map_empty. intros b. destruct (entries r !! b) as [e|] eqn:Hb; [|done].
            destruct Hi as (_ & _ & Hio). exfalso.
            apply (not_elem_of_nil (Entry.expires_ms e, Entry.seq e, b)), Hio. by exists e. }
          rewrite Hemp, map_size_empty in *. rewrite Hidx.
          split_and!; try done; [lia|]. intros a _. by left.
        * destruct (index_ok_pop _ _ _ _ _ Hi) as ((e & He & Hx & _) & Hi' & Hmin).
          pose proof (size_delete_Some _ _ _ He) as Hsz.
          split_and!; [done| |apply delete_subseteq|done..| |lia|].
          -- rewrite lookup_delete_ne; [done|]. intros ->. congruence.
          -- lia.
          -- intros a Hne. destruct (decide (a = victim)) as [->|].
             ++ right. rewrite lookup_delete_eq. split; [done|]. split; [lia|].
                exists e. split; [done|]. rewrite Hx. done.
             ++ left. by rewrite lookup_delete_ne.
      + split_and!; try done. intros a _. by left. }
  clearbody r1. destruct Hr1 as (Hi1 & Hfree & Hsub & Hns & Hcap & Hroom & Hle & Hother).
  destruct (Z.eqb_spec (capacity r1) 0) as [Hz|Hnz].
  { split_and!; try done.
    - split; [done|]. split; [|split; [lia|lia]]. intros a e He. rewrite Hns.
      eapply Hseq, lookup_weaken; eauto.
    - intros. lia. }
  rewrite Hcap in Hnz. specialize (Hroom Hnz). unfold len in *.
  split_and!; simpl; [|done| |].
  - split; [|split; [|split]]; simpl.
    + by apply (index_ok_insert _ _ addr (Entry.mk nm expires (next_seq r1))).
    + intros a e [[_ <-]|[_ He]]%lookup_insert_Some; simpl; [lia|].
      rewrite Hns. pose proof (Hseq a e (lookup_weaken _ _ _ _ He Hsub)). lia.
    + lia.
    + unfold len; simpl. rewrite map_size_insert_None by done. lia.
  - intros _. eexists. apply lookup_insert_eq.
  - intros a Hne. rewrite lookup_insert_ne by done. by apply Hother.
Qed.

(** The insertions of one response. *)
Definition learn_answers (reachable : list bytes) (nm : bytes) (now : Z) (r : t)
    (l : list DnsAnswer) : t :=
  foldl (λ r a, if names_address reachable a
                then insert r (ans_data a) nm (sat_add now (retention a)) else r) r l.

Lemma learn_answers_inv reachable nm now l r :
  names_inv r → names_inv (learn_answers reachable nm now r l) ∧
  capacity (learn_answers reachable nm now r l) = capacity r.
Proof.
  revert r. induction l as [|a l IH]; intros r Hr; simpl; [done|].
  destruct (names_address reachable a); [|by apply IH].
  destruct (insert_spec r (ans_data a) nm (sat_add now (retention a)) Hr) as (Hr' & Hc & _).
  destruct (IH _ Hr') as [? IHc]. split; [done|]. by rewrite <- Hc.
Qed.

(** Every entry after a response was there before or is named by an answer. *)
Lemma learn_answers_sound reachable nm now l r x e :
  names_inv r → entries (learn_answers reachable nm now r l) !! x = Some e →
  entries r !! x = Some e ∨
  ∃ a, a ∈ l ∧ names_address reachable a = true ∧ ans_data a = x ∧
       Entry.name e = nm ∧ Entry.expires_ms e = sat_add now (retention a).
Proof.
  revert r. induction l as [|a l IH]; intros r Hr; simpl; [by left|].
  destruct (names_address reachable a) eqn:Ha.
  2: { intros [?|(b & ? & ?)]%(IH r Hr); [by left|]. right. exists b. split; [by right|done]. }
  destruct (insert_spec r (ans_data a) nm (sat_add now (retention a)) Hr)
    as (Hr' & Hc & Hnew & Hother).
  intros [Hx|(b & ? & ?)]%(IH _ Hr'); [|right; exists b; split; [by right|done]].
  destruct (decide (x = ans_data a)) as [->|Hne].
  - right. exists a. split; [left|]. split; [done|]. split; [done|].
    destruct (decide (capacity r = 0)) as [Hz|Hnz].
    + exfalso. destruct Hr' as (_ & _ & _ & Hlen). unfold len in Hlen.
      pose proof (size_delete_Some _ _ _ Hx). lia.
    + destruct (Hnew Hnz) as [s Hs]. rewrite Hs in Hx. by simplify_eq.
  - left. destruct (Hother x Hne) as [<-|(Hnone & _)]; [done|congruence].
Qed.

(** An entry written by this response. *)
Definition fresh (nm : bytes) (now : Z) (r : t) (x : bytes) : Prop :=
  ∃ e, entries r !! x = Some e ∧ Entry.name e = nm ∧
       ∃ b, Entry.expires_ms e = sat_add now (retention b).

(** With room for the whole response nothing is evicted. *)
Lemma learn_answers_complete reachable nm now l r :
  names_inv r → len r + zlen l <= capacity r →
  (∀ x, fresh nm now r x → fresh nm now (learn_answers reachable nm now r l) x) ∧
  (∀ a, a ∈ l → names_address reachable a = true →
     fresh nm now (learn_answers reachable nm now r l) (ans_data a)).
Proof.
  revert r. induction l as [|a l IH]; intros r Hr Hroom; simpl.
  { split; [done|]. intros a Ha. by apply not_elem_of_nil in Ha. }
  simpl in Hroom. destruct (names_address reachable a) eqn:Hna.
  - destruct (insert_spec r (ans_data a) nm (sat_add now (retention a)) Hr)
      as (Hr' & Hc & Hnew & Hother). pose proof Hr as (_ & _ & Hcap & _).
    assert (0 <= len r) by (unfold len; lia).
    destruct (Hnew ltac:(lia)) as [s Hs].
    assert (Hkeep : ∀ x, x ≠ ans_data a →
      entries (insert r (ans_data a) nm (sat_add now (retention a))) !! x = entries r !! x).
    { intros x Hx. destruct (Hother x Hx) as [?|(_ & Hfull & _)]; [done|]. lia. }
    set (r' := insert r _ nm _) in *. clearbody r'.
    assert (Hlen : len r' <= len r + 1).
    { unfold len. rewrite (size_delete_Some _ _ _ Hs).
      assert (delete (ans_data a) (entries r') = delete (ans_data a) (entries r)) as ->.
      { apply map_eq. intros x. destruct (decide (x = ans_data a)) as [->|].
        - by rewrite !lookup_delete_eq.
        - rewrite !lookup_delete_ne by done. auto. }
      assert (size (delete (ans_data a) (entries r)) <= size (entries r))%nat
        by apply map_subseteq_size, delete_subseteq. lia. }
    destruct (IH r' Hr') as [IH1 IH2]; [rewrite Hc; lia|]. split.
    + intros x Hx. apply IH1. destruct (decide (x = ans_data a)) as [->|Hne].
      * eexists. split; [exact Hs|]. split; [done|]. by exists a.
      * unfold fresh. by rewrite Hkeep.
    + intros b [->|Hb]%elem_of_cons Hnb; [|by apply IH2]. apply IH1.
      eexists. split; [exact Hs|]. split; [done|]. by exists a.
  - destruct (IH r Hr ltac:(lia)) as [IH1 IH2]. split; [done|].
    intros b [->|Hb]%elem_of_cons Hnb; [congruence|by apply IH2].
Qed.

Lemma names_address_justified q answers a :
  a ∈ answers →
  names_address (reachable_names (to_ascii_lowercase q) answers) a = true ↔
  justified q answers (ans_data a) a.
Proof.
  intros Ha. unfold names_address, justified.
  rewrite !andb_true_iff, bool_decide_eq_true, negb_true_iff, bool_decide_eq_false, existsb_owner.
  setoid_rewrite reachable_names_spec. tauto.
Qed.

Lemma retention_bounds a : MIN_NAME_RETENTION_MS <= retention a <= MAX_NAME_RETENTION_MS.
Proof. unfold retention, MIN_NAME_RETENTION_MS, MAX_NAME_RETENTION_MS. lia. Qed.

Lemma learn_response_inv r q answers now :
  names_inv r → names_inv (learn_response r q answers now) ∧
  capacity (learn_response r q answers now) = capacity r.
Proof.
  intros Hr. unfold learn_response. destruct (is_learnable_name q); simpl; [|done].
  destruct (purge_inv r now Hr) as (Hp & _ & Hc).
  destruct (learn_answers_inv (reachable_names (to_ascii_lowercase q) answers)
    (to_ascii_lowercase q) now answers _ Hp) as [Hi Hc'].
  split; [done|]. unfold learn_answers in Hc'. by rewrite Hc', Hc.
Qed.

Lemma names_step_inv r r' : names_step r r' → names_inv r → names_inv r'.
Proof.
  intros [? q answers now|?] Hr; [by apply learn_response_inv|].
  destruct Hr as (_ & _ & Hc & _). split; [apply index_ok_empty|]. simpl.
  split; [intros a e; by rewrite lookup_empty|]. split; [done|].
  unfold len; simpl. by rewrite map_size_empty.
Qed.

End index.

(** *** Numeric names *)

Lemma take_while_all {A} (p : A → bool) l : forallb p l = true → take_while p l = l.
Proof. induction l as [|x l IH]; simpl; [done|]. destruct (p x); simpl; [|done]. intros. by rewrite IH. Qed.

Lemma take_while_forall {A} (p q : A → bool) l :
  forallb q l = true → forallb (λ x, p x && q x) (take_while p l) = true.
Proof.
  induction l as [|x l IH]; simpl; [done|]. intros [Hx Hl]%andb_true_iff.
  destruct (p x) eqn:Hp; simpl; [|done]. rewrite Hp, Hx. simpl. by apply IH.
Qed.

Lemma drop_while_forallb {A} (p q : A → bool) l :
  forallb q l = true → forallb q (drop_while p l) = true.
Proof.
  induction l as [|x l IH]; simpl; [done|]. intros Hx. pose proof Hx as [Hqx Hl]%andb_true_iff.
  destruct (p x); [by apply IH|]. done.
Qed.

Lemma drop_while_head {A} (p : A → bool) l x l' : drop_while p l = x :: l' → p x = false.
Proof. induction l as [|y l IH]; simpl; [done|]. destruct (p y) eqn:Hp; [done|]. by intros [= <- <-]. Qed.

Lemma drop_while_nil {A} (p : A → bool) l : drop_while p l = [] → forallb p l = true.
Proof. induction l as [|y l IH]; simpl; [done|]. by destruct (p y). Qed.

Lemma forallb_reverse {A} (p : A → bool) l : forallb p (reverse l) = forallb p l.
Proof.
  induction l as [|x l IH]; simpl; [done|]. rewrite reverse_cons, forallb_app. simpl.
  rewrite IH. destruct (p x), (forallb p l); done.
Qed.

(** A name made of digits and dots only, with a digit in it, ends in a
    numeric label. *)
Lemma numeric_last_label s :
  forallb (λ b, is_ascii_digit b || (b =? 46)) s = true → existsb is_ascii_digit s = true →
  last_label s ≠ [] ∧ forallb is_ascii_digit (last_label s) = true.
Proof.
  intros Hall Hdig. unfold last_label. rewrite reverse_involutive.
  destruct (drop_while (λ b, b =? 46) (reverse s)) as [|x l] eqn:Hd.
  - apply drop_while_nil in Hd. rewrite forallb_reverse in Hd. exfalso.
    apply existsb_exists in Hdig as (b & Hb & Hbd). rewrite forallb_forall in Hd.
    specialize (Hd b Hb). apply Z.eqb_eq in Hd. subst b. done.
  - pose proof (drop_while_head _ _ _ _ Hd) as Hx.
    assert (Hl : forallb (λ b, is_ascii_digit b || (b =? 46)) (x :: l) = true)
      by (rewrite <- Hd; apply drop_while_forallb; by rewrite forallb_reverse).
    split.
    + simpl. rewrite Hx. simpl. intros Hr. apply (f_equal length) in Hr.
      rewrite length_reverse in Hr. done.
    + rewrite forallb_reverse. apply take_while_forall with (p := λ b, negb (b =? 46)) in Hl.
      rewrite forallb_forall in *. intros b Hb. specialize (Hl b Hb). simpl in Hl.
      destruct (b =? 46); [done|]. simpl in Hl. by rewrite orb_false_r in Hl.
Qed.

(** ** Theorems *)

Section names_theorems.
Import ObservedDnsNames.

(** Whatever responses are learned and resets happen, the table never
    holds more entries than its capacity, its expiry index lists exactly its
    entries, each once, soonest expiry first. *)
Theorem names_reachable_consistent (cap : Z) (r : t) :
  0 <= cap → rtc names_step (new cap) r →
  len r <= capacity r ∧ NoDup (by_expiry r) ∧
  StronglySorted (λ k1 k2 : expiry_key, k1.1.1 <= k2.1.1) (by_expiry r) ∧
  (∀ x s a, (x, s, a) ∈ by_expiry r ↔
     ∃ e, entries r !! a = Some e ∧ Entry.expires_ms e = x ∧ Entry.seq e = s).
Proof.
  intros Hc Hr. assert (Hi : names_inv r).
  { apply (rtc_ind_r (R := names_step) names_inv (new cap)); [|intros; by eapply names_step_inv|done].
    split; [apply index_ok_empty|]. simpl. split; [intros a e; by rewrite lookup_empty|].
    unfold len; simpl. rewrite map_size_empty. done. }
  destruct Hi as ((Hnd & Hs & Hio) & _ & _ & Hlen). done.
Qed.

(** A response names nothing it should not: after learning it, every
    entry was live before, unchanged, or carries the lowercased question for an
    address given by an A/AAAA record whose owner is the question or is
    reached from it through the response's CNAMEs, with an expiry between one
    hour and one day ahead. *)
Theorem learn_response_sound (r : t) (q : bytes) (answers : list DnsAnswer) (now : Z)
    (addr : bytes) (e : Entry.t) :
  names_inv r → 0 <= now <= U64_MAX - 86400000 →
  entries (learn_response r q answers now) !! addr = Some e →
  (entries r !! addr = Some e ∧ (is_learnable_name q = true → now < Entry.expires_ms e)) ∨
  (∃ a, justified q answers addr a) ∧ is_learnable_name q = true ∧
  Entry.name e = to_ascii_lowercase q ∧
  now + 3600000 <= Entry.expires_ms e <= now + 86400000.
Proof.
  intros Hr Hnow. unfold learn_response.
  destruct (is_learnable_name q) eqn:Hq; simpl; [|by left].
  destruct (purge_inv r now Hr) as (Hp & He & _).
  intros [Hx|(a & Ha & Hna & <- & Hnm & Hexp)]%(learn_answers_sound _ _ _ _ _ _ _ Hp).
  - left. rewrite He in Hx. apply map_lookup_filter_Some in Hx as [? ?]. done.
  - right. split; [exists a; by apply names_address_justified|]. split; [done|]. split; [done|].
    pose proof (retention_bounds a). unfold MIN_NAME_RETENTION_MS, MAX_NAME_RETENTION_MS in *.
    rewrite Hexp. zlia.
Qed.

(** A response names everything it should: when the table has room for
    its answers, every address it gives the question looks up to the
    lowercased question, at once and for at least an hour. *)
Theorem learn_response_complete (r : t) (q : bytes) (answers : list DnsAnswer) (now later : Z)
    (addr : bytes) (a : DnsAnswer) :
  names_inv r → is_learnable_name q = true → 0 <= now <= U64_MAX - 86400000 →
  len (purge_expired r now) + zlen answers <= capacity r →
  justified q answers addr a → now <= later < now + 3600000 →
  lookup (learn_response r q answers now) addr later = Some (to_ascii_lowercase q).
Proof.
  intros Hr Hq Hnow Hroom Hj Hlater. unfold learn_response. rewrite Hq. simpl.
  destruct (purge_inv r now Hr) as (Hp & _ & Hc).
  set (reach := reachable_names (to_ascii_lowercase q) answers).
  fold (learn_answers reach (to_ascii_lowercase q) now (purge_expired r now) answers).
  pose proof Hj as (Ha & _ & Hd & _).
  destruct (learn_answers_complete reach (to_ascii_lowercase q) now answers _ Hp) as [_ Hall].
  { by rewrite Hc. }
  destruct (Hall a Ha) as (e & Hx & Hnm & b & Hexp).
  { apply names_address_justified; [done|]. by rewrite Hd. }
  rewrite Hd in Hx. unfold lookup. rewrite Hx, Hnm, Hexp.
  rewrite (proj2 (Z.ltb_lt _ _)); [done|].
  pose proof (retention_bounds b). unfold MIN_NAME_RETENTION_MS, MAX_NAME_RETENTION_MS in *.
  zlia.
Qed.

(** A dotted-decimal address, or any name of digits and dots, is never
    learned as a host name. *)
Theorem numeric_name_not_learnable (s : bytes) :
  forallb (λ b, is_ascii_digit b || (b =? 46)) s = true → existsb is_ascii_digit s = true →
  is_learnable_name s = false.
Proof.
  intros Hall Hdig. destruct (numeric_last_label s Hall Hdig) as [Hne Hd].
  unfold is_learnable_name. rewrite (bool_decide_eq_false_2 (last_label s = [])) by done.
  rewrite Hd. simpl. apply andb_false_r.
Qed.

(** Purging on the way is invisible to lookups: at any later time every
    address looks up to the same name as if nothing had been purged. *)
Theorem purge_preserves_lookup (r : t) (now later : Z) (addr : bytes) :
  names_inv r → now <= later →
  lookup (purge_expired r now) addr later = lookup r addr later.
Proof.
  intros Hr Hl. destruct (purge_inv r now Hr) as (_ & He & _). unfold lookup. rewrite He.
  rewrite map_lookup_filter. destruct (entries r !! addr) as [e|]; simpl; [|done].
  destruct (decide (now < Entry.expires_ms e)) as [Hx|Hx].
  - by rewrite option_guard_True.
  - rewrite option_guard_False by done. simpl.
    by rewrite (proj2 (Z.ltb_ge _ _)) by lia.
Qed.

End names_theorems.

(** ** A concrete response: a CNAME chain given in reverse order *)

Definition sample_answers : list DnsAnswer :=
  [mkDnsAnswer (lit "edge.c.org") 1 300 (lit "1.2.3.4") false;
   mkDnsAnswer (lit "cdn.b.net") 5 300 (lit "edge.c.org") false;
   mkDnsAnswer (lit "WWW.a.com") 5 300 (lit "cdn.b.net") false;
   mkDnsAnswer (lit "evil.net") 1 300 (lit "6.6.6.6") false].

Import ObservedDnsNames.

Lemma new_names_inv cap : 0 <= cap → names_inv (new cap).
Proof.
  intros. split; [apply index_ok_empty|]. simpl. split; [intros a e; by rewrite lookup_empty|].
  unfold len; simpl. rewrite map_size_empty. done.
Defined.

Definition sample_names : t := learn_response (new 8) (lit "www.A.com") sample_answers 0.

Lemma names_reachable_consistent_witness : len sample_names <= 8.
Proof.
  destruct (names_reachable_consistent 8 sample_names ltac:(lia)
    (rtc_once _ _ (names_learn _ _ _ _))) as [Hl _].
  vm_compute in Hl |- *. exact Hl.
Defined.

Lemma sample_justified : justified (lit "www.A.com") sample_answers (lit "1.2.3.4")
  (mkDnsAnswer (lit "edge.c.org") 1 300 (lit "1.2.3.4") false).
Proof.
  split; [left|]. split; [left|]. split; [reflexivity|]. split; [done|].
  exists (lit "edge.c.org"). split; [|reflexivity].
  eapply rtc_l; [|eapply rtc_l; [|apply rtc_refl]].
  - eexists. split; [right; right; left|]. split; [reflexivity|]. split; reflexivity.
  - eexists. split; [right; left|]. split; [reflexivity|]. split; reflexivity.
Defined.

Lemma learn_response_sound_witness :
  ∃ e, entries sample_names !! lit "1.2.3.4" = Some e ∧
  ((entries (new 8) !! lit "1.2.3.4" = Some e ∧
    (is_learnable_name (lit "www.A.com") = true → 0 < Entry.expires_ms e)) ∨
   (∃ a, justified (lit "www.A.com") sample_answers (lit "1.2.3.4") a) ∧
   is_learnable_name (lit "www.A.com") = true ∧
   Entry.name e = to_ascii_lowercase (lit "www.A.com") ∧
   0 + 3600000 <= Entry.expires_ms e <= 0 + 86400000).
Proof.
  exists (Entry.mk (lit "www.a.com") 3600000 0).
  assert (Hx : entries sample_names !! lit "1.2.3.4" = Some (Entry.mk (lit "www.a.com") 3600000 0))
    by (vm_compute; reflexivity).
  split; [exact Hx|].
  exact (learn_response_sound (new 8) (lit "www.A.com") sample_answers 0 (lit "1.2.3.4") _
    (new_names_inv 8 ltac:(lia)) ltac:(zlia) Hx).
Defined.

Lemma learn_response_complete_witness :
  lookup sample_names (lit "1.2.3.4") 1000 = Some (lit "www.a.com").
Proof.
  apply (learn_response_complete (new 8) (lit "www.A.com") sample_answers 0 1000 (lit "1.2.3.4")
    _ (new_names_inv 8 ltac:(lia)) ltac:(reflexivity) ltac:(zlia) ltac:(vm_compute; done)
    sample_justified ltac:(lia)).
Defined.

Lemma numeric_name_not_learnable_witness : is_learnable_name (lit "8.8.8.8") = false.
Proof. apply (numeric_name_not_learnable (lit "8.8.8.8")); reflexivity. Defined.

Lemma purge_preserves_lookup_witness :
  lookup (purge_expired sample_names 5) (lit "1.2.3.4") 7 = Some (lit "www.a.com").
Proof.
  exact (purge_preserves_lookup sample_names 5 7 (lit "1.2.3.4")
    (proj1 (learn_response_inv (new 8) _ _ _ (new_names_inv 8 ltac:(lia)))) ltac:(lia)).
Defined.
