(* ===== verification/Text.v ===== *)
(** * Text

    What the detectors use of Rust's [str]: UTF-8 validation and decoding,
    Unicode white space, splitting and trimming, decimal and hexadecimal
    printing, decimal parsing, and the textual form of IP addresses.  A string
    is its UTF-8 bytes; functions that look at characters decode them. *)

From S2P Require Import Prelude.

(** ** UTF-8 *)

Definition is_cont (b : Z) : bool := (128 <=? b) && (b <=? 191).

Definition in_range (lo hi b : Z) : bool := (lo <=? b) && (b <=? hi).

(** The second byte a three- or four-byte sequence may have after [b0]: no
    overlong forms, no surrogates, nothing above U+10FFFF. *)
Definition ok3 (b0 b1 : Z) : bool :=
  ((b0 =? 224) && in_range 160 191 b1)
  || ((in_range 225 236 b0 || in_range 238 239 b0) && is_cont b1)
  || ((b0 =? 237) && in_range 128 159 b1).

Definition ok4 (b0 b1 : Z) : bool :=
  ((b0 =? 240) && in_range 144 191 b1)
  || (in_range 241 243 b0 && is_cont b1)
  || ((b0 =? 244) && in_range 128 143 b1).

(** [std::str::from_utf8], as the list of scalar values. *)
Fixpoint decode (l : bytes) : option (list Z) :=
  match l with
  | [] => Some []
  | b0 :: l1 =>
      if in_range 0 127 b0 then cons b0 <$> decode l1
      else
        match l1 with
        | [] => None
        | b1 :: l2 =>
            if in_range 194 223 b0 && is_cont b1
            then cons ((b0 - 192) * 64 + (b1 - 128)) <$> decode l2
            else
              match l2 with
              | [] => None
              | b2 :: l3 =>
                  if ok3 b0 b1 && is_cont b2
                  then cons (((b0 - 224) * 64 + (b1 - 128)) * 64 + (b2 - 128)) <$> decode l3
                  else
                    match l3 with
                    | [] => None
                    | b3 :: l4 =>
                        if ok4 b0 b1 && is_cont b2 && is_cont b3
                        then cons ((((b0 - 240) * 64 + (b1 - 128)) * 64 + (b2 - 128)) * 64
                                   + (b3 - 128)) <$> decode l4
                        else None
                    end
              end
        end
  end.

Definition encode_char (c : Z) : bytes :=
  if c <? 128 then [c]
  else if c <? 2048 then [192 + c / 64; 128 + c mod 64]
  else if c <? 65536 then [224 + c / 4096; 128 + c / 64 mod 64; 128 + c mod 64]
  else [240 + c / 262144; 128 + c / 4096 mod 64; 128 + c / 64 mod 64; 128 + c mod 64].

Definition encode (cs : list Z) : bytes := concat (encode_char <$> cs).

Definition from_utf8 (l : bytes) : option bytes :=
  match decode l with Some _ => Some l | None => None end.

(** [String::from_utf8_lossy]: one U+FFFD for each maximal invalid run. *)
Definition REPLACEMENT : bytes := [239; 191; 189].

Fixpoint from_utf8_lossy (l : bytes) : bytes :=
  match l with
  | [] => []
  | b0 :: l1 =>
      if in_range 0 127 b0 then b0 :: from_utf8_lossy l1
      else if in_range 194 223 b0 then
        match l1 with
        | b1 :: l2 =>
            if is_cont b1 then b0 :: b1 :: from_utf8_lossy l2 else REPLACEMENT ++ from_utf8_lossy l1
        | [] => REPLACEMENT
        end
      else if in_range 224 239 b0 then
        match l1 with
        | b1 :: l2 =>
            if ok3 b0 b1 then
              match l2 with
              | b2 :: l3 =>
                  if is_cont b2 then b0 :: b1 :: b2 :: from_utf8_lossy l3
                  else REPLACEMENT ++ from_utf8_lossy l2
              | [] => REPLACEMENT
              end
            else REPLACEMENT ++ from_utf8_lossy l1
        | [] => REPLACEMENT
        end
      else if in_range 240 244 b0 then
        match l1 with
        | b1 :: l2 =>
            if ok4 b0 b1 then
              match l2 with
              | b2 :: l3 =>
                  if is_cont b2 then
                    match l3 with
                    | b3 :: l4 =>
                        if is_cont b3 then b0 :: b1 :: b2 :: b3 :: from_utf8_lossy l4
                        else REPLACEMENT ++ from_utf8_lossy l3
                    | [] => REPLACEMENT
                    end
                  else REPLACEMENT ++ from_utf8_lossy l2
              | [] => REPLACEMENT
              end
            else REPLACEMENT ++ from_utf8_lossy l1
        | [] => REPLACEMENT
        end
      else REPLACEMENT ++ from_utf8_lossy l1
  end.

(** [char::is_whitespace]: the White_Space property. *)
Definition is_whitespace (c : Z) : bool :=
  in_range 9 13 c || (c =? 32) || (c =? 133) || (c =? 160) || (c =? 5760)
  || in_range 8192 8202 c || (c =? 8232) || (c =? 8233) || (c =? 8239) || (c =? 8287)
  || (c =? 12288).

Definition chars (s : bytes) : list Z := default [] (decode s).

(** The leading elements that satisfy [p], and the rest. *)
Fixpoint span_while {A} (p : A → bool) (l : list A) : list A * list A :=
  match l with
  | [] => ([], [])
  | x :: l' => if p x then let '(a, b) := span_while p l' in (x :: a, b) else ([], l)
  end.

(** [split_whitespace]. *)
Fixpoint words_aux (acc : list Z) (cs : list Z) : list (list Z) :=
  match cs with
  | [] => match acc with [] => [] | _ => [reverse acc] end
  | c :: cs' =>
      if is_whitespace c
      then match acc with [] => words_aux [] cs' | _ => reverse acc :: words_aux [] cs' end
      else words_aux (c :: acc) cs'
  end.

Definition split_whitespace (s : bytes) : list bytes := encode <$> words_aux [] (chars s).

Definition trim_start_chars (cs : list Z) : list Z := (span_while is_whitespace cs).2.
Definition trim_chars (cs : list Z) : list Z :=
  reverse (trim_start_chars (reverse (trim_start_chars cs))).

Definition trim_start (s : bytes) : bytes := encode (trim_start_chars (chars s)).
Definition trim (s : bytes) : bytes := encode (trim_chars (chars s)).

(** [split_once(char::is_whitespace)]. *)
Definition split_once_whitespace (s : bytes) : option (bytes * bytes) :=
  match span_while (λ c, negb (is_whitespace c)) (chars s) with
  | (_, []) => None
  | (a, _ :: b) => Some (encode a, encode b)
  end.

(** [starts_with] and [strip_prefix] on bytes. *)
Fixpoint strip_prefix (p l : bytes) : option bytes :=
  match p, l with
  | [], _ => Some l
  | x :: p', y :: l' => if x =? y then strip_prefix p' l' else None
  | _, [] => None
  end.
Definition starts_with (p l : bytes) : bool := bool_decide (is_Some (strip_prefix p l)).

(** [s.get(..n)] on a [str]: [n] must fall on a character boundary. *)
Definition is_char_boundary (s : bytes) (n : Z) : bool :=
  (n =? 0) || (n =? zlen s)
  || match nth_z s n with Some b => negb (is_cont b) | None => false end.

Definition str_get_to (s : bytes) (n : Z) : option bytes :=
  if is_char_boundary s n then Some (ztake n s) else None.

(** [slice.iter().position(|b| b == x)]. *)
Fixpoint position (x : Z) (l : bytes) : option Z :=
  match l with
  | [] => None
  | y :: l' => if y =? x then Some 0 else Z.succ <$> position x l'
  end.

Definition strip_suffix_byte (x : Z) (l : bytes) : option bytes :=
  match reverse l with
  | y :: r => if y =? x then Some (reverse r) else None
  | [] => None
  end.

(** ** Numbers *)

(** The digits of [n] in base [base], most significant first; [fuel] digits
    at most. *)
Fixpoint digits (fuel : nat) (base n : Z) (acc : list Z) : list Z :=
  match fuel with
  | O => acc
  | S fuel' =>
      let acc := n mod base :: acc in
      if n / base =? 0 then acc else digits fuel' base (n / base) acc
  end.

Definition digit_char (d : Z) : Z := if d <? 10 then 48 + d else 87 + d.

(** Decimal and lower-case hexadecimal of an unsigned integer below 2^64. *)
Definition dec (n : Z) : bytes := digit_char <$> digits 20 10 n [].
Definition hex (n : Z) : bytes := digit_char <$> digits 16 16 n [].

Definition is_digit (b : Z) : bool := in_range 48 57 b.

(** [str::parse::<u64>] on a non-empty string of ASCII digits. *)
Fixpoint parse_digits (acc : Z) (l : bytes) : option Z :=
  match l with
  | [] => Some acc
  | d :: l' =>
      let acc := acc * 10 + (d - 48) in
      if acc <=? U64_MAX then parse_digits acc l' else None
  end.

(** [str::parse::<u64>]. *)
Definition parse_u64 (l : bytes) : option Z :=
  let l := match l with 43 :: (_ :: _) as digits => drop 1 digits | _ => l end in
  if bool_decide (l = []) || negb (forallb is_digit l) then None else parse_digits 0 l.

Definition join (sep : bytes) (l : list bytes) : bytes :=
  match l with
  | [] => []
  | x :: l' => x ++ concat ((app sep) <$> l')
  end.

(** ** IP addresses *)

Definition ipv4_to_string (octets : bytes) : bytes := join (lit ".") (dec <$> octets).

Fixpoint segments (octets : bytes) : list Z :=
  match octets with
  | hi :: lo :: rest => be16 hi lo :: segments rest
  | _ => []
  end.

(** The first longest run of zero segments, as (start, length). *)
Fixpoint longest_zeroes (i : Z) (cur best : Z * Z) (segs : list Z) : Z * Z :=
  match segs with
  | [] => best
  | s :: segs' =>
      if s =? 0 then
        let cur := if cur.2 =? 0 then (i, 1) else (cur.1, cur.2 + 1) in
        longest_zeroes (i + 1) cur (if best.2 <? cur.2 then cur else best) segs'
      else longest_zeroes (i + 1) (0, 0) best segs'
  end.

Definition ipv6_to_string (octets : bytes) : bytes :=
  let segs := segments octets in
  match segs with
  | [0; 0; 0; 0; 0; 65535; _; _] => lit "::ffff:" ++ ipv4_to_string (zdrop 12 octets)
  | _ =>
      let '(start, len) := longest_zeroes 0 (0, 0) (0, 0) segs in
      if 1 <? len
      then join (lit ":") (hex <$> ztake start segs) ++ lit "::"
             ++ join (lit ":") (hex <$> zdrop (start + len) segs)
      else join (lit ":") (hex <$> segs)
  end.

Example ipv6_examples :
  ipv6_to_string [32; 1; 13; 184; 0; 0; 0; 0; 0; 0; 0; 0; 0; 0; 0; 1] = lit "2001:db8::1" ∧
  ipv6_to_string (replicate 16 0) = lit "::" ∧
  ipv6_to_string (replicate 10 0 ++ [255; 255; 1; 2; 3; 4]) = lit "::ffff:1.2.3.4" ∧
  ipv6_to_string [0; 1; 0; 0; 0; 2; 0; 3; 0; 4; 0; 5; 0; 6; 0; 7] = lit "1:0:2:3:4:5:6:7".
Proof. vm_compute. done. Qed.

Example split_whitespace_example :
  split_whitespace (lit "  GET  /x	HTTP/1.1 ") = [lit "GET"; lit "/x"; lit "HTTP/1.1"].
Proof. vm_compute. done. Qed.

(** ** Lemmas *)

Lemma in_range_true lo hi b : in_range lo hi b = true ↔ lo <= b <= hi.
Proof. unfold in_range. rewrite andb_true_iff, !Z.leb_le. done. Qed.

Lemma is_cont_true b : is_cont b = true ↔ 128 <= b <= 191.
Proof. apply in_range_true. Qed.

Lemma ok3_true b0 b1 :
  ok3 b0 b1 = true ↔
  (b0 = 224 ∧ 160 <= b1 <= 191) ∨ ((225 <= b0 <= 236 ∨ 238 <= b0 <= 239) ∧ 128 <= b1 <= 191) ∨
  (b0 = 237 ∧ 128 <= b1 <= 159).
Proof.
  unfold ok3. rewrite !orb_true_iff, !andb_true_iff, orb_true_iff, !in_range_true,
    is_cont_true, !Z.eqb_eq. lia.
Qed.

Lemma ok4_true b0 b1 :
  ok4 b0 b1 = true ↔
  (b0 = 240 ∧ 144 <= b1 <= 191) ∨ (241 <= b0 <= 243 ∧ 128 <= b1 <= 191) ∨
  (b0 = 244 ∧ 128 <= b1 <= 143).
Proof.
  unfold ok4. rewrite !orb_true_iff, !andb_true_iff, !in_range_true, is_cont_true, !Z.eqb_eq. lia.
Qed.

(** Re-encoding one decoded character gives its bytes back. *)
Lemma encode_char_2 b0 b1 :
  194 <= b0 <= 223 → 128 <= b1 <= 191 →
  encode_char ((b0 - 192) * 64 + (b1 - 128)) = [b0; b1].
Proof.
  intros H0 H1. unfold encode_char. rewrite (proj2 (Z.ltb_ge _ 128)), (proj2 (Z.ltb_lt _ 2048)) by lia.
  rewrite Z.div_add_l, Z.div_small, (Z.add_comm _ (b1 - 128)), Z.mod_add, Z.mod_small by lia.
  repeat f_equal; lia.
Qed.

Lemma split64 x y : 0 <= y < 64 → (x * 64 + y) / 64 = x ∧ (x * 64 + y) mod 64 = y.
Proof.
  intros. rewrite Z.div_add_l, Z.div_small, (Z.add_comm _ y), Z.mod_add, Z.mod_small by lia. lia.
Qed.

Lemma encode_char_3 b0 b1 b2 :
  ok3 b0 b1 = true → 128 <= b2 <= 191 →
  encode_char (((b0 - 224) * 64 + (b1 - 128)) * 64 + (b2 - 128)) = [b0; b1; b2].
Proof.
  rewrite ok3_true. intros H0 H2.
  set (c := ((b0 - 224) * 64 + (b1 - 128)) * 64 + (b2 - 128)).
  destruct (split64 ((b0 - 224) * 64 + (b1 - 128)) (b2 - 128)) as [Hd1 Hm1]; [lia|].
  destruct (split64 (b0 - 224) (b1 - 128)) as [Hd2 Hm2]; [lia|].
  assert (Hd : c / 4096 = b0 - 224).
  { change 4096 with (64 * 64). rewrite <- Z.div_div by lia. unfold c. by rewrite Hd1, Hd2. }
  unfold encode_char. fold c. rewrite (proj2 (Z.ltb_ge c 128)), (proj2 (Z.ltb_ge c 2048)),
    (proj2 (Z.ltb_lt c 65536)) by lia.
  rewrite Hd. unfold c. rewrite Hd1, Hm1, Hm2. repeat f_equal; lia.
Qed.

Lemma encode_char_4 b0 b1 b2 b3 :
  ok4 b0 b1 = true → 128 <= b2 <= 191 → 128 <= b3 <= 191 →
  encode_char ((((b0 - 240) * 64 + (b1 - 128)) * 64 + (b2 - 128)) * 64 + (b3 - 128)) =
    [b0; b1; b2; b3].
Proof.
  rewrite ok4_true. intros H0 H2 H3.
  set (x := ((b0 - 240) * 64 + (b1 - 128)) * 64 + (b2 - 128)).
  destruct (split64 x (b3 - 128)) as [Hd1 Hm1]; [lia|].
  destruct (split64 ((b0 - 240) * 64 + (b1 - 128)) (b2 - 128)) as [Hd2 Hm2]; [lia|].
  destruct (split64 (b0 - 240) (b1 - 128)) as [Hd3 Hm3]; [lia|].
  fold x in Hd2, Hm2. set (c := x * 64 + (b3 - 128)) in *.
  assert (Hx : c / 4096 = (b0 - 240) * 64 + (b1 - 128)).
  { change 4096 with (64 * 64). rewrite <- Z.div_div by lia. by rewrite Hd1, Hd2. }
  assert (Hy : c / 262144 = b0 - 240).
  { change 262144 with (4096 * 64). rewrite <- Z.div_div by lia. by rewrite Hx, Hd3. }
  unfold encode_char. rewrite (proj2 (Z.ltb_ge c 128)), (proj2 (Z.ltb_ge c 2048)),
    (proj2 (Z.ltb_ge c 65536)) by (unfold c, x; lia).
  rewrite Hy, Hx, Hd1, Hm1, Hm2, Hm3. repeat f_equal; lia.
Qed.

(** Decoding keeps the text: re-encoding gives the bytes back. *)
Lemma encode_decode l cs : decode l = Some cs → encode cs = l.
Proof.
  remember (length l) as n eqn:Hn. revert l Hn cs.
  induction (lt_wf n) as [n _ IH]. intros l Hn cs.
  assert (Hstep : ∀ c l' cs', cons c <$> decode l' = Some cs' → (length l' < n)%nat →
            encode cs' = encode_char c ++ l').
  { intros c l' cs' Hc Hlt. destruct (decode l') as [cs''|] eqn:Hd; simplify_eq/=.
    unfold encode. simpl. f_equal. by apply (IH (length l') Hlt l' eq_refl). }
  destruct l as [|b0 l1]; simpl; [by intros [= <-]|].
  destruct (in_range 0 127 b0) eqn:H0.
  { intros Hc%Hstep; [|simpl in Hn; lia]. rewrite Hc. apply in_range_true in H0.
    unfold encode_char. by rewrite (proj2 (Z.ltb_lt _ _)) by lia. }
  destruct l1 as [|b1 l2]; [done|].
  destruct (in_range 194 223 b0 && is_cont b1) eqn:H1.
  { apply andb_true_iff in H1 as [?%in_range_true ?%is_cont_true].
    intros Hc%Hstep; [|simpl in Hn; lia]. by rewrite Hc, encode_char_2. }
  destruct l2 as [|b2 l3]; [done|]. destruct (ok3 b0 b1 && is_cont b2) eqn:H2.
  { apply andb_true_iff in H2 as [? ?%is_cont_true].
    intros Hc%Hstep; [|simpl in Hn; lia]. by rewrite Hc, encode_char_3. }
  destruct l3 as [|b3 l4]; [done|]. destruct (ok4 b0 b1 && is_cont b2 && is_cont b3) eqn:H3; [|done].
  apply andb_true_iff in H3 as [[? ?%is_cont_true]%andb_true_iff ?%is_cont_true].
  intros Hc%Hstep; [|simpl in Hn; lia]. by rewrite Hc, encode_char_4.
Qed.

(** Text that is UTF-8 already is left as it is. *)
Lemma from_utf8_lossy_valid l cs : decode l = Some cs → from_utf8_lossy l = l.
Proof.
  remember (length l) as n eqn:Hn. revert l Hn cs.
  induction (lt_wf n) as [n _ IH]. intros l Hn cs.
  assert (Hstep : ∀ c l' cs', cons c <$> decode l' = Some cs' → (length l' < n)%nat →
            from_utf8_lossy l' = l').
  { intros c l' cs' Hc Hlt. destruct (decode l') as [cs''|] eqn:Hd; simplify_eq/=. eauto. }
  destruct l as [|b0 l1]; [done|]. cbn [decode from_utf8_lossy].
  destruct (in_range 0 127 b0) eqn:H0.
  { intros ->%Hstep; [done|simpl in Hn; lia]. }
  destruct l1 as [|b1 l2]; [done|].
  destruct (in_range 194 223 b0 && is_cont b1) eqn:H1.
  { apply andb_true_iff in H1 as [-> ->]. intros ->%Hstep; [done|simpl in Hn; lia]. }
  destruct l2 as [|b2 l3]; [done|]. destruct (ok3 b0 b1 && is_cont b2) eqn:H2.
  { apply andb_true_iff in H2 as [Ho ->]. rewrite Ho. pose proof (proj1 (ok3_true _ _) Ho).
    replace (in_range 194 223 b0) with false by (unfold in_range; lia).
    rewrite (proj2 (in_range_true 224 239 b0)) by lia.
    intros ->%Hstep; [done|simpl in Hn; lia]. }
  destruct l3 as [|b3 l4]; [done|]. destruct (ok4 b0 b1 && is_cont b2 && is_cont b3) eqn:H3; [|done].
  apply andb_true_iff in H3 as [[Ho ->]%andb_true_iff ->]. rewrite Ho.
  pose proof (proj1 (ok4_true _ _) Ho).
  replace (in_range 194 223 b0) with false by (unfold in_range; lia).
  replace (in_range 224 239 b0) with false by (unfold in_range; lia).
  rewrite (proj2 (in_range_true 240 244 b0)) by lia.
  intros ->%Hstep; [done|simpl in Hn; lia].
Qed.

(** Decoded characters are Unicode scalar values. *)
Lemma decode_range l cs : decode l = Some cs → Forall (λ c, 0 <= c <= 1114111) cs.
Proof.
  remember (length l) as n eqn:Hn. revert l Hn cs.
  induction (lt_wf n) as [n _ IH]. intros l Hn cs.
  assert (Hstep : ∀ c l' cs', cons c <$> decode l' = Some cs' → (length l' < n)%nat → 0 <= c <= 1114111 →
            Forall (λ c, 0 <= c <= 1114111) cs').
  { intros c l' cs' Hc Hlt Hr. destruct (decode l') as [cs''|] eqn:Hd; simplify_eq/=. constructor; eauto. }
  destruct l as [|b0 l1]; simpl; [intros [= <-]; constructor|].
  destruct (in_range 0 127 b0) eqn:H0.
  { apply in_range_true in H0. intros Hc. eapply Hstep; [exact Hc|simpl in Hn; lia|lia]. }
  destruct l1 as [|b1 l2]; [done|].
  destruct (in_range 194 223 b0 && is_cont b1) eqn:H1.
  { apply andb_true_iff in H1 as [?%in_range_true ?%is_cont_true].
    intros Hc. eapply Hstep; [exact Hc|simpl in Hn; lia|lia]. }
  destruct l2 as [|b2 l3]; [done|]. destruct (ok3 b0 b1 && is_cont b2) eqn:H2.
  { apply andb_true_iff in H2 as [?%ok3_true ?%is_cont_true].
    intros Hc. eapply Hstep; [exact Hc|simpl in Hn; lia|lia]. }
  destruct l3 as [|b3 l4]; [done|]. destruct (ok4 b0 b1 && is_cont b2 && is_cont b3) eqn:H3; [|done].
  apply andb_true_iff in H3 as [[?%ok4_true ?%is_cont_true]%andb_true_iff ?%is_cont_true].
  intros Hc. eapply Hstep; [exact Hc|simpl in Hn; lia|lia].
Qed.

(** ASCII text is its own character list. *)
Definition is_ascii (b : Z) : Prop := 0 <= b <= 127.

Lemma decode_ascii l : Forall is_ascii l → decode l = Some l.
Proof.
  induction 1 as [|b l Hb _ IH]; simpl; [done|]. unfold is_ascii in Hb.
  rewrite (proj2 (in_range_true _ _ _)) by lia. by rewrite IH.
Qed.

Lemma encode_ascii l : Forall is_ascii l → encode l = l.
Proof. intros Hl. apply encode_decode. by apply decode_ascii. Qed.

Lemma position_spec x l n :
  position x l = Some n →
  0 <= n < zlen l ∧ l = ztake n l ++ x :: zdrop (n + 1) l ∧ x ∉ ztake n l.
Proof.
  revert n. induction l as [|y l IH]; intros n; simpl; [done|].
  destruct (Z.eqb_spec y x) as [->|Hne].
  - intros [= <-]. split; [lia|]. split; [done|]. apply not_elem_of_nil.
  - destruct (position x l) as [k|]; [|done]. intros [= <-].
    destruct (IH k eq_refl) as (Hk & Hl & Hni). split; [lia|].
    unfold ztake, zdrop in *. replace (Z.to_nat (Z.succ k)) with (S (Z.to_nat k)) by lia.
    replace (Z.to_nat (Z.succ k + 1)) with (S (Z.to_nat (k + 1))) by lia. simpl.
    split; [by f_equal|]. apply not_elem_of_cons. done.
Qed.

Lemma position_None x l : position x l = None ↔ x ∉ l.
Proof.
  induction l as [|y l IH]; simpl; [split; [intros _; apply not_elem_of_nil|done]|].
  destruct (Z.eqb_spec y x) as [->|Hne].
  - split; [done|]. intros Hx. exfalso. apply Hx. left.
  - rewrite not_elem_of_cons. destruct (position x l); simpl; split; try done.
    + intros [_ Hx]. by apply IH in Hx.
    + intros _. split; [congruence|]. by apply IH.
Qed.

Lemma position_app x l k n : position x l = Some n → position x (l ++ k) = Some n.
Proof.
  revert n. induction l as [|y l IH]; intros n; simpl; [done|].
  destruct (Z.eqb_spec y x); [done|]. destruct (position x l) as [j|]; [|done].
  intros [= <-]. by rewrite (IH j).
Qed.

Lemma strip_prefix_Some p l r : strip_prefix p l = Some r ↔ l = p ++ r.
Proof.
  revert l. induction p as [|x p IH]; intros l; simpl.
  { split; [by intros [= ->]|by intros ->]. }
  destruct l as [|y l]; [split; [done|done]|]. destruct (Z.eqb_spec x y) as [->|Hne].
  - rewrite IH. split; [by intros ->|by intros [= ->]].
  - split; [done|]. intros [= -> ->]. done.
Qed.

Lemma starts_with_true p l : starts_with p l = true ↔ ∃ r, l = p ++ r.
Proof.
  unfold starts_with. rewrite bool_decide_eq_true. split.
  - intros [r Hr]. exists r. by apply strip_prefix_Some.
  - intros [r Hr]. exists r. by apply strip_prefix_Some.
Qed.
