(* ===== verification/Redact.v ===== *)
(** * Header redaction

    [redact_headers] of [capture-agent/src/redact.rs]: credentials in header
    values are replaced before a record leaves the parser.  Zeroing the old
    value's memory changes no value the program reads. *)

From S2P Require Import Prelude Text.

Definition SENSITIVE_HEADER_NAMES : list bytes :=
  [lit "authorization"; lit "cookie"; lit "set-cookie"; lit "proxy-authorization";
   lit "x-api-key"].

Definition REDACTED : bytes := lit "[REDACTED]".

Definition is_sensitive_header_name (name : bytes) : bool :=
  bool_decide (to_ascii_lowercase name ∈ SENSITIVE_HEADER_NAMES).

Definition looks_like_bearer_token (value : bytes) : bool :=
  match str_get_to (trim_start value) (zlen (lit "bearer ")) with
  | Some prefix => eq_ignore_ascii_case prefix (lit "bearer ")
  | None => false
  end.

Definition redact_header (h : bytes * bytes) : bytes * bytes :=
  if is_sensitive_header_name h.1 || looks_like_bearer_token h.2
  then (h.1, REDACTED) else h.

Definition redact_headers (headers : list (bytes * bytes)) : list (bytes * bytes) :=
  redact_header <$> headers.

(** ** Theorems *)

(** What is let through carries no credential. *)
Definition clean (h : bytes * bytes) : Prop :=
  h.2 = REDACTED ∨
  is_sensitive_header_name h.1 = false ∧ looks_like_bearer_token h.2 = false.

Lemma redact_header_clean h : clean (redact_header h).
Proof.
  destruct h as [n v]. unfold redact_header, clean. simpl.
  destruct (is_sensitive_header_name n) eqn:Hn; [by left|].
  destruct (looks_like_bearer_token v) eqn:Hv; [by left|]. simpl. auto.
Qed.

(** After redaction no header with a sensitive name, in any case, and no
    value that starts like a bearer token keeps its value; names, order and
    count are unchanged, other values too, and redacting again changes
    nothing. *)
Theorem redact_headers_sound (headers : list (bytes * bytes)) :
  let out := redact_headers headers in
  Forall clean out ∧ out.*1 = headers.*1 ∧
  (∀ i n v, headers !! i = Some (n, v) →
     is_sensitive_header_name n = false → looks_like_bearer_token v = false →
     out !! i = Some (n, v)) ∧
  redact_headers out = out.
Proof.
  pose proof redact_header_clean as Hclean.
  simpl. split_and!.
  - apply Forall_fmap, Forall_true. apply Hclean.
  - unfold redact_headers. rewrite <- list_fmap_compose. apply list_fmap_ext.
    intros _ [n v] _. simpl. unfold redact_header. by destruct (_ || _).
  - intros i n v Hi Hn Hv. unfold redact_headers. rewrite list_lookup_fmap, Hi. simpl.
    unfold redact_header. simpl. by rewrite Hn, Hv.
  - unfold redact_headers. rewrite <- list_fmap_compose. apply list_fmap_ext.
    intros _ [n v] _. simpl. unfold redact_header at 2. simpl.
    destruct (is_sensitive_header_name n || looks_like_bearer_token v) eqn:Hs;
      unfold redact_header; simpl.
    + by repeat case_match.
    + by rewrite Hs.
Qed.

Example redact_examples :
  redact_headers [(lit "AUTHORIZATION", lit "x"); (lit "X-Custom", lit "  BeArEr s");
                  (lit "Content-Type", lit "text/html")] =
    [(lit "AUTHORIZATION", REDACTED); (lit "X-Custom", REDACTED);
     (lit "Content-Type", lit "text/html")].
Proof. vm_compute. reflexivity. Qed.
