(* ===== verification/L7Http.v ===== *)
(** * HTTP/1.x detection

    [sniff_http], [sniff_http_response] and their helpers of
    [capture-agent/src/l7.rs]: a request line, a status line, and the reason
    phrase, media type and length of a response, read from the bytes of one
    buffer, with every scan bounded. *)

From S2P Require Import Prelude Packet Text Redact.

Definition MAX_HTTP_HEADER_SCAN_BYTES : Z := 8192.
Definition MAX_HTTP_HEADER_LINES : nat := 100.
Definition MAX_HTTP_REASON_BYTES : Z := 128.
Definition MAX_HTTP_CONTENT_TYPE_BYTES : Z := 255.

Definition HTTP_METHODS : list bytes :=
  [lit "GET"; lit "POST"; lit "PUT"; lit "DELETE"; lit "HEAD"; lit "OPTIONS"; lit "PATCH"].

Definition LF : Z := 10.
Definition CR : Z := 13.

(** A carriage return before the terminator is not part of the line. *)
Definition strip_cr (line : bytes) : bytes := default line (strip_suffix_byte CR line).

Definition first_complete_line (payload : bytes) : option bytes :=
  newline ← position LF payload;
  line ← slice payload 0 newline;
  from_utf8 (strip_cr line).

Definition sniff_http (payload : bytes) : option L7Info :=
  first_line ← first_complete_line payload;
  match split_whitespace first_line with
  | method :: path :: _ =>
      if bool_decide (method ∈ HTTP_METHODS) && starts_with (lit "/") path
      then Some (L7Http method path) else None
  | _ => None
  end.

(** ** Response headers *)

Definition parse_reason (first_line status : bytes) : option bytes :=
  split ← split_once_whitespace (trim_start first_line);
  after_status ← strip_prefix status (trim_start split.2);
  let reason := trim after_status in
  if bool_decide (reason = []) || (MAX_HTTP_REASON_BYTES <? zlen reason)
     || negb (forallb (in_range 32 126) reason)
  then None else Some reason.

Definition redact_reason (reason : option bytes) : option bytes :=
  r ← reason;
  match redact_headers [(lit "reason", r)] with
  | [(_, r')] => Some r'
  | _ => None
  end.

Inductive Seen (T : Type) := Unseen | Value (v : T) | Conflict.
Arguments Unseen {T}.
Arguments Value {T} v.
Arguments Conflict {T}.

Definition seen_record {T} `{EqDecision T} (s : Seen T) (value : option T) : Seen T :=
  match s, value with
  | Unseen, Some v => Value v
  | Value old, Some v => if bool_decide (old = v) then Value old else Conflict
  | _, _ => Conflict
  end.

Definition into_option {T} (s : Seen T) : option T :=
  match s with Value v => Some v | _ => None end.

Inductive LastHeader := LastType | LastLength | LastOther.

Definition is_ows (b : Z) : bool := (b =? 32) || (b =? 9).

Definition trim_ows (l : bytes) : bytes :=
  reverse (span_while is_ows (reverse (span_while is_ows l).2)).2.

Definition parse_content_length (value : bytes) : option Z :=
  if bool_decide (value = []) || negb (forallb is_digit value) then None
  else parse_digits 0 value.

Definition is_alphanumeric (b : Z) : bool :=
  is_digit b || in_range 65 90 b || in_range 97 122 b.

Definition is_http_token_byte (b : Z) : bool :=
  is_alphanumeric b || bool_decide (b ∈ lit "!#$%&'*+-.^_`|~").

Definition is_token (t : bytes) : bool :=
  negb (bool_decide (t = [])) && forallb is_http_token_byte t.

Definition media_type (value : bytes) : option bytes :=
  let end_ := default (zlen value) (position 59 value) in
  let media := trim_ows (ztake end_ value) in
  if MAX_HTTP_CONTENT_TYPE_BYTES <? zlen media then None
  else
    slash ← position 47 media;
    if negb (is_token (ztake slash media)) || negb (is_token (zdrop (slash + 1) media))
    then None else Some (to_ascii_lowercase media).

(** [split_inclusive] at line feeds: each piece keeps its terminator. *)
Fixpoint lines_inclusive (acc : bytes) (l : bytes) : list bytes :=
  match l with
  | [] => match acc with [] => [] | _ => [reverse acc] end
  | b :: l' =>
      if b =? LF then reverse (b :: acc) :: lines_inclusive [] l'
      else lines_inclusive (b :: acc) l'
  end.

Definition header_state : Type := (Seen bytes * Seen Z * LastHeader).

(** One header line that is not blank and not a continuation. *)
Definition read_header (line : bytes) (st : header_state) : header_state :=
  let '(ct, cl, _) := st in
  match position 58 line with
  | None => (ct, cl, LastOther)
  | Some colon =>
      let name := ztake colon line in
      let value := trim_ows (zdrop (colon + 1) line) in
      if eq_ignore_ascii_case name (lit "content-type")
      then (seen_record ct (media_type value), cl, LastType)
      else if eq_ignore_ascii_case name (lit "content-length")
      then (ct, seen_record cl (parse_content_length value), LastLength)
      else (ct, cl, LastOther)
  end.

(** A folded line spoils the header it continues. *)
Definition read_fold (st : header_state) : header_state :=
  let '(ct, cl, last) := st in
  match last with
  | LastType => (seen_record ct None, cl, last)
  | LastLength => (ct, seen_record cl None, last)
  | LastOther => st
  end.

Fixpoint header_loop (ls : list bytes) (st : header_state) : header_state :=
  match ls with
  | [] => st
  | piece :: ls' =>
      match strip_suffix_byte LF piece with
      | None => st
      | Some line =>
          match strip_cr line with
          | [] => st
          | (b :: _) as line =>
              header_loop ls' (if is_ows b then read_fold st else read_header line st)
          end
      end
  end.

Definition parse_response_headers (after_status_line : bytes) : option bytes * option Z :=
  let window := ztake (Z.min (zlen after_status_line) MAX_HTTP_HEADER_SCAN_BYTES)
                  after_status_line in
  let '(ct, cl, _) :=
    header_loop (take MAX_HTTP_HEADER_LINES (lines_inclusive [] window))
      (Unseen, Unseen, LastOther) in
  (into_option ct, into_option cl).

Definition sniff_http_response (payload : bytes) : option L7Info :=
  first_line ← first_complete_line payload;
  match split_whitespace first_line with
  | version :: parts =>
      if negb (starts_with (lit "HTTP/") version) then None
      else
        match parts with
        | status :: _ =>
            if (zlen status =? 3) && forallb is_digit status then
              let headers :=
                match position LF payload with Some n => zdrop (n + 1) payload | None => [] end in
              let '(content_type, content_length) := parse_response_headers headers in
              let reason := redact_reason (parse_reason first_line status) in
              Some (L7HttpResponse status reason content_type content_length)
            else None
        | [] => None
        end
  | [] => None
  end.

(** ** Unterminated start lines *)

Definition MAX_START_LINE_PROBE : Z := 2048.

Definition prefix_of_request (payload token : bytes) : bool :=
  if zlen payload <=? zlen token then starts_with payload token
  else starts_with token payload && bool_decide (nth_z payload (zlen token) = Some 32).

Definition unterminated_http_start_line (payload : bytes) : bool :=
  if bool_decide (payload = []) || (MAX_START_LINE_PROBE <? zlen payload)
     || bool_decide (LF ∈ payload)
  then false
  else if negb (forallb (λ b, in_range 32 126 b || (b =? CR)) payload) then false
  else
    existsb (prefix_of_request payload) HTTP_METHODS
    || (if zlen payload <=? zlen (lit "HTTP/") then starts_with payload (lit "HTTP/")
        else starts_with (lit "HTTP/") payload).

Example http_examples :
  sniff_http (lit "GET /index.html HTTP/1.1" ++ [13; 10]) = Some (L7Http (lit "GET") (lit "/index.html")) ∧
  sniff_http (lit "GET /ind") = None ∧
  sniff_http_response (lit "HTTP/1.1 404 Not Found" ++ [13; 10] ++ lit "Content-Length: 12" ++ [13; 10; 13; 10]) =
    Some (L7HttpResponse (lit "404") (Some (lit "Not Found")) None (Some 12)) ∧
  unterminated_http_start_line (lit "GET /ind") = true ∧
  unterminated_http_start_line (lit "GETX") = false.
Proof. vm_compute. done. Qed.

(** ** Specifications *)

(** The lines a header scan reads: up to the first blank or unterminated one. *)
Fixpoint scanned_lines (ls : list bytes) : list bytes :=
  match ls with
  | [] => []
  | piece :: ls' =>
      match strip_suffix_byte LF piece with
      | None => []
      | Some line => match strip_cr line with [] => [] | l => l :: scanned_lines ls' end
      end
  end.

(** The value of a line that is a header of the given name. *)
Definition header_value (name : bytes) (line : bytes) : option bytes :=
  match line with
  | [] => None
  | b :: _ =>
      if is_ows b then None
      else
        colon ← position 58 line;
        if eq_ignore_ascii_case (ztake colon line) name
        then Some (trim_ows (zdrop (colon + 1) line)) else None
  end.

(** Printable ASCII without a space. *)
Definition graphic (b : Z) : Prop := 33 <= b <= 126.

(** ** Lemmas *)

Lemma first_complete_line_app p ext line :
  first_complete_line p = Some line → first_complete_line (p ++ ext) = Some line.
Proof.
  unfold first_complete_line. destruct (position LF p) as [n|] eqn:Hp; simpl; [|done].
  rewrite (position_app _ _ ext _ Hp). simpl.
  apply position_spec in Hp as (Hn & _ & _).
  unfold slice. rewrite length_app.
  rewrite !(proj2 (Z.leb_le _ _)) by lia. simpl.
  unfold ztake, zdrop. simpl. rewrite !drop_0, take_app_le by lia. done.
Qed.

Lemma no_newline_no_line p : LF ∉ p → first_complete_line p = None.
Proof. intros Hn. unfold first_complete_line. by rewrite (proj2 (position_None LF p) Hn). Qed.

Lemma words_graphic w acc cs :
  Forall graphic w → words_aux acc (w ++ 32 :: cs) =
    match reverse w ++ acc with [] => words_aux [] cs | _ => reverse (reverse w ++ acc) :: words_aux [] cs end.
Proof.
  revert acc. induction w as [|b w IH]; intros acc Hw; simpl.
  { by destruct acc. }
  apply Forall_cons in Hw as [Hb Hw]. unfold graphic in Hb.
  assert (is_whitespace b = false) as ->.
  { unfold is_whitespace, in_range. repeat (apply orb_false_iff; split);
      try (apply Z.eqb_neq; lia); apply andb_false_iff; rewrite !Z.leb_gt; lia. }
  rewrite IH by done. rewrite reverse_cons, <- app_assoc. done.
Qed.

Lemma graphic_ascii l : Forall graphic l → Forall is_ascii l.
Proof. intros Hl. eapply Forall_impl; [exact Hl|]. unfold graphic, is_ascii. intros; lia. Qed.

(** The first words of a line of graphic words. *)
Lemma split_two_words w1 w2 rest :
  Forall graphic w1 → Forall graphic w2 → Forall is_ascii rest → w1 ≠ [] → w2 ≠ [] →
  ∃ ws, split_whitespace (w1 ++ 32 :: w2 ++ 32 :: rest) = w1 :: w2 :: ws.
Proof.
  intros H1 H2 Hr Hn1 Hn2. unfold split_whitespace, chars.
  rewrite decode_ascii; simpl.
  2: { apply Forall_app. split; [by apply graphic_ascii|]. constructor; [unfold is_ascii; lia|].
       apply Forall_app. split; [by apply graphic_ascii|]. constructor; [unfold is_ascii; lia|done]. }
  rewrite words_graphic by done. rewrite app_nil_r.
  rewrite words_graphic by done. rewrite app_nil_r.
  rewrite !reverse_involutive.
  destruct (reverse w1) as [|x l] eqn:E1.
  { apply (f_equal reverse) in E1. rewrite reverse_involutive in E1. done. }
  destruct (reverse w2) as [|y l'] eqn:E2.
  { apply (f_equal reverse) in E2. rewrite reverse_involutive in E2. done. }
  simpl. exists (encode <$> words_aux [] rest).
  rewrite !encode_ascii by (by apply graphic_ascii). done.
Qed.

Lemma position_at x l k : x ∉ l → position x (l ++ x :: k) = Some (zlen l).
Proof.
  induction l as [|y l IH]; simpl; intros Hx.
  { by rewrite Z.eqb_refl. }
  apply not_elem_of_cons in Hx as [Hne Hx]. rewrite (proj2 (Z.eqb_neq _ _)) by congruence.
  rewrite IH by done. simpl. f_equal. lia.
Qed.

Lemma strip_cr_line l : strip_cr (l ++ [CR]) = l.
Proof.
  unfold strip_cr, strip_suffix_byte. rewrite reverse_app. simpl. by rewrite reverse_involutive.
Qed.

Lemma first_line_crlf line rest :
  Forall is_ascii line → LF ∉ line → first_complete_line (line ++ CR :: LF :: rest) = Some line.
Proof.
  intros Ha Hn. unfold first_complete_line. rewrite cons_middle, app_assoc.
  rewrite position_at.
  2: { rewrite not_elem_of_app, list_elem_of_singleton. done. }
  simpl. unfold slice. rewrite !(proj2 (Z.leb_le _ _)) by (rewrite ?length_app; simpl; lia). simpl.
  unfold zdrop. simpl. rewrite drop_0, Z.sub_0_r, ztake_app, strip_cr_line. simpl.
  unfold from_utf8. by rewrite decode_ascii.
Qed.

Lemma methods_graphic m : m ∈ HTTP_METHODS → Forall graphic m ∧ m ≠ [].
Proof.
  intros Hm. assert (Hall : Forall (λ m, Forall graphic m ∧ m ≠ []) HTTP_METHODS).
  { repeat constructor; try done; vm_compute; done. }
  by eapply Forall_forall in Hall.
Qed.

Lemma seen_record_value {T} `{EqDecision T} s o (v : T) :
  seen_record s o = Value v → o = Some v ∧ (s = Unseen ∨ s = Value v).
Proof.
  destruct s as [|old|], o as [w|]; simpl; try done.
  - intros [= ->]. auto.
  - case_bool_decide; [|done]. intros [= ->]. subst. auto.
Qed.

(** A content length that survives the scan agrees with every line that
    declares one. *)
Lemma header_loop_length ls ct cl last ct' n last' :
  header_loop ls (ct, cl, last) = (ct', Value n, last') →
  (cl = Unseen ∨ cl = Value n) ∧
  Forall (λ l, ∀ v, header_value (lit "content-length") l = Some v →
                    parse_content_length v = Some n) (scanned_lines ls).
Proof.
  revert ct cl last. induction ls as [|piece ls IH]; intros ct cl last; cbn [header_loop scanned_lines].
  { intros [= _ -> _]. split; [by right|constructor]. }
  destruct (strip_suffix_byte LF piece) as [line|].
  2: { intros [= _ -> _]. split; [by right|constructor]. }
  destruct (strip_cr line) as [|b l] eqn:Hline.
  { intros [= _ -> _]. split; [by right|constructor]. }
  destruct (is_ows b) eqn:Hb.
  - intros Hl. assert (Hlast : (∃ ct1, read_fold (ct, cl, last) = (ct1, cl, last)) ∨
                               read_fold (ct, cl, last) = (ct, seen_record cl None, last)).
    { destruct last; simpl; [left|right|left]; eauto. }
    assert (Hnv : ∀ v, header_value (lit "content-length") (b :: l) = Some v →
                       parse_content_length v = Some n).
    { simpl. by rewrite Hb. }
    destruct Hlast as [[ct1 Hx]|Hx]; rewrite Hx in Hl; apply IH in Hl as [Hc Hall].
    + split; [done|by constructor].
    + exfalso. destruct cl; simpl in Hc; destruct Hc; done.
  - assert (Hhv : header_value (lit "content-length") (b :: l) =
      (colon ← position 58 (b :: l);
       if eq_ignore_ascii_case (ztake colon (b :: l)) (lit "content-length")
       then Some (trim_ows (zdrop (colon + 1) (b :: l))) else None))
      by (unfold header_value; by rewrite Hb).
    unfold read_header. destruct (position 58 (b :: l)) as [colon|] eqn:Hp.
    2: { intros [Hc Hall]%IH. split; [done|]. constructor; [|done]. by rewrite Hhv. }
    cbn [mbind option_bind] in Hhv.
    destruct (eq_ignore_ascii_case (ztake colon (b :: l)) (lit "content-type")) eqn:Ht.
    + intros [Hc Hall]%IH. split; [done|]. constructor; [|done]. rewrite Hhv.
      intros v. destruct (eq_ignore_ascii_case _ (lit "content-length")) eqn:Hcl; [|done].
      exfalso. unfold eq_ignore_ascii_case in *.
      apply bool_decide_eq_true in Ht, Hcl. rewrite Ht in Hcl. done.
    + destruct (eq_ignore_ascii_case (ztake colon (b :: l)) (lit "content-length")) eqn:Hcl.
      * intros [Hc Hall]%IH.
        assert (Hv : parse_content_length (trim_ows (zdrop (colon + 1) (b :: l))) = Some n ∧
                     (cl = Unseen ∨ cl = Value n)).
        { destruct Hc as [Hc|Hc]; [|by apply seen_record_value in Hc].
          by destruct cl, (parse_content_length _); simpl in Hc; try case_bool_decide. }
        destruct Hv as [Hv Hcl']. split; [done|]. constructor; [|done].
        rewrite Hhv. by intros v [= <-].
      * intros [Hc Hall]%IH. split; [done|]. constructor; [|done]. by rewrite Hhv.
Qed.

(** ** Theorems *)

(** A request line is read back as sent: for every method the detector
    knows and every path of printable non-space bytes, whatever follows. *)
Theorem sniff_http_roundtrip (method path version rest : bytes) :
  method ∈ HTTP_METHODS → Forall graphic path → starts_with (lit "/") path = true →
  Forall graphic version →
  sniff_http (method ++ 32 :: path ++ 32 :: version ++ CR :: LF :: rest) =
    Some (L7Http method path).
Proof.
  intros Hm Hp Hs Hv. destruct (methods_graphic method Hm) as [Hmg Hmn].
  assert (Hpn : path ≠ []) by (intros ->; done).
  assert (Hlf : ∀ l, Forall graphic l → LF ∉ l).
  { intros l Hl Hin. eapply Forall_forall in Hl; [|exact Hin]. unfold graphic, LF in Hl. lia. }
  assert (Heq : method ++ 32 :: path ++ 32 :: version ++ CR :: LF :: rest =
    (method ++ 32 :: path ++ 32 :: version) ++ CR :: LF :: rest)
    by (by rewrite <- !app_assoc, <- !app_comm_cons, <- !app_assoc).
  unfold sniff_http. rewrite Heq, first_line_crlf; simpl.
  - destruct (split_two_words method path version Hmg Hp (graphic_ascii _ Hv) Hmn Hpn) as [ws Hws].
    rewrite Hws. by rewrite bool_decide_eq_true_2, Hs by done.
  - apply Forall_app. split; [by apply graphic_ascii|]. constructor; [unfold is_ascii; lia|].
    apply Forall_app. split; [by apply graphic_ascii|]. constructor; [unfold is_ascii; lia|].
    by apply graphic_ascii.
  - rewrite !not_elem_of_app, !not_elem_of_cons, !not_elem_of_app, !not_elem_of_cons.
    split_and!; auto; done.
Qed.

Lemma sniff_http_roundtrip_witness :
  sniff_http (lit "PUT" ++ 32 :: lit "/a?b=c" ++ 32 :: lit "HTTP/1.1" ++ CR :: LF :: [255; 0]) =
    Some (L7Http (lit "PUT") (lit "/a?b=c")).
Proof.
  apply (sniff_http_roundtrip (lit "PUT") (lit "/a?b=c") (lit "HTTP/1.1") [255; 0]).
  - set_solver.
  - repeat constructor; vm_compute; done.
  - reflexivity.
  - repeat constructor; vm_compute; done.
Defined.

(** A decision taken on the bytes at hand is not revised by more bytes:
    the request is the same, the response has the same status and reason. *)
Theorem http_decision_stable (p ext : bytes) :
  (∀ info, sniff_http p = Some info → sniff_http (p ++ ext) = Some info) ∧
  (∀ status reason ct cl, sniff_http_response p = Some (L7HttpResponse status reason ct cl) →
     ∃ ct' cl', sniff_http_response (p ++ ext) = Some (L7HttpResponse status reason ct' cl')).
Proof.
  split.
  - intros info. unfold sniff_http. destruct (first_complete_line p) as [line|] eqn:Hl; [|done].
    by rewrite (first_complete_line_app p ext line Hl).
  - intros status reason ct cl. unfold sniff_http_response.
    destruct (first_complete_line p) as [line|] eqn:Hl; [|done].
    rewrite (first_complete_line_app p ext line Hl). simpl.
    destruct (split_whitespace line) as [|v [|s ws]]; [done|by destruct (negb _)|].
    destruct (negb _); [done|]. destruct (_ && _); [|done].
    destruct (parse_response_headers _) as [a b].
    destruct (parse_response_headers _) as [a' b']. intros [= <- <- _ _]. eauto.
Qed.

(** No payload is both a request and a response. *)
Theorem http_request_response_exclusive (p : bytes) (info : L7Info) :
  sniff_http p = Some info → sniff_http_response p = None.
Proof.
  unfold sniff_http, sniff_http_response. destruct (first_complete_line p) as [line|]; [|done].
  simpl. destruct (split_whitespace line) as [|w [|w' ws]]; [done..|].
  destruct (bool_decide (w ∈ HTTP_METHODS)) eqn:Hm; [|done].
  apply bool_decide_eq_true in Hm. intros _.
  assert (Hall : Forall (λ m, starts_with (lit "HTTP/") m = false) HTTP_METHODS).
  { repeat constructor; vm_compute; done. }
  eapply Forall_forall in Hall; [|exact Hm]. by rewrite Hall.
Qed.

Lemma http_request_response_exclusive_witness :
  sniff_http_response (lit "GET / HTTP/1.1" ++ [13; 10]) = None.
Proof.
  apply (http_request_response_exclusive (lit "GET / HTTP/1.1" ++ [13; 10])
    (L7Http (lit "GET") (lit "/"))). vm_compute. reflexivity.
Defined.

(** A buffer reported as an unterminated start line is one no detector
    can have decided on, and every cut of a request line of a known method,
    before its terminator, is reported so: a split request is never dropped. *)
Theorem unterminated_start_line_exact (method tail cut ext : bytes) :
  method ∈ HTTP_METHODS → Forall (λ b, 32 <= b <= 126) tail →
  method ++ 32 :: tail ++ [CR] = cut ++ ext → cut ≠ [] → zlen cut <= 2048 →
  unterminated_http_start_line cut = true ∧
  sniff_http cut = None ∧ sniff_http_response cut = None.
Proof.
  intros Hm Ht Heq Hne Hlen. destruct (methods_graphic method Hm) as [Hg Hmn].
  assert (Hall : Forall (λ b, 32 <= b <= 126 ∨ b = CR) cut).
  { assert (Hf : Forall (λ b, 32 <= b <= 126 ∨ b = CR) (cut ++ ext)).
    { rewrite <- Heq. apply Forall_app. split.
      - eapply Forall_impl; [exact Hg|]. unfold graphic. intros; lia.
      - constructor; [lia|]. apply Forall_app. split; [|by constructor; [right|]].
        eapply Forall_impl; [exact Ht|]. auto. }
    by apply Forall_app in Hf as [? _]. }
  assert (Hnl : LF ∉ cut).
  { intros Hin. eapply Forall_forall in Hall; [|exact Hin]. unfold LF, CR in Hall. lia. }
  split; [|unfold sniff_http, sniff_http_response; by rewrite no_newline_no_line].
  unfold unterminated_http_start_line.
  rewrite (bool_decide_eq_false_2 (cut = [])), (bool_decide_eq_false_2 (LF ∈ cut)) by done.
  rewrite (proj2 (Z.ltb_ge _ _)) by (unfold MAX_START_LINE_PROBE; lia). cbn [orb].
  assert (forallb (λ b, in_range 32 126 b || (b =? CR)) cut = true) as ->.
  { apply forallb_forall. intros b Hb%list_elem_of_In. eapply Forall_forall in Hall; [|exact Hb].
    apply orb_true_iff. rewrite in_range_true, Z.eqb_eq. done. }
  cbn [negb]. apply orb_true_iff. left. apply existsb_exists. exists method.
  split; [by apply list_elem_of_In|]. unfold prefix_of_request.
  destruct (Z.leb_spec (zlen cut) (zlen method)) as [Hle|Hgt].
  - apply starts_with_true. exists (drop (length cut) method).
    rewrite <- (take_drop (length cut) method) at 1. f_equal.
    assert (take (length cut) (method ++ 32 :: tail ++ [CR]) = cut) as Hx
      by (rewrite Heq; apply take_app_length).
    rewrite take_app_le in Hx by lia. done.
  - assert (Hcut : ∃ r, cut = method ++ 32 :: r).
    { exists (drop (length method + 1) cut).
      rewrite <- (take_drop (length method + 1) cut) at 1.
      change (32 :: drop (length method + 1) cut) with ([32] ++ drop (length method + 1) cut).
      rewrite app_assoc. f_equal.
      assert (take (length method + 1) (cut ++ ext) = method ++ [32]) as Hx.
      { rewrite <- Heq, take_app, take_ge by lia. f_equal.
        replace (length method + 1 - length method)%nat with 1%nat by lia. done. }
      rewrite take_app_le in Hx by lia. done. }
    destruct Hcut as [r ->]. apply andb_true_iff. split.
    + apply starts_with_true. eauto.
    + apply bool_decide_eq_true_2. unfold nth_z. rewrite Nat2Z.id, lookup_app_r by lia.
      by rewrite Nat.sub_diag.
Qed.

Lemma unterminated_start_line_exact_witness :
  unterminated_http_start_line (lit "GET /ind") = true.
Proof.
  apply (unterminated_start_line_exact (lit "GET") (lit "/index.html HTTP/1.1") (lit "GET /ind")
    (lit "ex.html HTTP/1.1" ++ [CR])).
  - set_solver.
  - repeat constructor; vm_compute; done.
  - reflexivity.
  - done.
  - vm_compute. done.
Defined.

(** A reported content length is one every scanned [Content-Length] line
    agrees on: two that differ, or one that does not parse, report none. *)
Theorem content_length_agreed (after_status_line : bytes) (n : Z) :
  (parse_response_headers after_status_line).2 = Some n →
  let window := ztake (Z.min (zlen after_status_line) 8192) after_status_line in
  Forall (λ l, ∀ v, header_value (lit "content-length") l = Some v →
                    parse_content_length v = Some n)
    (scanned_lines (take 100 (lines_inclusive [] window))).
Proof.
  unfold parse_response_headers, MAX_HTTP_HEADER_SCAN_BYTES, MAX_HTTP_HEADER_LINES.
  set (ls := take 100 _). intros Hn. simpl.
  destruct (header_loop ls (Unseen, Unseen, LastOther)) as [[ct cl] last] eqn:Hl.
  simpl in Hn. destruct cl; simplify_eq/=. by apply header_loop_length in Hl as [_ ?].
Qed.

Lemma content_length_agreed_witness :
  let after := lit "Content-Length: 5" ++ [13; 10] ++ lit "content-length:5" ++ [13; 10; 13; 10] in
  (parse_response_headers after).2 = Some 5 ∧
  Forall (λ l, ∀ v, header_value (lit "content-length") l = Some v →
                    parse_content_length v = Some 5)
    (scanned_lines (take 100 (lines_inclusive [] (ztake (Z.min (zlen after) 8192) after)))).
Proof.
  intros after. assert (H5 : (parse_response_headers after).2 = Some 5) by (vm_compute; reflexivity).
  split; [exact H5|]. exact (content_length_agreed after 5 H5).
Defined.
