(* ===== verification/L7Dns.v ===== *)
(** * DNS message decoding

    [read_dns_name], [dns_txt_text], [dns_rdata_text], [sniff_dns] and
    [sniff_dns_tcp] of [capture-agent/src/l7.rs]: compressed names with a hop
    limit, TXT text with escapes, caps and redaction, the answer section of a
    response, and the two-byte framing of DNS over TCP. *)

From S2P Require Import Prelude Packet Text Redact TcpSegments.

Definition MAX_DNS_TXT_ANSWER_BYTES : Z := 512.
Definition MAX_DNS_TXT_RESPONSE_BYTES : Z := 2048.
Definition MAX_DNS_ANSWERS : Z := 16.
Definition MAX_DNS_NAME_LEN : Z := 255.
Definition MAX_DNS_POINTER_HOPS : Z := 16.
Definition MAX_DNS_TCP_MESSAGE_BYTES : Z := MAX_TCP_STREAM_BYTES - 2.

(** ** Names *)

(** The loop of [read_dns_name].  The outer option is the fuel. *)
Fixpoint read_name_loop (fuel : nat) (msg : bytes) (labels : list bytes)
    (wire_len pos : Z) (end_in_place : option Z) (hops : Z) : option (option (bytes * Z)) :=
  match fuel with
  | O => None
  | S fuel' =>
      match nth_z msg pos with
      | None => Some None
      | Some len_byte =>
          let kind := Z.land len_byte 192 in
          if kind =? 0 then
            if len_byte =? 0 then
              Some (Some (join (lit ".") labels, default (pos + 1) end_in_place))
            else
              let wire_len := wire_len + (len_byte + 1) in
              if MAX_DNS_NAME_LEN <? wire_len then Some None
              else
                match slice msg (pos + 1) (pos + 1 + len_byte) ≫= from_utf8 with
                | None => Some None
                | Some label =>
                    read_name_loop fuel' msg (labels ++ [label]) wire_len
                      (pos + (1 + len_byte)) end_in_place hops
                end
          else if kind =? 192 then
            let hops := hops + 1 in
            if MAX_DNS_POINTER_HOPS <? hops then Some None
            else
              match nth_z msg (pos + 1) with
              | None => Some None
              | Some lo =>
                  read_name_loop fuel' msg labels wire_len
                    (Z.lor (Z.shiftl (Z.land len_byte 63) 8) lo)
                    (Some (default (pos + 2) end_in_place)) hops
              end
          else Some None
      end
  end.

(** Each turn lengthens the name by at least two bytes or takes a hop. *)
Definition name_fuel : nat := 300.

Definition read_dns_name (msg : bytes) (offset : Z) : option (bytes * Z) :=
  default None (read_name_loop name_fuel msg [] 0 offset None 0).

(** ** TXT data *)

(** The character-strings of an RDATA, or [None] when one overruns it; one
    string per turn. *)
Fixpoint txt_strings (fuel : nat) (rdata : bytes) : option (list bytes) :=
  match fuel with
  | O => None
  | S fuel' =>
      match rdata with
      | [] => Some []
      | len :: rest =>
          if zlen rest <? len then None
          else cons (ztake len rest) <$> txt_strings fuel' (zdrop len rest)
      end
  end.

Definition escape_byte (b : Z) : bytes :=
  if b =? 92 then [92; 92]
  else if in_range 32 126 b then [b]
  else [92; 48 + b / 100; 48 + b / 10 mod 10; 48 + b mod 10].

(** Escapes up to the answer cap: the text, the characters it stands for, and
    whether it was cut. *)
Fixpoint escape_loop (bs text unescaped : bytes) : bytes * bytes * bool :=
  match bs with
  | [] => (text, unescaped, false)
  | b :: bs' =>
      let token := escape_byte b in
      if MAX_DNS_TXT_ANSWER_BYTES <? zlen text + zlen token then (text, unescaped, true)
      else escape_loop bs' (text ++ token) (unescaped ++ [b])
  end.

(** Length of the escape that starts a text. *)
Definition escape_step (text : bytes) : Z :=
  match text with
  | 92 :: d :: _ => if is_digit d then 4 else 2
  | 92 :: _ => 2
  | _ => 1
  end.

(** The longest whole-escape prefix within the budget. *)
Fixpoint cut_loop (fuel : nat) (text : bytes) (end_ budget : Z) : Z :=
  match fuel with
  | O => end_
  | S fuel' =>
      if end_ <? zlen text then
        let step := escape_step (zdrop end_ text) in
        if budget <? end_ + step then end_ else cut_loop fuel' text (end_ + step) budget
      else end_
  end.

(** The key a TXT value is judged by: what precedes the first [=] or [:]. *)
Definition txt_key (unescaped : list Z) : bytes :=
  let key := trim_chars (span_while (λ c, negb ((c =? 61) || (c =? 58))) unescaped).1 in
  if zlen (encode key) <=? 64 then encode key else [].

Definition dns_txt_text (rdata : bytes) (budget : Z) : bytes * bool :=
  match txt_strings (S (length rdata)) rdata with
  | None => ([], false)
  | Some strings =>
      let content := concat strings in
      if budget =? 0 then ([], 0 <? zlen content)
      else
        let '(text, unescaped, cut) := escape_loop content [] [] in
        let judged :=
          match redact_headers [(txt_key unescaped, encode unescaped)] with
          | [(_, v)] => v
          | _ => []
          end in
        let '(text, cut) :=
          if bool_decide (judged = REDACTED) then (judged, false) else (text, cut) in
        if budget <? zlen text
        then (ztake (cut_loop (S (length text)) text 0 budget) text, true)
        else (text, cut)
  end.

(** ** Records *)

Definition dns_rdata_text (msg : bytes) (rtype rdata_offset : Z) (rdata : bytes) : bytes :=
  if (rtype =? 1) && (zlen rdata =? 4) then ipv4_to_string rdata
  else if (rtype =? 28) && (zlen rdata =? 16) then ipv6_to_string rdata
  else if bool_decide (rtype ∈ [5; 2; 12])
  then match read_dns_name msg rdata_offset with Some (name, _) => name | None => [] end
  else [].

(** The questions after the first: [n] of them skipped, or [None]. *)
Fixpoint skip_questions (n : nat) (payload : bytes) (pos : Z) : option Z :=
  match n with
  | O => Some pos
  | S n' =>
      match read_dns_name payload pos with
      | Some (_, after) =>
          if after + 4 <=? zlen payload then skip_questions n' payload (after + 4) else None
      | None => None
      end
  end.

Definition u16_at (l : bytes) (i : Z) : Z := be16 (default 0 (nth_z l i)) (default 0 (nth_z l (i + 1))).

Fixpoint read_answers (n : nat) (payload : bytes) (pos txt_budget : Z) : list DnsAnswer :=
  match n with
  | O => []
  | S n' =>
      match read_dns_name payload pos with
      | None => []
      | Some (name, after) =>
          match slice payload after (after + 10) with
          | None => []
          | Some fixed =>
              let rtype := u16_at fixed 0 in
              let ttl := be32 (default 0 (nth_z fixed 4)) (default 0 (nth_z fixed 5))
                           (default 0 (nth_z fixed 6)) (default 0 (nth_z fixed 7)) in
              let rdlength := u16_at fixed 8 in
              let rdata_offset := after + 10 in
              match slice payload rdata_offset (rdata_offset + rdlength) with
              | None => []
              | Some rdata =>
                  let '(data, data_truncated, txt_budget) :=
                    if rtype =? 16 then
                      let '(text, truncated) := dns_txt_text rdata txt_budget in
                      (text, truncated, txt_budget - zlen text)
                    else (dns_rdata_text payload rtype rdata_offset rdata, false, txt_budget) in
                  mkDnsAnswer name rtype ttl data data_truncated
                    :: read_answers n' payload (rdata_offset + rdlength) txt_budget
              end
          end
      end
  end.

Definition sniff_dns (payload : bytes) : option L7Info :=
  if zlen payload <? 12 then None
  else
    let id := u16_at payload 0 in
    let is_response := negb (Z.land (default 0 (nth_z payload 2)) 128 =? 0) in
    let rcode := Z.land (default 0 (nth_z payload 3)) 15 in
    let qdcount := u16_at payload 4 in
    let answer_count := u16_at payload 6 in
    if qdcount =? 0 then None
    else
      match read_dns_name payload 12 with
      | None => None
      | Some (query_name, after_name) =>
          if bool_decide (query_name = []) then None
          else
            let qtype_bytes := slice payload after_name (after_name + 2) in
            if negb is_response then
              Some (L7Dns query_name id
                      (match qtype_bytes with Some b => u16_at b 0 | None => 0 end))
            else
              match qtype_bytes with
              | None => None
              | Some b =>
                  let qtype := u16_at b 0 in
                  let pos := after_name + 4 in
                  if zlen payload <? pos then None
                  else
                    let answers :=
                      match skip_questions (Z.to_nat (Z.min qdcount 16 - 1)) payload pos with
                      | Some pos =>
                          if qdcount <=? 16
                          then read_answers (Z.to_nat (Z.min answer_count MAX_DNS_ANSWERS))
                                 payload pos MAX_DNS_TXT_RESPONSE_BYTES
                          else []
                      | None => []
                      end in
                    Some (L7DnsResponse query_name id qtype rcode answer_count answers)
              end
      end.

Definition sniff_dns_tcp (stream : bytes) : L7Sniff :=
  match stream with
  | [] => Undecided
  | [_] => NeedMoreBytes 1
  | hi :: lo :: _ =>
      let declared := be16 hi lo in
      if negb ((12 <=? declared) && (declared <=? MAX_DNS_TCP_MESSAGE_BYTES)) then Undecided
      else
        match slice stream 2 (2 + declared) with
        | None => NeedMoreBytes (2 + declared - zlen stream)
        | Some message =>
            match sniff_dns message with
            | Some info => Decided info
            | None => Undecided
            end
        end
  end.

Definition is_dns_over_tcp (protocol : TransportProtocol) (src_port dst_port : option Z) : bool :=
  bool_decide (protocol = Tcp)
  && (bool_decide (src_port = Some 53) || bool_decide (dst_port = Some 53)).

(** ** Specifications *)

Definition wire_labels (labels : list bytes) : bytes :=
  concat ((λ l, zlen l :: l) <$> labels).

(** Labels a name can have. *)
Definition label_ok (l : bytes) : Prop := 0 < zlen l <= 63 ∧ is_Some (decode l).
Definition labels_ok (labels : list bytes) : Prop :=
  Forall label_ok labels ∧ zlen (wire_labels labels) <= 255.

(** A query as a resolver sends it. *)
Definition dns_query (id : Z) (labels : list bytes) (qtype : Z) : bytes :=
  [id / 256; id mod 256; 1; 0; 0; 1; 0; 0; 0; 0; 0; 0]
    ++ wire_labels labels ++ [0; qtype / 256; qtype mod 256; 0; 1].

(** Undoing the escapes of a TXT text. *)
Fixpoint unescape (fuel : nat) (text : bytes) : bytes :=
  match fuel with
  | O => []
  | S fuel' =>
      match text with
      | [] => []
      | 92 :: 92 :: rest => 92 :: unescape fuel' rest
      | 92 :: a :: b :: c :: rest =>
          (a - 48) * 100 + (b - 48) * 10 + (c - 48) :: unescape fuel' rest
      | b :: rest => b :: unescape fuel' rest
      end
  end.

Example dns_examples :
  sniff_dns (dns_query 4660 [lit "a"; lit "com"] 1) = Some (L7Dns (lit "a.com") 4660 1) ∧
  dns_txt_text (5 :: lit "a\\b" ++ [9]) 100 = (lit "a\\\\b\009", false) ∧
  dns_txt_text (8 :: lit "cookie=x") 100 = (REDACTED, false) ∧
  dns_txt_text (8 :: lit "cookie=x") 4 = (lit "[RED", true).
Proof. vm_compute. done. Qed.

(** ** Reading names *)

Section read_names.
Context (msg : bytes).
Hypothesis msg_bytes : Forall is_u8 msg.

Lemma msg_byte i b : nth_z msg i = Some b → is_u8 b.
Proof. apply (Forall_lookup_1 is_u8 msg _ _ msg_bytes). Qed.

(** Every turn either fails, ends, adds a label of at least one byte to the
    255 the name may have on the wire, or takes one of the 16 hops. *)
Lemma read_name_loop_total fuel labels wire_len pos e hops :
  0 <= wire_len <= 255 → 0 <= hops <= 16 → 271 - wire_len - hops < Z.of_nat fuel →
  is_Some (read_name_loop fuel msg labels wire_len pos e hops).
Proof.
  revert labels wire_len pos e hops.
  induction fuel as [|fuel IH]; intros labels w pos e hops Hw Hh Hf; [lia|].
  cbn [read_name_loop].
  destruct (nth_z msg pos) as [b|] eqn:Hb; [|done]. apply msg_byte in Hb. width.
  destruct (Z.land b 192 =? 0).
  - destruct (b =? 0) eqn:Hz; [done|]. unfold MAX_DNS_NAME_LEN. case_zb; [done|].
    destruct (_ ≫= _); [|done]. apply IH; lia.
  - destruct (Z.land b 192 =? 192); [|done]. unfold MAX_DNS_POINTER_HOPS. case_zb; [done|].
    destruct (nth_z msg (pos + 1)); [|done]. apply IH; lia.
Qed.
End read_names.

Lemma zlen_wire_labels_app ls l :
  zlen (wire_labels (ls ++ [l])) = zlen (wire_labels ls) + (zlen l + 1).
Proof.
  unfold wire_labels. rewrite fmap_app, concat_app, length_app. simpl.
  rewrite app_nil_r. simpl. lia.
Qed.

Lemma wire_labels_app ls1 ls2 : wire_labels (ls1 ++ ls2) = wire_labels ls1 ++ wire_labels ls2.
Proof. unfold wire_labels. by rewrite fmap_app, concat_app. Qed.

Lemma zlen_join_dot ls : zlen (join (lit ".") ls) = Z.max 0 (zlen (wire_labels ls) - 1).
Proof.
  assert (Hr : ∀ k, length (concat (app (lit ".") <$> k)) = length (wire_labels k)).
  { unfold wire_labels. induction k as [|x k IH]; [done|]. rewrite !fmap_cons.
    cbn [concat]. rewrite !length_app, IH. done. }
  destruct ls as [|l ls]; [done|].
  change (wire_labels (l :: ls)) with ((zlen l :: l) ++ wire_labels ls).
  unfold join. rewrite !length_app, Hr. cbn [length]. lia.
Qed.

Lemma read_name_loop_bounds fuel msg labels wire_len pos e hops name end_ off :
  Forall is_u8 msg → 0 <= pos → wire_len = zlen (wire_labels labels) → wire_len <= 255 →
  match e with Some x => off < x <= zlen msg | None => off <= pos end →
  read_name_loop fuel msg labels wire_len pos e hops = Some (Some (name, end_)) →
  off < end_ <= zlen msg ∧ zlen name <= 254.
Proof.
  intros Hmsg. revert labels wire_len pos e hops.
  induction fuel as [|fuel IH]; intros labels w pos e hops Hpos Hw H255 He; [done|].
  cbn [read_name_loop].
  destruct (nth_z msg pos) as [b|] eqn:Hb; [|done].
  pose proof (nth_z_lt _ _ _ Hb Hpos). apply (msg_byte _ Hmsg) in Hb. width.
  destruct (Z.land b 192 =? 0).
  - destruct (b =? 0) eqn:Hz.
    + intros [= <- <-]. rewrite zlen_join_dot. split; [destruct e; simpl; lia|lia].
    + unfold MAX_DNS_NAME_LEN. case_zb; [done|].
      destruct (slice msg (pos + 1) (pos + 1 + b)) as [label|] eqn:Hs; [|done]. simpl.
      unfold from_utf8. destruct (decode label); [|done].
      apply slice_length in Hs; [|lia].
      apply IH; [lia| |lia|destruct e; lia].
      rewrite zlen_wire_labels_app. lia.
  - destruct (Z.land b 192 =? 192); [|done]. case_zb; [done|].
    destruct (nth_z msg (pos + 1)) as [lo|] eqn:Hlo; [|done].
    pose proof (nth_z_lt _ _ _ Hlo ltac:(lia)). apply (msg_byte _ Hmsg) in Hlo. width.
    apply IH; [|done..|].
    + apply Z.lor_nonneg. split; [apply Z.shiftl_nonneg, Z.land_nonneg; lia|lia].
    + simpl. destruct e; simpl; lia.
Qed.

(** Reading a name always terminates within the fuel of the model, on any
    bytes, pointer loops included. *)
Theorem read_dns_name_terminates msg offset :
  Forall is_u8 msg →
  is_Some (read_name_loop name_fuel msg [] 0 offset None 0).
Proof. intros Hmsg. apply read_name_loop_total; [done|lia..|]. unfold name_fuel. lia. Qed.

(** A name that is read ends after where it began and within the message,
    and its text has at most 254 bytes. *)
Theorem read_dns_name_bounds msg offset name end_ :
  Forall is_u8 msg → 0 <= offset →
  read_dns_name msg offset = Some (name, end_) →
  offset < end_ <= zlen msg ∧ zlen name <= 254.
Proof.
  intros Hmsg Hoff. unfold read_dns_name.
  destruct (read_name_loop _ _ _ _ _ _ _) as [[[n e]|]|] eqn:Hr; [|done..].
  intros [= -> ->]. refine (read_name_loop_bounds _ _ _ _ _ _ _ _ _ _ Hmsg Hoff eq_refl _ _ Hr); simpl; lia.
Qed.

(** ** Names round trip *)

Lemma label_byte_kind n : 0 < n <= 63 → Z.land n 192 = 0.
Proof.
  intros Hn. apply Z.bits_inj'. intros i Hi. rewrite Z.land_spec, Z.bits_0.
  destruct (decide (i < 6)).
  - assert (i = 0 ∨ i = 1 ∨ i = 2 ∨ i = 3 ∨ i = 4 ∨ i = 5) as [->|[->|[->|[->|[->| ->]]]]] by lia;
      apply andb_false_r.
  - rewrite (Z.bits_above_log2 n i); [done|lia|].
    assert (Z.log2 n <= Z.log2 63) by (apply Z.log2_le_mono; lia).
    change (Z.log2 63) with 5 in *. lia.
Qed.

Lemma slice_app_zdrop {A} (l s rest : list A) i :
  0 <= i → zdrop i l = s ++ rest → i + zlen s <= zlen l → slice l i (i + zlen s) = Some s.
Proof.
  intros Hi Hd Hle. unfold slice.
  replace ((i <=? i + zlen s) && (i + zlen s <=? zlen l)) with true by (symmetry; lia).
  f_equal. rewrite Hd. replace (i + zlen s - i) with (zlen s) by lia. apply ztake_app.
Qed.

Lemma zdrop_cons_lookup {A} (l rest : list A) i x :
  0 <= i → zdrop i l = x :: rest → nth_z l i = Some x ∧ zdrop (i + 1) l = rest ∧ i < zlen l.
Proof.
  intros Hi Hd. unfold nth_z, zdrop in *.
  assert (Hx : l !! Z.to_nat i = Some x).
  { pose proof (lookup_drop l (Z.to_nat i) 0) as Hl. rewrite Hd in Hl. simpl in Hl.
    rewrite Nat.add_0_r in Hl. done. }
  split_and!; [done| |].
  - replace (Z.to_nat (i + 1)) with (Z.to_nat i + 1)%nat by lia.
    rewrite <- drop_drop, Hd. done.
  - apply lookup_lt_Some in Hx. lia.
Qed.

Lemma zdrop_app_add {A} (l s rest : list A) i :
  0 <= i → zdrop i l = s ++ rest → zdrop (i + zlen s) l = rest.
Proof.
  intros Hi Hd. unfold zdrop in *. replace (Z.to_nat (i + zlen s)) with (Z.to_nat i + length s)%nat by lia.
  rewrite <- drop_drop, Hd. apply drop_app_length.
Qed.

Lemma zdrop_len_ge {A} (l s : list A) i : 0 <= i → zdrop i l = s → s ≠ [] → i + zlen s = zlen l.
Proof.
  intros Hi <- Hs. assert (zdrop i l = [] ∨ (Z.to_nat i < length l)%nat) as [?|?].
  { destruct (decide (Z.to_nat i < length l)%nat); [by right|left; apply drop_ge; lia]. }
  - done.
  - rewrite length_zdrop. lia.
Qed.

(** The loop walks a run of labels, one per turn. *)
Lemma read_name_loop_labels ls fuel msg labels w pos e hops rest :
  0 <= pos → 0 <= w → Forall label_ok ls → zdrop pos msg = wire_labels ls ++ rest →
  w + zlen (wire_labels ls) <= 255 → rest ≠ [] →
  read_name_loop (length ls + fuel) msg labels w pos e hops =
  read_name_loop fuel msg (labels ++ ls) (w + zlen (wire_labels ls)) (pos + zlen (wire_labels ls)) e hops.
Proof.
  revert labels w pos. induction ls as [|l ls IH]; intros labels w pos Hpos Hw0 Hok Hd Hw Hrest.
  - simpl. rewrite app_nil_r, !Z.add_0_r. done.
  - inversion Hok as [|? ? [Hlen [cs Hcs]] Hok']; subst.
    change (wire_labels (l :: ls)) with ((zlen l :: l) ++ wire_labels ls) in *.
    rewrite length_app in Hw. cbn [length] in Hw.
    rewrite <- app_assoc in Hd. cbn [app] in Hd.
    pose proof (zdrop_len_ge msg _ pos Hpos Hd ltac:(done)) as Hmlen.
    cbn [length] in Hmlen. rewrite !length_app in Hmlen.
    apply zdrop_cons_lookup in Hd as (Hnth & Hd & _); [|done].
    cbn [length Nat.add read_name_loop]. rewrite Hnth, label_byte_kind by lia. cbn [Z.eqb].
    replace (zlen l =? 0) with false by (symmetry; lia). unfold MAX_DNS_NAME_LEN.
    replace (255 <? w + (zlen l + 1)) with false by (symmetry; lia).
    rewrite (slice_app_zdrop msg l _ (pos + 1) ltac:(lia) Hd) by lia.
    simpl. unfold from_utf8. rewrite Hcs.
    rewrite IH; [|lia|lia|done| |lia|done].
    + rewrite <- app_assoc. rewrite length_app. cbn [length app]. f_equal; lia.
    + replace (pos + (1 + zlen l)) with (pos + 1 + zlen l) by lia.
      apply (zdrop_app_add msg l); [lia|exact Hd].
Qed.

Lemma zlen_wire_labels_ge ls : Forall label_ok ls → 2 * zlen ls <= zlen (wire_labels ls).
Proof.
  induction 1 as [|l ls [Hl _] _ IH]; [done|].
  change (wire_labels (l :: ls)) with ((zlen l :: l) ++ wire_labels ls).
  rewrite length_app. cbn [length]. lia.
Qed.

Lemma read_name_end fuel msg labels w pos e hops rest :
  0 <= pos → zdrop pos msg = 0 :: rest →
  read_name_loop (S fuel) msg labels w pos e hops =
  Some (Some (join (lit ".") labels, default (pos + 1) e)).
Proof.
  intros Hpos (Hnth & _)%zdrop_cons_lookup; [|done]. cbn [read_name_loop]. by rewrite Hnth.
Qed.

(** The two bytes of a compression pointer and the offset they carry. *)
Lemma pointer_bytes t :
  0 <= t < 16384 →
  Z.land (192 + t / 256) 192 = 192 ∧
  Z.lor (Z.shiftl (Z.land (192 + t / 256) 63) 8) (t mod 256) = t.
Proof.
  intros Ht.
  assert (Hq : 0 <= t / 256 < 64) by (split; [apply Z.div_pos|apply Z.div_lt_upper_bound]; lia).
  assert (Hall : Forall (λ q : nat, Z.land (192 + Z.of_nat q) 192 = 192 ∧
                   Z.land (192 + Z.of_nat q) 63 = Z.of_nat q) (seq 0 64)).
  { apply (bool_decide_unpack _). vm_compute. exact I. }
  rewrite Forall_forall in Hall. specialize (Hall (Z.to_nat (t / 256))).
  rewrite elem_of_seq, Z2Nat.id in Hall by lia. destruct Hall as [-> ->]; [lia|].
  split; [done|]. change 256 with (2 ^ 8).
  rewrite <- Z.land_ones, <- Z.shiftr_div_pow2 by lia.
  rewrite <- Z.ldiff_ones_r by lia.
  apply Z.lor_ldiff_and.
Qed.

Lemma read_name_pointer fuel msg labels w pos hops t rest :
  0 <= pos → 0 <= hops < 16 → 0 <= t < 16384 →
  zdrop pos msg = 192 + t / 256 :: t mod 256 :: rest →
  read_name_loop (S fuel) msg labels w pos None hops =
  read_name_loop fuel msg labels w t (Some (pos + 2)) (hops + 1).
Proof.
  intros Hpos Hh Ht Hd. apply zdrop_cons_lookup in Hd as (Hhi & Hd & _); [|done].
  apply zdrop_cons_lookup in Hd as (Hlo & _ & _); [|lia].
  destruct (pointer_bytes t Ht) as [Hk Ho]. cbn [read_name_loop].
  rewrite Hhi, Hlo, Hk, Ho. cbn [Z.eqb Pos.eqb]. unfold MAX_DNS_POINTER_HOPS.
  by replace (16 <? hops + 1) with false by (symmetry; lia).
Qed.

Lemma labels_ok_length ls : labels_ok ls → (length ls <= 127)%nat.
Proof. intros [Hok Hl]. pose proof (zlen_wire_labels_ge ls Hok). lia. Qed.

Lemma name_fuel_split n : (n <= 127)%nat → name_fuel = (n + S (S (298 - n)))%nat.
Proof. unfold name_fuel. lia. Qed.

(** A name written out in full is read back. *)
Lemma read_dns_name_plain msg offset ls rest :
  0 <= offset → labels_ok ls → zdrop offset msg = wire_labels ls ++ 0 :: rest →
  read_dns_name msg offset = Some (join (lit ".") ls, offset + zlen (wire_labels ls) + 1).
Proof.
  intros Hoff Hok Hd. unfold read_dns_name.
  rewrite (name_fuel_split _ (labels_ok_length _ Hok)).
  destruct Hok as [Hok Hlen].
  rewrite (read_name_loop_labels ls _ _ _ _ _ _ _ (0 :: rest)) by (done || lia).
  rewrite (read_name_end _ _ _ _ _ _ _ rest); [done|lia|].
  by apply zdrop_app_add.
Qed.

(** C32: a compressed name is read back: labels in place, then a pointer, then
    the labels it points at; the offset returned is just past the pointer. *)
Theorem read_dns_name_compressed msg offset ls1 target ls2 rest1 rest2 :
  0 <= offset → 0 <= target < 16384 → labels_ok (ls1 ++ ls2) →
  zdrop offset msg = wire_labels ls1 ++ 192 + target / 256 :: target mod 256 :: rest1 →
  zdrop target msg = wire_labels ls2 ++ 0 :: rest2 →
  read_dns_name msg offset =
  Some (join (lit ".") (ls1 ++ ls2), offset + zlen (wire_labels ls1) + 2).
Proof.
  intros Hoff Ht Hls Hd1 Hd2. pose proof (labels_ok_length _ Hls) as Hn.
  destruct Hls as [[Hok1 Hok2]%Forall_app Hlen].
  rewrite wire_labels_app, length_app in Hlen. rewrite length_app in Hn.
  unfold read_dns_name.
  replace name_fuel with (length ls1 + S (length ls2 + S (298 - length ls1 - length ls2)))%nat
    by (unfold name_fuel; lia).
  rewrite (read_name_loop_labels ls1 _ _ _ _ _ _ _ (192 + target / 256 :: target mod 256 :: rest1))
    by (done || lia).
  rewrite (read_name_pointer _ _ _ _ _ _ target rest1); [|lia|lia|done|by apply zdrop_app_add].
  rewrite (read_name_loop_labels ls2 _ _ _ _ _ _ _ (0 :: rest2)) by (done || lia).
  rewrite (read_name_end _ _ _ _ _ _ _ rest2); [done|lia|]. by apply zdrop_app_add; [lia|].
Qed.

Lemma u16_at_app pre hi lo rest : u16_at (pre ++ hi :: lo :: rest) (zlen pre) = be16 hi lo.
Proof.
  unfold u16_at, nth_z. rewrite Nat2Z.id.
  replace (Z.to_nat (zlen pre + 1)) with (length pre + 1)%nat by lia.
  rewrite list_lookup_middle, lookup_app_r by lia.
  by replace (length pre + 1 - length pre)%nat with 1%nat by lia.
Qed.

Lemma be16_split x : be16 (x / 256) (x mod 256) = x.
Proof. unfold be16. pose proof (Z.div_mod x 256). lia. Qed.

Lemma join_nonempty ls : Forall label_ok ls → ls ≠ [] → join (lit ".") ls ≠ [].
Proof.
  intros Hok Hne. destruct ls as [|l ls]; [done|]. inversion Hok as [|? ? [Hl _] _]; subst.
  destruct l; [simpl in Hl; lia|done].
Qed.

(** Every query a resolver can send is decoded to its name, id and type. *)
Theorem sniff_dns_query_roundtrip id labels qtype :
  is_u16 id → is_u16 qtype → labels_ok labels → labels ≠ [] →
  sniff_dns (dns_query id labels qtype) = Some (L7Dns (join (lit ".") labels) id qtype).
Proof.
  intros Hid Hq Hok Hne. set (msg := dns_query id labels qtype).
  assert (Hlen : zlen msg = 12 + zlen (wire_labels labels) + 5).
  { unfold msg, dns_query. rewrite !length_app. cbn [length]. lia. }
  assert (Hd : zdrop 12 msg = wire_labels labels ++ 0 :: [qtype / 256; qtype mod 256; 0; 1]) by done.
  pose proof (read_dns_name_plain msg 12 labels _ ltac:(lia) Hok Hd) as Hname.
  unfold sniff_dns. replace (zlen msg <? 12) with false by (symmetry; lia).
  change (u16_at msg 0) with (be16 (id / 256) (id mod 256)). rewrite be16_split.
  change (u16_at msg 4) with 1. change (default 0 (nth_z msg 2)) with 1.
  rewrite Hname. cbn [Z.eqb Z.land Pos.land negb].
  rewrite bool_decide_false by (apply join_nonempty; [apply Hok|done]).
  assert (Hs : slice msg (12 + zlen (wire_labels labels) + 1) (12 + zlen (wire_labels labels) + 1 + 2)
               = Some [qtype / 256; qtype mod 256]).
  { apply (slice_app_zdrop msg [qtype / 256; qtype mod 256] [0; 1]); [lia| |cbn [length]; lia].
    apply zdrop_app_add in Hd; [|lia]. apply zdrop_cons_lookup in Hd as (_ & Hd & _); [done|lia]. }
  rewrite Hs. change (u16_at [qtype / 256; qtype mod 256] 0) with (be16 (qtype / 256) (qtype mod 256)).
  by rewrite be16_split.
Qed.

(** ** TXT data *)

(** The escaped text of the first [k] bytes. *)
Definition escaped (bs : bytes) : bytes := concat (escape_byte <$> bs).

Lemma escaped_app a b : escaped (a ++ b) = escaped a ++ escaped b.
Proof. unfold escaped. by rewrite fmap_app, concat_app. Qed.

Lemma escaped_cons b bs : escaped (b :: bs) = escape_byte b ++ escaped bs.
Proof. done. Qed.

(** The escape loop produces whole escapes of a prefix of the content, within
    the cap, and the prefix is all of it unless the text is cut. *)
Lemma escape_loop_spec bs done_ text unescaped cut :
  zlen (escaped done_) <= MAX_DNS_TXT_ANSWER_BYTES →
  escape_loop bs (escaped done_) done_ = (text, unescaped, cut) →
  ∃ k rest, bs = k ++ rest ∧ unescaped = done_ ++ k ∧ text = escaped (done_ ++ k) ∧
    zlen text <= MAX_DNS_TXT_ANSWER_BYTES ∧ (cut = false ↔ rest = []) ∧
    (zlen (escaped (done_ ++ bs)) <= MAX_DNS_TXT_ANSWER_BYTES → rest = []).
Proof.
  revert done_. induction bs as [|b bs IH]; intros done_ Hle; cbn [escape_loop].
  - intros [= <- <- <-]. exists [], []. rewrite !app_nil_r. by split_and!.
  - case_zb.
    + intros [= <- <- <-]. exists [], (b :: bs). rewrite !app_nil_r. split_and!; try done.
      rewrite escaped_app, escaped_cons, !length_app. lia.
    + assert (Heq : escaped done_ ++ escape_byte b = escaped (done_ ++ [b])).
      { rewrite escaped_app. unfold escaped at 3. simpl. by rewrite app_nil_r. }
      rewrite Heq. intros (k & rest & -> & -> & -> & Ht & Hc & Hfit)%IH.
      * exists (b :: k), rest. rewrite <- !app_assoc in *. done.
      * rewrite <- Heq, length_app. lia.
Qed.

Lemma escape_step_escape b rest :
  is_u8 b → escape_step (escape_byte b ++ rest) = zlen (escape_byte b).
Proof.
  intros Hb. unfold escape_byte. destruct (b =? 92) eqn:H1; [done|].
  destruct (in_range 32 126 b) eqn:H2.
  - cbn [app escape_step length]. destruct b as [|p|p]; try done.
    do 7 (destruct p as [p|p|]; try done).
  - cbn [app escape_step length].
    assert (is_digit (48 + b / 100) = true) as ->; [|done].
    unfold is_digit. apply in_range_true. width.
    assert (0 <= b / 100 < 3) by (split; [apply Z.div_pos|apply Z.div_lt_upper_bound]; lia). lia.
Qed.

Lemma escape_byte_pos b : 0 < zlen (escape_byte b).
Proof. unfold escape_byte. repeat case_match; simpl; lia. Qed.

(** Cutting a text of whole escapes leaves whole escapes within the budget. *)
Lemma cut_loop_spec fuel text done_ rest budget :
  Forall is_u8 rest → text = escaped done_ ++ escaped rest →
  (length rest < fuel)%nat → zlen (escaped done_) <= budget →
  ∃ k rest', rest = k ++ rest' ∧
    cut_loop fuel text (zlen (escaped done_)) budget = zlen (escaped (done_ ++ k)) ∧
    zlen (escaped (done_ ++ k)) <= budget.
Proof.
  revert done_ rest. induction fuel as [|fuel IH]; intros done_ rest Hr Ht Hf Hb; [lia|].
  cbn [cut_loop]. destruct rest as [|b rest].
  - replace (zlen (escaped done_) <? zlen text) with false
      by (symmetry; apply Z.ltb_ge; rewrite Ht; change (escaped []) with ([] : bytes);
          rewrite app_nil_r; done).
    exists [], []. rewrite !app_nil_r. by split_and!.
  - inversion Hr as [|? ? Hb8 Hr']; subst text; subst.
    rewrite escaped_cons. pose proof (escape_byte_pos b).
    assert ((zlen (escaped done_) <? zlen (escaped done_ ++ escape_byte b ++ escaped rest)) = true)
      as -> by (apply Z.ltb_lt; rewrite !length_app; lia).
    rewrite zdrop_app, escape_step_escape by done. case_zb.
    + exists [], (b :: rest). rewrite !app_nil_r. by split_and!.
    + assert (Heq : escaped (done_ ++ [b]) = escaped done_ ++ escape_byte b).
      { rewrite escaped_app. unfold escaped at 2. simpl. by rewrite app_nil_r. }
      destruct (IH (done_ ++ [b]) rest) as (k & rest' & -> & Hc & Hle).
      * done.
      * by rewrite Heq, <- app_assoc.
      * simpl in Hf. lia.
      * rewrite Heq, length_app. lia.
      * exists (b :: k), rest'. rewrite <- app_assoc in Hc, Hle. cbn [app] in Hc, Hle.
        rewrite Heq, length_app in Hc. split_and!; [done| |done].
        rewrite <- Hc. f_equal. lia.
Qed.

Lemma txt_strings_bytes fuel rdata strings :
  Forall is_u8 rdata → txt_strings fuel rdata = Some strings → Forall is_u8 (concat strings).
Proof.
  revert rdata strings. induction fuel as [|fuel IH]; intros rdata strings Hr; [done|].
  destruct rdata as [|len rest]; cbn [txt_strings]; [by intros [= <-]|].
  inversion Hr as [|? ? _ Hr']; subst. destruct (zlen rest <? len); [done|].
  destruct (txt_strings fuel (zdrop len rest)) as [ss|] eqn:Hss; [|done].
  intros [= <-]. cbn [concat]. apply Forall_app. split; [by apply Forall_take|].
  apply (IH _ _ (Forall_drop _ _ _ Hr') Hss).
Qed.

(** What the redactor is asked about a TXT value. *)
Definition txt_sensitive (content : bytes) : bool :=
  is_sensitive_header_name (txt_key content) || looks_like_bearer_token (encode content).

Lemma cut_escaped content budget :
  Forall is_u8 content → 0 <= budget →
  let text := escaped content in
  ∃ k rest, content = k ++ rest ∧
    ztake (cut_loop (S (length text)) text 0 budget) text = escaped k ∧ zlen (escaped k) <= budget.
Proof.
  intros Hc Hb text.
  assert (Hlen : ∀ l, (length l <= length (escaped l))%nat).
  { induction l as [|b l IHl]; [done|]. rewrite escaped_cons, length_app. cbn [length].
    pose proof (escape_byte_pos b). lia. }
  destruct (cut_loop_spec (S (length text)) text [] content budget) as (k & rest & -> & Hcut & Hle);
    [done|done|specialize (Hlen content); unfold text; lia|done|].
  exists k, rest. change (zlen (escaped [])) with 0 in Hcut. cbn [app] in Hcut, Hle. rewrite Hcut.
  split_and!; [done| |done]. unfold text. rewrite escaped_app. apply ztake_app.
Qed.

(** The last step of [dns_txt_text]: cutting a text at the budget. *)
Lemma budget_cut content budget cut text cut' :
  Forall is_u8 content → 0 <= budget → zlen (escaped content) <= MAX_DNS_TXT_ANSWER_BYTES →
  (if budget <? zlen (escaped content)
   then (ztake (cut_loop (S (length (escaped content))) (escaped content) 0 budget)
           (escaped content), true)
   else (escaped content, cut)) = (text, cut') →
  ∃ k rest, content = k ++ rest ∧ text = escaped k ∧
    zlen text <= Z.min budget MAX_DNS_TXT_ANSWER_BYTES ∧ (cut' = false → rest = [] ∧ cut = false).
Proof.
  intros Hc Hb Hle. case_zb.
  - destruct (cut_escaped content budget Hc Hb) as (k & rest & -> & -> & Hk).
    intros [= <- <-]. exists k, rest. split_and!; try done.
    rewrite escaped_app, length_app in Hle. lia.
  - intros [= <- <-]. exists content, []. rewrite app_nil_r. split_and!; try done. lia.
Qed.

(** What [dns_txt_text] returns: within the caps; nothing for a malformed
    record; a prefix of the redaction mark; or whole escapes of a prefix of the
    content, all of it when the text is not reported as cut. *)
Lemma dns_txt_text_spec rdata budget text cut :
  Forall is_u8 rdata → 0 <= budget → dns_txt_text rdata budget = (text, cut) →
  zlen text <= Z.min budget MAX_DNS_TXT_ANSWER_BYTES ∧
  match txt_strings (S (length rdata)) rdata with
  | None => text = [] ∧ cut = false
  | Some strings =>
      let content := concat strings in
      (∃ n, text = ztake n REDACTED) ∨
      ∃ k rest1 kept rest2, content = kept ++ rest2 ∧ kept = k ++ rest1 ∧ text = escaped k ∧
        (cut = false → content = k) ∧ (0 < budget → txt_sensitive kept = false) ∧
        (zlen (escaped content) <= MAX_DNS_TXT_ANSWER_BYTES → kept = content)
  end.
Proof.
  intros Hr Hb. unfold dns_txt_text.
  destruct (txt_strings _ rdata) as [strings|] eqn:Hs;
    [|intros [= <- <-]; unfold MAX_DNS_TXT_ANSWER_BYTES; split_and!; cbn [length]; [lia|done..]].
  cbn zeta.
  pose proof (txt_strings_bytes _ _ _ Hr Hs) as Hc. generalize dependent (concat strings).
  clear Hs strings Hr. intros content Hc.
  destruct (budget =? 0) eqn:Hz.
  { intros [= <- <-]. split; [unfold MAX_DNS_TXT_ANSWER_BYTES; cbn [length]; lia|right].
    exists [], content, content, []. split_and!; try done; [by rewrite app_nil_r| |lia].
    destruct content; [done|]. cbn [length]. intros Hn%Z.ltb_ge. lia. }
  destruct (escape_loop content [] []) as [[t unescaped] c] eqn:He.
  destruct (escape_loop_spec content [] t unescaped c) as (kept & rest2 & -> & -> & -> & Ht & Hcut & Hfit);
    [done|done|]. cbn [app] in *.
  apply Forall_app in Hc as [Hkept _].
  unfold redact_headers, redact_header. cbn [fmap list_fmap fst snd]. fold (txt_sensitive kept).
  assert (Hmark : escaped REDACTED = REDACTED ∧ zlen REDACTED = 10 ∧ Forall is_u8 REDACTED).
  { split_and!; [done..|]. apply (bool_decide_unpack _). vm_compute. exact I. }
  destruct Hmark as (Hm1 & Hm2 & Hm3).
  replace (let (_, v) := if txt_sensitive kept then (txt_key kept, REDACTED)
                         else (txt_key kept, encode kept) in v)
    with (if txt_sensitive kept then REDACTED else encode kept)
    by (by destruct (txt_sensitive kept)).
  destruct (bool_decide (_ = REDACTED)) eqn:Hj.
  - apply bool_decide_eq_true in Hj. rewrite Hj. rewrite <- Hm1.
    intros (k & rest & Hk & -> & Hle & _)%budget_cut;
      [|done|done|rewrite Hm1, Hm2; unfold MAX_DNS_TXT_ANSWER_BYTES; lia].
    split; [done|left]. exists (zlen (escaped k)).
    rewrite Hk, escaped_app. symmetry. apply ztake_app.
  - apply bool_decide_eq_false in Hj.
    intros (k & rest & -> & -> & Hle & Hnc)%budget_cut; [|done..].
    split; [done|right]. exists k, rest, (k ++ rest), rest2. split_and!; try done.
    + intros (-> & Hc0)%Hnc. rewrite app_nil_r. apply Hcut in Hc0 as ->. apply app_nil_r.
    + intros _. by destruct (txt_sensitive (k ++ rest)).
    + intros ->%Hfit. by rewrite app_nil_r.
Qed.

(** *** Undoing the escapes *)

Lemma unescape_escape fuel b rest :
  is_u8 b → unescape (S fuel) (escape_byte b ++ rest) = b :: unescape fuel rest.
Proof.
  intros Hb. unfold escape_byte. destruct (b =? 92) eqn:H1; [apply Z.eqb_eq in H1; by subst|].
  destruct (in_range 32 126 b) eqn:H2.
  - cbn [app unescape]. destruct b as [|p|p]; try done. do 7 (destruct p as [p|p|]; try done).
  - width. pose proof (Z.div_mod b 100 ltac:(lia)). pose proof (Z.div_mod b 10 ltac:(lia)).
    pose proof (Z.div_mod (b / 10) 10 ltac:(lia)). rewrite Z.div_div in * by lia.
    change (10 * 10) with 100 in *. pose proof (Z.mod_pos_bound b 100 ltac:(lia)).
    assert (0 <= b / 100 < 3) by (split; [apply Z.div_pos|apply Z.div_lt_upper_bound]; lia).
    assert (Hd : ∃ d, b / 100 = d ∧ (d = 0 ∨ d = 1 ∨ d = 2)) by (exists (b / 100); lia).
    destruct Hd as (d & Hd & Hcases).
    assert (Hval : (48 + d - 48) * 100 + (48 + b / 10 mod 10 - 48) * 10 + (48 + b mod 10 - 48) = b) by lia.
    rewrite Hd. destruct Hcases as [->|[->| ->]]; cbn [app unescape Z.add Pos.add Pos.succ Pos.add_carry];
      f_equal; exact Hval.
Qed.

Lemma unescape_escaped bs fuel :
  Forall is_u8 bs → (length bs <= fuel)%nat → unescape fuel (escaped bs) = bs.
Proof.
  revert fuel. induction bs as [|b bs IH]; intros fuel Hb Hf; [by destruct fuel|].
  inversion Hb; subst. destruct fuel as [|fuel]; [simpl in Hf; lia|].
  rewrite escaped_cons, unescape_escape, IH by (done || (simpl in Hf; lia)). done.
Qed.

Lemma txt_strings_wire ss fuel :
  Forall (λ s, zlen s <= 255) ss → (length ss < fuel)%nat →
  txt_strings fuel (wire_labels ss) = Some ss.
Proof.
  revert fuel. induction ss as [|s ss IH]; intros [|fuel] Hs Hf; [by apply Nat.nlt_0_r in Hf|done|by apply Nat.nlt_0_r in Hf|].
  change (wire_labels (s :: ss)) with (zlen s :: (s ++ wire_labels ss)). cbn [txt_strings].
  inversion Hs; subst. rewrite length_app.
  assert ((Z.of_nat (length s + length (wire_labels ss)) <? zlen s) = false) as ->
    by (apply Z.ltb_ge; lia).
  rewrite zdrop_app, ztake_app, IH; [done|done|simpl in Hf; lia].
Qed.

Lemma length_wire_labels_ge ss : (length ss <= length (wire_labels ss))%nat.
Proof.
  induction ss as [|s ss IH]; [done|].
  change (wire_labels (s :: ss)) with (zlen s :: (s ++ wire_labels ss)).
  cbn [length]. rewrite length_app. lia.
Qed.

(** A TXT value that fits both caps and that the redactor lets through is
    shown whole, and undoing the escapes gives back its bytes, whatever they
    are and however they are split into character-strings. *)
Theorem dns_txt_roundtrip ss budget :
  Forall (λ s, zlen s <= 255 ∧ Forall is_u8 s) ss →
  0 < budget → zlen (escaped (concat ss)) <= Z.min budget MAX_DNS_TXT_ANSWER_BYTES →
  txt_sensitive (concat ss) = false → encode (concat ss) ≠ REDACTED →
  dns_txt_text (wire_labels ss) budget = (escaped (concat ss), false) ∧
  unescape (length (concat ss)) (escaped (concat ss)) = concat ss.
Proof.
  intros Hss Hb Hfit Hns Hne.
  assert (Hu : Forall is_u8 (concat ss)).
  { apply Forall_concat. eapply Forall_impl; [exact Hss|]. by intros ? [_ ?]. }
  split; [|by apply unescape_escaped].
  unfold dns_txt_text. rewrite txt_strings_wire; [|eapply Forall_impl; [exact Hss|]; by intros ? [? _]|].
  2: { pose proof (length_wire_labels_ge ss). lia. }
  cbn zeta. replace (budget =? 0) with false by (symmetry; lia).
  destruct (escape_loop (concat ss) [] []) as [[t un] c] eqn:He.
  destruct (escape_loop_spec (concat ss) [] t un c) as (kept & rest2 & Hk & -> & -> & Ht & Hcut & Hf);
    [done|done|]. cbn [app] in *.
  assert (rest2 = []) as -> by (apply Hf; lia). rewrite app_nil_r in Hk. rewrite <- Hk in *.
  assert (c = false) as -> by by apply Hcut.
  unfold redact_headers, redact_header. cbn [fmap list_fmap fst snd].
  fold (txt_sensitive (concat ss)). rewrite Hns, bool_decide_false by done.
  by replace (budget <? zlen (escaped (concat ss))) with false by (symmetry; lia).
Qed.

(** ** Responses *)

(** TXT text held by a list of answers. *)
Definition txt_bytes (answers : list DnsAnswer) : Z :=
  foldr (λ a n, (if ans_rtype a =? 16 then zlen (ans_data a) else 0) + n) 0 answers.

Lemma slice_Forall {A} (P : A → Prop) (l s : list A) i j :
  slice l i j = Some s → Forall P l → Forall P s.
Proof.
  unfold slice. case_match; [|done]. intros [= <-] Hl. by apply Forall_take, Forall_drop.
Qed.

Lemma read_answers_bounded n payload pos budget :
  Forall is_u8 payload → 0 <= budget →
  let answers := read_answers n payload pos budget in
  (length answers <= n)%nat ∧ txt_bytes answers <= budget ∧
  Forall (λ a, ans_rtype a = 16 → zlen (ans_data a) <= MAX_DNS_TXT_ANSWER_BYTES) answers.
Proof.
  intros Hp. revert pos budget. induction n as [|n IH]; intros pos budget Hb; cbn zeta; [done|].
  cbn [read_answers]. destruct (read_dns_name payload pos) as [[name after]|]; [|by split; [simpl; lia|]].
  destruct (slice payload after (after + 10)) as [fixed|]; [|by split; [simpl; lia|]].
  destruct (slice payload (after + 10) _) as [rdata|] eqn:Hs; [|by split; [simpl; lia|]].
  apply (slice_Forall is_u8) in Hs; [|done].
  destruct (u16_at fixed 0 =? 16) eqn:Ht.
  - destruct (dns_txt_text rdata budget) as [text cut] eqn:Htxt.
    apply dns_txt_text_spec in Htxt as [Hlen _]; [|done..].
    destruct (IH (after + 10 + u16_at fixed 8) (budget - zlen text)) as (H1 & H2 & H3); [lia|].
    cbn [length txt_bytes foldr ans_rtype ans_data]. rewrite Ht. fold (txt_bytes).
    split_and!; [lia|unfold txt_bytes in *; lia|]. constructor; [simpl; lia|done].
  - destruct (IH (after + 10 + u16_at fixed 8) budget) as (H1 & H2 & H3); [lia|].
    cbn [length txt_bytes foldr ans_rtype ans_data]. rewrite Ht.
    split_and!; [lia|unfold txt_bytes in *; lia|]. constructor; [simpl; lia|done].
Qed.

(** Whatever a response declares, at most sixteen of its answers are
    decoded, no more than it announces, no TXT text exceeds its cap, and all of
    them together stay within the response's allowance. *)
Theorem sniff_dns_response_bounded payload name id qtype rcode answer_count answers :
  Forall is_u8 payload →
  sniff_dns payload = Some (L7DnsResponse name id qtype rcode answer_count answers) →
  zlen answers <= Z.min answer_count MAX_DNS_ANSWERS ∧
  txt_bytes answers <= MAX_DNS_TXT_RESPONSE_BYTES ∧
  Forall (λ a, ans_rtype a = 16 → zlen (ans_data a) <= MAX_DNS_TXT_ANSWER_BYTES) answers.
Proof.
  intros Hp. unfold sniff_dns. destruct (zlen payload <? 12); [done|].
  destruct (_ =? 0); [done|]. destruct (read_dns_name payload 12) as [[q after]|]; [|done].
  destruct (bool_decide _); [done|]. destruct (negb (negb _)); [done|].
  destruct (slice payload after _) as [b|]; [|done]. case_zb; [done|].
  intros [= <- <- <- <- Hac Hans]. rewrite Hac in Hans.
  assert (Hac0 : 0 <= answer_count).
  { subst answer_count. unfold u16_at, be16, nth_z.
    assert (Hd : ∀ i, 0 <= default 0 (payload !! i)); [|pose proof (Hd (Z.to_nat 6)); pose proof (Hd (Z.to_nat (6 + 1))); lia].
    intros i. destruct (payload !! i) eqn:Hi; [|done].
    pose proof (Forall_lookup_1 _ _ _ _ Hp Hi). simpl. width. lia. }
  assert (Hnil : zlen ([] : list DnsAnswer) <= Z.min answer_count MAX_DNS_ANSWERS)
    by (unfold MAX_DNS_ANSWERS; cbn [length]; lia).
  destruct (skip_questions _ _ _) as [pos|]; [|by subst].
  destruct (_ <=? 16); [|by subst].
  destruct (read_answers_bounded (Z.to_nat (Z.min answer_count MAX_DNS_ANSWERS)) payload pos
              MAX_DNS_TXT_RESPONSE_BYTES Hp) as (H1 & H2 & H3); [done|].
  rewrite Hans in H1, H2, H3. unfold MAX_DNS_ANSWERS in *. split_and!; [lia|done..].
Qed.

(** A TXT record whose key names a credential, or whose value starts like
    a bearer token, shows at most the redaction mark, whatever the budget. *)
Theorem dns_txt_hides_credentials rdata budget strings text cut :
  Forall is_u8 rdata → 0 < budget →
  txt_strings (S (length rdata)) rdata = Some strings →
  zlen (escaped (concat strings)) <= MAX_DNS_TXT_ANSWER_BYTES →
  txt_sensitive (concat strings) = true →
  dns_txt_text rdata budget = (text, cut) →
  ∃ n, text = ztake n REDACTED.
Proof.
  intros Hr Hb Hs Hfit Hsens Ht.
  apply dns_txt_text_spec in Ht as [_ Ht]; [|done|lia]. rewrite Hs in Ht.
  destruct Ht as [Ht|(k & rest1 & kept & rest2 & Hk & _ & _ & _ & Hns & Hkept)]; [done|].
  rewrite Hkept, Hsens in Hns by done. discriminate (Hns Hb).
Qed.

(** ** DNS over TCP *)

Lemma slice_app_l {A} (l k s : list A) i j :
  0 <= i → slice l i j = Some s → slice (l ++ k) i j = Some s.
Proof.
  rewrite !slice_Some, length_app. intros Hi (H1 & H2 & ->). split_and!; [done|lia|].
  unfold ztake, zdrop. destruct (decide (i <= zlen l)).
  - rewrite drop_app_le, take_app_le by (rewrite ?length_drop; lia). done.
  - lia.
Qed.

Lemma slice_take_drop {A} (l : list A) i j :
  0 <= i <= j → j <= zlen l → slice l i j = Some (zdrop i (ztake j l)).
Proof.
  intros Hi Hj. apply slice_Some. split_and!; [lia|done|]. unfold ztake, zdrop.
  replace (Z.to_nat j) with (Z.to_nat i + Z.to_nat (j - i))%nat by lia.
  symmetry. apply take_drop_commute.
Qed.

(** Framing of DNS over TCP.  A request for [n] more bytes is exact: any
    extension by fewer bytes still asks, for what is then missing, and any
    extension by [n] bytes that keeps the announced length settles the
    message; a settled verdict is not changed by what follows on the stream. *)
Theorem sniff_dns_tcp_framing stream more :
  (2 <= length stream)%nat →
  match sniff_dns_tcp stream with
  | NeedMoreBytes n =>
      0 < n ∧
      sniff_dns_tcp (stream ++ more) =
        (if zlen more <? n then NeedMoreBytes (n - zlen more)
         else match sniff_dns (zdrop 2 (ztake (zlen stream + n) (stream ++ more))) with
              | Some info => Decided info
              | None => Undecided
              end)
  | verdict => sniff_dns_tcp (stream ++ more) = verdict
  end.
Proof.
  destruct stream as [|hi [|lo rest]]; intros Hlen; [simpl in Hlen; lia..|]. clear Hlen.
  change ((hi :: lo :: rest) ++ more) with (hi :: lo :: rest ++ more).
  cbn [sniff_dns_tcp]. set (declared := be16 hi lo).
  destruct (negb _) eqn:Hdecl; [done|].
  apply negb_false_iff, andb_true_iff in Hdecl as [Hd1%Z.leb_le Hd2].
  change (hi :: lo :: rest ++ more) with ((hi :: lo :: rest) ++ more).
  set (s := hi :: lo :: rest). destruct (slice s 2 (2 + declared)) as [m|] eqn:Hs.
  - rewrite (slice_app_l _ _ m) by (done || lia). by destruct (sniff_dns m).
  - apply slice_None in Hs. split; [lia|].
    replace (zlen s + (2 + declared - zlen s)) with (2 + declared) by lia. case_zb.
    + rewrite (proj2 (slice_None _ _ _)) by (rewrite length_app; lia).
      f_equal. rewrite length_app. lia.
    + rewrite slice_take_drop by (rewrite ?length_app; lia). done.
Qed.

(** ** Witnesses *)

(** A message behind its length, as on a TCP stream. *)
Definition be_prefix (m : bytes) : bytes := zlen m / 256 :: zlen m mod 256 :: m.

(** [www] at 12, then at 20 a name made of [mail] and a pointer to offset 16. *)
Definition sample_names : bytes :=
  [0; 1; 1; 0; 0; 1; 0; 0; 0; 0; 0; 0] ++ wire_labels [lit "www"; lit "org"] ++ [0]
    ++ wire_labels [lit "mail"] ++ [192; 16].

Lemma sample_names_bytes : Forall is_u8 sample_names.
Proof. apply (bool_decide_unpack _). vm_compute. exact I. Qed.

Lemma read_dns_name_terminates_witness :
  is_Some (read_name_loop name_fuel sample_names [] 0 12 None 0).
Proof. exact (read_dns_name_terminates sample_names 12 sample_names_bytes). Defined.

Lemma read_dns_name_bounds_witness :
  read_dns_name sample_names 21 = Some (lit "mail.org", 28) ∧ 21 < 28 <= zlen sample_names.
Proof.
  split; [by vm_compute|].
  apply (read_dns_name_bounds sample_names 21 (lit "mail.org") 28 sample_names_bytes); [lia|].
  by vm_compute.
Defined.

Lemma label_ok_ascii l : Forall is_ascii l → 0 < zlen l <= 63 → label_ok l.
Proof. intros Ha Hl. split; [done|]. rewrite decode_ascii by done. by eexists. Qed.

Lemma labels_ok_dec ls :
  bool_decide (Forall (λ l, 0 < zlen l <= 63 ∧ Forall (λ b, 0 <= b <= 127) l) ls) = true →
  (zlen (wire_labels ls) <=? 255) = true → labels_ok ls.
Proof.
  intros H1%bool_decide_eq_true H2%Z.leb_le. split; [|done].
  eapply Forall_impl; [exact H1|]. intros l [Hl Ha]. by apply label_ok_ascii.
Qed.

Lemma read_dns_name_compressed_witness :
  read_dns_name sample_names 21 = Some (join (lit ".") ([lit "mail"] ++ [lit "org"]), 28).
Proof.
  refine (read_dns_name_compressed sample_names 21 [lit "mail"] 16 [lit "org"] []
            (zdrop 21 sample_names) _ _ _ _ _); [lia|lia|by apply labels_ok_dec|by vm_compute..].
Defined.

Lemma sniff_dns_query_roundtrip_witness :
  sniff_dns (dns_query 4660 [lit "a"; lit "com"] 28) =
  Some (L7Dns (join (lit ".") [lit "a"; lit "com"]) 4660 28).
Proof.
  apply sniff_dns_query_roundtrip; [zlia|zlia|by apply labels_ok_dec|done].
Defined.

Lemma dns_txt_roundtrip_witness :
  dns_txt_text (wire_labels [lit "v=spf1"; [9; 92; 200]]) 2048 =
    (escaped (concat [lit "v=spf1"; [9; 92; 200]]), false) ∧
  unescape 9 (escaped (concat [lit "v=spf1"; [9; 92; 200]])) = lit "v=spf1" ++ [9; 92; 200].
Proof.
  apply (dns_txt_roundtrip [lit "v=spf1"; [9; 92; 200]] 2048).
  - apply (bool_decide_unpack _). vm_compute. exact I.
  - lia.
  - by vm_compute.
  - by vm_compute.
  - by vm_compute.
Defined.

(** A response with one TXT answer. *)
Definition sample_response : bytes :=
  [18; 52; 129; 128; 0; 1; 0; 1; 0; 0; 0; 0] ++ wire_labels [lit "a"; lit "com"] ++ [0; 0; 16; 0; 1]
    ++ [192; 12; 0; 16; 0; 1; 0; 0; 1; 44; 0; 4; 3] ++ lit "abc".

Lemma sniff_dns_response_bounded_witness :
  let answers := [mkDnsAnswer (lit "a.com") 16 300 (lit "abc") false] in
  sniff_dns sample_response = Some (L7DnsResponse (lit "a.com") 4660 16 0 1 answers) ∧
  txt_bytes answers <= MAX_DNS_TXT_RESPONSE_BYTES.
Proof.
  cbn zeta. split; [by vm_compute|].
  apply (sniff_dns_response_bounded sample_response (lit "a.com") 4660 16 0 1); [|by vm_compute].
  apply (bool_decide_unpack _). vm_compute. exact I.
Defined.

Lemma dns_txt_hides_credentials_witness :
  dns_txt_text (8 :: lit "cookie=x") 4 = (lit "[RED", true) ∧ ∃ n, lit "[RED" = ztake n REDACTED.
Proof.
  split; [by vm_compute|].
  apply (dns_txt_hides_credentials (8 :: lit "cookie=x") 4 [lit "cookie=x"] (lit "[RED") true);
    [|lia|by vm_compute..].
  apply (bool_decide_unpack _). vm_compute. exact I.
Defined.

Lemma sniff_dns_tcp_framing_witness :
  let stream := be_prefix (dns_query 4660 [lit "a"; lit "com"] 1) in
  sniff_dns_tcp (ztake 20 stream) = NeedMoreBytes 5 ∧
  sniff_dns_tcp (ztake 20 stream ++ zdrop 20 stream) = Decided (L7Dns (lit "a.com") 4660 1).
Proof.
  cbn zeta. split; [by vm_compute|].
  pose proof (sniff_dns_tcp_framing (ztake 20 (be_prefix (dns_query 4660 [lit "a"; lit "com"] 1)))
                (zdrop 20 (be_prefix (dns_query 4660 [lit "a"; lit "com"] 1)))) as Hf.
  destruct Hf as [_ Hf]; [vm_compute; lia|]. by vm_compute.
Defined.
