(* ===== verification/L7Tls.v ===== *)
(** * TLS ClientHello sniffing and JA3

    [sniff_tls_client_hello] of [capture-agent/src/l7.rs] and the JA3
    fingerprint of [capture-agent/src/ja3.rs].  MD5 is the [md5] crate's: a
    parameter. *)

From S2P Require Import Prelude Packet Text L7Dns.

(** [format!("{:x}", md5::compute(s))]. *)
Class Md5 := md5_hex : bytes → bytes.

(** ** JA3 *)

Record ClientHelloFields := mkClientHelloFields {
  tls_version : Z;
  cipher_suites : list Z;
  extensions : list Z;
  elliptic_curves : list Z;
  ec_point_formats : list Z
}.

Definition ja3_string (fields : ClientHelloFields) : bytes :=
  let join_nums v := join (lit "-") (dec <$> v) in
  join (lit ",") [dec (tls_version fields); join_nums (cipher_suites fields);
                  join_nums (extensions fields); join_nums (elliptic_curves fields);
                  join_nums (ec_point_formats fields)].

Definition compute_ja3 `{Md5} (fields : ClientHelloFields) : bytes := md5_hex (ja3_string fields).

Definition KNOWN_LABELS : list (bytes * bytes) := [].

Definition label_for_ja3 (hash : bytes) : option bytes :=
  (λ p : nat * (bytes * bytes), p.2.2) <$> list_find (λ p, p.1 = hash) KNOWN_LABELS.

(** ** ClientHello *)

Fixpoint parse_u16_list (l : bytes) : list Z :=
  match l with
  | hi :: lo :: rest => be16 hi lo :: parse_u16_list rest
  | _ => []
  end.

(** What the extension walk gathers. *)
Record Hello := mkHello {
  h_sni : option bytes;
  h_extensions : list Z;
  h_curves : list Z;
  h_formats : list Z;
  sni_offset : Z;
  sni_len : Z
}.
#[export] Instance eta_Hello : RecordEta Hello := λ r,
  mkHello (h_sni r) (h_extensions r) (h_curves r) (h_formats r) (sni_offset r) (sni_len r).

Definition hello_start : Hello := mkHello None [] [] [] 0 0.

(** The host name in the body of a [server_name] extension. *)
Definition server_name (body : bytes) : option bytes :=
  match nth_z body 3, nth_z body 4 with
  | Some hi, Some lo => slice body 5 (5 + be16 hi lo) ≫= from_utf8
  | _, _ => None
  end.

(** One turn of the extension walk, for an extension at [ext_start] whose body
    may run past the payload. *)
Definition read_extension (ext_type ext_start : Z) (ext_body : option bytes) (h : Hello) : Hello :=
  let h := h <| h_extensions ::= λ l, l ++ [ext_type] |> in
  match ext_body with
  | None => h
  | Some body =>
      if ext_type =? 0 then
        match server_name body with
        | Some name =>
            h <| h_sni := Some name |> <| sni_offset := ext_start + 5 |> <| sni_len := zlen name |>
        | None => h
        end
      else if (ext_type =? 10) && (2 <=? zlen body) then
        match slice body 2 (2 + u16_at body 0) with
        | Some l => h <| h_curves := parse_u16_list l |>
        | None => h
        end
      else if (ext_type =? 11) && (1 <=? zlen body) then
        match slice body 1 (1 + default 0 (nth_z body 0)) with
        | Some l => h <| h_formats := l |>
        | None => h
        end
      else h
  end.

(** The walk; the outer option is the fuel. *)
Fixpoint extension_loop (fuel : nat) (payload : bytes) (idx : Z) (h : Hello) : option Hello :=
  match fuel with
  | O => None
  | S fuel' =>
      if idx + 4 <=? zlen payload then
        let ext_type := u16_at payload idx in
        let ext_len := u16_at payload (idx + 2) in
        let ext_start := idx + 4 in
        extension_loop fuel' payload (ext_start + ext_len)
          (read_extension ext_type ext_start (slice payload ext_start (ext_start + ext_len)) h)
      else Some h
  end.

(** Where the extensions start, with the version and the cipher suites. *)
Definition hello_prefix (payload : bytes) : option (Z * list Z * Z) :=
  match nth_z payload 9, nth_z payload 10, nth_z payload 43 with
  | Some v1, Some v2, Some session_id_len =>
      let idx := 43 + (1 + session_id_len) in
      match nth_z payload idx, nth_z payload (idx + 1) with
      | Some c1, Some c2 =>
          let cipher_suites_len := be16 c1 c2 in
          let idx := idx + 2 in
          match slice payload idx (idx + cipher_suites_len) with
          | None => None
          | Some suites =>
              let idx := idx + cipher_suites_len in
              match nth_z payload idx with
              | None => None
              | Some compression_len =>
                  let idx := idx + (1 + compression_len) in
                  if zlen payload <? idx + 2 then None
                  else Some (be16 v1 v2, parse_u16_list suites, idx + 2)
              end
          end
      | _, _ => None
      end
  | _, _, _ => None
  end.

Definition sniff_tls_client_hello `{Md5} (payload : bytes) : option L7Info :=
  if (zlen payload <? 6) || negb (default 0 (nth_z payload 0) =? 22) then None
  else if negb (default 0 (nth_z payload 5) =? 1) then None
  else
    match hello_prefix payload with
    | None => None
    | Some (version, suites, idx) =>
        match extension_loop (S (length payload)) payload idx hello_start with
        | None => None
        | Some h =>
            match h_sni h with
            | None => None
            | Some sni =>
                let fields := mkClientHelloFields version suites (h_extensions h) (h_curves h) (h_formats h) in
                let ja3 := compute_ja3 fields in
                Some (L7TlsClientHello sni (Some ja3) (label_for_ja3 ja3) (slice payload 11 43)
                        (sni_offset h) (sni_len h))
            end
        end
    end.

(** ** Specifications *)

Definition u16_bytes (n : Z) : bytes := [n / 256; n mod 256].

Definition wire_extension (e : Z * bytes) : bytes :=
  u16_bytes e.1 ++ u16_bytes (zlen e.2) ++ e.2.
Definition wire_extensions (es : list (Z * bytes)) : bytes := concat (wire_extension <$> es).

(** The body of a [server_name] extension. *)
Definition sni_body (name : bytes) : bytes :=
  u16_bytes (zlen name + 3) ++ [0] ++ u16_bytes (zlen name) ++ name.

(** A ClientHello up to its extensions: version, random, session id, cipher
    suites and compression methods, behind a record header that declares
    [record_len] bytes. *)
Definition hello_head (record_len version : Z) (random session_id : bytes) (suites : list Z)
    (compression : bytes) (ext_len : Z) : bytes :=
  [22; 3; 1] ++ u16_bytes record_len ++ [1; 0] ++ u16_bytes (record_len - 4) ++ u16_bytes version
    ++ random ++ [zlen session_id] ++ session_id
    ++ u16_bytes (2 * zlen suites) ++ concat (u16_bytes <$> suites)
    ++ [zlen compression] ++ compression ++ u16_bytes ext_len.

Definition client_hello (version : Z) (random session_id : bytes) (suites : list Z)
    (compression : bytes) (es : list (Z * bytes)) : bytes :=
  let ext := wire_extensions es in
  hello_head (44 + zlen session_id + 2 * zlen suites + zlen compression + zlen ext)
    version random session_id suites compression (zlen ext) ++ ext.

(** The walk over extensions that are all there. *)
Fixpoint read_extensions (pos : Z) (es : list (Z * bytes)) (h : Hello) : Hello :=
  match es with
  | [] => h
  | (t, body) :: es' => read_extensions (pos + 4 + zlen body) es' (read_extension t (pos + 4) (Some body) h)
  end.

(** A sample MD5 for running the model. *)
Definition no_md5 : Md5 := λ s, s.

Definition sample_hello : bytes :=
  client_hello 771 (zreplicate 32 0) [] [4865; 49199] [0]
    [(0, sni_body (lit "example.com")); (10, [0; 2; 0; 29]); (11, [1; 0])].

Example tls_examples :
  sniff_tls_client_hello (H := no_md5) sample_hello =
    Some (L7TlsClientHello (lit "example.com") (Some (lit "771,4865-49199,0-10-11,29,0"))
            None (Some (zreplicate 32 0)) 63 11).
Proof. vm_compute. reflexivity. Qed.

(** ** Termination and the SNI range *)

Lemma u16_at_nonneg l i : Forall is_u8 l → 0 <= u16_at l i.
Proof.
  intros Hl. unfold u16_at, be16, nth_z.
  assert (Hd : ∀ j, 0 <= default 0 (l !! j)).
  { intros j. destruct (l !! j) eqn:Hj; [|done].
    pose proof (Forall_lookup_1 _ _ _ _ Hl Hj). simpl. width. lia. }
  pose proof (Hd (Z.to_nat i)). pose proof (Hd (Z.to_nat (i + 1))). lia.
Qed.

(** Each turn passes at least the four bytes of an extension header. *)
Lemma extension_loop_total fuel payload idx h :
  Forall is_u8 payload → Z.max 0 (zlen payload - idx) < Z.of_nat fuel →
  is_Some (extension_loop fuel payload idx h).
Proof.
  intros Hp. revert idx h. induction fuel as [|fuel IH]; intros idx h Hf; [lia|].
  cbn [extension_loop]. case_zb; [|done].
  pose proof (u16_at_nonneg payload (idx + 2) Hp). apply IH. lia.
Qed.

(** The recorded range, when there is a name. *)
Definition range_ok (payload : bytes) (h : Hello) : Prop :=
  ∀ name, h_sni h = Some name →
    0 <= sni_offset h ∧ slice payload (sni_offset h) (sni_offset h + sni_len h) = Some name.

Lemma slice_slice {A} (l body s : list A) i j a b :
  0 <= i → 0 <= a → slice l i j = Some body → slice body a b = Some s →
  slice l (i + a) (i + b) = Some s.
Proof.
  intros Hi Ha Hb Hs. pose proof (slice_length _ _ _ _ Hb Hi) as Hl.
  apply slice_Some in Hb as (H1 & H2 & ->). apply slice_Some in Hs as (H3 & H4 & ->).
  rewrite Hl in H4. apply slice_Some. split_and!; [lia..|]. unfold ztake, zdrop.
  apply list_eq. intros x. destruct (decide (x < Z.to_nat (b - a))%nat).
  - rewrite !lookup_take_lt, !lookup_drop, lookup_take_lt, lookup_drop by lia. f_equal. lia.
  - rewrite !lookup_take_ge by lia. done.
Qed.

Lemma server_name_slice body name :
  server_name body = Some name → slice body 5 (5 + zlen name) = Some name ∧ is_Some (decode name).
Proof.
  unfold server_name. destruct (nth_z body 3); [|done]. destruct (nth_z body 4); [|done].
  destruct (slice body 5 _) as [s|] eqn:Hs; [|done]. simpl. unfold from_utf8.
  destruct (decode s) eqn:Hd; [|done]. intros [= ->].
  pose proof (slice_length _ _ _ _ Hs ltac:(lia)) as Hl. rewrite Hl, Hd.
  split; [|done]. rewrite <- Hs. f_equal. lia.
Qed.

Lemma read_extension_range payload t start len h :
  0 <= start → range_ok payload h →
  range_ok payload (read_extension t start (slice payload start (start + len)) h).
Proof.
  intros Hs Hr. unfold read_extension.
  destruct (slice payload start (start + len)) as [body|] eqn:Hb; [|exact Hr].
  destruct (t =? 0); [|repeat case_match; exact Hr].
  destruct (server_name body) as [n|] eqn:Hn; [|exact Hr].
  intros name [= <-]. apply server_name_slice in Hn as [Hn _]. cbn. split; [lia|].
  rewrite <- Z.add_assoc. exact (slice_slice payload body n start (start + len) 5 (5 + zlen n)
                                   Hs ltac:(lia) Hb Hn).
Qed.

Lemma extension_loop_range fuel payload idx h h' :
  Forall is_u8 payload → 0 <= idx → range_ok payload h →
  extension_loop fuel payload idx h = Some h' → range_ok payload h'.
Proof.
  intros Hp. revert idx h. induction fuel as [|fuel IH]; intros idx h Hi Hr; [done|].
  cbn [extension_loop]. case_zb; [|by intros [= <-]].
  pose proof (u16_at_nonneg payload (idx + 2) Hp). apply IH; [lia|].
  apply read_extension_range; [lia|done].
Qed.

Lemma hello_prefix_spec payload version suites idx :
  Forall is_u8 payload → hello_prefix payload = Some (version, suites, idx) →
  48 <= idx <= zlen payload.
Proof.
  intros Hp. unfold hello_prefix.
  destruct (nth_z payload 9); [|done]. destruct (nth_z payload 10); [|done].
  destruct (nth_z payload 43) as [sl|] eqn:Hsl; [|done].
  destruct (nth_z payload (43 + (1 + sl))) as [c1|] eqn:Hc1; [|done].
  destruct (nth_z payload (43 + (1 + sl) + 1)) as [c2|] eqn:Hc2; [|done].
  destruct (slice payload _ _) as [ss|] eqn:Hs; [|done].
  destruct (nth_z payload (43 + (1 + sl) + 2 + be16 c1 c2)) as [cl|] eqn:Hcl; [|done].
  apply (msg_byte _ Hp) in Hsl, Hc1, Hc2, Hcl. unfold be16 in *. width.
  case_zb; [done|]. intros [= _ _ <-]. lia.
Qed.

(** A ClientHello that is reported has a name that is valid UTF-8 and
    stands in the payload exactly at the reported offset and length, and its
    random is the payload's bytes 11 to 43. *)
Theorem sniff_tls_range `{Md5} payload sni ja3 label random off len :
  Forall is_u8 payload →
  sniff_tls_client_hello payload = Some (L7TlsClientHello sni ja3 label random off len) →
  0 <= off ∧ slice payload off (off + len) = Some sni ∧
  random = Some (zdrop 11 (ztake 43 payload)) ∧ is_Some ja3.
Proof.
  intros Hp. unfold sniff_tls_client_hello. destruct (_ || _); [done|]. destruct (negb _); [done|].
  destruct (hello_prefix payload) as [[[version suites] idx]|] eqn:Hpre; [|done].
  pose proof (hello_prefix_spec _ _ _ _ Hp Hpre) as Hidx.
  destruct (extension_loop _ _ _ _) as [h|] eqn:Hl; [|done].
  destruct (h_sni h) as [name|] eqn:Hn; [|done]. intros [= <- <- <- <- <- <-].
  assert (Hr : range_ok payload h).
  { apply (extension_loop_range (S (length payload)) payload idx hello_start h Hp); [lia|done|exact Hl]. }
  destruct (Hr name Hn). split_and!; try done.
  apply slice_take_drop; lia.
Qed.

(** The walk over the extensions always ends, whatever lengths they
    declare. *)
Theorem sniff_tls_terminates payload version suites idx :
  Forall is_u8 payload → hello_prefix payload = Some (version, suites, idx) →
  is_Some (extension_loop (S (length payload)) payload idx hello_start).
Proof.
  intros Hp Hpre. pose proof (hello_prefix_spec _ _ _ _ Hp Hpre).
  apply extension_loop_total; [done|lia].
Qed.

(** ** Round trip *)

Lemma u16_at_zdrop l i hi lo rest :
  0 <= i → zdrop i l = hi :: lo :: rest → u16_at l i = be16 hi lo.
Proof.
  intros Hi Hd. apply zdrop_cons_lookup in Hd as (Hhi & Hd & _); [|done].
  apply zdrop_cons_lookup in Hd as (Hlo & _ & _); [|lia].
  unfold u16_at. by rewrite Hhi, Hlo.
Qed.

(** The loop over extensions that end the payload is the walk over them. *)
Lemma extension_loop_exts es fuel payload idx h :
  0 <= idx → zdrop idx payload = wire_extensions es →
  idx <= zlen payload → (length es < fuel)%nat →
  extension_loop fuel payload idx h = Some (read_extensions idx es h).
Proof.
  revert fuel idx h. induction es as [|[t body] es IH]; intros fuel idx h Hi Hd Hle Hf;
    (destruct fuel as [|fuel]; [by apply Nat.nlt_0_r in Hf|]); cbn [extension_loop].
  - assert (zlen payload <= idx).
    { assert (length (zdrop idx payload) = 0%nat) by by rewrite Hd. rewrite length_zdrop in *. lia. }
    case_zb; [lia|done].
  - change (wire_extensions ((t, body) :: es)) with
      (t / 256 :: t mod 256 :: zlen body / 256 :: zlen body mod 256 :: body ++ wire_extensions es) in Hd.
    pose proof (zdrop_len_ge _ _ _ Hi Hd ltac:(done)) as Hlen. cbn [length] in Hlen.
    rewrite length_app in Hlen. case_zb; [|lia].
    rewrite (u16_at_zdrop _ _ _ _ _ Hi Hd), be16_split.
    apply zdrop_cons_lookup in Hd as (_ & Hd & _); [|done].
    apply zdrop_cons_lookup in Hd as (_ & Hd & _); [|lia].
    replace (idx + 1 + 1) with (idx + 2) in Hd by lia.
    rewrite (u16_at_zdrop _ (idx + 2) _ _ _ ltac:(lia) Hd), be16_split.
    apply zdrop_cons_lookup in Hd as (_ & Hd & _); [|lia].
    apply zdrop_cons_lookup in Hd as (_ & Hd & _); [|lia].
    replace (idx + 2 + 1 + 1) with (idx + 4) in Hd by lia.
    rewrite (slice_app_zdrop payload body _ (idx + 4) ltac:(lia) Hd) by lia.
    cbn [read_extensions]. apply IH; [lia| |lia|simpl in Hf; lia].
    apply (zdrop_app_add payload body); [lia|exact Hd].
Qed.

Lemma length_wire_extensions es : (length es <= length (wire_extensions es))%nat.
Proof.
  induction es as [|[t b] es IH]; [done|].
  change (wire_extensions ((t, b) :: es)) with
    (t / 256 :: t mod 256 :: zlen b / 256 :: zlen b mod 256 :: b ++ wire_extensions es).
  cbn [length]. rewrite length_app. lia.
Qed.

Lemma parse_u16_list_wire l : parse_u16_list (concat (u16_bytes <$> l)) = l.
Proof.
  induction l as [|x l IH]; [done|]. change (concat (u16_bytes <$> x :: l)) with
    (x / 256 :: x mod 256 :: concat (u16_bytes <$> l)).
  cbn [parse_u16_list]. by rewrite be16_split, IH.
Qed.

Lemma zlen_u16_list l : zlen (concat (u16_bytes <$> l)) = 2 * zlen l.
Proof.
  induction l as [|x l IH]; [done|]. change (concat (u16_bytes <$> x :: l)) with
    (x / 256 :: x mod 256 :: concat (u16_bytes <$> l)). cbn [length]. lia.
Qed.

(** Where the extensions of a [hello_head] begin. *)
Definition head_len (session_id : bytes) (suites : list Z) (compression : bytes) : Z :=
  49 + zlen session_id + 2 * zlen suites + zlen compression.

Lemma zlen_hello_head n v random session_id suites compression e :
  zlen random = 32 →
  zlen (hello_head n v random session_id suites compression e) = head_len session_id suites compression.
Proof.
  intros Hr. unfold hello_head, head_len, u16_bytes. rewrite !length_app. cbn [length].
  pose proof (zlen_u16_list suites) as Hs. unfold u16_bytes in Hs. lia.
Qed.

Lemma hello_prefix_head n v random session_id suites compression e ext :
  zlen random = 32 →
  hello_prefix (hello_head n v random session_id suites compression e ++ ext) =
  Some (v, suites, head_len session_id suites compression).
Proof.
  intros Hr. set (p := hello_head n v random session_id suites compression e ++ ext).
  assert (Hlen : zlen p = head_len session_id suites compression + zlen ext).
  { unfold p. rewrite length_app, Nat2Z.inj_add, zlen_hello_head by done. done. }
  unfold head_len in *.
  assert (H9 : zdrop 9 p = v / 256 :: v mod 256 :: random ++ zlen session_id :: session_id
    ++ 2 * zlen suites / 256 :: (2 * zlen suites) mod 256 :: concat (u16_bytes <$> suites)
    ++ zlen compression :: compression ++ e / 256 :: e mod 256 :: ext).
  { unfold p, hello_head, u16_bytes. rewrite <- !app_assoc. reflexivity. }
  assert (H11 : zdrop 11 p = random ++ zlen session_id :: session_id
    ++ 2 * zlen suites / 256 :: (2 * zlen suites) mod 256 :: concat (u16_bytes <$> suites)
    ++ zlen compression :: compression ++ e / 256 :: e mod 256 :: ext).
  { apply zdrop_cons_lookup in H9 as (_ & Hd & _); [|lia].
    apply zdrop_cons_lookup in Hd as (_ & Hd & _); [exact Hd|lia]. }
  destruct (zdrop_cons_lookup _ _ 9 _ ltac:(lia) H9) as (N9 & D10 & _).
  destruct (zdrop_cons_lookup _ _ (9 + 1) _ ltac:(lia) D10) as (N10 & _ & _).
  pose proof (zdrop_app_add _ _ _ 11 ltac:(lia) H11) as H43.
  replace (11 + zlen random) with 43 in H43 by lia.
  destruct (zdrop_cons_lookup _ _ 43 _ ltac:(lia) H43) as (N43 & D44 & _).
  pose proof (zdrop_app_add _ _ _ (43 + 1) ltac:(lia) D44) as Hc.
  replace (43 + 1 + zlen session_id) with (43 + (1 + zlen session_id)) in Hc by lia.
  set (i := 43 + (1 + zlen session_id)) in *.
  destruct (zdrop_cons_lookup _ _ i _ ltac:(lia) Hc) as (Nc1 & Dc1 & _).
  destruct (zdrop_cons_lookup _ _ (i + 1) _ ltac:(lia) Dc1) as (Nc2 & Dc2 & _).
  replace (i + 1 + 1) with (i + 2) in Dc2 by lia.
  assert (Hsl : slice p (i + 2) (i + 2 + 2 * zlen suites) = Some (concat (u16_bytes <$> suites))).
  { rewrite <- zlen_u16_list. apply (slice_app_zdrop _ _ _ (i + 2) ltac:(lia) Dc2).
    rewrite zlen_u16_list. lia. }
  pose proof (zdrop_app_add _ _ _ (i + 2) ltac:(lia) Dc2) as Hcomp.
  rewrite zlen_u16_list in Hcomp.
  destruct (zdrop_cons_lookup _ _ (i + 2 + 2 * zlen suites) _ ltac:(lia) Hcomp) as (Ncomp & _ & _).
  unfold hello_prefix. change (10) with (9 + 1). rewrite N9, N10, N43. fold i.
  rewrite Nc1, Nc2, be16_split, Hsl, Ncomp.
  rewrite !be16_split, parse_u16_list_wire. case_zb; [lia|].
  do 2 f_equal. unfold i. lia.
Qed.

(** What the walk reports for a hello whose only [server_name] extension
    names [name]. *)
Lemma read_extensions_app pos es1 es2 h :
  read_extensions pos (es1 ++ es2) h =
  read_extensions (pos + zlen (wire_extensions es1)) es2 (read_extensions pos es1 h).
Proof.
  revert pos h. induction es1 as [|[t b] es IH]; intros pos h; [by rewrite Z.add_0_r|].
  cbn [app read_extensions]. rewrite IH. f_equal.
  change (wire_extensions ((t, b) :: es)) with
    (t / 256 :: t mod 256 :: zlen b / 256 :: zlen b mod 256 :: b ++ wire_extensions es).
  cbn [length]. rewrite length_app. lia.
Qed.

Lemma read_extension_types t start body h :
  h_extensions (read_extension t start body h) = h_extensions h ++ [t].
Proof. unfold read_extension. repeat case_match; reflexivity. Qed.

Lemma read_extensions_types es pos h :
  h_extensions (read_extensions pos es h) = h_extensions h ++ es.*1.
Proof.
  revert pos h. induction es as [|[t b] es IH]; intros pos h; cbn [read_extensions]; [by rewrite app_nil_r|].
  rewrite IH, read_extension_types, <- app_assoc. done.
Qed.

Definition sni_of (h : Hello) : option bytes * Z * Z := (h_sni h, sni_offset h, sni_len h).

Lemma read_extensions_no_sni es pos h :
  Forall (λ e, e.1 ≠ 0) es → sni_of (read_extensions pos es h) = sni_of h.
Proof.
  intros Hes. revert pos h. induction Hes as [|[t b] es Ht _ IH]; intros pos h; [done|].
  cbn [read_extensions]. rewrite IH. unfold read_extension.
  replace (t =? 0) with false by (symmetry; apply Z.eqb_neq, Ht).
  repeat case_match; reflexivity.
Qed.

Lemma server_name_body name : is_Some (decode name) → server_name (sni_body name) = Some name.
Proof.
  intros [cs Hcs]. unfold server_name, sni_body, u16_bytes. cbn [app].
  set (b := (zlen name + 3) / 256 :: (zlen name + 3) mod 256 :: 0 :: zlen name / 256
              :: zlen name mod 256 :: name).
  change (nth_z b 3) with (Some (zlen name / 256)). change (nth_z b 4) with (Some (zlen name mod 256)).
  cbv beta iota. rewrite be16_split.
  rewrite (slice_app_zdrop b name [] 5); [|lia|by rewrite app_nil_r|].
  - simpl. unfold from_utf8. by rewrite Hcs.
  - unfold b. cbn [length]. lia.
Qed.

(** Neither the record's declared length nor that of the extensions is looked
    at. *)
Lemma sniff_tls_hello `{Md5} n ext_len version random session_id suites compression es1 name es2 :
  zlen random = 32 → is_Some (decode name) →
  Forall (λ e, e.1 ≠ 0) es1 → Forall (λ e, e.1 ≠ 0) es2 →
  let es := es1 ++ (0, sni_body name) :: es2 in
  let start := head_len session_id suites compression in
  let h := read_extensions start es hello_start in
  let ja3 := compute_ja3 (mkClientHelloFields version suites es.*1 (h_curves h) (h_formats h)) in
  sniff_tls_client_hello
    (hello_head n version random session_id suites compression ext_len ++ wire_extensions es) =
  Some (L7TlsClientHello name (Some ja3) (label_for_ja3 ja3) (Some random)
          (start + zlen (wire_extensions es1) + 9) (zlen name)).
Proof.
  intros Hr Hname H1 H2 es start h ja3. set (head := hello_head n _ _ _ _ _ _).
  set (p := head ++ wire_extensions es).
  assert (Hhl : zlen head = start) by by apply zlen_hello_head.
  assert (Hpl : zlen p = start + zlen (wire_extensions es)) by (unfold p; rewrite length_app; lia).
  assert (Hst : 49 <= start) by (unfold start, head_len; lia).
  unfold sniff_tls_client_hello. change (nth_z p 0) with (Some 22). change (nth_z p 5) with (Some 1).
  replace (zlen p <? 6) with false by (symmetry; apply Z.ltb_ge; lia). cbn [orb default Z.eqb Pos.eqb negb].
  unfold p at 1. unfold head at 1. rewrite hello_prefix_head by done. fold start. fold head. fold p.
  rewrite (extension_loop_exts es); [|lia| |lia|].
  - fold h. assert (Hsni : sni_of h = (Some name, start + zlen (wire_extensions es1) + 9, zlen name)).
    { unfold h, es. rewrite read_extensions_app. cbn [read_extensions].
      rewrite read_extensions_no_sni by done. unfold read_extension. cbn [Z.eqb].
      rewrite server_name_body by done. unfold sni_of. cbn. f_equal. f_equal. lia. }
    unfold sni_of in Hsni. injection Hsni as -> -> ->.
    replace (h_extensions h) with es.*1 by (unfold h; rewrite read_extensions_types; done).
    fold ja3. do 2 f_equal. rewrite <- (slice_app_zdrop p random (zdrop 43 p) 11); [f_equal; lia|lia| |lia].
    assert (H11 : ∃ rest, zdrop 11 p = random ++ rest).
    { eexists. unfold p, head, hello_head, u16_bytes. rewrite <- !app_assoc. reflexivity. }
    destruct H11 as [rest H11]. rewrite H11. f_equal.
    apply zdrop_app_add in H11; [|lia]. replace (11 + zlen random) with 43 in H11 by lia. done.
  - unfold p. rewrite <- Hhl. apply zdrop_app.
  - pose proof (length_wire_extensions es). unfold p. rewrite length_app. lia.
Qed.

(** C22: a whole ClientHello, with any version, random, session id, cipher
    suites and compression methods, and any extensions of which exactly one is
    a [server_name] with a UTF-8 host name, is recognised: the name, its exact
    place in the payload, the random, and the JA3 of the version, the suites,
    every extension's type in order, and the groups and point formats read. *)
Theorem sniff_tls_roundtrip `{Md5} version random session_id suites compression es1 name es2 :
  zlen random = 32 → is_Some (decode name) →
  Forall (λ e, e.1 ≠ 0) es1 → Forall (λ e, e.1 ≠ 0) es2 →
  let es := es1 ++ (0, sni_body name) :: es2 in
  let start := head_len session_id suites compression in
  let h := read_extensions start es hello_start in
  let ja3 := compute_ja3 (mkClientHelloFields version suites es.*1 (h_curves h) (h_formats h)) in
  sniff_tls_client_hello (client_hello version random session_id suites compression es) =
  Some (L7TlsClientHello name (Some ja3) (label_for_ja3 ja3) (Some random)
          (start + zlen (wire_extensions es1) + 9) (zlen name)).
Proof. intros. by apply sniff_tls_hello. Qed.

Lemma ztake_app_add {A} (l k : list A) n : 0 <= n → ztake (zlen l + n) (l ++ k) = l ++ ztake n k.
Proof.
  intros Hn. unfold ztake. replace (Z.to_nat (zlen l + n)) with (length l + Z.to_nat n)%nat by lia.
  apply take_app_add.
Qed.

Lemma wire_extensions_app es1 es2 :
  wire_extensions (es1 ++ es2) = wire_extensions es1 ++ wire_extensions es2.
Proof. unfold wire_extensions. by rewrite fmap_app, concat_app. Qed.

(** A ClientHello cut anywhere between its [server_name] extension and the
    next one is already reported, with a JA3 that covers only the extensions
    before the cut: the detector does not wait for the record its header
    declares. *)
Theorem sniff_tls_partial_ja3 `{Md5} version random session_id suites compression es1 name es2 :
  zlen random = 32 → is_Some (decode name) → Forall (λ e, e.1 ≠ 0) es1 →
  let seen := es1 ++ [(0, sni_body name)] in
  let start := head_len session_id suites compression in
  let hello := client_hello version random session_id suites compression
                 (es1 ++ (0, sni_body name) :: es2) in
  let h := read_extensions start seen hello_start in
  let ja3 := compute_ja3 (mkClientHelloFields version suites seen.*1 (h_curves h) (h_formats h)) in
  sniff_tls_client_hello (ztake (start + zlen (wire_extensions seen)) hello) =
  Some (L7TlsClientHello name (Some ja3) (label_for_ja3 ja3) (Some random)
          (start + zlen (wire_extensions es1) + 9) (zlen name)).
Proof.
  intros Hr Hn H1 seen start hello h ja3.
  replace (ztake _ hello) with
    (hello_head (44 + zlen session_id + 2 * zlen suites + zlen compression
                 + zlen (wire_extensions (es1 ++ (0, sni_body name) :: es2)))
       version random session_id suites compression
       (zlen (wire_extensions (es1 ++ (0, sni_body name) :: es2))) ++ wire_extensions seen).
  - exact (sniff_tls_hello _ _ version random session_id suites compression es1 name []
             Hr Hn H1 (Forall_nil_2 _)).
  - unfold hello, client_hello. set (n := 44 + _ + _ + _ + _). set (head := hello_head n _ _ _ _ _ _).
    assert (Hh : zlen head = start) by by apply zlen_hello_head.
    rewrite <- Hh, ztake_app_add by lia. f_equal.
    change (es1 ++ (0, sni_body name) :: es2) with (es1 ++ [(0, sni_body name)] ++ es2).
    rewrite app_assoc. fold seen. rewrite wire_extensions_app. symmetry. apply ztake_app.
Qed.

(** ** Witnesses *)

Lemma sample_hello_bytes : Forall is_u8 sample_hello.
Proof. apply (bool_decide_unpack _). vm_compute. exact I. Qed.

Lemma sniff_tls_range_witness :
  slice sample_hello 63 (63 + 11) = Some (lit "example.com").
Proof.
  apply (sniff_tls_range (H := no_md5) sample_hello (lit "example.com")
           (Some (lit "771,4865-49199,0-10-11,29,0")) None (Some (zreplicate 32 0)) 63 11
           sample_hello_bytes). by vm_compute.
Defined.

Lemma sniff_tls_terminates_witness :
  is_Some (extension_loop (S (length sample_hello)) sample_hello 54 hello_start).
Proof.
  apply (sniff_tls_terminates sample_hello 771 [4865; 49199] 54 sample_hello_bytes). by vm_compute.
Defined.

Lemma ascii_decodes s :
  bool_decide (Forall (λ b, 0 <= b <= 127) s) = true → is_Some (decode s).
Proof. intros Hs%bool_decide_eq_true. rewrite decode_ascii by done. by eexists. Qed.

Lemma sniff_tls_roundtrip_witness :
  sniff_tls_client_hello (H := no_md5) sample_hello =
  Some (L7TlsClientHello (lit "example.com") (Some (lit "771,4865-49199,0-10-11,29,0")) None
          (Some (zreplicate 32 0)) 63 11).
Proof.
  refine (sniff_tls_roundtrip (H := no_md5) 771 (zreplicate 32 0) [] [4865; 49199] [0] []
            (lit "example.com") [(10, [0; 2; 0; 29]); (11, [1; 0])] _ _ _ _).
  - done.
  - by apply ascii_decodes.
  - by constructor.
  - by repeat constructor.
Defined.

Lemma sniff_tls_partial_ja3_witness :
  sniff_tls_client_hello (H := no_md5) (ztake 74 sample_hello) =
    Some (L7TlsClientHello (lit "example.com") (Some (lit "771,4865-49199,0,,")) None
            (Some (zreplicate 32 0)) 63 11) ∧
  zlen sample_hello = 88.
Proof.
  split; [|by vm_compute].
  refine (sniff_tls_partial_ja3 (H := no_md5) 771 (zreplicate 32 0) [] [4865; 49199] [0] []
            (lit "example.com") [(10, [0; 2; 0; 29]); (11, [1; 0])] _ _ _).
  - done.
  - by apply ascii_decodes.
  - by constructor.
Defined.
