(* ===== verification/L7.v ===== *)
(** * Choosing a detector

    The dispatch of [capture-agent/src/l7.rs]: which detectors a payload is
    offered to by port and transport, how many bytes an unrecognised prefix
    still needs, and the display names of DNS types and codes. *)

From S2P Require Import Prelude Packet Text L7Http L7Dns L7Tls.

Definition dns_type_name (rtype : Z) : bytes :=
  if rtype =? 1 then lit "A"
  else if rtype =? 2 then lit "NS"
  else if rtype =? 5 then lit "CNAME"
  else if rtype =? 6 then lit "SOA"
  else if rtype =? 12 then lit "PTR"
  else if rtype =? 15 then lit "MX"
  else if rtype =? 16 then lit "TXT"
  else if rtype =? 28 then lit "AAAA"
  else if rtype =? 33 then lit "SRV"
  else if rtype =? 64 then lit "SVCB"
  else if rtype =? 65 then lit "HTTPS"
  else if rtype =? 255 then lit "ANY"
  else lit "TYPE" ++ dec rtype.

Definition dns_rcode_name (rcode : Z) : bytes :=
  if rcode =? 0 then lit "NOERROR"
  else if rcode =? 1 then lit "FORMERR"
  else if rcode =? 2 then lit "SERVFAIL"
  else if rcode =? 3 then lit "NXDOMAIN"
  else if rcode =? 4 then lit "NOTIMP"
  else if rcode =? 5 then lit "REFUSED"
  else lit "RCODE" ++ dec rcode.

(** The shortfall of a TLS handshake record, when the payload starts one. *)
Definition tls_shortfall (payload : bytes) : option Z :=
  if bool_decide (nth_z payload 0 = Some 22) then
    if zlen payload <? 5 then Some (5 - zlen payload)
    else
      let needed := be16 (default 0 (nth_z payload 3)) (default 0 (nth_z payload 4)) + 5 in
      if zlen payload <? needed then Some (needed - zlen payload) else None
  else None.

Definition missing_byte_count (payload : bytes) : option Z :=
  match tls_shortfall payload with
  | Some n => Some n
  | None => if unterminated_http_start_line payload then Some 1 else None
  end.

Definition or_else {A} (m k : option A) : option A := match m with Some x => Some x | None => k end.

Section sniff.
Context `{Md5}.

Definition sniff_l7_desegmenting (payload : bytes) (dst_port : option Z) : L7Sniff :=
  let info :=
    if bool_decide (dst_port = Some 53) then sniff_dns payload
    else if bool_decide (dst_port = Some 443) then sniff_tls_client_hello payload
    else or_else (sniff_http payload)
           (or_else (sniff_http_response payload)
              (or_else (sniff_dns payload) (sniff_tls_client_hello payload))) in
  match info with
  | Some info => Decided info
  | None =>
      match missing_byte_count payload with
      | Some at_least => NeedMoreBytes at_least
      | None => Undecided
      end
  end.

Definition sniff_for_transport (payload : bytes) (protocol : TransportProtocol)
    (src_port dst_port : option Z) : L7Sniff :=
  if negb (is_dns_over_tcp protocol src_port dst_port) then sniff_l7_desegmenting payload dst_port
  else if bool_decide (dst_port = Some 53) then sniff_dns_tcp payload
  else
    match or_else (sniff_http payload)
            (or_else (sniff_http_response payload) (sniff_tls_client_hello payload)) with
    | Some info => Decided info
    | None =>
        match sniff_dns_tcp payload with
        | Undecided =>
            match missing_byte_count payload with
            | Some at_least => NeedMoreBytes at_least
            | None => Undecided
            end
        | other => other
        end
    end.

Definition sniff_l7 (payload : bytes) (dst_port : option Z) : L7Info :=
  match sniff_l7_desegmenting payload dst_port with
  | Decided info => info
  | _ => L7None
  end.

(** ** Theorems *)

Definition is_dns (info : L7Info) : Prop :=
  match info with L7Dns _ _ _ | L7DnsResponse _ _ _ _ _ _ => True | _ => False end.
Definition is_http (info : L7Info) : Prop :=
  match info with L7Http _ _ | L7HttpResponse _ _ _ _ => True | _ => False end.
Definition is_tls (info : L7Info) : Prop :=
  match info with L7TlsClientHello _ _ _ _ _ _ => True | _ => False end.

Lemma sniff_dns_kind payload info : sniff_dns payload = Some info → is_dns info.
Proof.
  unfold sniff_dns. repeat case_match; try done; by intros [= <-].
Qed.

Lemma sniff_tls_kind payload info : sniff_tls_client_hello payload = Some info → is_tls info.
Proof. unfold sniff_tls_client_hello. repeat case_match; try done; by intros [= <-]. Qed.

Lemma sniff_http_kind payload info : sniff_http payload = Some info → is_http info.
Proof.
  unfold sniff_http. destruct (first_complete_line payload); [|done]. simpl.
  repeat case_match; try done; by intros [= <-].
Qed.

Lemma sniff_http_response_kind payload info : sniff_http_response payload = Some info → is_http info.
Proof.
  unfold sniff_http_response. destruct (first_complete_line payload); [|done]. simpl.
  repeat case_match; try done; by intros [= <-].
Qed.

Lemma sniff_dns_tcp_kind payload info : sniff_dns_tcp payload = Decided info → is_dns info.
Proof.
  unfold sniff_dns_tcp. repeat case_match; try done; intros [= <-].
  by eapply sniff_dns_kind.
Qed.

Lemma missing_byte_count_bounds payload n :
  Forall is_u8 payload → missing_byte_count payload = Some n → 0 < n <= 65536.
Proof.
  intros Hp. unfold missing_byte_count, tls_shortfall.
  assert (Hd : ∀ i, is_u8 (default 0 (nth_z payload i))).
  { intros i. destruct (nth_z payload i) eqn:Hi; [by eapply msg_byte|simpl; zlia]. }
  pose proof (Hd 3). pose proof (Hd 4). unfold be16. width.
  destruct (bool_decide _); repeat (case_zb || case_match); intros [= <-] || idtac; try done; lia.
Qed.

Lemma sniff_dns_tcp_bounds payload n :
  Forall is_u8 payload → sniff_dns_tcp payload = NeedMoreBytes n → 0 < n <= 65536.
Proof.
  intros Hp. destruct payload as [|hi [|lo rest]]; cbn [sniff_dns_tcp]; [done|by intros [= <-]|].
  destruct (negb _) eqn:Hn; [done|]. apply negb_false_iff, andb_true_iff in Hn as [H1%Z.leb_le H2%Z.leb_le].
  destruct (slice _ _ _) eqn:Hs; [by destruct (sniff_dns _)|]. intros [= <-].
  apply slice_None in Hs. cbn [length] in *.
  assert (MAX_DNS_TCP_MESSAGE_BYTES <= 65534) by (vm_compute; done). lia.
Qed.

(** *** TLS is never taken for HTTP *)

Lemma words_aux_first acc cs w ws :
  acc ≠ [] → words_aux acc cs = w :: ws → ∃ k, w = reverse acc ++ k.
Proof.
  revert acc. induction cs as [|c cs IH]; intros acc Hacc; simpl.
  - destruct acc; [done|]. intros [= <- <-]. exists []. by rewrite app_nil_r.
  - destruct (is_whitespace c).
    + destruct acc; [done|]. intros [= <- _]. exists []. by rewrite app_nil_r.
    + intros (k & ->)%IH; [|done]. rewrite reverse_cons, <- app_assoc. by eexists.
Qed.

Lemma first_word_22 line w ws :
  split_whitespace (22 :: line) = w :: ws → ∃ k, w = 22 :: k.
Proof.
  unfold split_whitespace, chars. cbn [decode]. simpl.
  destruct (decode line) as [cs|]; simpl; [|done].
  destruct (words_aux [22] cs) as [|w0 ws0] eqn:Hw; [done|]. intros [= <- _].
  apply words_aux_first in Hw as (k & ->); [|done]. simpl. by eexists.
Qed.

Lemma first_line_22 rest line :
  first_complete_line (22 :: rest) = Some line → ∃ k, line = 22 :: k.
Proof.
  unfold first_complete_line. cbn [position]. change (22 =? LF) with false. cbn iota.
  destruct (position LF rest) as [n|] eqn:Hp; [|done]. simpl.
  destruct (slice _ 0 _) as [l|] eqn:Hs; [|done]. simpl.
  apply position_spec in Hp as (Hn & _).
  apply slice_Some in Hs as (_ & _ & ->). unfold from_utf8. destruct (decode _); [|done].
  intros [= <-]. unfold ztake, zdrop. replace (Z.to_nat (Z.succ n - 0)) with (S (Z.to_nat n)) by lia.
  change (Z.to_nat 0) with 0%nat. cbn [drop take]. unfold strip_cr, strip_suffix_byte.
  rewrite reverse_cons. destruct (reverse (take (Z.to_nat n) rest)) as [|y r] eqn:Hr; simpl; [by eexists|].
  destruct (y =? CR); simpl; [|by eexists]. rewrite reverse_app. simpl. by eexists.
Qed.

Lemma tls_not_http payload info :
  sniff_tls_client_hello payload = Some info →
  sniff_http payload = None ∧ sniff_http_response payload = None.
Proof.
  unfold sniff_tls_client_hello. destruct (_ || _) eqn:Hc; [done|]. intros _.
  apply orb_false_iff in Hc as [_ Hc]. apply negb_false_iff, Z.eqb_eq in Hc.
  destruct payload as [|b rest]; [done|]. unfold nth_z in Hc. simpl in Hc. subst b.
  unfold sniff_http, sniff_http_response.
  destruct (first_complete_line (22 :: rest)) as [line|] eqn:Hl; simpl; [|done].
  apply first_line_22 in Hl as (k & ->).
  destruct (split_whitespace (22 :: k)) as [|w ws] eqn:Hw; [done|].
  apply first_word_22 in Hw as (k' & ->). split.
  - destruct ws; [done|]. rewrite bool_decide_false; [done|].
    unfold HTTP_METHODS. rewrite !elem_of_cons, elem_of_nil. intros Hm.
    by repeat (destruct Hm as [Hm|Hm]; [discriminate Hm|]).
  - unfold starts_with. rewrite bool_decide_false; [done|]. simpl. by intros [? ?].
Qed.

(** The verdict on a payload is of a kind its ports allow: never the
    absence of a protocol, only DNS towards port 53, only TLS towards 443, and
    DNS from TCP port 53 only through the length framing; a request for more
    bytes is for at least one and at most a record or message. *)
Theorem sniff_for_transport_sound payload protocol src_port dst_port :
  Forall is_u8 payload →
  match sniff_for_transport payload protocol src_port dst_port with
  | Decided info =>
      info ≠ L7None ∧ (dst_port = Some 53 → is_dns info) ∧
      (dst_port = Some 443 → is_dns_over_tcp protocol src_port dst_port = false → is_tls info) ∧
      (is_dns_over_tcp protocol src_port dst_port = true → is_dns info →
         sniff_dns_tcp payload = Decided info)
  | NeedMoreBytes n => 0 < n <= 65536
  | Undecided => True
  end.
Proof.
  intros Hp. unfold sniff_for_transport.
  assert (Hkinds : ∀ info, is_dns info ∨ is_http info ∨ is_tls info → info ≠ L7None)
    by (by intros ? [?|[?|?]] ->).
  assert (Hht : ∀ info, or_else (sniff_http payload) (or_else (sniff_http_response payload)
      (sniff_tls_client_hello payload)) = Some info → is_http info ∨ is_tls info).
  { intros info. pose proof (sniff_http_kind payload). pose proof (sniff_http_response_kind payload).
    pose proof (sniff_tls_kind payload). unfold or_else. repeat case_match; naive_solver. }
  destruct (is_dns_over_tcp protocol src_port dst_port) eqn:Hd; cbn [negb].
  - destruct (bool_decide (dst_port = Some 53)) eqn:H53.
    + destruct (sniff_dns_tcp payload) as [info|n|] eqn:Hs; [|by eapply sniff_dns_tcp_bounds|done].
      apply sniff_dns_tcp_kind in Hs. naive_solver.
    + apply bool_decide_eq_false in H53. destruct (or_else _ _) as [info|] eqn:Ho.
      * specialize (Hht info eq_refl). split_and!; [by apply Hkinds; right|done|done|].
        destruct info; simpl in *; tauto.
      * destruct (sniff_dns_tcp payload) as [info|n|] eqn:Hs; [|by eapply sniff_dns_tcp_bounds|].
        -- apply sniff_dns_tcp_kind in Hs as Hk. naive_solver.
        -- destruct (missing_byte_count payload) eqn:Hm; [by eapply missing_byte_count_bounds|done].
  - unfold sniff_l7_desegmenting. destruct (if bool_decide _ then _ else _) as [info|] eqn:Hi.
    + repeat case_bool_decide; simplify_eq.
      * apply sniff_dns_kind in Hi. naive_solver.
      * apply sniff_tls_kind in Hi. naive_solver.
      * split_and!; try done. apply Hkinds.
        pose proof (sniff_http_kind payload). pose proof (sniff_http_response_kind payload).
        pose proof (sniff_tls_kind payload). pose proof (sniff_dns_kind payload).
        unfold or_else in Hi. repeat case_match; naive_solver.
    + destruct (missing_byte_count payload) eqn:Hm; [by eapply missing_byte_count_bounds|done].
Qed.

(** Coming from TCP port 53 hides neither HTTP nor TLS: what would be
    recognised on another source port is recognised all the same. *)
Theorem source_port_53_hides_nothing payload dst_port info :
  dst_port ≠ Some 53 → is_http info ∨ is_tls info →
  sniff_l7_desegmenting payload dst_port = Decided info →
  sniff_for_transport payload Tcp (Some 53) dst_port = Decided info.
Proof.
  intros H53 Hkind. unfold sniff_for_transport, sniff_l7_desegmenting. cbn [is_dns_over_tcp].
  replace (is_dns_over_tcp Tcp (Some 53) dst_port) with true by done. cbn [negb].
  rewrite bool_decide_false by done.
  destruct (if bool_decide _ then _ else _) as [i|] eqn:Hi; [|by destruct (missing_byte_count payload)].
  intros [= ->].
  assert (Ho : or_else (sniff_http payload) (or_else (sniff_http_response payload)
                 (sniff_tls_client_hello payload)) = Some info); [|by rewrite Ho].
  case_bool_decide.
  - destruct (tls_not_http _ _ Hi) as [-> ->]. exact Hi.
  - pose proof (sniff_dns_kind payload info) as Hdns. unfold or_else in *.
    destruct (sniff_http payload); [done|]. destruct (sniff_http_response payload); [done|].
    destruct (sniff_dns payload) as [i|]; [|done]. specialize (Hdns Hi).
    destruct info; simpl in *; tauto.
Qed.
End sniff.

(** C46: [NeedMoreBytes at_least] is not a lower bound on the bytes that let a
    detector decide: here fewer bytes than asked for settle a ClientHello. *)
Theorem at_least_not_a_lower_bound :
  ∃ (payload more : bytes) (n : Z) (info : L7Info),
    sniff_l7_desegmenting (H := no_md5) payload (Some 443) = NeedMoreBytes n ∧
    zlen more < n ∧
    sniff_l7_desegmenting (H := no_md5) (payload ++ more) (Some 443) = Decided info.
Proof.
  exists (ztake 60 sample_hello), (ztake 14 (zdrop 60 sample_hello)), 28,
    (L7TlsClientHello (lit "example.com") (Some (lit "771,4865-49199,0,,")) None
       (Some (zreplicate 32 0)) 63 11).
  split_and!; by vm_compute.
Qed.

(** ** Witnesses *)

Lemma sniff_for_transport_sound_witness :
  match sniff_for_transport (H := no_md5) (ztake 60 sample_hello) Tcp (Some 50000) (Some 443) with
  | NeedMoreBytes n => 0 < n <= 65536
  | _ => False
  end.
Proof.
  exact (sniff_for_transport_sound (H := no_md5) (ztake 60 sample_hello) Tcp (Some 50000) (Some 443)
           (Forall_take _ _ _ sample_hello_bytes)).
Defined.

Lemma source_port_53_hides_nothing_witness :
  sniff_for_transport (H := no_md5) (lit "GET / HTTP/1.1" ++ [13; 10]) Tcp (Some 53) (Some 80) =
  Decided (L7Http (lit "GET") (lit "/")).
Proof.
  apply (source_port_53_hides_nothing (H := no_md5)); [done|by left|by vm_compute].
Defined.
