(* ===== verification/Parse.v ===== *)
(** * Decoding frames

    [parse_packet_result], [parse_packet] and [build_parsed_packet] of
    [capture-agent/src/parse.rs].  The slicing of the headers is the
    [etherparse] crate's: what the code reads off a [SlicedPacket] is data
    here, and [SlicedPacket::from_ethernet] and [from_ip] are parameters. *)

From S2P Require Import Prelude Packet Text Fragments.

(** ** What the code reads of a sliced packet *)

Inductive LinkExtSlice :=
| ExtVlan (vlan_identifier : Z)
| ExtMacsec (encrypted userdata_changed : bool).

Record Ipv4Slice := mkIpv4Slice {
  v4_header : bytes;            (** [header().slice()] *)
  v4_auth_len : Z;              (** [extensions().auth], its slice's length or 0 *)
  v4_total_len : Z;
  v4_fragments_offset : Z;
  v4_more_fragments : bool;
  v4_identification : Z;
  v4_protocol : Z;
  v4_source : bytes;            (** four octets *)
  v4_destination : bytes;
  v4_ttl : Z;
  v4_header_checksum : Z;
  v4_payload : bytes
}.

Record Ipv6Slice := mkIpv6Slice {
  v6_header_len : Z;
  v6_extensions_len : Z;
  v6_payload_length : Z;
  v6_source : bytes;            (** sixteen octets *)
  v6_destination : bytes;
  v6_hop_limit : Z
}.

Record ArpSlice := mkArpSlice {
  hw_addr_type : Z;
  hw_addr_size : Z;
  proto_addr_type : Z;
  proto_addr_size : Z
}.

Inductive NetSlice :=
| NetIpv4 (s : Ipv4Slice)
| NetIpv6 (s : Ipv6Slice)
| NetArp (s : ArpSlice).

Record TcpSlice := mkTcpSlice {
  tcp_source_port : Z;
  tcp_destination_port : Z;
  tcp_slice_flags : TcpFlags;
  tcp_sequence_number : Z;
  tcp_payload : bytes;
  tcp_header_len : Z
}.

Record UdpSlice := mkUdpSlice {
  udp_source_port : Z;
  udp_destination_port : Z;
  udp_payload : bytes;
  udp_header_len : Z
}.

Inductive TransportSlice :=
| TransportTcp (s : TcpSlice)
| TransportUdp (s : UdpSlice)
| TransportIcmpv4
| TransportIcmpv6.

Record SlicedPacket := mkSlicedPacket {
  link : option (bytes * bytes);            (** an Ethernet II header: source and destination *)
  link_exts : list LinkExtSlice;
  net : option NetSlice;
  transport : option TransportSlice;
  payload_ether_type : option Z;
  ether_payload : option (Z * bytes)        (** the innermost type or length, and what follows *)
}.

Class Slicer := {
  from_ethernet : bytes → option SlicedPacket;
  from_ip : bytes → option SlicedPacket
}.

(** ** Addresses *)

Definition hex2 (b : Z) : bytes := [digit_char (b / 16); digit_char (b mod 16)].

Definition mac_to_string (mac : bytes) : bytes := join (lit ":") (hex2 <$> mac).

Definition NO_MAC : bytes := lit "00:00:00:00:00:00".

Definition NULL_LOOPBACK_HEADER_LEN : Z := 4.

Inductive ParseFailure := Malformed | UnsupportedNonIp.

(** ** The network and transport layers *)

(** What a packet takes from its network layer. *)
Record NetFields := mkNetFields {
  nf_src_ip : bytes;
  nf_dst_ip : bytes;
  nf_ttl : Z;
  nf_version : Z;
  nf_checksum : option Z;
  nf_header_len : Z;
  nf_declared_payload_len : Z;
  nf_fragment : option Ipv4Fragment
}.

Definition net_fields (n : option NetSlice) : option NetFields :=
  match n with
  | Some (NetIpv4 s) =>
      let ip_header_len := zlen (v4_header s) + v4_auth_len s in
      let declared_payload_len := sat_sub (v4_total_len s) ip_header_len in
      let offset_bytes := v4_fragments_offset s * 8 in
      let is_fragment := v4_more_fragments s || negb (offset_bytes =? 0) in
      let fragment :=
        if is_fragment && (v4_auth_len s =? 0) then
          Some (mkIpv4Fragment (v4_identification s) offset_bytes (v4_more_fragments s)
                  (v4_protocol s) (v4_header s) (v4_payload s))
        else None in
      Some (mkNetFields (ipv4_to_string (v4_source s)) (ipv4_to_string (v4_destination s))
              (v4_ttl s) 4 (Some (v4_header_checksum s)) ip_header_len declared_payload_len fragment)
  | Some (NetIpv6 s) =>
      Some (mkNetFields (ipv6_to_string (v6_source s)) (ipv6_to_string (v6_destination s))
              (v6_hop_limit s) 6 None (v6_header_len s + v6_extensions_len s)
              (sat_sub (v6_payload_length s) (v6_extensions_len s)) None)
  | _ => None
  end.

(** What a packet takes from its transport layer. *)
Record TransportFields := mkTransportFields {
  tf_protocol : TransportProtocol;
  tf_src_port : option Z;
  tf_dst_port : option Z;
  tf_flags : option TcpFlags;
  tf_seq : option Z;
  tf_payload : bytes;
  tf_header_len : Z
}.

Definition transport_fields (t : option TransportSlice) : TransportFields :=
  match t with
  | Some (TransportTcp s) =>
      mkTransportFields Tcp (Some (tcp_source_port s)) (Some (tcp_destination_port s))
        (Some (tcp_slice_flags s)) (Some (tcp_sequence_number s)) (tcp_payload s) (tcp_header_len s)
  | Some (TransportUdp s) =>
      mkTransportFields Udp (Some (udp_source_port s)) (Some (udp_destination_port s)) None None
        (udp_payload s) (udp_header_len s)
  | Some TransportIcmpv4 | Some TransportIcmpv6 => mkTransportFields Icmp None None None None [] 0
  | None => mkTransportFields Other None None None None [] 0
  end.

Definition build_parsed_packet (sliced : SlicedPacket) (src_mac dst_mac : bytes)
    (vlan_tag : option bytes) (frame_data : bytes) : option ParsedPacket :=
  match net_fields (net sliced) with
  | None => None
  | Some n =>
      let t := transport_fields (transport sliced) in
      let header_bytes := ztake (zlen frame_data - zlen (tf_payload t)) frame_data in
      Some (mkParsedPacket src_mac dst_mac (nf_src_ip n) (nf_dst_ip n) (tf_protocol t)
              (tf_src_port t) (tf_dst_port t) (tf_flags t) (tf_seq t) (nf_ttl n)
              (zlen frame_data mod 65536) (tf_payload t) header_bytes (nf_header_len n)
              (tf_header_len t) (nf_version n) (nf_checksum n) vlan_tag
              (nf_declared_payload_len n) (nf_fragment n))
  end.

(** ** Classification *)

Definition DECODER_KNOWN_ETHER_TYPES : list Z :=
  [33024; 34984; 37120; 35045; 2048; 34525; 2054].

Definition IP_CARRYING_ENCAPSULATIONS : list Z := [34916; 34887; 34888; 35047; 35135].

Definition ether_type_in (k : option Z) (l : list Z) : bool :=
  match k with Some kind => bool_decide (kind ∈ l) | None => false end.

Definition opaque_macsec (e : LinkExtSlice) : bool :=
  match e with ExtMacsec encrypted changed => encrypted || changed | ExtVlan _ => false end.

(** LLC/SNAP with an EtherType-carrying OUI around IP. *)
Definition snap_ip (payload : bytes) : bool :=
  match payload with
  | 170 :: 170 :: 3 :: 0 :: 0 :: oui :: hi :: lo :: _ =>
      ((oui =? 0) || (oui =? 248))
      && ((be16 hi lo =? 2048) || (be16 hi lo =? 34525))
  | _ => false
  end.

(** The innermost type or length says the frame is cut, reserved, or SNAP
    around IP. *)
Definition ether_payload_malformed (p : option (Z * bytes)) : bool :=
  match p with
  | None => false
  | Some (kind, payload) =>
      ((kind <=? 1500) && (zlen payload <? kind))
      || ((1501 <=? kind) && (kind <=? 1535))
      || ((kind <=? 1500) && snap_ip payload)
  end.

Definition arp_malformed (n : option NetSlice) : bool :=
  match n with
  | Some (NetArp arp) =>
      (hw_addr_size arp =? 0) || (proto_addr_size arp =? 0)
      || ((hw_addr_type arp =? 1) && negb (hw_addr_size arp =? 6))
      || ((proto_addr_type arp =? 2048) && negb (proto_addr_size arp =? 4))
  | _ => false
  end.

Definition is_ip (n : option NetSlice) : bool :=
  match n with Some (NetIpv4 _) | Some (NetIpv6 _) => true | _ => false end.

(** The verdict on an Ethernet frame that carries no IP. *)
Definition classify_non_ip (sliced : SlicedPacket) : ParseFailure :=
  if existsb opaque_macsec (link_exts sliced) then Malformed
  else if ether_type_in (payload_ether_type sliced) DECODER_KNOWN_ETHER_TYPES then Malformed
  else if ether_type_in (payload_ether_type sliced) IP_CARRYING_ENCAPSULATIONS then Malformed
  else if ether_payload_malformed (ether_payload sliced) then Malformed
  else if arp_malformed (net sliced) then Malformed
  else UnsupportedNonIp.

Fixpoint outer_vlan (exts : list LinkExtSlice) : option bytes :=
  match exts with
  | [] => None
  | ExtVlan id :: _ => Some (dec id)
  | _ :: exts' => outer_vlan exts'
  end.

Section parse.
Context `{Slicer}.

Definition parse_packet_result (data : bytes) (link_type : LinkType)
    : result ParseFailure ParsedPacket :=
  match link_type with
  | Ethernet =>
      let? sliced := ok_or (from_ethernet data) Malformed in
      if negb (is_ip (net sliced)) then Err (classify_non_ip sliced)
      else
        match link sliced with
        | Some (source, destination) =>
            ok_or (build_parsed_packet sliced (mac_to_string source) (mac_to_string destination)
                     (outer_vlan (link_exts sliced)) data) Malformed
        | None => Err Malformed
        end
  | NullLoopback =>
      let? ip_data := ok_or (slice data NULL_LOOPBACK_HEADER_LEN (zlen data)) Malformed in
      let? sliced := ok_or (from_ip ip_data) Malformed in
      ok_or (build_parsed_packet sliced NO_MAC NO_MAC None ip_data) Malformed
  | Raw =>
      let? sliced := ok_or (from_ip data) Malformed in
      ok_or (build_parsed_packet sliced NO_MAC NO_MAC None data) Malformed
  end.

Definition parse_packet (data : bytes) (link_type : LinkType) : option ParsedPacket :=
  match parse_packet_result data link_type with Ok p => Some p | Err _ => None end.
End parse.

(** ** What is relied on of the slicer *)

(** Where the payload of a packet stands in the frame. *)
Definition is_subslice (part whole : bytes) : Prop := ∃ pre post, whole = pre ++ part ++ post.

Definition sliced_payload (s : SlicedPacket) : bytes := tf_payload (transport_fields (transport s)).

(** Documented behaviour of [etherparse]: payloads are subslices of the input,
    header fields have their widths, and a fragment has no transport layer. *)
Definition sliced_ok (data : bytes) (s : SlicedPacket) : Prop :=
  is_subslice (sliced_payload s) data ∧
  match transport s with
  | Some (TransportTcp tcp) => is_u32 (tcp_sequence_number tcp)
  | _ => True
  end ∧
  match net s with
  | Some (NetIpv4 v4) =>
      is_u16 (v4_total_len v4) ∧ 0 <= v4_fragments_offset v4 <= 8191 ∧ 0 <= v4_auth_len v4 ∧
      is_subslice (v4_payload v4) data ∧
      (v4_more_fragments v4 = true ∨ v4_fragments_offset v4 ≠ 0 → transport s = None)
  | Some (NetIpv6 v6) => is_u16 (v6_payload_length v6) ∧ 0 <= v6_extensions_len v6
  | _ => True
  end.

Class SlicerLaws `{Slicer} : Prop := {
  from_ethernet_ok data s : from_ethernet data = Some s → sliced_ok data s;
  from_ip_ok data s : from_ip data = Some s → sliced_ok data s
}.

Section parse_theorems.
Context `{SlicerLaws}.

(** The bytes the packet was built from: the frame less its loopback header. *)
Definition frame_of (data : bytes) (link_type : LinkType) : bytes :=
  match link_type with NullLoopback => zdrop NULL_LOOPBACK_HEADER_LEN data | _ => data end.

Lemma subslice_length part whole : is_subslice part whole → zlen part <= zlen whole.
Proof. intros (pre & post & ->). rewrite !length_app. lia. Qed.

(** Every packet comes from a sliced frame that obeys the laws. *)
Lemma parse_packet_inv data link_type p :
  parse_packet data link_type = Some p →
  ∃ s src dst vlan, sliced_ok (frame_of data link_type) s ∧
    build_parsed_packet s src dst vlan (frame_of data link_type) = Some p.
Proof.
  unfold parse_packet, parse_packet_result. destruct link_type; cbn [frame_of].
  - destruct (from_ethernet data) as [s|] eqn:Hs; [|done]. cbn.
    destruct (negb _); [done|]. destruct (link s) as [[src dst]|]; [|done].
    destruct (build_parsed_packet _ _ _ _ _) as [q|] eqn:Hb; [|done]. intros [= <-].
    exists s. do 3 eexists. split; [by apply from_ethernet_ok|exact Hb].
  - destruct (slice data _ _) as [ip|] eqn:Hsl; [|done]. cbn.
    apply slice_Some in Hsl as (_ & _ & ->).
    replace (ztake (zlen data - NULL_LOOPBACK_HEADER_LEN) (zdrop NULL_LOOPBACK_HEADER_LEN data))
      with (zdrop NULL_LOOPBACK_HEADER_LEN data); cycle 1.
    { symmetry. unfold ztake, zdrop. apply take_ge. rewrite length_drop. lia. }
    destruct (from_ip _) as [s|] eqn:Hs; [|done]. cbn.
    destruct (build_parsed_packet _ _ _ _ _) as [q|] eqn:Hb; [|done]. intros [= <-].
    exists s. do 3 eexists. split; [by apply from_ip_ok|exact Hb].
  - destruct (from_ip _) as [s|] eqn:Hs; [|done]. cbn.
    destruct (build_parsed_packet _ _ _ _ _) as [q|] eqn:Hb; [|done]. intros [= <-].
    exists s. do 3 eexists. split; [by apply from_ip_ok|exact Hb].
Qed.

(** A decoded fragment has its fields at their widths, which is what the
    fragment reassembler asks of a frame. *)
Lemma parse_packet_fragment data link_type p :
  zlen data <= U32_MAX → parse_packet data link_type = Some p → fragment_ok p.
Proof.
  intros Hlen Hp. apply parse_packet_inv in Hp as (s & src & dst & vlan & (_ & _ & Hok) & Hb).
  unfold build_parsed_packet in Hb.
  destruct (net s) as [[v4|v6|arp]|]; cbn [net_fields] in Hb; [|by simplify_eq..|done|done].
  destruct Hok as (Ht & Ho & Ha & Hsub & _). injection Hb as <-. unfold fragment_ok. cbn.
  destruct (_ && _); [|done]. cbn.
  assert (zlen (v4_payload v4) <= zlen data).
  { apply subslice_length in Hsub. destruct link_type; cbn [frame_of] in Hsub; try done.
    rewrite length_zdrop in Hsub. lia. }
  unfold sat_sub. width. lia.
Qed.

(** Sequence numbers and payload lengths of a decoded packet are at their
    widths. *)
Lemma parse_packet_widths data link_type p :
  zlen data <= U32_MAX → parse_packet data link_type = Some p →
  (∀ seq, tcp_seq p = Some seq → is_u32 seq) ∧ zlen (payload p) <= U32_MAX.
Proof.
  intros Hlen Hp. apply parse_packet_inv in Hp as (s & src & dst & vlan & (Hsub & Hseq & _) & Hb).
  unfold build_parsed_packet in Hb. destruct (net_fields (net s)); [|done]. injection Hb as <-. cbn.
  apply subslice_length in Hsub. unfold sliced_payload in Hsub. split.
  - intros seq. destruct (transport s) as [[tcp|udp| |]|]; cbn; try done. by intros [= <-].
  - destruct link_type; cbn [frame_of] in Hsub; [lia| |lia]. rewrite length_zdrop in Hsub. lia.
Qed.

(** Every IPv4 fragment that is decoded, on any link, has its offset a
    multiple of eight within 64 KiB, carries no payload of its own, has no
    ports, and meets what the fragment reassembler requires of a frame; an
    IPv6 packet is never one. *)
Theorem parse_packet_fragment_sound data link_type p f :
  zlen data <= U32_MAX → parse_packet data link_type = Some p → ip_fragment p = Some f →
  fragment_ok p ∧ ip_version p = 4 ∧ payload p = [] ∧ src_port p = None ∧ dst_port p = None ∧
  offset_bytes f mod 8 = 0 ∧ 0 <= offset_bytes f <= 65528 ∧
  (more_fragments f = true ∨ offset_bytes f ≠ 0).
Proof.
  intros Hlen Hp Hf. split; [by eapply parse_packet_fragment|].
  apply parse_packet_inv in Hp as (s & src & dst & vlan & (_ & _ & Hok) & Hb).
  unfold build_parsed_packet in Hb.
  destruct (net s) as [[v4|v6|arp]|]; cbn [net_fields] in Hb; [|injection Hb as <-; done|done|done].
  destruct Hok as (Ht & Ho & Ha & _ & Hnt). injection Hb as <-. cbn in Hf.
  destruct (_ && _) eqn:Hfrag; [|done]. injection Hf as <-. cbn.
  apply andb_true_iff in Hfrag as [Hfrag _]. apply orb_true_iff in Hfrag.
  rewrite negb_true_iff, Z.eqb_neq in Hfrag. rewrite Hnt by (destruct Hfrag; [by left|right; lia]).
  cbn. rewrite Z.mod_mul by lia. split_and!; try done; lia.
Qed.

(** The header bytes and the payload account for every byte of the frame
    that was parsed: the former are its first bytes, as many as the payload
    leaves. *)
Theorem parse_packet_header_bytes data link_type p :
  parse_packet data link_type = Some p →
  let frame := frame_of data link_type in
  zlen (header_bytes p) + zlen (payload p) = zlen frame ∧
  is_subslice (payload p) frame ∧ header_bytes p = ztake (zlen (header_bytes p)) frame.
Proof.
  intros Hp. apply parse_packet_inv in Hp as (s & src & dst & vlan & (Hsub & _) & Hb). cbn zeta.
  unfold build_parsed_packet in Hb. destruct (net_fields (net s)); [|done]. injection Hb as <-.
  pose proof (subslice_length _ _ Hsub). unfold sliced_payload in *. cbn.
  split_and!; [rewrite length_ztake; lia|done|].
  rewrite length_ztake. f_equal. lia.
Qed.

(** Bytes that follow the payload in the frame (Ethernet padding) are
    taken from it: the header bytes then run past the start of the payload by
    as many bytes as follow it. *)
Theorem header_bytes_include_padding data p pre post :
  parse_packet data Ethernet = Some p → data = pre ++ payload p ++ post →
  header_bytes p = ztake (zlen pre + zlen post) data.
Proof.
  intros Hp Hd. unfold parse_packet, parse_packet_result in Hp.
  destruct (from_ethernet data) as [s|]; [|done]. cbn in Hp.
  destruct (negb _); [done|]. destruct (link s) as [[src dst]|]; [|done].
  unfold build_parsed_packet in Hp. destruct (net_fields (net s)); [|done]. injection Hp as <-.
  cbn in *. f_equal. rewrite Hd at 1. rewrite !length_app. lia.
Qed.

(** Only an Ethernet frame that the slicer accepts and that holds no IP is
    reported as unsupported rather than malformed, and never one whose content
    might be IP: no opaque MACsec, no EtherType the decoder knows or that
    carries IP, no cut or reserved length, no inconsistent ARP. *)
Theorem unsupported_non_ip_sound data link_type :
  parse_packet_result data link_type = Err UnsupportedNonIp →
  link_type = Ethernet ∧
  ∃ s, from_ethernet data = Some s ∧ is_ip (net s) = false ∧
    Forall (λ e, opaque_macsec e = false) (link_exts s) ∧
    (∀ kind, payload_ether_type s = Some kind →
       (kind ∉ DECODER_KNOWN_ETHER_TYPES) ∧ (kind ∉ IP_CARRYING_ENCAPSULATIONS)) ∧
    (∀ kind rest, ether_payload s = Some (kind, rest) →
       (1500 < kind ∨ kind <= zlen rest) ∧ (kind < 1501 ∨ 1535 < kind)) ∧
    (∀ arp, net s = Some (NetArp arp) → hw_addr_size arp ≠ 0 ∧ proto_addr_size arp ≠ 0).
Proof.
  intros Hr. unfold parse_packet_result in Hr. destruct link_type.
  2: { destruct (slice _ _ _); [|done]. cbn in Hr. destruct (from_ip _); [|done]. cbn in Hr.
       by destruct (build_parsed_packet _ _ _ _ _). }
  2: { destruct (from_ip _); [|done]. cbn in Hr. by destruct (build_parsed_packet _ _ _ _ _). }
  split; [done|]. destruct (from_ethernet data) as [s|]; [|done]. exists s. split; [done|].
  cbn in Hr. destruct (is_ip (net s)) eqn:Hip; cbn in Hr.
  { destruct (link s) as [[? ?]|]; [|done]. by destruct (build_parsed_packet _ _ _ _ _). }
  split; [done|]. injection Hr as Hr. unfold classify_non_ip in Hr.
  destruct (existsb _ _) eqn:H1; [done|]. destruct (ether_type_in _ DECODER_KNOWN_ETHER_TYPES) eqn:H2; [done|].
  destruct (ether_type_in _ IP_CARRYING_ENCAPSULATIONS) eqn:H3; [done|].
  destruct (ether_payload_malformed _) eqn:H4; [done|]. destruct (arp_malformed _) eqn:H5; [done|].
  split_and!.
  - apply Forall_forall. intros e He. destruct (opaque_macsec e) eqn:Ho; [|done].
    assert (existsb opaque_macsec (link_exts s) = true); [|congruence].
    apply existsb_exists. exists e. split; [by apply list_elem_of_In|done].
  - intros kind Hk. unfold ether_type_in in H2, H3. rewrite Hk in H2, H3.
    by rewrite !bool_decide_eq_false in *.
  - intros kind rest Hk. unfold ether_payload_malformed in H4. rewrite Hk in H4.
    apply orb_false_iff in H4 as [[H6 H7]%orb_false_iff _].
    apply andb_false_iff in H6, H7. rewrite ?Z.leb_gt, ?Z.ltb_ge in *. lia.
  - intros arp Ha. unfold arp_malformed in H5. rewrite Ha in H5.
    apply orb_false_iff in H5 as [[[H6 H7]%orb_false_iff _]%orb_false_iff _].
    by rewrite !Z.eqb_neq in *.
Qed.
End parse_theorems.

(** ** Witnesses *)

(** A padded TCP frame with one payload byte, an IPv4 fragment, and an LLDP
    frame, with the slices [etherparse] gives for them. *)
Definition sample_tcp_head : bytes := zreplicate 54 7.
Definition sample_eth_frame : bytes := sample_tcp_head ++ [65] ++ [0; 0; 0; 0; 0].
Definition sample_eth_slice : SlicedPacket :=
  mkSlicedPacket (Some (zreplicate 6 1, zreplicate 6 2)) []
    (Some (NetIpv4 (mkIpv4Slice (zreplicate 20 7) 0 41 0 false 9 6 [10; 0; 0; 1] [10; 0; 0; 2] 64 0
                      (zreplicate 20 7 ++ [65]))))
    (Some (TransportTcp (mkTcpSlice 5000 80 (mkTcpFlags false true false false 100 1) 77 [65] 20)))
    (Some 2048) None.

Definition sample_ip_fragment : bytes := zreplicate 20 7 ++ lit "12345678".
Definition sample_fragment_slice : SlicedPacket :=
  mkSlicedPacket None []
    (Some (NetIpv4 (mkIpv4Slice (zreplicate 20 7) 0 28 1 true 9 17 [10; 0; 0; 1] [10; 0; 0; 2] 64 0
                      (lit "12345678"))))
    None None None.

Definition sample_lldp : bytes := zreplicate 14 9 ++ [2; 7].
Definition sample_lldp_slice : SlicedPacket :=
  mkSlicedPacket (Some (zreplicate 6 9, zreplicate 6 9)) [] None None (Some 35020) (Some (35020, [2; 7])).

Definition sample_slicer : Slicer := {|
  from_ethernet data :=
    if bool_decide (data = sample_eth_frame) then Some sample_eth_slice
    else if bool_decide (data = sample_lldp) then Some sample_lldp_slice else None;
  from_ip data := if bool_decide (data = sample_ip_fragment) then Some sample_fragment_slice else None
|}.

Lemma subslice_intro pre part post : is_subslice part (pre ++ part ++ post).
Proof. by exists pre, post. Qed.

Lemma sample_slicer_laws : SlicerLaws (H := sample_slicer).
Proof.
  split; intros data s; cbn.
  - case_bool_decide as He; [|case_bool_decide as Hl; [|done]]; intros [= <-]; subst data.
    + split; [exists sample_tcp_head, [0; 0; 0; 0; 0]; done|]. cbn. split; [zlia|].
      split_and!; try zlia.
      exists (zreplicate 34 7), [0; 0; 0; 0; 0]. by vm_compute.
    + split; [exists [], sample_lldp; done|]. done.
  - case_bool_decide as He; [|done]. intros [= <-]; subst data.
    split; [exists [], sample_ip_fragment; done|]. split; [done|]. cbn. split_and!; try zlia; [|done].
    exists (zreplicate 20 7), []. by vm_compute.
Qed.

Definition sample_parsed_fragment : option ParsedPacket :=
  parse_packet (H := sample_slicer) sample_ip_fragment Raw.

Lemma parse_packet_fragment_sound_witness :
  ∃ p f, sample_parsed_fragment = Some p ∧ ip_fragment p = Some f ∧ payload p = [] ∧
    offset_bytes f mod 8 = 0.
Proof.
  eexists _, _. split; [vm_compute; reflexivity|]. split; [reflexivity|].
  pose proof (parse_packet_fragment_sound (H := sample_slicer) (H0 := sample_slicer_laws)
                sample_ip_fragment Raw _ _ ltac:(by vm_compute) eq_refl eq_refl)
    as (_ & _ & Hp & _ & _ & Hm & _).
  split; [exact Hp|exact Hm].
Defined.

Definition sample_parsed_tcp : option ParsedPacket :=
  parse_packet (H := sample_slicer) sample_eth_frame Ethernet.

Lemma parse_packet_header_bytes_witness :
  ∃ p, sample_parsed_tcp = Some p ∧ zlen (header_bytes p) + zlen (payload p) = 60.
Proof.
  eexists. split; [vm_compute; reflexivity|].
  eapply (parse_packet_header_bytes (H := sample_slicer) (H0 := sample_slicer_laws)
            sample_eth_frame Ethernet).
  vm_compute. reflexivity.
Defined.

(** The five bytes of padding make five bytes too many. *)
Lemma header_bytes_include_padding_witness :
  ∃ p, sample_parsed_tcp = Some p ∧ payload p = [65] ∧
    header_bytes p = ztake 59 sample_eth_frame ∧ zlen sample_tcp_head = 54.
Proof.
  eexists. split; [vm_compute; reflexivity|]. split; [reflexivity|]. split; [|by vm_compute].
  eapply (header_bytes_include_padding (H := sample_slicer)
            sample_eth_frame _ sample_tcp_head [0; 0; 0; 0; 0]); vm_compute; reflexivity.
Defined.

Lemma unsupported_non_ip_sound_witness :
  ∃ s, from_ethernet (Slicer := sample_slicer) sample_lldp = Some s ∧ is_ip (net s) = false.
Proof.
  destruct (unsupported_non_ip_sound (H := sample_slicer) sample_lldp Ethernet) as (_ & s & H1 & H2 & _);
    [by vm_compute|]. by exists s.
Defined.
