(* ===== verification/Sniff.v ===== *)
(** * The capture loop's reassembler

    [StreamReassembler] of [capture-agent/src/reassembly.rs]: both
    reassemblers, the DNS-over-TCP boundary table and the capture-truncation
    signal behind one operation, [sniff_with_flow_resolver], which turns a
    decoded frame into an application-layer verdict. *)

From S2P Require Import Prelude Budget Coverage Packet Text Fragments TcpSegments DnsFraming.
From S2P Require Import L7Dns L7Tls L7 Parse.

Definition CUT_ATTRIBUTION_WINDOW_MS : Z := 5000.

Record SniffOutcome := mkSniffOutcome {
  so_info : L7Info;
  so_status : option ReassemblyStatus;
  need_more_bytes : option Z;
  reassembled_packet : option ParsedPacket
}.

Definition no_outcome : SniffOutcome := mkSniffOutcome L7None None None None.

(** A verdict reached without reassembly, or on a buffer of the given status. *)
Definition outcome_of (status : option ReassemblyStatus) (s : L7Sniff) : SniffOutcome :=
  match s with
  | Decided info => mkSniffOutcome info status None None
  | NeedMoreBytes at_least => mkSniffOutcome L7None status (Some at_least) None
  | Undecided => mkSniffOutcome L7None status None None
  end.

Definition is_dns_info (info : L7Info) : bool :=
  match info with L7Dns _ _ _ | L7DnsResponse _ _ _ _ _ _ => true | _ => false end.

Module StreamReassembler.

Record t := mk {
  fragments : IpFragmentReassembler.t;
  segments : TcpReassembler.t;
  last_frame_cut_at_ms : option Z;
  frames_cut_at_snaplen : Z;
  last_evict_ms : Z;
  dns_framing : DnsTcpFraming.t
}.
#[global] Instance eta : RecordEta t := λ r,
  mk (fragments r) (segments r) (last_frame_cut_at_ms r) (frames_cut_at_snaplen r)
     (last_evict_ms r) (dns_framing r).

Definition new : t := mk IpFragmentReassembler.new TcpReassembler.new None 0 0 DnsTcpFraming.new.

Definition reset (st : t) : t :=
  st <| fragments ::= IpFragmentReassembler.clear |> <| segments ::= TcpReassembler.clear |>
     <| dns_framing := ∅ |> <| last_frame_cut_at_ms := None |>.

Definition dns_framing_len (st : t) : Z := Z.of_nat (size (dns_framing st)).

Definition bytes_held (st : t) : Z :=
  IpFragmentReassembler.bytes_held (fragments st) + TcpReassembler.bytes_held (segments st).

Definition note_frame_cut_at_snaplen (st : t) (now_ms : Z) : t :=
  st <| frames_cut_at_snaplen ::= Z.succ |> <| last_frame_cut_at_ms := Some now_ms |>.

Definition attribute (st : t) (status : ReassemblyStatus) (now_ms : Z) : ReassemblyStatus :=
  if bool_decide (status ≠ IncompleteMissingFrames) then status
  else
    match last_frame_cut_at_ms st with
    | Some cut_ms =>
        if sat_sub now_ms cut_ms <=? CUT_ATTRIBUTION_WINDOW_MS
        then IncompleteTruncatedAtCapture else status
    | None => status
    end.

Definition drop_flow (st : t) (flow : FlowKey) : t :=
  st <| segments ::= λ s, TcpReassembler.drop_flow s flow |>
     <| dns_framing ::= λ f, DnsTcpFraming.drop_flow f flow |>.

Section operations.
Context `{VecPolicy} `{IterOrder} `{Ipv4Codec} `{Md5} `{Slicer}.

Definition maybe_evict (st : t) (now_ms : Z) : t :=
  if sat_sub now_ms (last_evict_ms st) <? 1000 then st
  else
    st <| last_evict_ms := now_ms |>
       <| fragments ::= λ f, (IpFragmentReassembler.evict_stale f now_ms).1 |>
       <| segments ::= λ s, TcpReassembler.evict_stale s now_ms |>
       <| dns_framing ::= λ f, DnsTcpFraming.evict_stale f now_ms |>.

(** The direction a packet can be desegmented on, with its sequence number. *)
Definition stream_target (packet : ParsedPacket) (flow : option (FlowKey * bool))
    : option (TcpStreamKey * Z) :=
  match flow, tcp_seq packet with
  | Some (flow_key, local), Some seq =>
      if bool_decide (protocol packet = Tcp) then Some (mkTcpStreamKey flow_key local, seq) else None
  | _, _ => None
  end.

Definition sniff_packet (bs : bytes) (packet : ParsedPacket) : L7Sniff :=
  sniff_for_transport bs (protocol packet) (src_port packet) (dst_port packet).

Definition is_syn (packet : ParsedPacket) : bool :=
  match tcp_flags packet with Some flags => syn flags | None => false end.

(** The DNS-over-TCP screen before anything is sniffed: the table, and whether
    the segment is inside a message already seen. *)
Definition dns_screen (st : t) (packet : ParsedPacket) (key : TcpStreamKey) (seq : Z)
    (response_only : bool) (now_ms : Z) : t * bool :=
  if is_syn packet then (st <| dns_framing ::= λ f, DnsTcpFraming.forget f key |>, false)
  else if negb (TcpReassembler.has_buffer (segments st) key) then
    let '(framing, skipped) :=
      DnsTcpFraming.skip_inside_message (dns_framing st) key seq (payload packet) response_only now_ms in
    (st <| dns_framing := framing |>, skipped)
  else (st, false).

(** What a buffer that changed says about DNS message boundaries. *)
Definition note_buffer (st : t) (packet : ParsedPacket) (key : TcpStreamKey) (seq : Z)
    (response_only : bool) (sniffed : L7Sniff) (status : ReassemblyStatus) (now_ms : Z) : t :=
  match TcpReassembler.base_seq (segments st) key with
  | None => st
  | Some base_seq =>
      let prefix := TcpReassembler.prefix (segments st) key in
      let at_cap := MAX_TCP_STREAM_BYTES <=? zlen prefix in
      let other_protocol :=
        match sniffed with Decided info => negb (is_dns_info info) | _ => false end in
      let framing :=
        DnsTcpFraming.record_message (dns_framing st) key base_seq prefix other_protocol
          response_only now_ms in
      let framing :=
        if at_cap
        then (DnsTcpFraming.skip_inside_message framing key seq (payload packet) response_only now_ms).1
        else framing in
      let st := st <| dns_framing := framing |> in
      match sniffed with
      | Undecided =>
          if DnsTcpFraming.covers_first_message framing key base_seq prefix
          then st <| segments ::= λ s, TcpReassembler.finish s key status |> else st
      | _ => st
      end
  end.

(** A segment that goes through the buffer of its direction. *)
Definition sniff_buffered (st : t) (packet : ParsedPacket) (key : TcpStreamKey) (seq : Z)
    (dns_tcp response_only : bool) (now_ms : Z) : t * SniffOutcome :=
  let declared := sat_sub (ip_declared_payload_len packet) (transport_header_len packet) in
  let '(segs, fed) := TcpReassembler.feed (segments st) key seq (payload packet) declared now_ms in
  let st := st <| segments := segs |> in
  match fed with
  | None =>
      (if dns_tcp then
         st <| dns_framing ::= λ f, DnsTcpFraming.note_consumed f key seq (payload packet) response_only now_ms |>
       else st, no_outcome)
  | Some raw_status =>
      let status := attribute st raw_status now_ms in
      let sniffed := sniff_packet (TcpReassembler.prefix (segments st) key) packet in
      let st := if dns_tcp then note_buffer st packet key seq response_only sniffed status now_ms else st in
      let st :=
        match sniffed with
        | Decided _ => st <| segments ::= λ s, TcpReassembler.finish s key status |>
        | _ => st
        end in
      (st, outcome_of (Some status) sniffed)
  end.

(** A packet that is not a fragment. *)
Definition sniff_whole (st : t) (packet : ParsedPacket) (flow : option (FlowKey * bool)) (now_ms : Z)
    : t * SniffOutcome :=
  let dns_tcp := is_dns_over_tcp (protocol packet) (src_port packet) (dst_port packet) in
  let response_only := dns_tcp && bool_decide (dst_port packet ≠ Some 53) in
  match stream_target packet flow with
  | None => (st, outcome_of None (sniff_packet (payload packet) packet))
  | Some (key, seq) =>
      let '(st, skipped) :=
        if dns_tcp then dns_screen st packet key seq response_only now_ms else (st, false) in
      if skipped then (st, no_outcome)
      else
        let own := sniff_packet (payload packet) packet in
        match own with
        | Decided info =>
            if negb (TcpReassembler.has_buffer (segments st) key) then
              (if dns_tcp then
                 st <| dns_framing ::= λ f, DnsTcpFraming.record_message f key seq (payload packet)
                                              (negb (is_dns_info info)) response_only now_ms |>
               else st, mkSniffOutcome info None None None)
            else sniff_buffered st packet key seq dns_tcp response_only now_ms
        | _ => sniff_buffered st packet key seq dns_tcp response_only now_ms
        end
  end.

(** [sniff_inner]; the outer option is the fuel for a datagram rebuilt into
    another fragment. *)
Fixpoint sniff_inner (fuel : nat) (st : t) (packet : ParsedPacket) (flow : option (FlowKey * bool))
    (now_ms : Z) (resolve_flow : ParsedPacket → option (FlowKey * bool)) : option (t * SniffOutcome) :=
  match fuel with
  | O => None
  | S fuel' =>
      if bool_decide (ip_fragment packet = None) then Some (sniff_whole st packet flow now_ms)
      else
        let '(frags, fed) := IpFragmentReassembler.feed (fragments st) packet now_ms in
        let st := st <| fragments := frags |> in
        match fed with
        | None => Some (st, no_outcome)
        | Some datagram =>
            let status := attribute st (dg_status datagram) now_ms in
            let rejoined := parse_packet (dg_bytes datagram) Raw in
            let inner :=
              match rejoined with
              | None => Some (st, no_outcome)
              | Some p => sniff_inner fuel' st p (resolve_flow p) now_ms resolve_flow
              end in
            match inner with
            | None => None
            | Some (st, tcp_outcome) =>
                let combined :=
                  if bool_decide (status ≠ Reassembled) then Some status
                  else match so_status tcp_outcome with Some s => Some s | None => Some status end in
                Some (st, mkSniffOutcome (so_info tcp_outcome) combined
                            (need_more_bytes tcp_outcome) rejoined)
            end
        end
  end.

(** A rebuilt datagram is not a fragment: two levels are enough. *)
Definition sniff_fuel : nat := 2.

Definition sniff_with_flow_resolver (st : t) (packet : ParsedPacket)
    (flow : option (FlowKey * bool)) (now_ms : Z)
    (resolve_flow : ParsedPacket → option (FlowKey * bool)) : t * SniffOutcome :=
  default (st, no_outcome) (sniff_inner sniff_fuel st packet flow now_ms resolve_flow).

Definition sniff (st : t) (packet : ParsedPacket) (flow : option (FlowKey * bool)) (now_ms : Z)
    : t * SniffOutcome :=
  sniff_with_flow_resolver st packet flow now_ms (λ _, None).
End operations.

End StreamReassembler.

(** ** Laws of the header codec

    Documented behaviour of [etherparse]: a header is at most 60 bytes, a
    payload that does not fit is refused, and slicing what was written gives
    back the fragment fields that were set. *)
Class Ipv4CodecLaws `{Ipv4Codec} `{Slicer} : Prop := {
  ipv4_write_len h out : ipv4_write h = Some out → zlen out <= 60;
  ipv4_set_payload_len_max n h h' : ipv4_set_payload_len n h = Some h' → n <= U16_MAX;
  ipv4_write_from_ip h h' n c out payload s v4 :
    ipv4_set_payload_len n (ipv4_with_fragment_offset 0 (ipv4_with_more_fragments false h)) = Some h' →
    ipv4_write (ipv4_with_header_checksum c h') = Some out →
    from_ip (out ++ payload) = Some s → net s = Some (NetIpv4 v4) →
    v4_more_fragments v4 = false ∧ v4_fragments_offset v4 = 0
}.

(** What a frame must satisfy, and what [parse_packet] gives. *)
Definition packet_ok (p : ParsedPacket) : Prop :=
  fragment_ok p ∧ (∀ seq, tcp_seq p = Some seq → is_u32 seq) ∧ zlen (payload p) <= U32_MAX.

Definition sniff_inv (st : StreamReassembler.t) : Prop :=
  (frag_inv (StreamReassembler.fragments st) ∧ frag_bounded (StreamReassembler.fragments st)) ∧
  (tcp_inv (StreamReassembler.segments st) ∧ tcp_bounded (StreamReassembler.segments st)) ∧
  framing_bounded (StreamReassembler.dns_framing st).

(** The operations the capture loop applies, in any order. *)
Inductive sniff_step `{VecPolicy} `{IterOrder} `{Ipv4Codec} `{Md5} `{Slicer} :
    StreamReassembler.t → StreamReassembler.t → Prop :=
| sniff_step_sniff st p flow now resolve :
    packet_ok p →
    sniff_step st (StreamReassembler.sniff_with_flow_resolver st p flow now resolve).1
| sniff_step_evict st now : sniff_step st (StreamReassembler.maybe_evict st now)
| sniff_step_drop_flow st flow : sniff_step st (StreamReassembler.drop_flow st flow)
| sniff_step_note_cut st now : sniff_step st (StreamReassembler.note_frame_cut_at_snaplen st now)
| sniff_step_reset st : sniff_step st (StreamReassembler.reset st).

Section sniff_lemmas.
Context `{VecPolicy} `{IterOrder} `{Ipv4Codec} `{Md5} `{Slicer} `{!SlicerLaws} `{!Ipv4CodecLaws}.
Import StreamReassembler.

Lemma parse_packet_ok data link_type p :
  zlen data <= U32_MAX → parse_packet data link_type = Some p → packet_ok p.
Proof.
  intros Hl Hp. split; [by eapply parse_packet_fragment|by eapply parse_packet_widths].
Qed.

(** What the fragment reassembler emits was rebuilt from a header. *)
Lemma feed_emits_rebuilt st p now st' d :
  IpFragmentReassembler.feed st p now = (st', Some d) →
  ∃ header payload, rebuild_ipv4_datagram header payload = Some (dg_bytes d).
Proof.
  unfold IpFragmentReassembler.feed. destruct (ip_fragment p) as [f|]; [|done].
  destruct (IpFragmentReassembler.terminal_conflict _ _ _); [done|].
  destruct (IpFragmentReassembler.absorb _ _ _) as [g w].
  assert (Htake : ∀ x k s y d', IpFragmentReassembler.take_group x k s = (y, Some d') →
            ∃ header payload, rebuild_ipv4_datagram header payload = Some (dg_bytes d')).
  { intros x k s y d'. unfold IpFragmentReassembler.take_group.
    destruct (_ !! k) as [gr|]; [|done]. intros [= _ Hd].
    destruct (FragmentGroup.header gr) as [h|]; [|done]. cbn in Hd.
    destruct (slice _ _ _) as [pl|]; [|done]. cbn in Hd.
    destruct (rebuild_ipv4_datagram h pl) as [bs|] eqn:Hr; [|done]. cbn in Hd.
    injection Hd as <-. by exists h, pl. }
  destruct (FragmentGroup.status g); [| |done];
    destruct (IpFragmentReassembler.take_group _ _ _) as [y e] eqn:Ht; intros [= <- ->];
    by eapply Htake.
Qed.

Lemma rebuilt_length header payload out :
  rebuild_ipv4_datagram header payload = Some out → zlen out <= U32_MAX.
Proof.
  unfold rebuild_ipv4_datagram. destruct (ipv4_from_slice header) as [h|]; [|done]. cbn.
  destruct (ipv4_set_payload_len _ _) as [h'|] eqn:Hs; [|done]. cbn.
  destruct (ipv4_write _) as [w|] eqn:Hw; [|done]. intros [= <-].
  apply ipv4_set_payload_len_max in Hs. apply ipv4_write_len in Hw.
  rewrite length_app. width. lia.
Qed.

(** A rebuilt datagram does not parse as a fragment. *)
Lemma rebuilt_not_fragment header payload out p :
  rebuild_ipv4_datagram header payload = Some out → parse_packet out Raw = Some p →
  ip_fragment p = None.
Proof.
  unfold rebuild_ipv4_datagram. destruct (ipv4_from_slice header) as [h|]; [|done]. cbn.
  destruct (ipv4_set_payload_len _ _) as [h'|] eqn:Hs; [|done]. cbn.
  destruct (ipv4_write _) as [w|] eqn:Hw; [|done]. intros [= <-].
  unfold parse_packet, parse_packet_result.
  destruct (from_ip (w ++ payload)) as [s|] eqn:Hf; [|done]. cbn.
  unfold build_parsed_packet. destruct (net s) as [[v4|v6|arp]|] eqn:Hn; cbn; try done.
  - destruct (ipv4_write_from_ip _ _ _ _ _ _ _ _ Hs Hw Hf Hn) as [-> ->]. by intros [= <-].
  - by intros [= <-].
Qed.

(** *** Invariants *)

Lemma framing_steps_bounded fr fr' : rtc framing_step fr fr' → framing_bounded fr → framing_bounded fr'.
Proof. induction 1 as [|x y z Hs _ IH]; [done|]. intros Hb. by apply IH, (framing_step_bounded x). Qed.

Lemma with_framing st fr :
  sniff_inv st → framing_step (dns_framing st) fr → sniff_inv (st <| dns_framing := fr |>).
Proof.
  intros (Hf & Ht & Hd) Hs. split; [exact Hf|]. split; [exact Ht|].
  exact (framing_step_bounded _ _ Hs Hd).
Qed.

Lemma with_segments st segs :
  sniff_inv st → tcp_step (segments st) segs → sniff_inv (st <| segments := segs |>).
Proof.
  intros (Hf & Ht & Hd) Hs. split; [exact Hf|]. split; [|exact Hd]. exact (tcp_step_inv _ _ Hs Ht).
Qed.

Lemma dns_screen_inv st p key seq ro now :
  sniff_inv st → sniff_inv (dns_screen st p key seq ro now).1.
Proof.
  intros Hi. unfold dns_screen. destruct (is_syn p); [apply with_framing; [done|constructor]|].
  destruct (negb _); [|done].
  pose proof (framing_skip (dns_framing st) key seq (payload p) ro now) as Hs.
  destruct (DnsTcpFraming.skip_inside_message _ _ _ _ _ _) as [fr b]. by apply with_framing.
Qed.

Lemma note_buffer_inv st p key seq ro sniffed status now :
  sniff_inv st → sniff_inv (note_buffer st p key seq ro sniffed status now).
Proof.
  intros Hi. unfold note_buffer. destruct (TcpReassembler.base_seq _ _) as [b|]; [|done].
  set (fr1 := DnsTcpFraming.record_message _ _ _ _ _ _ _).
  assert (Hi1 : sniff_inv (st <| dns_framing := fr1 |>)) by (apply with_framing; [done|constructor]).
  set (fr2 := if MAX_TCP_STREAM_BYTES <=? _ then _ else fr1).
  assert (Hi2 : sniff_inv (st <| dns_framing := fr2 |>)).
  { unfold fr2. destruct (_ <=? _); [|exact Hi1].
    exact (with_framing _ _ Hi1 (framing_skip fr1 key seq (payload p) ro now)). }
  destruct sniffed; try exact Hi2. destruct (DnsTcpFraming.covers_first_message _ _ _ _); [|exact Hi2].
  exact (with_segments _ _ Hi2 (tcp_step_finish _ key status)).
Qed.

Lemma sniff_buffered_inv st p key seq dns ro now :
  sniff_inv st → is_u32 seq → zlen (payload p) <= U32_MAX →
  sniff_inv (sniff_buffered st p key seq dns ro now).1.
Proof.
  intros Hi Hs Hl. unfold sniff_buffered. set (declared := sat_sub _ _).
  pose proof (tcp_step_feed (segments st) key seq (payload p) declared now Hs Hl) as Hf.
  destruct (TcpReassembler.feed _ _ _ _ _ _) as [segs fed]. apply (with_segments _ _ Hi) in Hf.
  cbn [fst] in Hf. destruct fed as [raw|].
  - set (st1 := st <| segments := segs |>) in *. set (sniffed := sniff_packet _ _).
    set (status := attribute _ _ _). cbn [fst].
    set (st2 := if dns then note_buffer _ _ _ _ _ _ _ _ else st1).
    assert (Hi2 : sniff_inv st2) by (unfold st2; destruct dns; [by apply note_buffer_inv|done]).
    destruct sniffed; try exact Hi2. exact (with_segments _ _ Hi2 (tcp_step_finish _ key status)).
  - cbn [fst]. destruct dns; [|exact Hf].
    exact (with_framing _ _ Hf (framing_consumed _ key seq (payload p) ro now)).
Qed.

Lemma sniff_whole_inv st p flow now :
  sniff_inv st → packet_ok p → sniff_inv (sniff_whole st p flow now).1.
Proof.
  intros Hi (_ & Hseq & Hl). unfold sniff_whole.
  destruct (stream_target p flow) as [[key seq]|] eqn:Ht; [|done].
  assert (Hs : is_u32 seq).
  { unfold stream_target in Ht. destruct flow as [[fk loc]|]; [|done].
    destruct (tcp_seq p) as [q|] eqn:Hq; [|done]. destruct (bool_decide _); [|done].
    injection Ht as _ <-. by apply Hseq. }
  set (dns := is_dns_over_tcp _ _ _). set (ro := dns && _).
  destruct (if dns then dns_screen _ _ _ _ _ _ else _) as [st1 skipped] eqn:Hst1.
  assert (Hi1 : sniff_inv st1).
  { destruct dns; [|by injection Hst1 as <- _].
    pose proof (dns_screen_inv st p key seq ro now Hi) as Hd. rewrite Hst1 in Hd. done. }
  destruct skipped; [exact Hi1|].
  destruct (sniff_packet (payload p) p) as [info| |]; [|by apply sniff_buffered_inv..].
  destruct (negb _); [|by apply sniff_buffered_inv]. cbn [fst].
  destruct dns; [|exact Hi1].
  exact (with_framing _ _ Hi1 (framing_message _ key seq (payload p) _ ro now)).
Qed.

Lemma sniff_inner_inv fuel st p flow now resolve st' o :
  sniff_inv st → packet_ok p →
  sniff_inner fuel st p flow now resolve = Some (st', o) → sniff_inv st'.
Proof.
  revert st p flow st' o. induction fuel as [|fuel IH]; intros st p flow st' o Hi Hp; [done|].
  cbn [sniff_inner]. case_bool_decide.
  - intros [= Hw]. pose proof (sniff_whole_inv st p flow now Hi Hp) as Hr. by rewrite Hw in Hr.
  - destruct (IpFragmentReassembler.feed (fragments st) p now) as [frags fed] eqn:Hfeed.
    assert (Hi1 : sniff_inv (st <| fragments := frags |>)).
    { destruct Hi as (Hf & Ht & Hd). split; [|split; [exact Ht|exact Hd]].
      pose proof (frag_step_inv _ _ (step_feed _ p now (proj1 Hp)) Hf) as Hr.
      by rewrite Hfeed in Hr. }
    destruct fed as [d|]; [|by intros [= <- _]].
    destruct (feed_emits_rebuilt _ _ _ _ _ Hfeed) as (h & pl & Hreb).
    destruct (parse_packet (dg_bytes d) Raw) as [q|] eqn:Hq; [|by intros [= <- _]].
    destruct (sniff_inner fuel _ q _ _ _) as [[st2 o2]|] eqn:Hrec; [|done]. intros [= <- _].
    eapply IH; [exact Hi1| |exact Hrec]. eapply parse_packet_ok; [|exact Hq].
    by eapply rebuilt_length.
Qed.

Lemma sniff_inner_fuel st p flow now resolve :
  is_Some (sniff_inner sniff_fuel st p flow now resolve).
Proof.
  unfold sniff_fuel. cbn [sniff_inner]. case_bool_decide; [done|].
  destruct (IpFragmentReassembler.feed (fragments st) p now) as [frags [d|]] eqn:Hfeed; [|done].
  destruct (feed_emits_rebuilt _ _ _ _ _ Hfeed) as (h & pl & Hreb).
  destruct (parse_packet (dg_bytes d) Raw) as [q|] eqn:Hq; [|done].
  rewrite bool_decide_true by exact (rebuilt_not_fragment _ _ _ _ Hreb Hq).
  destruct (sniff_whole _ _ _ _). done.
Qed.

Lemma sniff_step_inv st st' : sniff_step st st' → sniff_inv st → sniff_inv st'.
Proof.
  intros [? p flow now resolve Hp|? now|? flow|? now|?] Hi.
  - unfold sniff_with_flow_resolver.
    destruct (sniff_inner _ _ _ _ _ _) as [[st2 o]|] eqn:Hs; [|done].
    by eapply sniff_inner_inv.
  - unfold maybe_evict. case_zb; [done|]. destruct Hi as (Hf & Ht & Hd).
    split; [exact (frag_step_inv _ _ (step_evict_stale _ now) Hf)|].
    split; [exact (tcp_step_inv _ _ (tcp_step_evict_stale _ now) Ht)|].
    exact (framing_step_bounded _ _ (framing_evict _ now) Hd).
  - destruct Hi as (Hf & Ht & Hd). split; [exact Hf|].
    split; [exact (tcp_step_inv _ _ (tcp_step_drop_flow _ flow) Ht)|].
    exact (framing_step_bounded _ _ (framing_drop_flow _ flow) Hd).
  - exact Hi.
  - destruct Hi as (Hf & Ht & Hd).
    split; [exact (frag_step_inv _ _ (step_clear _) Hf)|].
    split; [exact (tcp_step_inv _ _ (tcp_step_clear _) Ht)|]. done.
Qed.
End sniff_lemmas.

(** ** Theorems *)

Section sniff_theorems.
Context `{VecPolicy} `{IterOrder} `{Ipv4Codec} `{Md5} `{Slicer} `{!SlicerLaws} `{!Ipv4CodecLaws}.
Import StreamReassembler.

(** Whatever frames, sweeps, flow drops and resets the capture loop
    applies, in any order, everything reassembly holds stays within fixed
    ceilings: 8 MiB of buffers, 512 fragment groups, 2048 TCP directions and
    2048 recorded DNS boundaries. *)
Theorem sniff_reachable_bounded (st : t) :
  rtc sniff_step new st →
  0 <= bytes_held st <= 8388608 ∧
  IpFragmentReassembler.groups_held (fragments st) <= 512 ∧
  TcpReassembler.streams_held (segments st) <= 2048 ∧ dns_framing_len st <= 2048.
Proof.
  intros Hr. assert (Hi : sniff_inv st).
  { apply (rtc_ind_r (R := sniff_step) sniff_inv new); [| |done].
    - split; [apply frag_new_inv|]. split; [apply tcp_new_inv|done].
    - intros x y _ Hs Hx. by apply (sniff_step_inv x y). }
  destruct Hi as ((Hf & Hf1 & Hf2) & (Ht & Ht1 & Ht2) & Hd).
  pose proof (accounts_nonneg _ _ (proj1 Hf)). pose proof (accounts_nonneg _ _ (proj1 Ht)).
  unfold bytes_held. split; [|split; [exact Hf1|split; [exact Ht1|exact Hd]]].
  assert (MAX_FRAGMENT_BYTES_TOTAL = 4194304 ∧ MAX_TCP_BYTES_TOTAL = 4194304) by done. lia.
Qed.

(** Sniffing a frame always returns: a datagram rebuilt from fragments is
    itself never taken for a fragment, so the parser is re-entered once. *)
Theorem sniff_terminates (st : t) (packet : ParsedPacket) flow now resolve :
  is_Some (sniff_inner sniff_fuel st packet flow now resolve) ∧
  sniff_inner sniff_fuel st packet flow now resolve =
    Some (sniff_with_flow_resolver st packet flow now resolve).
Proof.
  pose proof (sniff_inner_fuel st packet flow now resolve) as [r Hr].
  unfold sniff_with_flow_resolver. by rewrite Hr.
Qed.

Lemma sniff_whole_eq st p flow now resolve :
  ip_fragment p = None →
  sniff_with_flow_resolver st p flow now resolve = sniff_whole st p flow now.
Proof.
  intros Hp. unfold sniff_with_flow_resolver, sniff_fuel. cbn [sniff_inner].
  by rewrite bool_decide_true.
Qed.

(** A frame that cannot be desegmented (no flow, no sequence number, or
    not TCP) changes nothing, and its verdict is that of its own payload. *)
Theorem sniff_unattributed (st : t) (packet : ParsedPacket) flow now resolve :
  ip_fragment packet = None → stream_target packet flow = None →
  sniff_with_flow_resolver st packet flow now resolve =
  (st, outcome_of None (sniff_packet (payload packet) packet)).
Proof.
  intros Hf Ht. rewrite sniff_whole_eq by done. unfold sniff_whole. by rewrite Ht.
Qed.

(** The common case, a message that fits in one segment of a direction
    with nothing buffered, is decided at once and allocates nothing: only the
    record of DNS boundaries may move, and only for DNS over TCP. *)
Theorem sniff_single_segment (st : t) (packet : ParsedPacket) flow now resolve key seq info :
  ip_fragment packet = None → stream_target packet flow = Some (key, seq) →
  TcpReassembler.has_buffer (segments st) key = false →
  is_dns_over_tcp (protocol packet) (src_port packet) (dst_port packet) = false →
  sniff_packet (payload packet) packet = Decided info →
  sniff_with_flow_resolver st packet flow now resolve = (st, mkSniffOutcome info None None None).
Proof.
  intros Hf Ht Hb Hd Hs. rewrite sniff_whole_eq by done. unfold sniff_whole.
  by rewrite Ht, Hd, Hs, Hb.
Qed.

Lemma sniff_packet_nil p info : sniff_packet [] p ≠ Decided info.
Proof.
  unfold sniff_packet, sniff_for_transport, sniff_l7_desegmenting.
  repeat case_match; try done.
Qed.

Lemma outcome_decided status s : so_info (outcome_of status s) ≠ L7None →
  s = Decided (so_info (outcome_of status s)).
Proof. by destruct s. Qed.

(** The verdict of a segment that goes through the buffer is one about the
    buffer. *)
Lemma sniff_buffered_verdict st p key seq dns ro now :
  let o := (sniff_buffered st p key seq dns ro now).2 in
  so_info o ≠ L7None →
  sniff_packet (TcpReassembler.prefix
    (TcpReassembler.feed (segments st) key seq (payload p)
       (sat_sub (ip_declared_payload_len p) (transport_header_len p)) now).1 key) p =
  Decided (so_info o).
Proof.
  cbn zeta. unfold sniff_buffered. destruct (TcpReassembler.feed _ _ _ _ _ _) as [segs [raw|]];
    cbn [fst snd]; [|done]. apply outcome_decided.
Qed.

(** With something buffered, every segment goes through the buffer. *)
Lemma sniff_whole_buffered st p flow now key seq :
  stream_target p flow = Some (key, seq) →
  TcpReassembler.has_buffer (segments st) key = true →
  ∃ st1 dns ro, segments st1 = segments st ∧
    sniff_whole st p flow now = sniff_buffered st1 p key seq dns ro now.
Proof.
  intros Ht Hhas. unfold sniff_whole. rewrite Ht.
  set (dns := is_dns_over_tcp _ _ _). set (ro := dns && _).
  destruct (if dns then dns_screen _ _ _ _ _ _ else _) as [st1 skipped] eqn:Hst1.
  assert (segments st1 = segments st ∧ skipped = false) as [Hsegs ->].
  { destruct dns; [|by injection Hst1 as <- <-]. unfold dns_screen in Hst1. rewrite Hhas in Hst1.
    destruct (is_syn p); by injection Hst1 as <- <-. }
  exists st1, dns, ro. split; [done|]. rewrite Hsegs, Hhas.
  by destruct (sniff_packet (payload p) p).
Qed.

Lemma stream_target_seq p flow key seq :
  packet_ok p → stream_target p flow = Some (key, seq) → is_u32 seq.
Proof.
  intros (_ & Hq & _). unfold stream_target. destruct flow as [[fk loc]|]; [|done].
  destruct (tcp_seq p) as [x|] eqn:Hx; [|done]. destruct (bool_decide _); [|done].
  intros [= _ <-]. by apply Hq.
Qed.

(** The contiguous bytes of a direction, at their sequence numbers. *)
Lemma prefix_at segs key s' : TcpReassembler.streams segs !! key = Some s' → stream_wf s' →
  ∀ i b, TcpReassembler.prefix segs key !! i = Some b →
    stream_at s' (wrapping_add (TcpStream.base_seq s') (Z.of_nat i)) = Some b.
Proof.
  intros Hs Hw i b. pose proof Hw as ((Hlen & Hcap & _) & Hp & _).
  unfold TcpReassembler.prefix. rewrite Hs. cbn. unfold slice, ztake, zdrop.
  pose proof (run_true_bounds (vlist (TcpStream.filled s'))).
  destruct (_ && _); [|done]. cbn [default].
  rewrite Z.sub_0_r, drop_0. intros [Hb Hi]%lookup_take_Some.
  rewrite stream_at_offset; [|done|unfold MAX_TCP_STREAM_BYTES in *; apply lookup_lt_Some in Hb; lia].
  rewrite Nat2Z.id, cell_prefix by lia. done.
Qed.

(** C8: overlap evasion is closed.  When a direction already buffers bytes, no
    segment is judged on its own.  A verdict is what the parsers decide on the
    contiguous bytes of the buffer after this very segment was merged into it;
    those are the bytes the buffer holds from its base sequence number on; every
    byte held before, at any sequence number, still stands there unchanged, and
    a byte that is new there is the one the segment carries at that number. *)
Theorem sniff_overlap_protected (st : t) (packet : ParsedPacket) flow now resolve key seq s :
  sniff_inv st → packet_ok packet → ip_fragment packet = None →
  stream_target packet flow = Some (key, seq) →
  TcpReassembler.streams (segments st) !! key = Some s → buffering s now →
  let segs := (TcpReassembler.feed (segments st) key seq (payload packet)
                 (sat_sub (ip_declared_payload_len packet) (transport_header_len packet)) now).1 in
  let o := (sniff_with_flow_resolver st packet flow now resolve).2 in
  so_info o ≠ L7None →
  sniff_packet (TcpReassembler.prefix segs key) packet = Decided (so_info o) ∧
  ∃ s', TcpReassembler.streams segs !! key = Some s' ∧ stream_wf s' ∧
    (∀ i b, TcpReassembler.prefix segs key !! i = Some b →
       stream_at s' (wrapping_add (TcpStream.base_seq s') (Z.of_nat i)) = Some b) ∧
    ∀ q, is_u32 q →
      (∀ b, stream_at s q = Some b → stream_at s' q = Some b) ∧
      (∀ b, stream_at s' q = Some b →
         stream_at s q = Some b ∨ segment_at seq (payload packet) q = Some b).
Proof.
  intros Hi Hok Hf Ht Hk Hbuf. rewrite sniff_whole_eq by done.
  assert (Hhas : TcpReassembler.has_buffer (segments st) key = true).
  { unfold TcpReassembler.has_buffer. apply bool_decide_eq_true. by exists s. }
  destruct (sniff_whole_buffered st packet flow now key seq Ht Hhas) as (st1 & dns & ro & Hsegs & ->).
  cbn zeta. intros Hn. pose proof (sniff_buffered_verdict st1 packet key seq dns ro now Hn) as Hv.
  rewrite Hsegs in Hv. split; [exact Hv|].
  set (segs := (TcpReassembler.feed _ _ _ _ _ _).1) in Hv |- *.
  pose proof (stream_target_seq _ _ _ _ Hok Ht) as Hseq.
  destruct (TcpReassembler.streams segs !! key) as [s'|] eqn:Hs'.
  - exists s'. assert (Hwf : stream_wf s').
    { destruct (proj1 (proj2 Hi)) as [Hti Htb].
      exact (proj2 (proj1 (tcp_feed_inv _ _ _ _ _ now Hseq (proj2 (proj2 Hok)) Hti Htb)) key s' Hs'). }
    split; [done|]. split; [done|]. split; [by apply (prefix_at segs key s')|].
    exact (feed_view (segments st) key seq (payload packet) _ now s s' (proj1 (proj1 (proj2 Hi)))
             Hseq (proj2 (proj2 Hok)) Hk Hbuf Hs').
  - exfalso. unfold TcpReassembler.prefix in Hv. rewrite Hs' in Hv.
    exact (sniff_packet_nil _ _ Hv).
Qed.
End sniff_theorems.

(** ** Witnesses *)

(** A codec and a slicer for datagrams whose header is twenty bytes of 8. *)
Definition eights : bytes := zreplicate 20 8.

Definition sample_sniff_codec : Ipv4Codec := {|
  ipv4_header := unit;
  ipv4_from_slice _ := Some tt;
  ipv4_with_more_fragments _ h := h;
  ipv4_with_fragment_offset _ h := h;
  ipv4_set_payload_len n h := if n <=? U16_MAX then Some h else None;
  ipv4_calc_header_checksum _ := 0;
  ipv4_with_header_checksum _ h := h;
  ipv4_write _ := Some eights
|}.

Definition sample_sniff_slicer : Slicer := {|
  from_ethernet _ := None;
  from_ip data :=
    if starts_with eights data then
      Some (mkSlicedPacket None []
        (Some (NetIpv4 (mkIpv4Slice eights 0 100 0 false 9 17 [10; 0; 0; 1] [10; 0; 0; 2] 64 0
                          (zdrop 20 data))))
        (Some (TransportUdp (mkUdpSlice 5000 53 (zdrop 28 data) 8))) None None)
    else None
|}.

Lemma zdrop_subslice n (l : bytes) : is_subslice (zdrop n l) l.
Proof. exists (ztake n l), []. rewrite app_nil_r. symmetry. apply ztake_zdrop. Qed.

Lemma sample_sniff_slicer_laws : SlicerLaws (H := sample_sniff_slicer).
Proof.
  split; intros data s; cbn; [done|]. destruct (starts_with eights data); [|done]. intros [= <-].
  split; [apply zdrop_subslice|]. split; [done|]. cbn.
  split_and!; try zlia. apply zdrop_subslice.
Qed.

Lemma sample_sniff_codec_laws :
  Ipv4CodecLaws (H := sample_sniff_codec) (H0 := sample_sniff_slicer).
Proof.
  split.
  - intros h out [= <-]. by vm_compute.
  - intros n h h'. cbn. case_zb; [done|]. done.
  - intros h h' n c out pl s v4 _ _ Hf Hn. cbn in Hf.
    destruct (starts_with eights (out ++ pl)); [|done]. injection Hf as <-. cbn in Hn.
    by injection Hn as <-.
Qed.

(** Two fragments of a DNS query over UDP. *)
Definition sample_query_datagram : bytes :=
  zreplicate 8 0 ++ dns_query 4660 [lit "a"; lit "com"] 1.
Definition sniff_fragments : list (ParsedPacket * Z) :=
  [(sample_fragment 0 true (ztake 16 sample_query_datagram) 16, 0);
   (sample_fragment 16 false (zdrop 16 sample_query_datagram) 15, 5)].

#[local] Existing Instance sample_sniff_codec.
#[local] Existing Instance sample_sniff_slicer.
#[local] Existing Instance sample_sniff_slicer_laws.
#[local] Existing Instance sample_sniff_codec_laws.
#[local] Existing Instance no_md5.

Definition run_sniff (st : StreamReassembler.t) (frames : list (ParsedPacket * Z)) : StreamReassembler.t :=
  foldl (λ st f, (StreamReassembler.sniff_with_flow_resolver st f.1 None f.2 (λ _, None)).1) st frames.

(** The query is decoded once both fragments are in. *)
Example sniff_fragmented_query :
  let st := run_sniff StreamReassembler.new (take 1 sniff_fragments) in
  match nth_z sniff_fragments 1 with
  | Some (p, now) =>
      let o := (StreamReassembler.sniff st p None now).2 in
      so_info o = L7Dns (lit "a.com") 4660 1 ∧ so_status o = Some Reassembled
  | None => False
  end.
Proof. vm_compute. done. Qed.

Lemma sniff_fragments_ok : Forall (λ f, packet_ok f.1) sniff_fragments.
Proof.
  repeat constructor; cbn; try zlia; try done; by vm_compute.
Qed.

Lemma run_sniff_reachable frames st :
  rtc sniff_step StreamReassembler.new st → Forall (λ f, packet_ok f.1) frames →
  rtc sniff_step StreamReassembler.new (run_sniff st frames).
Proof.
  intros Hst Hf. revert st Hst. induction Hf as [|[p now] fs Hp _ IH]; intros st Hst; [done|].
  apply IH. eapply rtc_r; [exact Hst|]. by constructor.
Qed.

Lemma sniff_reachable_bounded_witness :
  StreamReassembler.bytes_held (run_sniff StreamReassembler.new (take 1 sniff_fragments)) = 32 ∧
  StreamReassembler.bytes_held (run_sniff StreamReassembler.new (take 1 sniff_fragments)) <= 8388608.
Proof.
  split; [by vm_compute|].
  refine (proj2 (proj1 (sniff_reachable_bounded _ _))).
  apply run_sniff_reachable; [done|]. apply Forall_take, sniff_fragments_ok.
Defined.

Lemma sniff_terminates_witness :
  is_Some (StreamReassembler.sniff_inner StreamReassembler.sniff_fuel StreamReassembler.new
             (sample_fragment 0 true [1] 1) None 0 (λ _, None)).
Proof.
  apply (sniff_terminates StreamReassembler.new (sample_fragment 0 true [1] 1) None 0 (λ _, None)).
Defined.

(** A TCP segment to a web server. *)
Definition sample_segment (seq : Z) (bs : bytes) : ParsedPacket :=
  mkParsedPacket [] [] (lit "10.0.0.1") (lit "10.0.0.2") Tcp (Some 5000) (Some 80)
    (Some (mkTcpFlags false true false false 0 0)) (Some seq) 64 0 bs [] 20 20 4 None None
    (20 + zlen bs) None.
Definition sample_request : bytes := lit "GET / HTTP/1.1" ++ [13; 10; 13; 10].
Definition sample_flow : option (FlowKey * bool) := Some (ts_flow sample_tcp_key, true).

Lemma sniff_unattributed_witness :
  StreamReassembler.sniff StreamReassembler.new (sample_segment 7 sample_request) None 0 =
  (StreamReassembler.new, mkSniffOutcome (L7Http (lit "GET") (lit "/")) None None None).
Proof.
  refine (sniff_unattributed StreamReassembler.new (sample_segment 7 sample_request) None 0
            (λ _, None) _ _); done.
Defined.

Lemma sniff_single_segment_witness :
  StreamReassembler.sniff StreamReassembler.new (sample_segment 7 sample_request) sample_flow 0 =
  (StreamReassembler.new, mkSniffOutcome (L7Http (lit "GET") (lit "/")) None None None).
Proof.
  refine (sniff_single_segment StreamReassembler.new (sample_segment 7 sample_request) sample_flow 0
            (λ _, None) (mkTcpStreamKey (ts_flow sample_tcp_key) true) 7 _ _ _ _ _ _); by vm_compute.
Defined.

(** A first segment [GET /a], then one that rewrites it to [GET /b] and ends
    the line. *)
Definition overlap_st : StreamReassembler.t :=
  (StreamReassembler.sniff StreamReassembler.new (sample_segment 7 (lit "GET /a")) sample_flow 0).1.
Definition overlap_segment : ParsedPacket :=
  sample_segment 7 (lit "GET /b HTTP/1.1" ++ [13; 10]).

Lemma sample_segment_ok bs : zlen bs <= 100 → packet_ok (sample_segment 7 bs).
Proof. intros Hl. split; [done|]. split; [intros seq [= <-]; zlia|cbn; width; lia]. Qed.

Lemma overlap_st_inv : sniff_inv overlap_st.
Proof.
  apply (sniff_step_inv StreamReassembler.new).
  - apply sniff_step_sniff, sample_segment_ok. by vm_compute.
  - split; [apply frag_new_inv|]. split; [apply tcp_new_inv|done].
Qed.

Lemma sniff_overlap_protected_witness :
  let key := mkTcpStreamKey (ts_flow sample_tcp_key) true in
  let segs := (TcpReassembler.feed (StreamReassembler.segments overlap_st) key 7
                 (lit "GET /b HTTP/1.1" ++ [13; 10]) 17 10).1 in
  so_info (StreamReassembler.sniff overlap_st overlap_segment sample_flow 10).2 =
    L7Http (lit "GET") (lit "/a") ∧
  TcpReassembler.prefix segs key = lit "GET /a HTTP/1.1" ++ [13; 10] ∧
  StreamReassembler.sniff_packet (TcpReassembler.prefix segs key) overlap_segment =
    Decided (L7Http (lit "GET") (lit "/a")).
Proof.
  intros key segs. split; [by vm_compute|]. split; [by vm_compute|].
  destruct (TcpReassembler.streams (StreamReassembler.segments overlap_st) !! key) as [s|] eqn:Hs;
    [|exfalso; revert Hs; by vm_compute].
  destruct (sniff_overlap_protected overlap_st overlap_segment sample_flow 10 (λ _, None) key 7 s) as (Hv & _).
  - exact overlap_st_inv.
  - apply sample_segment_ok. by vm_compute.
  - done.
  - by vm_compute.
  - exact Hs.
  - revert Hs. vm_compute. intros [= <-]. done.
  - by vm_compute.
  - etransitivity; [exact Hv|]. by vm_compute.
Defined.
