(* ===== verification/Flow.v ===== *)
(** * The flow table

    [capture-agent/src/flow.rs]: per-connection state ([FlowTable]), the
    measured protocol hierarchy ([ProtocolNode]), and the cumulative endpoint
    and conversation rollups ([RollupState]). *)

From stdpp Require Import gmap.
From Stdlib Require Import QArith Qminmax.
From S2P Require Import Prelude Packet Text TcpSegments DnsNames Parse.
#[local] Open Scope Z_scope.

(** ** Identity *)

Definition protocol_debug (p : TransportProtocol) : bytes :=
  match p with Tcp => lit "Tcp" | Udp => lit "Udp" | Icmp => lit "Icmp" | Other => lit "Other" end.

Definition connection_id (k : FlowKey) : bytes :=
  protocol_debug (fk_protocol k) ++ lit "-" ++ local_addr k ++ lit ":" ++ dec (local_port k)
    ++ lit "-" ++ remote_addr k ++ lit ":" ++ dec (remote_port k).

(** ** Flow state *)

Module FlowState.
Record t := mk {
  app_layer_protocol : bytes;
  encryption : bytes;
  established : bool;
  fin_seen : bool;
  rst_seen : bool;
  syn_sent_at_ms : option Z;
  rtt_ms : option Z;
  rx_bytes_total : Z;
  tx_bytes_total : Z;
  rx_bytes_this_tick : Z;
  tx_bytes_this_tick : Z;
  max_seq_seen : gmap bool Z;
  retransmits : Z;
  segments : Z;
  last_seen_ms : Z;
  ja3_fingerprint : option bytes;
  ja3_label : option bytes;
  client_random : option bytes;
  client_is_outbound : option bool;
  syn_sequences : gmap bool Z;
  conn_id : bytes
}.
#[global] Instance eta : RecordEta t := λ r,
  mk (app_layer_protocol r) (encryption r) (established r) (fin_seen r) (rst_seen r)
    (syn_sent_at_ms r) (rtt_ms r) (rx_bytes_total r) (tx_bytes_total r) (rx_bytes_this_tick r)
    (tx_bytes_this_tick r) (max_seq_seen r) (retransmits r) (segments r) (last_seen_ms r)
    (ja3_fingerprint r) (ja3_label r) (client_random r) (client_is_outbound r)
    (syn_sequences r) (conn_id r).

Definition default_state : t :=
  mk (lit "Unknown") (lit "None") false false false None None 0 0 0 0 ∅ 0 0 0 None None None None ∅ [].
End FlowState.

Definition DEFAULT_MAX_FLOWS : Z := 10000.

(** ** The protocol hierarchy *)

(** The children are a [BTreeMap]: an association list sorted by name. *)
#[warnings="-register-all"]
Inductive ProtocolNode := mkNode (node_bytes node_packets : Z) (children : list (bytes * ProtocolNode)).

Definition empty_node : ProtocolNode := mkNode 0 0 [].
Definition node_bytes (n : ProtocolNode) : Z := let '(mkNode b _ _) := n in b.
Definition node_packets (n : ProtocolNode) : Z := let '(mkNode _ p _) := n in p.
Definition node_children (n : ProtocolNode) : list (bytes * ProtocolNode) :=
  let '(mkNode _ _ c) := n in c.

(** [entry(k).or_default()] followed by an update in place. *)
Fixpoint update_child (k : bytes) (f : ProtocolNode → ProtocolNode) (l : list (bytes * ProtocolNode))
    : list (bytes * ProtocolNode) :=
  match l with
  | [] => [(k, f empty_node)]
  | (k', n) :: l' =>
      if bool_decide (k = k') then (k', f n) :: l'
      else if bytes_le k k' then (k, f empty_node) :: (k', n) :: l'
      else (k', n) :: update_child k f l'
  end.

Fixpoint node_add (path : list bytes) (bytes_ : Z) (n : ProtocolNode) : ProtocolNode :=
  let '(mkNode b p children) := n in
  mkNode (b + bytes_) (p + 1)
    (match path with
     | [] => children
     | head :: rest => update_child head (node_add rest bytes_) children
     end).

(** ** Rollups *)

Module RollupState.
Record t := mk {
  rx_bytes_total : Z;
  tx_bytes_total : Z;
  rx_packets_total : Z;
  tx_packets_total : Z;
  rx_bytes_this_tick : Z;
  tx_bytes_this_tick : Z;
  flow_count : Z;
  first_seen_ms : option Z;
  last_seen_ms : Z;
  ja3_label : option bytes
}.
#[global] Instance eta : RecordEta t := λ r,
  mk (rx_bytes_total r) (tx_bytes_total r) (rx_packets_total r) (tx_packets_total r)
    (rx_bytes_this_tick r) (tx_bytes_this_tick r) (flow_count r) (first_seen_ms r)
    (last_seen_ms r) (ja3_label r).

Definition default_rollup : t := mk 0 0 0 0 0 0 0 None 0 None.

Definition record (is_outbound : bool) (bytes_ now_ms : Z) (is_new_flow : bool) (r : t) : t :=
  let r :=
    if is_outbound then
      r <| tx_bytes_total ::= Z.add bytes_ |> <| tx_bytes_this_tick ::= Z.add bytes_ |>
        <| tx_packets_total ::= Z.succ |>
    else
      r <| rx_bytes_total ::= Z.add bytes_ |> <| rx_bytes_this_tick ::= Z.add bytes_ |>
        <| rx_packets_total ::= Z.succ |> in
  let r := r <| first_seen_ms ::= λ f, Some (default now_ms f) |> <| last_seen_ms := now_ms |> in
  if is_new_flow then r <| flow_count ::= Z.succ |> else r.

Definition drain_tick (r : t) : t := r <| rx_bytes_this_tick := 0 |> <| tx_bytes_this_tick := 0 |>.
End RollupState.

(** ** Classification *)

Definition well_known_protocol (port : Z) : option bytes :=
  if port =? 20 then Some (lit "FTP-DATA")
  else if port =? 21 then Some (lit "FTP")
  else if port =? 25 then Some (lit "SMTP")
  else if port =? 80 then Some (lit "HTTP")
  else if port =? 443 then Some (lit "HTTPS/TLS")
  else if port =? 53 then Some (lit "DNS")
  else if port =? 22 then Some (lit "SSH")
  else if (port =? 67) || (port =? 68) then Some (lit "DHCP")
  else if port =? 110 then Some (lit "POP3")
  else if port =? 123 then Some (lit "NTP")
  else if port =? 143 then Some (lit "IMAP")
  else if port =? 445 then Some (lit "SMB")
  else if port =? 993 then Some (lit "IMAPS")
  else if port =? 995 then Some (lit "POP3S")
  else if port =? 1433 then Some (lit "Microsoft SQL Server")
  else if port =? 3306 then Some (lit "MySQL")
  else if port =? 3389 then Some (lit "RDP")
  else if port =? 5353 then Some (lit "mDNS")
  else if port =? 5432 then Some (lit "PostgreSQL")
  else None.

Definition status_for (state : FlowState.t) (protocol : TransportProtocol) : bytes :=
  if FlowState.fin_seen state || FlowState.rst_seen state then lit "TIME_WAIT"
  else if FlowState.established state then lit "ESTABLISHED"
  else if bool_decide (is_Some (FlowState.syn_sent_at_ms state)) then lit "SYN_SENT"
  else if bool_decide (protocol ≠ Tcp) then lit "ESTABLISHED"
  else lit "CLOSE_WAIT".

Definition idle_threshold_ms (state : FlowState.t) (protocol : TransportProtocol) : Z :=
  let status := status_for state protocol in
  if bool_decide (status = lit "TIME_WAIT") || bool_decide (status = lit "CLOSE_WAIT") then 120000
  else if bool_decide (status = lit "SYN_SENT") then 30000
  else if bool_decide (protocol ≠ Tcp) then 60000
  else 1800000.

Record ObserveResult := mkObserveResult {
  is_outbound : bool;
  is_retransmit : bool;
  rst_transitioned : bool;
  obs_connection_id : option bytes;
  closed_connection_id : option bytes
}.

Record EvictedFlows := mkEvictedFlows { idle : list FlowKey; capacity : list FlowKey }.

Record FlowSnapshot := mkFlowSnapshot {
  snap_key : FlowKey;
  snap_app : bytes;
  snap_status : bytes;
  snap_encryption : bytes;
  snap_rx_speed : Q;
  snap_tx_speed : Q;
  snap_rx_total : Z;
  snap_tx_total : Z;
  snap_latency_ms : option Z;
  snap_packet_loss : Q;
  snap_ja3 : option bytes;
  snap_ja3_label : option bytes;
  snap_last_seen_ms : Z;
  snap_client_random : option bytes
}.

Record EndpointSnapshot := mkEndpointSnapshot {
  ep_host : bytes;
  ep_totals : RollupState.t;      (** the totals as they stood, before the drain *)
  ep_rx_speed : Q;
  ep_tx_speed : Q;
  ep_first_seen_ms : Z;
  ep_observed_name : option bytes
}.

Record ConversationSnapshot := mkConversationSnapshot {
  cv_pair : bytes * bytes;
  cv_totals : RollupState.t;
  cv_rx_speed : Q;
  cv_tx_speed : Q;
  cv_first_seen_ms : Z;
  cv_duration_ms : Z
}.

(** Bytes over a tick, per second: [bytes as f64 / (ms as f64 / 1000.0)]. *)
Definition speed (bytes_ elapsed_ms : Z) : Q := (inject_Z bytes_ / (inject_Z elapsed_ms / 1000))%Q.

(** ** The table *)

Module FlowTable.
Record t := mk {
  local_addrs : list bytes;
  flows : gmap FlowKey FlowState.t;
  last_snapshot_ms : Z;
  max_flows : Z;
  total_flows_observed : Z;
  capacity_evictions : Z;
  idle_evictions : Z;
  protocol_tree : ProtocolNode;
  endpoint_rollups : gmap bytes RollupState.t;
  conversation_rollups : gmap (bytes * bytes) RollupState.t;
  last_endpoint_snapshot_ms : Z;
  last_conversation_snapshot_ms : Z;
  observed_names : ObservedDnsNames.t
}.
#[global] Instance eta : RecordEta t := λ r,
  mk (local_addrs r) (flows r) (last_snapshot_ms r) (max_flows r) (total_flows_observed r)
    (capacity_evictions r) (idle_evictions r) (protocol_tree r) (endpoint_rollups r)
    (conversation_rollups r) (last_endpoint_snapshot_ms r) (last_conversation_snapshot_ms r)
    (observed_names r).

Definition DEFAULT_MAX_OBSERVED_DNS_NAMES : Z := 16384.

Definition new_with_capacity (addrs : list bytes) (max : Z) : t :=
  mk addrs ∅ 0 max 0 0 0 empty_node ∅ ∅ 0 0 (ObservedDnsNames.new DEFAULT_MAX_OBSERVED_DNS_NAMES).

Definition new (addrs : list bytes) : t := new_with_capacity addrs DEFAULT_MAX_FLOWS.

Definition with_observed_name_capacity (st : t) (cap : Z) : t :=
  st <| observed_names := ObservedDnsNames.new cap |>.

Definition learn_dns_response (st : t) (query_name : bytes) (answers : list DnsAnswer) (now_ms : Z) : t :=
  st <| observed_names ::= λ n, ObservedDnsNames.learn_response n query_name answers now_ms |>.

Definition is_local (st : t) (addr : bytes) : bool := bool_decide (addr ∈ local_addrs st).

Definition direction_attribution_unavailable (st : t) : bool := bool_decide (local_addrs st = []).

(** [(ip, port) <= (ip, port)]. *)
Definition endpoint_le (ip1 : bytes) (port1 : Z) (ip2 : bytes) (port2 : Z) : bool :=
  if bool_decide (ip1 = ip2) then port1 <=? port2 else bytes_le ip1 ip2.

Definition key_for (st : t) (packet : ParsedPacket) : option (FlowKey * bool) :=
  match src_port packet, dst_port packet with
  | Some sp, Some dp =>
      let outbound := Some (mkFlowKey (protocol packet) (src_ip packet) sp (dst_ip packet) dp, true) in
      let inbound := Some (mkFlowKey (protocol packet) (dst_ip packet) dp (src_ip packet) sp, false) in
      if is_local st (src_ip packet) then outbound
      else if is_local st (dst_ip packet) then inbound
      else if bool_decide (local_addrs st = []) then
        if endpoint_le (src_ip packet) sp (dst_ip packet) dp then outbound else inbound
      else None
  | _, _ => None
  end.

Definition is_idle (key : FlowKey) (state : FlowState.t) (now_ms : Z) : bool :=
  idle_threshold_ms state (fk_protocol key) <? sat_sub now_ms (FlowState.last_seen_ms state).

Definition evict_idle_flow_key (st : t) (key : FlowKey) (now_ms : Z) : t * option bytes :=
  match flows st !! key with
  | Some state =>
      if is_idle key state now_ms then
        (st <| flows ::= delete key |> <| idle_evictions ::= Z.succ |>, Some (FlowState.conn_id state))
      else (st, None)
  | None => (st, None)
  end.

Definition transport_label (p : TransportProtocol) : bytes :=
  match p with
  | Tcp => lit "TCP" | Udp => lit "UDP" | Icmp => lit "ICMP" | Other => lit "Other"
  end.

(** The application layer a packet shows, on its flow. *)
Definition note_l7 (l7 : L7Info) (outbound : bool) (remote_port : Z) (state : FlowState.t) : FlowState.t :=
  match l7 with
  | L7Http _ _ | L7HttpResponse _ _ _ _ => state <| FlowState.app_layer_protocol := lit "HTTP" |>
  | L7Dns _ _ _ | L7DnsResponse _ _ _ _ _ _ => state <| FlowState.app_layer_protocol := lit "DNS" |>
  | L7TlsClientHello _ ja3 label random _ _ =>
      let state :=
        state <| FlowState.app_layer_protocol := lit "HTTPS/TLS" |>
              <| FlowState.encryption := lit "TLS" |> in
      if bool_decide (FlowState.ja3_fingerprint state = None) then
        state <| FlowState.ja3_fingerprint := ja3 |> <| FlowState.ja3_label := label |>
              <| FlowState.client_random := random |> <| FlowState.client_is_outbound := Some outbound |>
      else state
  | L7None =>
      if bool_decide (FlowState.app_layer_protocol state = lit "Unknown") then
        match well_known_protocol remote_port with
        | Some name => state <| FlowState.app_layer_protocol := name |>
        | None => state
        end
      else state
  end.

(** The label a ClientHello puts on the rollups of its host and pair. *)
Definition label_rollup (l7 : L7Info) (r : RollupState.t) : RollupState.t :=
  match l7 with
  | L7TlsClientHello _ _ (Some label) _ _ _ => r <| RollupState.ja3_label := Some label |>
  | _ => r
  end.

(** The handshake flags of a segment: the state, and whether it is the one
    that reset the flow. *)
Definition note_flags (flags : TcpFlags) (outbound : bool) (now_ms : Z) (state : FlowState.t)
    : FlowState.t * bool :=
  let state :=
    if syn flags && negb (ack flags) then state <| FlowState.syn_sent_at_ms := Some now_ms |> else state in
  let state :=
    if syn flags && ack flags && negb outbound then
      match FlowState.syn_sent_at_ms state with
      | Some sent_at => state <| FlowState.rtt_ms := Some (sat_sub now_ms sent_at) |>
      | None => state
      end
    else state in
  let state := if ack flags then state <| FlowState.established := true |> else state in
  let state := if fin flags then state <| FlowState.fin_seen := true |> else state in
  if rst flags then
    (state <| FlowState.established := false |> <| FlowState.rst_seen := true |>,
     negb (FlowState.rst_seen state))
  else (state, false).

(** Retransmission detection, per direction, on segments with payload. *)
Definition note_segment (packet : ParsedPacket) (outbound : bool) (state : FlowState.t)
    : FlowState.t * bool :=
  match tcp_seq packet with
  | Some seq =>
      if bool_decide (payload packet = []) then (state, false)
      else
        let state := state <| FlowState.segments ::= Z.succ |> in
        let retransmit :=
          match FlowState.max_seq_seen state !! outbound with
          | Some max_seen => seq_delta seq max_seen <=? 0
          | None => false
          end in
        if retransmit then (state <| FlowState.retransmits ::= Z.succ |>, true)
        else (state <| FlowState.max_seq_seen ::= <[outbound := seq]> |>, false)
  | None => (state, false)
  end.

(** The counters a packet moves on its flow before its flags are looked at. *)
Definition note_bytes (packet : ParsedPacket) (outbound : bool) (now_ms : Z) (state : FlowState.t)
    : FlowState.t :=
  let state := state <| FlowState.last_seen_ms := now_ms |> in
  let state :=
    match tcp_flags packet, tcp_seq packet with
    | Some flags, Some sequence =>
        if syn flags then
          state <| FlowState.syn_sequences ::= λ m,
                     match m !! outbound with Some _ => m | None => <[outbound := sequence]> m end |>
        else state
    | _, _ => state
    end in
  if outbound then
    state <| FlowState.tx_bytes_total ::= Z.add (total_len packet) |>
          <| FlowState.tx_bytes_this_tick ::= Z.add (total_len packet) |>
  else
    state <| FlowState.rx_bytes_total ::= Z.add (total_len packet) |>
          <| FlowState.rx_bytes_this_tick ::= Z.add (total_len packet) |>.

(** One packet on its flow: the new state, whether it is a retransmission and
    whether it reset the flow. *)
Definition update_flow (packet : ParsedPacket) (l7 : L7Info) (outbound : bool) (remote_port now_ms : Z)
    (state : FlowState.t) : FlowState.t * bool * bool :=
  let state := note_l7 l7 outbound remote_port (note_bytes packet outbound now_ms state) in
  match tcp_flags packet with
  | Some flags =>
      let '(state, transitioned) := note_flags flags outbound now_ms state in
      let '(state, retransmit) := note_segment packet outbound state in
      (state, retransmit, transitioned)
  | None => (state, false, false)
  end.

Definition observe_inner (st : t) (packet : ParsedPacket) (l7 : L7Info) (now_ms : Z)
    (account_protocol_hierarchy expire_idle_on_arrival : bool) : t * option ObserveResult :=
  let label := transport_label (protocol packet) in
  let st :=
    if account_protocol_hierarchy && negb (bool_decide (protocol packet = Tcp) || bool_decide (protocol packet = Udp))
    then st <| protocol_tree ::= node_add [lit "Ethernet"; lit "IP"; label] (total_len packet) |>
    else st in
  match key_for st packet with
  | None => (st, None)
  | Some (key, outbound) =>
      let '(st, closed) :=
        if expire_idle_on_arrival then evict_idle_flow_key st key now_ms else (st, None) in
      let is_new := bool_decide (flows st !! key = None) in
      let st := if is_new then st <| total_flows_observed ::= Z.succ |> else st in
      let roll r :=
        label_rollup l7
          (RollupState.record outbound (total_len packet) now_ms is_new
             (default RollupState.default_rollup r)) in
      let state :=
        default (FlowState.default_state <| FlowState.conn_id := connection_id key |>) (flows st !! key) in
      let app := note_l7 l7 outbound (remote_port key) (note_bytes packet outbound now_ms state) in
      let '(state, retransmit, transitioned) :=
        update_flow packet l7 outbound (remote_port key) now_ms state in
      let st :=
        st <| endpoint_rollups ::= partial_alter (Some ∘ roll) (remote_addr key) |>
           <| conversation_rollups ::= partial_alter (Some ∘ roll) (local_addr key, remote_addr key) |>
           <| flows ::= <[key := state]> |> in
      let st :=
        if account_protocol_hierarchy then
          st <| protocol_tree ::=
                  node_add [lit "Ethernet"; lit "IP"; label; FlowState.app_layer_protocol app]
                    (total_len packet) |>
        else st in
      (st, Some (mkObserveResult outbound retransmit transitioned
                   (if transitioned then Some (FlowState.conn_id state) else None) closed))
  end.

Definition observe (st : t) (packet : ParsedPacket) (l7 : L7Info) (now_ms : Z) : t * option ObserveResult :=
  observe_inner st packet l7 now_ms true false.
Definition observe_replay (st : t) (packet : ParsedPacket) (l7 : L7Info) (now_ms : Z)
    : t * option ObserveResult :=
  observe_inner st packet l7 now_ms true true.

Definition observe_reassembled (st : t) (physical_fragment reassembled : ParsedPacket) (l7 : L7Info)
    (now_ms : Z) : t * option ObserveResult :=
  if bool_decide (ip_fragment physical_fragment = None) then observe st physical_fragment l7 now_ms
  else
    let st := (observe st physical_fragment L7None now_ms).1 in
    observe_inner st reassembled l7 now_ms false false.
Definition observe_reassembled_replay (st : t) (physical_fragment reassembled : ParsedPacket)
    (l7 : L7Info) (now_ms : Z) : t * option ObserveResult :=
  if bool_decide (ip_fragment physical_fragment = None)
  then observe_replay st physical_fragment l7 now_ms
  else
    let st := (observe_replay st physical_fragment L7None now_ms).1 in
    observe_inner st reassembled l7 now_ms false true.

Definition client_random_for (st : t) (key : FlowKey) : option bytes :=
  flows st !! key ≫= FlowState.client_random.
Definition client_is_outbound_for (st : t) (key : FlowKey) : option bool :=
  flows st !! key ≫= FlowState.client_is_outbound.
Definition tcp_syn_sequence_for (st : t) (key : FlowKey) (local_is_sender : bool) : option Z :=
  flows st !! key ≫= λ s, FlowState.syn_sequences s !! local_is_sender.

(** *** Snapshots *)

Definition packet_loss (state : FlowState.t) : Q :=
  if 0 <? FlowState.segments state then
    Qmin (inject_Z (FlowState.retransmits state) / inject_Z (FlowState.segments state) * 100) 100
  else 0%Q.

Definition flow_snapshot (elapsed_ms : Z) (key : FlowKey) (state : FlowState.t) : FlowSnapshot :=
  mkFlowSnapshot key (FlowState.app_layer_protocol state) (status_for state (fk_protocol key))
    (FlowState.encryption state)
    (speed (FlowState.rx_bytes_this_tick state) elapsed_ms)
    (speed (FlowState.tx_bytes_this_tick state) elapsed_ms)
    (FlowState.rx_bytes_total state) (FlowState.tx_bytes_total state) (FlowState.rtt_ms state)
    (packet_loss state) (FlowState.ja3_fingerprint state) (FlowState.ja3_label state)
    (FlowState.last_seen_ms state) (FlowState.client_random state).

Definition drain_flow (state : FlowState.t) : FlowState.t :=
  state <| FlowState.rx_bytes_this_tick := 0 |> <| FlowState.tx_bytes_this_tick := 0 |>.

Section operations.
Context `{IterOrder}.

Definition snapshot (st : t) (now_ms : Z) : t * list FlowSnapshot :=
  let elapsed := Z.max 1 (sat_sub now_ms (last_snapshot_ms st)) in
  (st <| last_snapshot_ms := now_ms |> <| flows ::= fmap drain_flow |>,
   (λ kv : FlowKey * FlowState.t, flow_snapshot elapsed kv.1 kv.2) <$> iter (flows st)).

Definition evict_stale (st : t) (now_ms : Z) : t * EvictedFlows :=
  let stale := filter (λ kv : FlowKey * FlowState.t, is_idle kv.1 kv.2 now_ms = true) (iter (flows st)) in
  let live := filter (λ kv : FlowKey * FlowState.t, is_idle kv.1 kv.2 now_ms = false) (flows st) in
  let st := st <| flows := live |> <| idle_evictions ::= Z.add (zlen stale) |> in
  let excess := Z.of_nat (size live) - max_flows st in
  let over :=
    if max_flows st <? Z.of_nat (size live) then
      ztake excess (sort_by_key (λ kv : FlowKey * FlowState.t, FlowState.last_seen_ms kv.2) (iter live))
    else [] in
  (st <| flows ::= λ m, foldl (λ m k, delete k m) m over.*1 |>
      <| capacity_evictions ::= Z.add (zlen over) |>,
   mkEvictedFlows stale.*1 over.*1).

Definition endpoint_snapshot (st : t) (now_ms : Z) : t * list EndpointSnapshot :=
  let elapsed := Z.max 1 (sat_sub now_ms (last_endpoint_snapshot_ms st)) in
  (st <| last_endpoint_snapshot_ms := now_ms |> <| endpoint_rollups ::= fmap RollupState.drain_tick |>,
   (λ kv : bytes * RollupState.t,
      mkEndpointSnapshot kv.1 kv.2
        (speed (RollupState.rx_bytes_this_tick kv.2) elapsed)
        (speed (RollupState.tx_bytes_this_tick kv.2) elapsed)
        (default 0 (RollupState.first_seen_ms kv.2))
        (ObservedDnsNames.lookup (observed_names st) kv.1 now_ms)) <$> iter (endpoint_rollups st)).

Definition conversation_snapshot (st : t) (now_ms : Z) : t * list ConversationSnapshot :=
  let elapsed := Z.max 1 (sat_sub now_ms (last_conversation_snapshot_ms st)) in
  (st <| last_conversation_snapshot_ms := now_ms |>
      <| conversation_rollups ::= fmap RollupState.drain_tick |>,
   (λ kv : (bytes * bytes) * RollupState.t,
      let first_seen := default 0 (RollupState.first_seen_ms kv.2) in
      mkConversationSnapshot kv.1 kv.2
        (speed (RollupState.rx_bytes_this_tick kv.2) elapsed)
        (speed (RollupState.tx_bytes_this_tick kv.2) elapsed)
        first_seen (sat_sub (RollupState.last_seen_ms kv.2) first_seen)) <$> iter (conversation_rollups st)).

Definition reset (st : t) (addrs : list bytes) : t * list FlowKey :=
  (st <| local_addrs := addrs |> <| observed_names ::= ObservedDnsNames.clear |> <| flows := ∅ |>,
   (iter (flows st)).*1).
End operations.
End FlowTable.

(** ** Flow identity *)

Lemma bytes_le_refl s : bytes_le s s = true.
Proof. induction s as [|x s IH]; simpl; [done|]. rewrite IH, Z.eqb_refl. by destruct (x <? x). Qed.

Lemma bytes_le_antisym s t : bytes_le s t = true → bytes_le t s = true → s = t.
Proof.
  revert t. induction s as [|x s IH]; intros [|y t]; simpl; try done.
  destruct (Z.ltb_spec x y), (Z.ltb_spec y x); try lia; simpl.
  destruct (Z.eqb_spec x y) as [->|]; [|done]. rewrite Z.eqb_refl. simpl.
  intros H1 H2. f_equal. by apply IH.
Qed.

Lemma bytes_le_total s t : bytes_le s t = true ∨ bytes_le t s = true.
Proof.
  revert t. induction s as [|x s IH]; intros [|y t]; simpl; auto.
  destruct (Z.ltb_spec x y), (Z.ltb_spec y x); simpl; auto; try lia.
  replace y with x by lia. rewrite Z.eqb_refl. simpl. apply IH.
Qed.

Lemma endpoint_le_flip ip1 p1 ip2 p2 :
  (ip1, p1) ≠ (ip2, p2) →
  FlowTable.endpoint_le ip2 p2 ip1 p1 = negb (FlowTable.endpoint_le ip1 p1 ip2 p2).
Proof.
  intros Hne. unfold FlowTable.endpoint_le.
  destruct (decide (ip1 = ip2)) as [->|Hip].
  - rewrite !bool_decide_true by done. assert (p1 ≠ p2) by congruence.
    destruct (Z.leb_spec p2 p1), (Z.leb_spec p1 p2); simpl; try done; lia.
  - rewrite !bool_decide_false by congruence.
    destruct (bytes_le ip1 ip2) eqn:H1, (bytes_le ip2 ip1) eqn:H2; try done.
    + exfalso. apply Hip. by apply bytes_le_antisym.
    + destruct (bytes_le_total ip1 ip2); congruence.
Qed.

(** [q] goes the other way on the connection of [p]. *)
Definition reply_of (p q : ParsedPacket) : Prop :=
  protocol q = protocol p ∧ src_ip q = dst_ip p ∧ dst_ip q = src_ip p ∧
  src_port q = dst_port p ∧ dst_port q = src_port p.

(** The two directions of a connection map to one key, seen from opposite
    sides, unless both of its addresses are local: with one address local, and
    with no local address known at all. *)
Theorem key_for_both_directions (st : FlowTable.t) (p q : ParsedPacket) (k : FlowKey) (out : bool) :
  reply_of p q → (src_ip p, src_port p) ≠ (dst_ip p, dst_port p) →
  FlowTable.is_local st (src_ip p) && FlowTable.is_local st (dst_ip p) = false →
  FlowTable.key_for st p = Some (k, out) → FlowTable.key_for st q = Some (k, negb out).
Proof.
  intros (Hpr & Hs & Hd & Hsp & Hdp) Hne Hloc. unfold FlowTable.key_for.
  rewrite Hpr, Hs, Hd, Hsp, Hdp.
  destruct (src_port p) as [sp|] eqn:Esp; [|done]. destruct (dst_port p) as [dp|] eqn:Edp; [|done].
  destruct (FlowTable.is_local st (src_ip p)), (FlowTable.is_local st (dst_ip p)); try done.
  - by intros [= <- <-].
  - by intros [= <- <-].
  - destruct (bool_decide _); [|done].
    rewrite (endpoint_le_flip (src_ip p) sp (dst_ip p) dp) by congruence.
    destruct (FlowTable.endpoint_le _ _ _ _); by intros [= <- <-].
Qed.

(** A connection between two local addresses is split: each direction
    gets a key of its own, and both are taken for outbound. *)
Theorem key_for_splits_local (st : FlowTable.t) (p q : ParsedPacket) (sp dp : Z) :
  reply_of p q → src_port p = Some sp → dst_port p = Some dp →
  (src_ip p, sp) ≠ (dst_ip p, dp) →
  FlowTable.is_local st (src_ip p) = true → FlowTable.is_local st (dst_ip p) = true →
  ∃ k k', FlowTable.key_for st p = Some (k, true) ∧ FlowTable.key_for st q = Some (k', true) ∧ k ≠ k'.
Proof.
  intros (Hpr & Hs & Hd & Hsp & Hdp) Esp Edp Hne H1 H2. unfold FlowTable.key_for.
  rewrite Hpr, Hs, Hd, Hsp, Hdp, Esp, Edp, H1, H2.
  do 2 eexists. split_and!; [done|done|]. intros [= E1 E2 _ _]. apply Hne. congruence.
Qed.

(** ** Accounting *)

Section total_lemmas.
Context {K : Type} `{Countable K} {V : Type}.

Lemma map_total_alter (cost : V → Z) (f : option V → V) (m : gmap K V) k :
  map_total cost (partial_alter (Some ∘ f) k m) =
  map_total cost m - default 0 (cost <$> m !! k) + cost (f (m !! k)).
Proof.
  replace (partial_alter (Some ∘ f) k m) with (<[k := f (m !! k)]> m).
  - destruct (m !! k) as [v|] eqn:Hk.
    + rewrite (map_total_replace cost m k v) by done. done.
    + rewrite map_total_insert by done. simpl. lia.
  - apply map_eq. intros j. destruct (decide (j = k)) as [->|].
    + by rewrite lookup_insert_eq, lookup_partial_alter_eq.
    + by rewrite lookup_insert_ne, lookup_partial_alter_ne by done.
Qed.

Lemma map_total_fmap (cost : V → Z) (f : V → V) (m : gmap K V) :
  (∀ v, cost (f v) = cost v) → map_total cost (f <$> m) = map_total cost m.
Proof.
  intros Hf. induction m as [|k v m Hk IH] using map_ind.
  - rewrite fmap_empty. done.
  - rewrite fmap_insert, !map_total_insert by (rewrite ?lookup_fmap, ?Hk; done). rewrite Hf. lia.
Qed.
End total_lemmas.

Definition rollup_bytes (r : RollupState.t) : Z :=
  RollupState.rx_bytes_total r + RollupState.tx_bytes_total r.
Definition rollup_packets (r : RollupState.t) : Z :=
  RollupState.rx_packets_total r + RollupState.tx_packets_total r.

(** Hosts and pairs account for the same traffic and the same flows. *)
Definition rollups_agree (st : FlowTable.t) : Prop :=
  map_total RollupState.flow_count (FlowTable.endpoint_rollups st) = FlowTable.total_flows_observed st ∧
  map_total RollupState.flow_count (FlowTable.conversation_rollups st) = FlowTable.total_flows_observed st ∧
  map_total rollup_bytes (FlowTable.endpoint_rollups st) =
    map_total rollup_bytes (FlowTable.conversation_rollups st) ∧
  map_total rollup_packets (FlowTable.endpoint_rollups st) =
    map_total rollup_packets (FlowTable.conversation_rollups st).

(** Only TCP and UDP packets have ports. *)
Definition layered (p : ParsedPacket) : Prop :=
  is_Some (src_port p) → protocol p = Tcp ∨ protocol p = Udp.

(** What the agent does to its table, with the number of flows each operation
    discards without counting them as evicted. *)
Inductive flow_op `{IterOrder} : FlowTable.t → Z → FlowTable.t → Prop :=
| op_observe st p l7 now tree expire :
    0 <= total_len p → layered p → flow_op st 0 (FlowTable.observe_inner st p l7 now tree expire).1
| op_evict st now : flow_op st 0 (FlowTable.evict_stale st now).1
| op_snapshot st now : flow_op st 0 (FlowTable.snapshot st now).1
| op_endpoints st now : flow_op st 0 (FlowTable.endpoint_snapshot st now).1
| op_conversations st now : flow_op st 0 (FlowTable.conversation_snapshot st now).1
| op_learn st name answers now : flow_op st 0 (FlowTable.learn_dns_response st name answers now)
| op_reset st addrs : flow_op st (Z.of_nat (size (FlowTable.flows st))) (FlowTable.reset st addrs).1.

(** A run of the agent, with the flows discarded by interface switches. *)
Inductive flow_run `{IterOrder} (start : FlowTable.t) : Z → FlowTable.t → Prop :=
| run_start : flow_run start 0 start
| run_step n st d st' : flow_run start n st → flow_op st d st' → flow_run start (n + d) st'.

Section flow_lemmas.
Context `{IterOrder}.
Import FlowTable.

(** What [observe_inner] does, in one equation on each field. *)
Lemma evict_idle_key_spec st key now st' closed :
  evict_idle_flow_key st key now = (st', closed) →
  Z.of_nat (size (flows st')) + idle_evictions st' = Z.of_nat (size (flows st)) + idle_evictions st ∧
  (flows st' = flows st ∨ flows st' = delete key (flows st)) ∧
  endpoint_rollups st' = endpoint_rollups st ∧ conversation_rollups st' = conversation_rollups st ∧
  total_flows_observed st' = total_flows_observed st ∧ capacity_evictions st' = capacity_evictions st ∧
  protocol_tree st' = protocol_tree st.
Proof.
  unfold evict_idle_flow_key. destruct (flows st !! key) as [s|] eqn:Hk;
    [|by intros [= <- <-]; auto 10].
  destruct (is_idle key s now); [|by intros [= <- <-]; auto 10].
  intros [= <- <-]. cbn. rewrite (size_delete_Some (flows st) key s Hk). split_and!; auto. lia.
Qed.

Lemma observe_inner_spec st p l7 now tree expire :
  let st' := (observe_inner st p l7 now tree expire).1 in
  (key_for st p = None ∧ flows st' = flows st ∧ endpoint_rollups st' = endpoint_rollups st ∧
     conversation_rollups st' = conversation_rollups st ∧
     total_flows_observed st' = total_flows_observed st ∧
     idle_evictions st' = idle_evictions st ∧ capacity_evictions st' = capacity_evictions st) ∨
  ∃ key outbound base new s,
    key_for st p = Some (key, outbound) ∧
    (base = flows st ∨ base = delete key (flows st)) ∧
    new = bool_decide (base !! key = None) ∧
    flows st' = <[key := s]> base ∧
    Z.of_nat (size base) + idle_evictions st' = Z.of_nat (size (flows st)) + idle_evictions st ∧
    capacity_evictions st' = capacity_evictions st ∧
    total_flows_observed st' = total_flows_observed st + Z.b2z new ∧
    let roll r := label_rollup l7 (RollupState.record outbound (total_len p) now new
                                     (default RollupState.default_rollup r)) in
    endpoint_rollups st' = partial_alter (Some ∘ roll) (remote_addr key) (endpoint_rollups st) ∧
    conversation_rollups st' =
      partial_alter (Some ∘ roll) (local_addr key, remote_addr key) (conversation_rollups st).
Proof.
  cbn zeta. unfold observe_inner. cbn zeta.
  set (st0 := if tree && _ then _ else st).
  assert (H0 : flows st0 = flows st ∧ endpoint_rollups st0 = endpoint_rollups st ∧
    conversation_rollups st0 = conversation_rollups st ∧
    total_flows_observed st0 = total_flows_observed st ∧ idle_evictions st0 = idle_evictions st ∧
    capacity_evictions st0 = capacity_evictions st ∧ key_for st0 p = key_for st p)
    by (unfold st0; destruct (tree && _); split_and!; reflexivity).
  destruct H0 as (F0 & E0 & C0 & T0 & I0 & P0 & K0). rewrite K0.
  destruct (key_for st p) as [[key outbound]|]; [right|left; cbn; by rewrite F0, E0, C0, T0, I0, P0].
  destruct (if expire then _ else _) as [st1 closed] eqn:Hst1.
  assert (H1 : Z.of_nat (size (flows st1)) + idle_evictions st1 = Z.of_nat (size (flows st)) + idle_evictions st ∧
    (flows st1 = flows st ∨ flows st1 = delete key (flows st)) ∧
    endpoint_rollups st1 = endpoint_rollups st ∧ conversation_rollups st1 = conversation_rollups st ∧
    total_flows_observed st1 = total_flows_observed st ∧ capacity_evictions st1 = capacity_evictions st).
  { destruct expire.
    - apply evict_idle_key_spec in Hst1. rewrite F0, E0, C0, T0, I0, P0 in Hst1.
      destruct Hst1 as (?&?&?&?&?&?&_). auto 10.
    - injection Hst1 as <- _. rewrite F0, E0, C0, T0, I0, P0. auto 10. }
  destruct H1 as (S1 & F1 & E1 & C1 & T1 & P1).
  set (new := bool_decide (flows st1 !! key = None)).
  destruct (update_flow p l7 outbound (remote_port key) now _) as [[s re] tr] eqn:Hu.
  exists key, outbound, (flows st1), new, s.
  destruct new eqn:En, tree; cbn; rewrite ?E1, ?C1, ?T1, ?P1; split_and!; auto; try lia; reflexivity.
Qed.
End flow_lemmas.

(** *** Rollups *)

Lemma record_costs out n now new r :
  RollupState.flow_count (RollupState.record out n now new r) = RollupState.flow_count r + Z.b2z new ∧
  rollup_bytes (RollupState.record out n now new r) = rollup_bytes r + n ∧
  rollup_packets (RollupState.record out n now new r) = rollup_packets r + 1.
Proof.
  unfold RollupState.record, rollup_bytes, rollup_packets.
  destruct out, new; cbn; split_and!; lia.
Qed.

Lemma label_costs l7 r :
  RollupState.flow_count (FlowTable.label_rollup l7 r) = RollupState.flow_count r ∧
  rollup_bytes (FlowTable.label_rollup l7 r) = rollup_bytes r ∧
  rollup_packets (FlowTable.label_rollup l7 r) = rollup_packets r.
Proof. unfold FlowTable.label_rollup. by repeat case_match. Qed.

(** A rollup map after one packet: each total moves by the packet's share. *)
Lemma roll_totals {K} `{Countable K} (m : gmap K RollupState.t) k l7 out n now new :
  let m' := partial_alter (Some ∘ λ r, FlowTable.label_rollup l7
              (RollupState.record out n now new (default RollupState.default_rollup r))) k m in
  map_total RollupState.flow_count m' = map_total RollupState.flow_count m + Z.b2z new ∧
  map_total rollup_bytes m' = map_total rollup_bytes m + n ∧
  map_total rollup_packets m' = map_total rollup_packets m + 1.
Proof.
  cbn zeta.
  assert (Hd : ∀ cost : RollupState.t → Z, cost RollupState.default_rollup = 0 →
    default 0 (cost <$> m !! k) = cost (default RollupState.default_rollup (m !! k))).
  { intros cost Hc. destruct (m !! k); simpl; [done|]. by rewrite Hc. }
  destruct (label_costs l7 (RollupState.record out n now new (default RollupState.default_rollup (m !! k))))
    as (L1 & L2 & L3).
  destruct (record_costs out n now new (default RollupState.default_rollup (m !! k))) as (R1 & R2 & R3).
  rewrite !map_total_alter, !Hd, L1, L2, L3, R1, R2, R3 by done. lia.
Qed.

Lemma drain_costs r :
  RollupState.flow_count (RollupState.drain_tick r) = RollupState.flow_count r ∧
  rollup_bytes (RollupState.drain_tick r) = rollup_bytes r ∧
  rollup_packets (RollupState.drain_tick r) = rollup_packets r.
Proof. done. Qed.

(** *** Eviction *)

Section map_filter_lemmas.
Context {K : Type} `{Countable K} {V : Type} (P : K * V → Prop) `{!∀ x, Decision (P x)}.

Lemma map_to_list_filter (m : gmap K V) : map_to_list (filter P m) ≡ₚ filter P (map_to_list m).
Proof.
  apply NoDup_Permutation.
  - apply NoDup_map_to_list.
  - apply NoDup_filter, NoDup_map_to_list.
  - intros [k v]. rewrite list_elem_of_filter, !elem_of_map_to_list, map_lookup_filter_Some.
    apply and_comm.
Qed.

Lemma delete_all_lookup (ks : list K) (m : gmap K V) k :
  foldl (λ m k, delete k m) m ks !! k = if bool_decide (k ∈ ks) then None else m !! k.
Proof.
  revert m. induction ks as [|j ks IH]; intros m; cbn [foldl].
  { rewrite bool_decide_false; [done|apply not_elem_of_nil]. }
  rewrite IH. destruct (decide (k = j)) as [->|Hne].
  - rewrite (bool_decide_true (j ∈ j :: ks)) by left. rewrite lookup_delete_eq. by case_bool_decide.
  - rewrite lookup_delete_ne by done.
    assert (k ∈ j :: ks ↔ k ∈ ks) as Hiff by (rewrite elem_of_cons; tauto).
    by rewrite (bool_decide_ext _ _ Hiff).
Qed.

Lemma delete_all_size (ks : list K) (m : gmap K V) :
  NoDup ks → (∀ k, k ∈ ks → is_Some (m !! k)) →
  (size (foldl (λ m k, delete k m) m ks) + length ks = size m)%nat.
Proof.
  intros Hnd. revert m. induction Hnd as [|k ks Hk _ IH]; intros m Hm; simpl; [lia|].
  destruct (Hm k) as [v Hv]; [left|]. rewrite (size_delete_Some m k v Hv).
  rewrite <- (IH (delete k m)); [lia|]. intros j Hj. rewrite lookup_delete_ne by set_solver.
  apply Hm. by right.
Qed.
End map_filter_lemmas.

Lemma NoDup_fmap_fst_filter `{IterOrder} {K V} `{Countable K} (P : K * V → Prop)
    `{!∀ x, Decision (P x)} (m : gmap K V) : NoDup (filter P (iter m)).*1.
Proof.
  pose proof (NoDup_iter_fst m) as Hnd. revert Hnd. generalize (iter m). intros l.
  induction l as [|[k v] l IH]; [done|]. rewrite fmap_cons, NoDup_cons. intros [Hk Hl].
  rewrite filter_cons. destruct (decide (P (k, v))); [|by apply IH].
  rewrite fmap_cons, NoDup_cons. split; [|by apply IH]. contradict Hk.
  apply list_elem_of_fmap in Hk as (x & -> & [_ Hx]%list_elem_of_filter).
  apply list_elem_of_fmap. by exists x.
Qed.

Section evict.
Context `{IterOrder}.
Import FlowTable.

(** The three groups of an eviction pass. *)
Definition stale_of (st : t) (now : Z) := filter (λ kv : FlowKey * FlowState.t, is_idle kv.1 kv.2 now = true) (iter (flows st)).
Definition live_of (st : t) (now : Z) := filter (λ kv : FlowKey * FlowState.t, is_idle kv.1 kv.2 now = false) (flows st).
Definition over_of (st : t) (now : Z) : list (FlowKey * FlowState.t) :=
  if max_flows st <? Z.of_nat (size (live_of st now)) then
    ztake (Z.of_nat (size (live_of st now)) - max_flows st)
      (sort_by_key (λ kv : FlowKey * FlowState.t, FlowState.last_seen_ms kv.2) (iter (live_of st now)))
  else [].

Lemma evict_stale_eq st now :
  evict_stale st now =
  (st <| flows := foldl (λ m k, delete k m) (live_of st now) (over_of st now).*1 |>
      <| idle_evictions ::= Z.add (zlen (stale_of st now)) |>
      <| capacity_evictions ::= Z.add (zlen (over_of st now)) |>,
   mkEvictedFlows (stale_of st now).*1 (over_of st now).*1).
Proof. reflexivity. Qed.

Lemma stale_live_size st now :
  (length (stale_of st now) + size (live_of st now) = size (flows st))%nat.
Proof.
  unfold stale_of, live_of. rewrite <- (length_map_to_list (filter _ (flows st))), map_to_list_filter.
  rewrite <- (length_map_to_list (flows st)), iter_perm.
  pose proof (filter_app_complement (λ kv : FlowKey * FlowState.t, is_idle kv.1 kv.2 now = true)
                (map_to_list (flows st))) as Hp.
  rewrite <- Hp at 3. rewrite length_app. f_equal. f_equal. apply list_filter_iff.
  intros [k s]. simpl. by destruct (is_idle k s now).
Qed.

Lemma over_live st now k s :
  (k, s) ∈ over_of st now → live_of st now !! k = Some s.
Proof.
  unfold over_of. destruct (_ <? _); [|by intros ?%not_elem_of_nil]. unfold ztake. intros Hin.
  apply elem_of_take in Hin as (i & Hi & _). apply list_elem_of_lookup_2 in Hi.
  rewrite sort_by_key_perm in Hi. by apply elem_of_iter in Hi.
Qed.

Lemma over_nodup st now : NoDup (over_of st now).*1.
Proof.
  unfold over_of. destruct (_ <? _); [|constructor].
  set (sorted := sort_by_key _ _). set (n := Z.of_nat _ - _).
  assert (Hnd : NoDup sorted.*1) by (unfold sorted; rewrite sort_by_key_perm; apply NoDup_iter_fst).
  rewrite <- (ztake_zdrop n sorted), fmap_app in Hnd. by apply NoDup_app in Hnd as [? _].
Qed.

Lemma evict_stale_size st now :
  let '(st', ev) := evict_stale st now in
  (size (flows st') + length (idle ev) + length (capacity ev) = size (flows st))%nat ∧
  (0 <= max_flows st → Z.of_nat (size (flows st')) <= max_flows st).
Proof.
  rewrite evict_stale_eq. cbn. rewrite !length_fmap.
  pose proof (stale_live_size st now) as Hs.
  assert (Hd : (size (foldl (λ m k, delete k m) (live_of st now) (over_of st now).*1)
                + length (over_of st now) = size (live_of st now))%nat).
  { rewrite <- (length_fmap fst (over_of st now)). apply delete_all_size; [apply over_nodup|].
    intros k ([k' s] & -> & Hin)%list_elem_of_fmap. exists s. by apply over_live in Hin. }
  split; [lia|]. intros Hm. unfold over_of in *.
  destruct (Z.ltb_spec (max_flows st) (Z.of_nat (size (live_of st now)))) as [Hlt|Hle]; [|simpl in *; lia].
  rewrite length_ztake, (Permutation_length (sort_by_key_perm _ _)), length_iter in Hd. lia.
Qed.

(** The survivors of the capacity pass are at least as recent as its victims. *)
Lemma over_oldest st now k s k' s' :
  (k, s) ∈ over_of st now → live_of st now !! k' = Some s' → k' ∉ (over_of st now).*1 →
  FlowState.last_seen_ms s <= FlowState.last_seen_ms s'.
Proof.
  unfold over_of. destruct (_ <? _); [|by intros ?%not_elem_of_nil].
  set (sorted := sort_by_key _ _). set (n := Z.of_nat _ - _). intros Hin Hk' Hnot.
  pose proof (sort_by_key_sorted (λ kv : FlowKey * FlowState.t, FlowState.last_seen_ms kv.2)
                (iter (live_of st now))) as Hsorted. fold sorted in Hsorted.
  assert (Hin' : (k', s') ∈ zdrop n sorted).
  { assert (Hall : (k', s') ∈ sorted)
      by (unfold sorted; rewrite sort_by_key_perm; by apply elem_of_iter).
    rewrite <- (ztake_zdrop n sorted) in Hall. apply elem_of_app in Hall as [Ht|]; [|done].
    exfalso. apply Hnot. apply list_elem_of_fmap. by exists (k', s'). }
  rewrite <- (ztake_zdrop n sorted) in Hsorted.
  exact (StronglySorted_app_1_elem_of _ _ _ (k, s) (k', s') Hsorted Hin Hin').
Qed.
End evict.

(** *** The hierarchy *)

Definition children_total (cost : ProtocolNode → Z) (cs : list (bytes * ProtocolNode)) : Z :=
  foldr (λ kc acc, cost kc.2 + acc) 0 cs.

(** The layers that have a layer below them. *)
Definition inner (path : list bytes) : bool :=
  bool_decide (path ∈ [[]; [lit "Ethernet"]; [lit "Ethernet"; lit "IP"];
                       [lit "Ethernet"; lit "IP"; lit "TCP"]; [lit "Ethernet"; lit "IP"; lit "UDP"]]).

(** Every such node is exactly the sum of its children; the others have none. *)
Inductive tree_ok : list bytes → ProtocolNode → Prop :=
| tree_inner path b p cs :
    inner path = true → b = children_total node_bytes cs → p = children_total node_packets cs →
    (∀ k c, (k, c) ∈ cs → tree_ok (path ++ [k]) c) → tree_ok path (mkNode b p cs)
| tree_leaf path b p : inner path = false → tree_ok path (mkNode b p []).

Lemma empty_node_ok path : tree_ok path empty_node.
Proof.
  destruct (inner path) eqn:Hi; [|by constructor]. constructor; try done.
  intros k c []%not_elem_of_nil.
Qed.

Lemma update_child_total cost n f k cs :
  cost empty_node = 0 → (∀ c, cost (f c) = cost c + n) →
  children_total cost (update_child k f cs) = children_total cost cs + n.
Proof.
  intros H0 Hf. induction cs as [|[k' c] cs IH]; simpl; [rewrite Hf, H0; lia|].
  destruct (bool_decide _); simpl; [rewrite Hf; lia|].
  destruct (bytes_le k k'); simpl; [rewrite Hf, H0; lia|]. rewrite IH. lia.
Qed.

Lemma update_child_elem k f cs j c :
  (j, c) ∈ update_child k f cs → (j, c) ∈ cs ∨ j = k ∧ ∃ c0, c = f c0 ∧ (c0 = empty_node ∨ (k, c0) ∈ cs).
Proof.
  induction cs as [|[k' c'] cs IH]; simpl.
  - intros [[= -> ->]|[]%not_elem_of_nil]%elem_of_cons. right. split; [done|]. exists empty_node. auto.
  - case_bool_decide as Hk; [subst k'|].
    + intros [[= -> ->]|Hin]%elem_of_cons; [right; split; [done|]; exists c'; split; [done|right; left]|].
      left. by right.
    + destruct (bytes_le k k').
      * intros [[= -> ->]|Hin]%elem_of_cons; [right; split; [done|]; exists empty_node; auto|by left].
      * intros [[= -> ->]|Hin]%elem_of_cons; [left; left|].
        destruct (IH Hin) as [?|(-> & c0 & -> & [->|?])]; [left; by right|right; split; [done|]; exists empty_node; auto|].
        right. split; [done|]. exists c0. split; [done|]. right. by right.
Qed.

Lemma node_add_costs path b n :
  node_bytes (node_add path b n) = node_bytes n + b ∧ node_packets (node_add path b n) = node_packets n + 1.
Proof. by destruct path, n. Qed.

(** A path through inner layers that ends on a leaf keeps the sums. *)
Fixpoint path_ok (at_ path : list bytes) : Prop :=
  match path with
  | [] => inner at_ = false
  | head :: rest => inner at_ = true ∧ path_ok (at_ ++ [head]) rest
  end.

Lemma node_add_ok path at_ b n :
  path_ok at_ path → tree_ok at_ n → tree_ok at_ (node_add path b n).
Proof.
  revert at_ n. induction path as [|head rest IH]; intros at_ n Hp Hn; simpl in Hp.
  - inversion Hn as [? ? ? ? Hi|? ? ? Hi]; subst; [congruence|]. by constructor.
  - destruct Hp as [Hi Hp]. inversion Hn as [? ? ? cs _ Hb Hpk Hc|? ? ? Hi']; subst; [|congruence].
    cbn [node_add]. constructor; [done| | |].
    + rewrite (update_child_total node_bytes b); [done|done|]. intros c. apply node_add_costs.
    + rewrite (update_child_total node_packets 1); [done|done|]. intros c. apply node_add_costs.
    + intros k c [Hin|(-> & c0 & -> & [->|Hin])]%update_child_elem; [by apply Hc| |].
      * apply IH; [done|apply empty_node_ok].
      * apply IH; [done|by apply Hc].
Qed.

Lemma layer_paths_ok p app :
  (p ≠ Tcp → p ≠ Udp → path_ok [] [lit "Ethernet"; lit "IP"; FlowTable.transport_label p]) ∧
  (p = Tcp ∨ p = Udp → path_ok [] [lit "Ethernet"; lit "IP"; FlowTable.transport_label p; app]).
Proof.
  assert (Hlong : ∀ t, inner [lit "Ethernet"; lit "IP"; t; app] = false).
  { intros t. unfold inner. apply bool_decide_eq_false. rewrite !elem_of_cons, elem_of_nil.
    intros Hin. by repeat (destruct Hin as [Hin|Hin]; [discriminate Hin|]). }
  split.
  - intros H1 H2. destruct p; try done; repeat split; by vm_compute.
  - intros [->| ->]; (split; [done|]); (split; [done|]); (split; [done|]); (split; [done|]); apply Hlong.
Qed.

(** ** Invariants of a run *)

Section run_lemmas.
Context `{IterOrder}.
Import FlowTable.

Lemma parse_packet_layered `{Slicer} `{!SlicerLaws} data link_type p :
  parse_packet data link_type = Some p → layered p ∧ 0 <= total_len p.
Proof.
  intros Hp. apply parse_packet_inv in Hp as (s & src & dst & vlan & _ & Hb).
  unfold build_parsed_packet in Hb. destruct (net_fields (net s)); [|done]. injection Hb as <-.
  split; [|cbn; apply Z.mod_pos_bound; lia].
  unfold layered. cbn. destruct (transport s) as [[tcp|udp| |]|]; cbn; intros [x Hx]; auto; discriminate Hx.
Qed.

Definition flow_inv (n : Z) (st : t) : Prop :=
  total_flows_observed st =
    Z.of_nat (size (flows st)) + idle_evictions st + capacity_evictions st + n ∧
  rollups_agree st ∧ tree_ok [] (protocol_tree st).

Lemma key_for_layered st p key out : layered p → key_for st p = Some (key, out) →
  protocol p = Tcp ∨ protocol p = Udp.
Proof.
  intros Hl. unfold key_for. destruct (src_port p) eqn:Hs; [|done]. intros _. apply Hl. by rewrite Hs.
Qed.

Lemma observe_inner_tree st p l7 now tree expire :
  layered p → tree_ok [] (protocol_tree st) →
  tree_ok [] (protocol_tree (observe_inner st p l7 now tree expire).1).
Proof.
  intros Hl Ht. unfold observe_inner. cbn zeta. set (st0 := if tree && _ then _ else st).
  assert (H0 : tree_ok [] (protocol_tree st0) ∧ key_for st0 p = key_for st p).
  { unfold st0. destruct (tree && _) eqn:Hc; [|done]. split; [|done].
    apply node_add_ok; [|done]. apply andb_true_iff in Hc as [_ Hc].
    rewrite negb_true_iff, orb_false_iff, !bool_decide_eq_false in Hc.
    exact (proj1 (layer_paths_ok (protocol p) []) (proj1 Hc) (proj2 Hc)). }
  destruct H0 as [Ht0 ->]. destruct (key_for st p) as [[key out]|] eqn:Hk; [|exact Ht0].
  pose proof (key_for_layered st p key out Hl Hk) as Hp.
  destruct (if expire then _ else _) as [st1 closed] eqn:Hst1.
  assert (Ht1 : tree_ok [] (protocol_tree st1)).
  { destruct expire; [|by injection Hst1 as <- _].
    apply evict_idle_key_spec in Hst1 as (_ & _ & _ & _ & _ & _ & ->). done. }
  destruct (update_flow _ _ _ _ _ _) as [[s re] tr]. cbn [fst].
  destruct tree, (bool_decide (flows st1 !! key = None)); try exact Ht1;
    (apply node_add_ok; [by apply (proj2 (layer_paths_ok (protocol p) _))|exact Ht1]).
Qed.

Lemma observe_inner_inv n st p l7 now tree expire :
  layered p → flow_inv n st → flow_inv n (observe_inner st p l7 now tree expire).1.
Proof.
  intros Hl (Ha & Hr & Ht). pose proof (observe_inner_tree st p l7 now tree expire Hl Ht) as Ht'.
  pose proof (observe_inner_spec st p l7 now tree expire) as Hs. cbn zeta in Hs.
  set (st' := (observe_inner st p l7 now tree expire).1) in *.
  destruct Hs as [(_ & F & E & C & T & I & P)|(key & out & base & new & s & _ & Hb & Hn & F & S & P & T & E & C)].
  - unfold flow_inv, rollups_agree. rewrite F, E, C, T, I, P. done.
  - split; [|split; [|done]].
    + rewrite F, T, P. destruct new.
      * symmetry in Hn. apply bool_decide_eq_true in Hn. rewrite map_size_insert_None by done.
        simpl Z.b2z. lia.
      * symmetry in Hn. apply bool_decide_eq_false in Hn.
        rewrite map_size_insert_Some by (by apply not_eq_None_Some). simpl Z.b2z. lia.
    + destruct Hr as (R1 & R2 & R3 & R4). unfold rollups_agree. rewrite E, C, T.
      destruct (roll_totals (endpoint_rollups st) (remote_addr key) l7 out (total_len p) now new)
        as (-> & -> & ->).
      destruct (roll_totals (conversation_rollups st) (local_addr key, remote_addr key) l7 out
                  (total_len p) now new) as (-> & -> & ->).
      lia.
Qed.

Lemma flow_op_inv n st d st' : flow_op st d st' → flow_inv n st → flow_inv (n + d) st'.
Proof.
  intros [? p l7 now tree expire _ Hl|? now|? now|? now|? now|? name answers now|? addrs]; cbn [fst].
  - rewrite Z.add_0_r. by apply observe_inner_inv.
  - intros (Ha & Hr & Ht). pose proof (evict_stale_size st0 now) as He.
    rewrite evict_stale_eq in *. split; [|split; [exact Hr|exact Ht]].
    cbn in He |- *. rewrite !length_fmap in He. lia.
  - intros (Ha & Hr & Ht). split; [|split; [exact Hr|exact Ht]]. cbn.
    rewrite map_size_fmap. lia.
  - intros (Ha & (R1 & R2 & R3 & R4) & Ht). split; [cbn; lia|split; [|exact Ht]].
    unfold rollups_agree. cbn. rewrite !map_total_fmap by done. done.
  - intros (Ha & (R1 & R2 & R3 & R4) & Ht). split; [cbn; lia|split; [|exact Ht]].
    unfold rollups_agree. cbn. rewrite !map_total_fmap by done. done.
  - intros (Ha & Hr & Ht). split; [cbn; lia|split; [exact Hr|exact Ht]].
  - intros (Ha & Hr & Ht). split; [cbn; rewrite map_size_empty; lia|split; [exact Hr|exact Ht]].
Qed.

Lemma flow_run_inv addrs max n st :
  flow_run (new_with_capacity addrs max) n st → flow_inv n st.
Proof.
  induction 1 as [|n st d st' _ IH Hop]; [|by apply (flow_op_inv n st)].
  split; [done|]. split; [done|]. apply empty_node_ok.
Qed.
End run_lemmas.

(** ** Theorems *)

Section flow_theorems.
Context `{IterOrder}.
Import FlowTable.

(** C11: the flow table loses no flow silently.  Over any run of the agent,
    every flow ever observed is still in the table, was counted as an idle or
    as a capacity eviction, or was discarded by an interface switch; and the
    hosts and the pairs account for the same flows, bytes and packets. *)
Theorem flow_accounting (addrs : list bytes) (max n : Z) (st : t) :
  flow_run (new_with_capacity addrs max) n st →
  total_flows_observed st =
    Z.of_nat (size (flows st)) + idle_evictions st + capacity_evictions st + n ∧
  rollups_agree st.
Proof. intros Hr. destruct (flow_run_inv _ _ _ _ Hr) as (Ha & Hb & _). done. Qed.

(** In the measured protocol hierarchy of any run, the bytes and packets
    of Ethernet, IP, TCP and UDP are exactly the sums of the layers below
    them, and no other layer has one below. *)
Theorem protocol_hierarchy_sums (addrs : list bytes) (max n : Z) (st : t) :
  flow_run (new_with_capacity addrs max) n st → tree_ok [] (protocol_tree st).
Proof. intros Hr. by destruct (flow_run_inv _ _ _ _ Hr) as (_ & _ & Ht). Qed.

Lemma elem_of_stale st now k :
  k ∈ (stale_of st now).*1 ↔ ∃ s, flows st !! k = Some s ∧ is_idle k s now = true.
Proof.
  unfold stale_of. rewrite list_elem_of_fmap. split.
  - intros ([k' s] & -> & [Hi Hin]%list_elem_of_filter). exists s. split; [by apply elem_of_iter in Hin|done].
  - intros (s & Hs & Hi). exists (k, s). split; [done|]. apply list_elem_of_filter.
    split; [done|]. by apply elem_of_iter.
Qed.

Lemma live_lookup st now k s :
  live_of st now !! k = Some s ↔ flows st !! k = Some s ∧ is_idle k s now = false.
Proof. apply map_lookup_filter_Some. Qed.

Lemma evict_stale_lookup st now k :
  flows (evict_stale st now).1 !! k =
  if bool_decide (k ∈ (over_of st now).*1) then None else live_of st now !! k.
Proof. rewrite evict_stale_eq. apply delete_all_lookup. Qed.

Lemma over_keys_live st now k :
  k ∈ (over_of st now).*1 → ∃ s, (k, s) ∈ over_of st now ∧ live_of st now !! k = Some s.
Proof.
  intros ([k' s] & -> & Hin)%list_elem_of_fmap. exists s. split; [done|]. by apply over_live.
Qed.

Lemma evicted_nodup st now : NoDup ((stale_of st now).*1 ++ (over_of st now).*1).
Proof.
  apply NoDup_app. split_and!; [|intros k Hk Ho|apply over_nodup].
  - unfold stale_of. apply NoDup_fmap_fst_filter.
  - apply elem_of_stale in Hk as (s & Hs & Hi). apply over_keys_live in Ho as (s' & _ & Hl).
    apply live_lookup in Hl as [Hs' Hi']. congruence.
Qed.

Lemma evicted_keys st now k :
  k ∈ (stale_of st now).*1 ++ (over_of st now).*1 ↔
  is_Some (flows st !! k) ∧ flows (evict_stale st now).1 !! k = None.
Proof.
  rewrite evict_stale_lookup, elem_of_app, elem_of_stale. case_bool_decide as Hin.
  - split; [|by right]. intros _. split; [|done].
    apply over_keys_live in Hin as (s & _ & Hl). apply live_lookup in Hl as [-> _]. done.
  - split.
    + intros [(s & Hs & Hi)|]; [|done]. rewrite Hs. split; [done|].
      destruct (live_of st now !! k) as [s'|] eqn:Hl; [|done].
      apply live_lookup in Hl as [? ?]. congruence.
    + intros [[s Hs] Hl]. left. exists s. split; [done|].
      destruct (is_idle k s now) eqn:Hi; [done|].
      rewrite (proj2 (live_lookup st now k s)) in Hl by done. done.
Qed.

(** C27: eviction.  Afterwards the table is within its ceiling and holds no
    idle flow; the keys reported are exactly the flows removed, each once; those
    reported as idle were idle, and those dropped for capacity are not more
    recent than any that stays. *)
Theorem evict_stale_correct (st : t) (now : Z) :
  0 <= max_flows st →
  let st' := (evict_stale st now).1 in
  let ev := (evict_stale st now).2 in
  Z.of_nat (size (flows st')) <= max_flows st ∧
  NoDup (idle ev ++ capacity ev) ∧
  (∀ k, k ∈ idle ev ++ capacity ev ↔ is_Some (flows st !! k) ∧ flows st' !! k = None) ∧
  (∀ k, k ∈ idle ev → ∃ s, flows st !! k = Some s ∧ is_idle k s now = true) ∧
  (∀ k s, flows st' !! k = Some s → flows st !! k = Some s ∧ is_idle k s now = false) ∧
  (∀ k s k' s', k ∈ capacity ev → flows st !! k = Some s → flows st' !! k' = Some s' →
     FlowState.last_seen_ms s <= FlowState.last_seen_ms s').
Proof.
  intros Hm. cbn zeta. split_and!.
  - pose proof (evict_stale_size st now) as Hs. destruct (evict_stale st now). by apply Hs.
  - exact (evicted_nodup st now).
  - exact (evicted_keys st now).
  - intros k Hk. by apply (elem_of_stale st now k).
  - intros k s. rewrite evict_stale_lookup. case_bool_decide; [done|]. apply live_lookup.
  - intros k s k' s' Hk Hs. rewrite evict_stale_lookup. case_bool_decide as Hin; [done|]. intros Hk'.
    apply (over_keys_live st now k) in Hk as (s0 & Ho & Hl). apply live_lookup in Hl as [Hs0 _].
    assert (s0 = s) as -> by congruence. by apply (over_oldest st now k s k' s').
Qed.

(** ** One flow over time *)

(** What a flow learned from its ClientHello, what closes it, and its segment
    counters. *)
Definition hello_facts (s : FlowState.t) : option bytes * option bytes * option bytes * option bool :=
  (FlowState.ja3_fingerprint s, FlowState.ja3_label s, FlowState.client_random s,
   FlowState.client_is_outbound s).
Definition rst_facts (s : FlowState.t) : bool * bytes := (FlowState.rst_seen s, FlowState.conn_id s).
Definition loss_facts (s : FlowState.t) : Z * Z := (FlowState.retransmits s, FlowState.segments s).

Lemma note_bytes_facts p out now s :
  hello_facts (note_bytes p out now s) = hello_facts s ∧
  rst_facts (note_bytes p out now s) = rst_facts s ∧ loss_facts (note_bytes p out now s) = loss_facts s.
Proof.
  unfold note_bytes. destruct (tcp_flags p) as [f|], (tcp_seq p), out; try done; by destruct (syn f).
Qed.

Lemma note_l7_facts l7 out port s :
  (is_Some (FlowState.ja3_fingerprint s) → hello_facts (note_l7 l7 out port s) = hello_facts s) ∧
  rst_facts (note_l7 l7 out port s) = rst_facts s ∧ loss_facts (note_l7 l7 out port s) = loss_facts s.
Proof.
  unfold note_l7. destruct l7; try done.
  - cbn zeta. case_bool_decide as Hb; [|done]. split; [|done]. intros [j Hj]. cbn in Hb. congruence.
  - case_bool_decide; [|done]. by destruct (well_known_protocol port).
Qed.

Lemma note_flags_facts f out now s :
  let '(s', tr) := note_flags f out now s in
  hello_facts s' = hello_facts s ∧ loss_facts s' = loss_facts s ∧
  FlowState.conn_id s' = FlowState.conn_id s ∧
  FlowState.rst_seen s' = FlowState.rst_seen s || rst f ∧
  tr = negb (FlowState.rst_seen s) && rst f.
Proof.
  unfold note_flags. cbn zeta.
  set (s1 := if syn f && negb (ack f) then _ else s).
  set (s2 := if syn f && ack f && negb out then _ else s1).
  set (s3 := if ack f then _ else s2). set (s4 := if fin f then _ else s3).
  assert (H4 : hello_facts s4 = hello_facts s ∧ loss_facts s4 = loss_facts s ∧ rst_facts s4 = rst_facts s).
  { assert (H1 : hello_facts s1 = hello_facts s ∧ loss_facts s1 = loss_facts s ∧ rst_facts s1 = rst_facts s)
      by (unfold s1; by destruct (_ && _)).
    assert (H2 : hello_facts s2 = hello_facts s1 ∧ loss_facts s2 = loss_facts s1 ∧ rst_facts s2 = rst_facts s1)
      by (unfold s2; clearbody s1; destruct (syn f && ack f && negb out); [|done];
          by destruct (FlowState.syn_sent_at_ms s1)).
    assert (H3 : hello_facts s3 = hello_facts s2 ∧ loss_facts s3 = loss_facts s2 ∧ rst_facts s3 = rst_facts s2)
      by (unfold s3; by destruct (ack f)).
    assert (H4 : hello_facts s4 = hello_facts s3 ∧ loss_facts s4 = loss_facts s3 ∧ rst_facts s4 = rst_facts s3)
      by (unfold s4; by destruct (fin f)).
    clearbody s1 s2 s3 s4.
    destruct H1 as (?&?&?), H2 as (?&?&?), H3 as (?&?&?), H4 as (?&?&?). split_and!; congruence. }
  destruct H4 as (E1 & E2 & E3). unfold rst_facts in E3. injection E3 as E3 E4.
  clearbody s4. destruct (rst f).
  - split_and!; [exact E1|exact E2|exact E4|by destruct (FlowState.rst_seen s)|].
    rewrite E3. by destruct (FlowState.rst_seen s).
  - split_and!; [done..|by rewrite E3, orb_false_r|by rewrite andb_false_r].
Qed.

Lemma note_segment_facts p out s :
  let s' := (note_segment p out s).1 in
  hello_facts s' = hello_facts s ∧ rst_facts s' = rst_facts s ∧
  ((FlowState.segments s' = FlowState.segments s + 1 ∧
    FlowState.retransmits s' = FlowState.retransmits s + Z.b2z (note_segment p out s).2) ∨
   loss_facts s' = loss_facts s ∧ (note_segment p out s).2 = false).
Proof.
  cbn zeta. unfold note_segment. destruct (tcp_seq p) as [q|]; [|auto].
  destruct (bool_decide _); [auto|]. cbn zeta.
  set (re := match _ with Some _ => _ | None => false end). destruct re; split_and!; try done;
    left; cbn; lia.
Qed.
End flow_theorems.

Section flow_lifetime.
Context `{IterOrder}.
Import FlowTable.

Lemma update_flow_facts p l7 out port now s :
  let '(s', re, tr) := update_flow p l7 out port now s in
  (is_Some (FlowState.ja3_fingerprint s) → hello_facts s' = hello_facts s) ∧
  FlowState.conn_id s' = FlowState.conn_id s ∧
  FlowState.rst_seen s' = FlowState.rst_seen s || default false (rst <$> tcp_flags p) ∧
  tr = negb (FlowState.rst_seen s) && default false (rst <$> tcp_flags p) ∧
  (FlowState.segments s' = FlowState.segments s + 1 ∧
     FlowState.retransmits s' = FlowState.retransmits s + Z.b2z re ∨
   loss_facts s' = loss_facts s ∧ re = false).
Proof.
  unfold update_flow. destruct (note_bytes_facts p out now s) as (B1 & B2 & B3).
  set (s1 := note_bytes p out now s) in *.
  destruct (note_l7_facts l7 out port s1) as (L1 & L2 & L3). set (s2 := note_l7 l7 out port s1) in *.
  assert (A1 : is_Some (FlowState.ja3_fingerprint s) → hello_facts s2 = hello_facts s).
  { intros Hj. rewrite L1, B1; [done|]. unfold hello_facts in B1. injection B1 as -> _ _ _. done. }
  rewrite B2 in L2. rewrite B3 in L3. clearbody s1 s2. unfold rst_facts in L2. injection L2 as L2 L2'.
  destruct (tcp_flags p) as [f|]; cbn [fmap option_fmap option_map default from_option].
  - pose proof (note_flags_facts f out now s2) as Hf.
    destruct (note_flags f out now s2) as [s3 tr]. destruct Hf as (F1 & F2 & F3 & F4 & F5).
    pose proof (note_segment_facts p out s3) as Hs. cbn zeta in Hs.
    destruct (note_segment p out s3) as [s4 re]. cbn in Hs. destruct Hs as (S1 & S2 & S3).
    unfold rst_facts, loss_facts in *. injection S2 as S2 S2'. injection F2 as F2 F2'. injection L3 as L3 L3'.
    split_and!; [intros Hj; rewrite S1, F1; by apply A1|by rewrite S2', F3, L2'|by rewrite S2, F4, L2
      |by rewrite F5, L2|].
    destruct S3 as [[-> ->]|[S3 ->]]; [left; rewrite F2, F2', L3, L3'; done|right].
    split; [congruence|done].
  - split_and!; [done|done|by rewrite L2, orb_false_r|by rewrite andb_false_r|by right].
Qed.

(** The flow a packet lands on, and the others. *)
Lemma observe_flow st p l7 now tree key out :
  key_for st p = Some (key, out) →
  let s := default (FlowState.default_state <| FlowState.conn_id := connection_id key |>) (flows st !! key) in
  let '(s', re, tr) := update_flow p l7 out (remote_port key) now s in
  flows (observe_inner st p l7 now tree false).1 = <[key := s']> (flows st) ∧
  (observe_inner st p l7 now tree false).2 =
    Some (mkObserveResult out re tr (if tr then Some (FlowState.conn_id s') else None) None).
Proof.
  intros Hk. cbn zeta. unfold observe_inner. cbn zeta. set (st0 := if tree && _ then _ else st).
  assert (H0 : key_for st0 p = key_for st p ∧ flows st0 = flows st)
    by (unfold st0; by destruct (tree && _)). destruct H0 as [Hk0 Hf]. clearbody st0.
  rewrite Hk0, Hk.
  assert (Hf1 : flows (if bool_decide (flows st0 !! key = None)
                       then st0 <| total_flows_observed ::= Z.succ |> else st0) = flows st)
    by (rewrite <- Hf; by destruct (bool_decide (flows st0 !! key = None))).
  rewrite Hf1. clear Hf1.
  destruct (update_flow _ _ _ _ _ _) as [[s' re] tr]. split; [|done]. cbn [fst].
  destruct tree, (bool_decide (flows st0 !! key = None)); cbn; by rewrite Hf.
Qed.

(** A packet on a flow already in the table.  Its fingerprint, label,
    client random and client side, once learned, never change; the reset is
    reported for exactly the first RST, with the flow's own id; the loss counters
    move together; every other flow is untouched. *)
Theorem observe_existing_flow st p l7 now tree key out s :
  key_for st p = Some (key, out) → flows st !! key = Some s →
  let '(st', r) := observe_inner st p l7 now tree false in
  ∃ s' o, flows st' = <[key := s']> (flows st) ∧ r = Some o ∧ is_outbound o = out ∧
    (is_Some (FlowState.ja3_fingerprint s) → hello_facts s' = hello_facts s) ∧
    FlowState.rst_seen s' = FlowState.rst_seen s || default false (rst <$> tcp_flags p) ∧
    rst_transitioned o = negb (FlowState.rst_seen s) && default false (rst <$> tcp_flags p) ∧
    obs_connection_id o = (if rst_transitioned o then Some (FlowState.conn_id s) else None) ∧
    FlowState.retransmits s' - FlowState.retransmits s = Z.b2z (is_retransmit o) ∧
    Z.b2z (is_retransmit o) <= FlowState.segments s' - FlowState.segments s <= 1.
Proof.
  intros Hk Hs. pose proof (observe_flow st p l7 now tree key out Hk) as Ho. cbn zeta in Ho.
  rewrite Hs in Ho. simpl default in Ho.
  pose proof (update_flow_facts p l7 out (remote_port key) now s) as Hu.
  destruct (update_flow p l7 out (remote_port key) now s) as [[s' re] tr].
  destruct (observe_inner st p l7 now tree false) as [st' r]. cbn [fst snd] in Ho.
  destruct Ho as [Hf ->], Hu as (U1 & U2 & U3 & U4 & U5).
  assert (FlowState.retransmits s' - FlowState.retransmits s = Z.b2z re ∧
          Z.b2z re <= FlowState.segments s' - FlowState.segments s <= 1) as [HL1 HL2].
  { destruct U5 as [[E1 E2]|[E1 ->]]; [destruct re; simpl Z.b2z in *; lia|].
    unfold loss_facts in E1. injection E1 as E1 E2. simpl Z.b2z. lia. }
  eexists s', _. split; [exact Hf|]. split; [reflexivity|]. split_and!; try done.
  - cbn. by rewrite U2.
  - apply HL2.
  - apply HL2.
Qed.

(** *** Loss *)

Definition loss_ok (s : FlowState.t) : Prop := 0 <= FlowState.retransmits s <= FlowState.segments s.

Lemma packet_loss_range s : loss_ok s → (0 <= packet_loss s)%Q ∧ (packet_loss s <= 100)%Q.
Proof.
  intros [H0 H1]. unfold packet_loss. destruct (Z.ltb_spec 0 (FlowState.segments s)) as [Hs|Hs];
    [|split; discriminate].
  split; [|apply Q.le_min_r]. apply Q.min_glb; [|discriminate].
  apply Qmult_le_0_compat; [|discriminate]. apply Qle_shift_div_l.
  - change 0%Q with (inject_Z 0). rewrite <- Zlt_Qlt. lia.
  - rewrite Qmult_0_l. change 0%Q with (inject_Z 0). rewrite <- Zle_Qle. lia.
Qed.

Lemma observe_inner_flows st p l7 now tree expire k s' :
  flows (observe_inner st p l7 now tree expire).1 !! k = Some s' →
  flows st !! k = Some s' ∨
  ∃ s out port, (s = FlowState.default_state <| FlowState.conn_id := connection_id k |> ∨ flows st !! k = Some s) ∧
    s' = (update_flow p l7 out port now s).1.1.
Proof.
  unfold observe_inner. cbn zeta. set (st0 := if tree && _ then _ else st).
  assert (H0 : key_for st0 p = key_for st p ∧ flows st0 = flows st)
    by (unfold st0; by destruct (tree && _)). destruct H0 as [Hk0 Hf]. clearbody st0.
  rewrite Hk0. clear Hk0. destruct (key_for st p) as [[key out]|]; [|cbn; rewrite Hf; by left].
  destruct (if expire then _ else _) as [st1 closed] eqn:Hst1.
  assert (H1 : flows st1 = flows st ∨ flows st1 = delete key (flows st)).
  { destruct expire; [|injection Hst1 as <- _; by left].
    apply evict_idle_key_spec in Hst1 as (_ & Hd & _). by rewrite Hf in Hd. }
  set (base := default _ (flows _ !! key)).
  assert (Hbase : base = FlowState.default_state <| FlowState.conn_id := connection_id key |> ∨
                  flows st !! key = Some base).
  { unfold base. replace (flows (if bool_decide (flows st1 !! key = None)
                                   then st1 <| total_flows_observed ::= Z.succ |> else st1)) with (flows st1)
      by (by destruct (bool_decide (flows st1 !! key = None))).
    destruct (flows st1 !! key) as [x|] eqn:Hx; [right|by left]. simpl.
    destruct H1 as [H1|H1]; rewrite H1 in Hx; [done|]. by rewrite lookup_delete_eq in Hx. }
  clearbody base. destruct (update_flow p l7 out (remote_port key) now base) as [[x re] tr] eqn:Hu.
  cbn [fst]. intros Hl.
  assert (Hl' : <[key := x]> (flows st1) !! k = Some s')
    by (revert Hl; by destruct tree, (bool_decide (flows st1 !! key = None))).
  clear Hl. apply lookup_insert_Some in Hl' as [[-> <-]|[Hne Hk]].
  - right. exists base, out, (remote_port k). by rewrite Hu.
  - left. destruct H1 as [H1|H1]; rewrite H1 in Hk; [done|]. by rewrite lookup_delete_ne in Hk.
Qed.

Lemma loss_op st d st' :
  flow_op st d st' → map_Forall (λ _ s, loss_ok s) (flows st) → map_Forall (λ _ s, loss_ok s) (flows st').
Proof.
  intros [? p l7 now tree expire _ _|? now|? now|? now|? now|? name answers now|? addrs] Hall k s' Hk; cbn in *.
  - apply observe_inner_flows in Hk as [Hk|(s & out & port & Hs & ->)]; [by apply (Hall k)|].
    assert (Hok : loss_ok s) by (destruct Hs as [->|Hs]; [done|by apply (Hall k)]).
    pose proof (update_flow_facts p l7 out port now s) as Hu.
    destruct (update_flow p l7 out port now s) as [[x re] tr]. cbn.
    destruct Hu as (_ & _ & _ & _ & [[U1 U2]|[U5 _]]).
    + unfold loss_ok in *. rewrite U1, U2. destruct re; simpl; lia.
    + unfold loss_ok, loss_facts in *. injection U5 as -> ->. done.
  - apply (Hall k). change (foldl _ _ _) with (flows (evict_stale st0 now).1) in Hk.
    rewrite evict_stale_lookup in Hk. destruct (bool_decide _); [done|].
    by apply live_lookup in Hk as [? _].
  - rewrite lookup_fmap in Hk. destruct (flows st0 !! k) as [x|] eqn:Hx; [|done]. injection Hk as <-.
    exact (Hall k x Hx).
  - by apply (Hall k).
  - by apply (Hall k).
  - by apply (Hall k).
  - by rewrite lookup_empty in Hk.
Qed.

(** In any run, the loss a flow reports is a percentage: no more segments
    are counted as retransmitted than as sent. *)
Theorem packet_loss_is_percentage addrs max n st k s :
  flow_run (new_with_capacity addrs max) n st → flows st !! k = Some s →
  0 <= FlowState.retransmits s <= FlowState.segments s ∧
  (0 <= packet_loss s)%Q ∧ (packet_loss s <= 100)%Q.
Proof.
  intros Hr Hk. assert (Hall : map_Forall (λ _ s, loss_ok s) (flows st)).
  { clear Hk. induction Hr as [|n st d st' _ IH Hop]; [apply map_Forall_empty|].
    by apply (loss_op st d st' Hop). }
  split; [exact (Hall k s Hk)|]. exact (packet_loss_range s (Hall k s Hk)).
Qed.
End flow_lifetime.

(** ** Witnesses *)

Definition flow_packet (src dst : bytes) (sp dp seq : Z) (bs : bytes) : ParsedPacket :=
  mkParsedPacket [] [] src dst Tcp (Some sp) (Some dp) (Some (mkTcpFlags false true false false 0 0))
    (Some seq) 64 (40 + zlen bs) bs [] 20 20 4 None None (20 + zlen bs) None.

Definition sample_out : ParsedPacket := flow_packet (lit "10.0.0.1") (lit "1.1.1.1") 5000 443 7 [1; 2].
Definition sample_in : ParsedPacket := flow_packet (lit "1.1.1.1") (lit "10.0.0.1") 443 5000 9 [3].
Definition sample_table : FlowTable.t := FlowTable.new_with_capacity [lit "10.0.0.1"; lit "10.0.0.2"] 1.

Lemma key_for_both_directions_witness :
  FlowTable.key_for sample_table sample_in =
  Some (mkFlowKey Tcp (lit "10.0.0.1") 5000 (lit "1.1.1.1") 443, false).
Proof.
  exact (key_for_both_directions sample_table sample_out sample_in
           (mkFlowKey Tcp (lit "10.0.0.1") 5000 (lit "1.1.1.1") 443) true
           ltac:(by vm_compute) ltac:(by vm_compute) ltac:(by vm_compute) ltac:(by vm_compute)).
Defined.

Lemma key_for_splits_local_witness :
  ∃ k k',
    FlowTable.key_for sample_table (flow_packet (lit "10.0.0.1") (lit "10.0.0.2") 5000 80 7 []) = Some (k, true) ∧
    FlowTable.key_for sample_table (flow_packet (lit "10.0.0.2") (lit "10.0.0.1") 80 5000 9 []) = Some (k', true) ∧
    k ≠ k'.
Proof.
  apply (key_for_splits_local sample_table
           (flow_packet (lit "10.0.0.1") (lit "10.0.0.2") 5000 80 7 [])
           (flow_packet (lit "10.0.0.2") (lit "10.0.0.1") 80 5000 9 []) 5000 80);
    try done; by vm_compute.
Defined.

(** Two flows on a table for one, then a sweep. *)
Definition run1 : FlowTable.t := (FlowTable.observe sample_table sample_out L7None 10).1.
Definition run2 : FlowTable.t :=
  (FlowTable.observe run1 (flow_packet (lit "10.0.0.2") (lit "1.1.1.1") 5001 443 7 []) L7None 20).1.
Definition run3 : FlowTable.t := (FlowTable.evict_stale run2 30).1.

Lemma sample_run : flow_run sample_table 0 run3.
Proof.
  apply (run_step _ 0 run2 0); [|constructor].
  apply (run_step _ 0 run1 0); [apply (run_step _ 0 sample_table 0); [constructor|]|];
    (constructor; [done|by left]).
Qed.

Lemma flow_accounting_witness :
  FlowTable.total_flows_observed run3 = 2 ∧ FlowTable.capacity_evictions run3 = 1 ∧ rollups_agree run3.
Proof.
  split; [by vm_compute|]. split; [by vm_compute|].
  exact (proj2 (flow_accounting [lit "10.0.0.1"; lit "10.0.0.2"] 1 0 run3 sample_run)).
Defined.

Lemma protocol_hierarchy_sums_witness : tree_ok [] (FlowTable.protocol_tree run3).
Proof.
  exact (protocol_hierarchy_sums [lit "10.0.0.1"; lit "10.0.0.2"] 1 0 run3 sample_run).
Defined.

Lemma evict_stale_correct_witness :
  Z.of_nat (size (FlowTable.flows run2)) = 2 ∧ Z.of_nat (size (FlowTable.flows run3)) <= 1.
Proof.
  split; [by vm_compute|]. refine (proj1 (evict_stale_correct run2 30 _)). by vm_compute.
Defined.

Definition sample_flow_key : FlowKey := mkFlowKey Tcp (lit "10.0.0.1") 5000 (lit "1.1.1.1") 443.

Lemma observe_existing_flow_witness :
  ∃ o, (FlowTable.observe run1 sample_out L7None 20).2 = Some o ∧ is_retransmit o = true ∧
    is_outbound o = true.
Proof.
  destruct (FlowTable.flows run1 !! sample_flow_key) as [s|] eqn:Hs; [|exfalso; revert Hs; by vm_compute].
  pose proof (observe_existing_flow run1 sample_out L7None 20 true sample_flow_key true s
                ltac:(by vm_compute) Hs) as Ho.
  unfold FlowTable.observe.
  destruct (FlowTable.observe_inner run1 sample_out L7None 20 true false) as [st' r] eqn:Hr.
  destruct Ho as (s' & o & _ & -> & Hout & _). exists o. split; [done|]. split; [|done].
  assert (Hv : snd (FlowTable.observe_inner run1 sample_out L7None 20 true false) =
    Some (mkObserveResult true true false None None)) by by vm_compute.
  rewrite Hr in Hv. cbn in Hv. by injection Hv as ->.
Defined.

Lemma packet_loss_is_percentage_witness :
  ∃ s, FlowTable.flows run1 !! sample_flow_key = Some s ∧ (FlowTable.packet_loss s <= 100)%Q.
Proof.
  destruct (FlowTable.flows run1 !! sample_flow_key) as [s|] eqn:Hs; [|exfalso; revert Hs; by vm_compute].
  exists s. split; [done|].
  refine (proj2 (proj2 (packet_loss_is_percentage [lit "10.0.0.1"; lit "10.0.0.2"] 1 0 run1
                          sample_flow_key s _ Hs))).
  apply (run_step _ 0 sample_table 0); [constructor|]. constructor; [done|by left].
Defined.
