(* ===== verification/Pcapng.v ===== *)
(** * The pcapng codec

    The block writer, [Writer] and the section-aware [Reader] of
    [capture-agent/src/pcapng.rs].  A file or stream is the list of its bytes;
    a [SystemTime] is its nanoseconds since the Unix epoch.  Failures of the
    operating system while writing are not modelled. *)

From S2P Require Import Prelude Packet Text.

Definition BYTE_ORDER_MAGIC : Z := 439041101.
Definition BT_SECTION_HEADER : Z := 168627466.
Definition BT_INTERFACE_DESCRIPTION : Z := 1.
Definition BT_ENHANCED_PACKET : Z := 6.
Definition BT_INTERFACE_STATISTICS : Z := 5.

Definition OPT_END_OF_OPT : Z := 0.
Definition SHB_USERAPPL : Z := 4.
Definition IF_NAME : Z := 2.
Definition IF_TSRESOL : Z := 9.
Definition EPB_FLAGS : Z := 2.
Definition ISB_IFRECV : Z := 4.
Definition ISB_IFDROP : Z := 5.

(** ** Integers on the wire *)

(** [to_le_bytes] of an unsigned integer of [w] bytes. *)
Fixpoint le_bytes (w : nat) (n : Z) : bytes :=
  match w with O => [] | S w' => n mod 256 :: le_bytes w' (n / 256) end.

Fixpoint le_num (l : bytes) : Z :=
  match l with [] => 0 | b :: l' => b + 256 * le_num l' end.

Definition pad4 (n : Z) : Z := Z.land (n + 3) (Z.lnot 3).

(** ** Writing *)

Definition write_option (code : Z) (value : bytes) : bytes :=
  le_bytes 2 code ++ le_bytes 2 (zlen value) ++ value ++ zreplicate (pad4 (zlen value) - zlen value) 0.

Definition write_end_of_opt : bytes := le_bytes 2 OPT_END_OF_OPT ++ le_bytes 2 0.

Definition write_block (block_type : Z) (body : bytes) : bytes :=
  let total_len := wrap_u32 (12 + zlen body) in
  le_bytes 4 block_type ++ le_bytes 4 total_len ++ body ++ le_bytes 4 total_len.

Record SectionHeaderBlock := mkSectionHeaderBlock { hostname : bytes; agent_version : bytes }.

Definition shb_write_to (shb : SectionHeaderBlock) : bytes :=
  let userappl := lit "capture-agent/" ++ agent_version shb ++ lit " on " ++ hostname shb in
  write_block BT_SECTION_HEADER
    (le_bytes 4 BYTE_ORDER_MAGIC ++ le_bytes 2 1 ++ le_bytes 2 0 ++ le_bytes 8 U64_MAX
       ++ write_option SHB_USERAPPL userappl ++ write_end_of_opt).

Definition pcapng_linktype (link_type : LinkType) : Z :=
  match link_type with Ethernet => 1 | NullLoopback => 0 | Raw => 101 end.

Record InterfaceDescriptionBlock := mkIdb {
  interface_name : bytes;
  idb_link_type : LinkType;
  snaplen : Z
}.

Definition WRITER_TSRESOL : Z := 9.

Definition idb_write_to (idb : InterfaceDescriptionBlock) : bytes :=
  write_block BT_INTERFACE_DESCRIPTION
    (le_bytes 2 (pcapng_linktype (idb_link_type idb)) ++ le_bytes 2 0 ++ le_bytes 4 (snaplen idb)
       ++ write_option IF_NAME (interface_name idb) ++ write_option IF_TSRESOL [WRITER_TSRESOL]
       ++ write_end_of_opt).

Inductive Direction := Inbound | Outbound | Unknown.

Definition epb_flags_bits (d : Direction) : Z :=
  match d with Unknown => 0 | Inbound => 1 | Outbound => 2 end.

Definition INTERFACE_ID : Z := 0.

(** [duration_since(UNIX_EPOCH).unwrap_or_default().as_nanos() as u64], split. *)
Definition epb_timestamp_halves (timestamp : Z) : Z * Z :=
  let ts_ns := Z.max 0 timestamp mod 2 ^ 64 in
  (Z.shiftr ts_ns 32, Z.land ts_ns U32_MAX).

Definition write_enhanced_packet_block (timestamp : Z) (direction : Direction) (data : bytes) : bytes :=
  let '(ts_high, ts_low) := epb_timestamp_halves timestamp in
  write_block BT_ENHANCED_PACKET
    (le_bytes 4 INTERFACE_ID ++ le_bytes 4 ts_high ++ le_bytes 4 ts_low
       ++ le_bytes 4 (zlen data) ++ le_bytes 4 (zlen data) ++ data
       ++ zreplicate (pad4 (zlen data) - zlen data) 0
       ++ write_option EPB_FLAGS (le_bytes 4 (epb_flags_bits direction)) ++ write_end_of_opt).

Definition write_interface_statistics_block (timestamp received dropped : Z) : bytes :=
  let '(ts_high, ts_low) := epb_timestamp_halves timestamp in
  write_block BT_INTERFACE_STATISTICS
    (le_bytes 4 INTERFACE_ID ++ le_bytes 4 ts_high ++ le_bytes 4 ts_low
       ++ write_option ISB_IFRECV (le_bytes 8 received) ++ write_option ISB_IFDROP (le_bytes 8 dropped)
       ++ write_end_of_opt).

Module Writer.
Record t := mk { file : bytes; bytes_written : Z }.
#[global] Instance eta : RecordEta t := λ r, mk (file r) (bytes_written r).

Definition create (idb : InterfaceDescriptionBlock) (hostname agent_version : bytes) : t :=
  mk (shb_write_to (mkSectionHeaderBlock hostname agent_version) ++ idb_write_to idb) 0.

Definition write_packet (w : t) (timestamp : Z) (direction : Direction) (data : bytes) : t :=
  let written := 20 + pad4 (zlen data) + 4 + 4 + 4 + 12 in
  w <| file ::= λ f, f ++ write_enhanced_packet_block timestamp direction data |>
    <| bytes_written ::= λ n, n + written |>.

(** [now] is the wall clock the block is stamped with. *)
Definition write_interface_stats (w : t) (now received dropped : Z) : t :=
  w <| file ::= λ f, f ++ write_interface_statistics_block now received dropped |>.

Definition finish (w : t) : bytes := file w.
End Writer.

(** ** Reading *)

Inductive IoErrorKind := InvalidData | UnexpectedEof | Unsupported.

Definition linktype_from_pcapng (value : Z) : option LinkType :=
  if value =? 1 then Some Ethernet
  else if value =? 0 then Some NullLoopback
  else if value =? 101 then Some Raw
  else None.

(** [read_exact]: what is read and what is left. *)
Definition read_exact (stream : bytes) (n : Z) : result IoErrorKind (bytes * bytes) :=
  if zlen stream <? n then Err UnexpectedEof else Ok (ztake n stream, zdrop n stream).

Definition read_exact_or_eof (stream : bytes) (n : Z) : result IoErrorKind (option (bytes * bytes)) :=
  if zlen stream =? 0 then Ok None
  else let? '(buf, rest) := read_exact stream n in Ok (Some (buf, rest)).

Definition MAX_BLOCK_LEN : Z := 16 * 1024 * 1024.

Inductive ByteOrder := Little | Big.

Definition order_num (order : ByteOrder) (l : bytes) : Z :=
  match order with Little => le_num l | Big => le_num (reverse l) end.

(** [ByteOrder::i64]. *)
Definition order_i64 (order : ByteOrder) (l : bytes) : Z :=
  let n := order_num order l in if n <? 2 ^ 63 then n else n - 2 ^ 64.

(** [&l[i..i + n]]. *)
Definition sub (l : bytes) (i n : Z) : bytes := ztake n (zdrop i l).

Definition section_order (magic : bytes) : result IoErrorKind ByteOrder :=
  if bool_decide (magic = [77; 60; 43; 26]) then Ok Little
  else if bool_decide (magic = [26; 43; 60; 77]) then Ok Big
  else Err InvalidData.

(** The next block, if any, with the rest of the stream and the byte order
    from there on. *)
Definition read_section_block (stream : bytes) (order : option ByteOrder)
    : result IoErrorKind (option ((Z * bytes) * bytes * ByteOrder)) :=
  let? head := read_exact_or_eof stream 8 in
  match head with
  | None => Ok None
  | Some (header, rest) =>
      let is_section := bool_decide (ztake 4 header = le_bytes 4 BT_SECTION_HEADER) in
      let? '(magic, current_order, rest) :=
        if is_section then
          let? '(magic, rest) := read_exact rest 4 in
          let? o := section_order magic in
          Ok (magic, o, rest)
        else let? o := ok_or order InvalidData in Ok ([], o, rest) in
      let block_type := order_num current_order (ztake 4 header) in
      let total_len := order_num current_order (zdrop 4 header) in
      let minimum := if is_section then 28 else 12 in
      if negb ((minimum <=? total_len) && (total_len <=? MAX_BLOCK_LEN))
         || negb (total_len mod 4 =? 0) then Err InvalidData
      else
        let? '(body, rest) := read_exact rest (total_len - 12 - zlen magic) in
        let? '(trailer, rest) := read_exact rest 4 in
        if negb (order_num current_order trailer =? total_len) then Err InvalidData
        else Ok (Some ((block_type, magic ++ body), rest, current_order))
  end.

(** The options of a block, in order; every turn takes at least four bytes. *)
Fixpoint ordered_options (fuel : nat) (body : bytes) (order : ByteOrder)
    : result IoErrorKind (list (Z * bytes)) :=
  match fuel with
  | O => Ok []
  | S fuel' =>
      if bool_decide (body = []) then Ok []
      else if zlen body <? 4 then Err InvalidData
      else
        let code := order_num order (sub body 0 2) in
        let len := order_num order (sub body 2 2) in
        if code =? OPT_END_OF_OPT then
          if negb (len =? 0) then Err InvalidData else Ok []
        else
          let padded := pad4 len in
          if zlen body <? 4 + padded then Err InvalidData
          else
            let? rest := ordered_options fuel' (zdrop (4 + padded) body) order in
            Ok ((code, sub body 4 len) :: rest)
  end.

(** The callback of the source runs over the options; an error discards what
    it gathered, so the options are returned instead. *)
Definition for_each_ordered_option (body : bytes) (order : ByteOrder)
    : result IoErrorKind (list (Z * bytes)) :=
  ordered_options (S (length body)) body order.

Record ParsedInterface := mkParsedInterface {
  pi_name : option bytes;
  pi_link_type : LinkType;
  pi_snaplen : Z;
  pi_timestamp_resolution : Z
}.

Definition DEFAULT_TSRESOL : Z := 6.

Definition U128_MAX : Z := 2 ^ 128 - 1.

Definition epb_timestamp (counter tsresol : Z) : result IoErrorKind Z :=
  let exponent := Z.land tsresol 127 in
  let base := if Z.land tsresol 128 =? 0 then 10 else 2 in
  if U128_MAX <? base ^ exponent then Err InvalidData
  else
    let nanos := counter * 1000000000 / base ^ exponent in
    if U64_MAX <? nanos then Err InvalidData else Ok nanos.

Record StoredInterface := mkStoredInterface {
  linktype_raw : Z;
  si_name : option bytes;
  si_snaplen : Z;
  timestamp_resolution : Z
}.

Definition supported (s : StoredInterface) : result IoErrorKind ParsedInterface :=
  let? link_type := ok_or (linktype_from_pcapng (linktype_raw s)) Unsupported in
  Ok (mkParsedInterface (si_name s) link_type (si_snaplen s) (timestamp_resolution s)).

(** The options of an interface description: name, resolution, and whether a
    resolution had a wrong length. *)
Definition interface_option (st : option bytes * Z * bool) (opt : Z * bytes) : option bytes * Z * bool :=
  let '(name, tsresol, invalid) := st in
  if opt.1 =? IF_NAME then (Some (from_utf8_lossy opt.2), tsresol, invalid)
  else if opt.1 =? IF_TSRESOL then
    match opt.2 with [v] => (name, v, invalid) | _ => (name, tsresol, true) end
  else st.

Definition parse_ordered_interface (body : bytes) (order : ByteOrder) : result IoErrorKind StoredInterface :=
  if zlen body <? 8 then Err InvalidData
  else
    let linktype_raw := order_num order (sub body 0 2) in
    let snaplen := order_num order (sub body 4 4) in
    let? options := for_each_ordered_option (zdrop 8 body) order in
    let '(name, tsresol, invalid) := foldl interface_option (None, DEFAULT_TSRESOL, false) options in
    if invalid then Err InvalidData
    else Ok (mkStoredInterface linktype_raw name snaplen tsresol).

Record ReadPacket := mkReadPacket {
  rp_link_type : LinkType;
  rp_timestamp : Z;
  rp_direction : Direction;
  original_len : Z;
  rp_data : bytes
}.

(** The options of a packet: its direction, and whether flags had a wrong
    length. *)
Definition packet_option (order : ByteOrder) (st : Direction * bool) (opt : Z * bytes) : Direction * bool :=
  if opt.1 =? EPB_FLAGS then
    if negb (zlen opt.2 =? 4) then (st.1, true)
    else
      let flags := Z.land (order_num order opt.2) 3 in
      (if flags =? 1 then Inbound else if flags =? 2 then Outbound else Unknown, st.2)
  else st.

Definition parse_ordered_packet (body : bytes) (order : ByteOrder) (tsresol : Z) (link_type : LinkType)
    : result IoErrorKind ReadPacket :=
  if zlen body <? 20 then Err InvalidData
  else
    let ts_high := order_num order (sub body 4 4) in
    let ts_low := order_num order (sub body 8 4) in
    let cap_len := order_num order (sub body 12 4) in
    let original_len := order_num order (sub body 16 4) in
    if zlen body - 20 <? cap_len then Err InvalidData
    else
      let padded_len := pad4 cap_len in
      if zlen body <? 20 + padded_len then Err InvalidData
      else
        let data := sub body 20 cap_len in
        let? timestamp := epb_timestamp (Z.lor (Z.shiftl ts_high 32) ts_low) tsresol in
        let? options := for_each_ordered_option (zdrop (20 + padded_len) body) order in
        let '(direction, invalid) := foldl (packet_option order) (Unknown, false) options in
        if invalid then Err InvalidData
        else Ok (mkReadPacket link_type timestamp direction original_len data).

Definition MAX_INTERFACES : Z := 4096.
Definition MAX_INTERFACE_NAME_BYTES : Z := 16 * 1024 * 1024.

Module Reader.
Record t := mk {
  inner : bytes;
  order : option ByteOrder;
  supported_section : bool;
  interfaces : list StoredInterface;
  interface_name_bytes : Z
}.
#[global] Instance eta : RecordEta t := λ r,
  mk (inner r) (order r) (supported_section r) (interfaces r) (interface_name_bytes r).

(** The order of a reader that has read a block. *)
Definition the_order (r : t) : ByteOrder := default Little (order r).

Definition start_section (r : t) (body : bytes) : result IoErrorKind t :=
  let o := the_order r in
  let major := order_num o (sub body 4 2) in
  let minor := order_num o (sub body 6 2) in
  let r :=
    r <| supported_section := (major =? 1) && ((minor =? 0) || (minor =? 2)) |>
      <| interfaces := [] |> <| interface_name_bytes := 0 |> in
  if supported_section r then
    let section_length := order_i64 o (sub body 8 8) in
    if (section_length <? -1) || ((0 <=? section_length) && negb (section_length mod 4 =? 0))
    then Err InvalidData
    else let? _ := for_each_ordered_option (zdrop 16 body) o in Ok r
  else Ok r.

Definition name_bytes (s : StoredInterface) : Z := default 0 ((λ n : bytes, zlen n) <$> si_name s).

Definition add_interface (r : t) (body : bytes) : result IoErrorKind t :=
  if MAX_INTERFACES <=? zlen (interfaces r) then Err InvalidData
  else
    let? entry := parse_ordered_interface body (the_order r) in
    if MAX_INTERFACE_NAME_BYTES - interface_name_bytes r <? name_bytes entry then Err InvalidData
    else Ok (r <| interface_name_bytes ::= λ n, n + name_bytes entry |>
               <| interfaces ::= λ l, l ++ [entry] |>).

Definition decode_packet (r : t) (body : bytes) : result IoErrorKind ReadPacket :=
  if zlen body <? 20 then Err InvalidData
  else
    let o := the_order r in
    let id := order_num o (sub body 0 4) in
    let? entry := ok_or (nth_z (interfaces r) id) InvalidData in
    let? link_type := ok_or (linktype_from_pcapng (linktype_raw entry)) Unsupported in
    parse_ordered_packet body o (timestamp_resolution entry) link_type.

(** What a block does before a packet is delivered: the reader, and the packet
    if it was one. *)
Definition block_step (r : t) (kind : Z) (body : bytes) : result IoErrorKind (t * option ReadPacket) :=
  if kind =? BT_SECTION_HEADER then let? r := start_section r body in Ok (r, None)
  else if negb (supported_section r) then Ok (r, None)
  else if kind =? BT_INTERFACE_DESCRIPTION then let? r := add_interface r body in Ok (r, None)
  else if kind =? BT_ENHANCED_PACKET then let? p := decode_packet r body in Ok (r, Some p)
  else if (kind =? 2) || (kind =? 3) then Err Unsupported
  else Ok (r, None).

(** [next_packet]; the outer option is the fuel: every block takes at least
    twelve bytes of the stream. *)
Fixpoint next_loop (fuel : nat) (r : t) : option (result IoErrorKind (t * option ReadPacket)) :=
  match fuel with
  | O => None
  | S fuel' =>
      match read_section_block (inner r) (order r) with
      | Err e => Some (Err e)
      | Ok None => Some (Ok (r, None))
      | Ok (Some ((kind, body), rest, o)) =>
          let r := r <| inner := rest |> <| order := Some o |> in
          match block_step r kind body with
          | Err e => Some (Err e)
          | Ok (r, Some p) => Some (Ok (r, Some p))
          | Ok (r, None) => next_loop fuel' r
          end
      end
  end.

Definition next_packet (r : t) : result IoErrorKind (t * option ReadPacket) :=
  default (Err InvalidData) (next_loop (S (length (inner r))) r).

(** [Reader::new]: up to the first interface with a supported link type. *)
Fixpoint open_loop (fuel : nat) (r : t) : option (result IoErrorKind (t * ParsedInterface)) :=
  match fuel with
  | O => None
  | S fuel' =>
      match read_section_block (inner r) (order r) with
      | Err e => Some (Err e)
      | Ok None => Some (Err UnexpectedEof)
      | Ok (Some ((kind, body), rest, o)) =>
          let r := r <| inner := rest |> <| order := Some o |> in
          match block_step r kind body with
          | Err e => Some (Err e)
          | Ok (r, _) =>
              match (if (kind =? BT_INTERFACE_DESCRIPTION) && supported_section r
                     then last (interfaces r) ≫= λ e, match supported e with Ok i => Some i | Err _ => None end
                     else None) with
              | Some interface => Some (Ok (r, interface))
              | None => open_loop fuel' r
              end
          end
      end
  end.

Definition new (stream : bytes) : result IoErrorKind (t * ParsedInterface) :=
  default (Err InvalidData) (open_loop (S (length stream)) (mk stream None false [] 0)).
End Reader.

(** ** Lemmas: integers, padding and fields *)

Lemma length_le_bytes w n : length (le_bytes w n) = w.
Proof. revert n. induction w; intros; cbn [le_bytes length]; auto. Qed.

Lemma le_num_le_bytes w n : le_num (le_bytes w n) = n mod 256 ^ Z.of_nat w.
Proof.
  revert n. induction w as [|w IH]; intros n; cbn [le_bytes le_num].
  { by rewrite Z.mod_1_r. }
  rewrite IH, Nat2Z.inj_succ, Z.pow_succ_r by lia.
  rewrite Z.rem_mul_r by lia. lia.
Qed.

Lemma pad4_spec n : pad4 n = 4 * ((n + 3) / 4).
Proof.
  unfold pad4. change (Z.lnot 3) with (Z.lnot (Z.ones 2)).
  rewrite <- Z.ldiff_land, Z.ldiff_ones_r, Z.shiftr_div_pow2, Z.shiftl_mul_pow2 by lia.
  change (2 ^ 2) with 4. lia.
Qed.

Lemma pad4_bounds n : n <= pad4 n < n + 4 ∧ pad4 n mod 4 = 0.
Proof.
  rewrite pad4_spec. split; [|rewrite Z.mul_comm; apply Z.mod_mul; lia].
  pose proof (Z.div_mod (n + 3) 4). pose proof (Z.mod_pos_bound (n + 3) 4). lia.
Qed.

Lemma pad4_mult n : n mod 4 = 0 → pad4 n = n.
Proof.
  intros. pose proof (pad4_bounds n) as [Hb Hm]. pose proof (Z.div_mod (pad4 n) 4).
  pose proof (Z.div_mod n 4). lia.
Qed.

Lemma sub_app (a b c : bytes) i n : i = zlen a → n = zlen b → sub (a ++ b ++ c) i n = b.
Proof. intros -> ->. unfold sub. by rewrite zdrop_app, ztake_app. Qed.

Lemma zdrop_app_eq (a b : bytes) i : i = zlen a → zdrop i (a ++ b) = b.
Proof. intros ->. apply zdrop_app. Qed.

Lemma ztake_app_eq (a b : bytes) i : i = zlen a → ztake i (a ++ b) = a.
Proof. intros ->. apply ztake_app. Qed.

(** Lengths of the wire pieces, normalised for [lia]. *)
Ltac wire_len :=
  rewrite ?length_app, ?length_le_bytes, ?length_zreplicate, ?length_ztake, ?length_zdrop; cbn [length].

Lemma length_write_option c v : zlen (write_option c v) = 4 + pad4 (zlen v).
Proof. unfold write_option. wire_len. pose proof (pad4_bounds (zlen v)). lia. Qed.

Lemma length_write_block t b : zlen (write_block t b) = 12 + zlen b.
Proof. unfold write_block. wire_len. lia. Qed.

(** ** Options *)

Lemma le_num_nonneg l : Forall is_u8 l → 0 <= le_num l.
Proof. induction 1; cbn [le_num]; [done|]. width. lia. Qed.

Lemma order_num_nonneg o l : Forall is_u8 l → 0 <= order_num o l.
Proof. destruct o; intros; apply le_num_nonneg; [done|]. by apply Forall_reverse. Qed.

Lemma Forall_sub P (l : bytes) i n : Forall P l → Forall P (sub l i n).
Proof. intros. unfold sub. by apply Forall_take, Forall_drop. Qed.

Lemma Forall_zdrop P n (l : bytes) : Forall P l → Forall P (zdrop n l).
Proof. apply Forall_drop. Qed.

#[export] Hint Resolve order_num_nonneg Forall_sub Forall_zdrop : monitor.

(** The loop over a block's options ends: any fuel above the body's length
    gives the same answer. *)
Lemma ordered_options_fuel o fuel1 fuel2 body :
  Forall is_u8 body → (length body < fuel1)%nat → (length body < fuel2)%nat →
  ordered_options fuel1 body o = ordered_options fuel2 body o.
Proof.
  revert fuel2 body. induction fuel1 as [|f1 IH]; intros [|f2] body Hu H1 H2; [lia..|].
  cbn [ordered_options]. case_bool_decide; [done|]. do 3 (case_zb; [done|]).
  assert (0 <= order_num o (sub body 2 2)) by auto with monitor.
  pose proof (pad4_bounds (order_num o (sub body 2 2))).
  rewrite (IH f2); [done|auto with monitor|wire_len; lia..].
Qed.

Lemma for_each_nil o : for_each_ordered_option [] o = Ok [].
Proof. done. Qed.

Lemma for_each_end k : for_each_ordered_option (write_end_of_opt ++ k) Little = Ok [].
Proof.
  unfold for_each_ordered_option. cbn [ordered_options]. rewrite bool_decide_false by done.
  rewrite (proj2 (Z.ltb_ge _ _)); [done|]. unfold write_end_of_opt. wire_len. lia.
Qed.

(** Reading an option back. *)
Lemma for_each_write_option c v k :
  0 < c <= U16_MAX → zlen v <= U16_MAX → Forall is_u8 k →
  for_each_ordered_option (write_option c v ++ k) Little
  = let? rest := for_each_ordered_option k Little in Ok ((c, v) :: rest).
Proof.
  intros Hc Hv Hk. unfold for_each_ordered_option at 1.
  pose proof (length_write_option c v) as Hlen. pose proof (pad4_bounds (zlen v)) as [Hp _].
  assert (Hlc : sub (write_option c v ++ k) 0 2 = le_bytes 2 c)
    by (unfold write_option; rewrite <- !app_assoc; by apply (sub_app [])).
  assert (Hll : sub (write_option c v ++ k) 2 2 = le_bytes 2 (zlen v))
    by (unfold write_option; rewrite <- !app_assoc; by apply sub_app).
  assert (Hlv : sub (write_option c v ++ k) 4 (zlen v) = v)
    by (unfold write_option; rewrite <- !app_assoc, app_assoc; by apply sub_app).
  assert (Hld : zdrop (4 + pad4 (zlen v)) (write_option c v ++ k) = k) by (by apply zdrop_app_eq).
  cbn [ordered_options order_num].
  rewrite bool_decide_false; [|intros E; apply (f_equal length) in E; revert E; wire_len; lia].
  rewrite Hlc, Hll, !le_num_le_bytes. change (256 ^ Z.of_nat 2) with 65536.
  rewrite !Z.mod_small by zlia. rewrite Hlv, Hld.
  rewrite !(proj2 (Z.ltb_ge _ _)) by (wire_len; lia).
  rewrite (proj2 (Z.eqb_neq _ _)) by (unfold OPT_END_OF_OPT; lia).
  unfold for_each_ordered_option. rewrite (ordered_options_fuel _ _ (S (length k)));
    [done|done|wire_len; lia|lia].
Qed.

(** ** Blocks *)

Lemma read_exact_app (a b : bytes) n : n = zlen a → read_exact (a ++ b) n = Ok (a, b).
Proof.
  intros ->. unfold read_exact. rewrite (proj2 (Z.ltb_ge _ _)) by (wire_len; lia).
  by rewrite ztake_app, zdrop_app.
Qed.

Lemma read_exact_or_eof_app (a b : bytes) n :
  n = zlen a → 0 < n → read_exact_or_eof (a ++ b) n = Ok (Some (a, b)).
Proof.
  intros -> Hn. unfold read_exact_or_eof. rewrite (proj2 (Z.eqb_neq _ _)) by (wire_len; lia).
  by rewrite read_exact_app.
Qed.

Lemma le_num_u32 n : is_u32 n → le_num (le_bytes 4 n) = n.
Proof. intros. rewrite le_num_le_bytes. apply Z.mod_small. zlia. Qed.

(** The length field of a block of bounded size. *)
Lemma block_total_len (body : bytes) :
  12 + zlen body <= MAX_BLOCK_LEN → wrap_u32 (12 + zlen body) = 12 + zlen body.
Proof. unfold MAX_BLOCK_LEN. intros. apply wrap_u32_id. zlia. Qed.

Lemma mod4_block n : n mod 4 = 0 → (12 + n) mod 4 = 0.
Proof. intros H. rewrite Z.add_mod, H by lia. done. Qed.

Lemma block_length_valid minimum (body : bytes) :
  minimum <= 12 + zlen body → 12 + zlen body <= MAX_BLOCK_LEN → zlen body mod 4 = 0 →
  negb ((minimum <=? 12 + zlen body) && (12 + zlen body <=? MAX_BLOCK_LEN))
    || negb ((12 + zlen body) mod 4 =? 0) = false.
Proof.
  intros. rewrite mod4_block, !(proj2 (Z.leb_le _ _)) by done. done.
Qed.

(** A block other than a section header is read back whole. *)
Lemma read_section_block_write t (body : bytes) rest :
  is_u32 t → le_bytes 4 t ≠ le_bytes 4 BT_SECTION_HEADER →
  12 + zlen body <= MAX_BLOCK_LEN → zlen body mod 4 = 0 →
  read_section_block (write_block t body ++ rest) (Some Little)
  = Ok (Some ((t, body), rest, Little)).
Proof.
  intros Ht Hns Hlen Hmod. unfold read_section_block, write_block.
  rewrite block_total_len by done.
  rewrite <- !app_assoc, (app_assoc (le_bytes 4 t)), read_exact_or_eof_app by done.
  cbn [result_bind]. rewrite (ztake_app_eq _ _ 4), (zdrop_app_eq _ _ 4) by done.
  rewrite bool_decide_false by done. cbn [ok_or result_bind order_num length].
  rewrite le_num_u32, le_num_u32 by (unfold MAX_BLOCK_LEN in *; zlia).
  rewrite block_length_valid by (done || lia).
  rewrite read_exact_app by lia. cbn [result_bind]. rewrite read_exact_app by done.
  cbn [result_bind]. rewrite le_num_u32, Z.eqb_refl by (unfold MAX_BLOCK_LEN in *; zlia). done.
Qed.

(** A section header is read back whole, whatever the order before it. *)
Lemma read_section_block_write_section (body : bytes) rest order :
  16 <= zlen (le_bytes 4 BYTE_ORDER_MAGIC ++ body) →
  12 + zlen (le_bytes 4 BYTE_ORDER_MAGIC ++ body) <= MAX_BLOCK_LEN →
  zlen (le_bytes 4 BYTE_ORDER_MAGIC ++ body) mod 4 = 0 →
  read_section_block (write_block BT_SECTION_HEADER (le_bytes 4 BYTE_ORDER_MAGIC ++ body) ++ rest) order
  = Ok (Some ((BT_SECTION_HEADER, le_bytes 4 BYTE_ORDER_MAGIC ++ body), rest, Little)).
Proof.
  intros Hmin Hlen Hmod. unfold read_section_block, write_block.
  rewrite block_total_len by done. set (n := 12 + zlen (le_bytes 4 BYTE_ORDER_MAGIC ++ body)).
  assert (Hn : n = 16 + zlen body) by (subst n; wire_len; lia).
  rewrite <- !app_assoc, (app_assoc (le_bytes 4 BT_SECTION_HEADER)), read_exact_or_eof_app by done.
  cbn [result_bind]. rewrite (ztake_app_eq _ _ 4), (zdrop_app_eq _ _ 4) by done.
  rewrite bool_decide_true by done. rewrite read_exact_app by done. cbn [result_bind].
  change (section_order (le_bytes 4 BYTE_ORDER_MAGIC)) with (@Ok IoErrorKind _ Little).
  cbn [result_bind order_num]. rewrite !le_num_u32 by (unfold MAX_BLOCK_LEN, BT_SECTION_HEADER in *; zlia).
  unfold n at 1 2 3. rewrite block_length_valid by (done || lia).
  rewrite read_exact_app by (wire_len; lia). cbn [result_bind]. rewrite read_exact_app by done.
  cbn [result_bind]. rewrite le_num_u32, Z.eqb_refl by (unfold MAX_BLOCK_LEN in *; zlia). done.
Qed.

(** ** Reading back what is written *)

Lemma le_bytes_u8 w n : Forall is_u8 (le_bytes w n).
Proof.
  revert n. induction w; intros n; cbn [le_bytes]; constructor; [|done].
  width. pose proof (Z.mod_pos_bound n 256). lia.
Qed.

Lemma zreplicate_u8 n : Forall is_u8 (zreplicate n 0).
Proof. apply Forall_replicate. zlia. Qed.

Lemma write_option_u8 c v : Forall is_u8 v → Forall is_u8 (write_option c v).
Proof. intros. unfold write_option. auto using Forall_app_2, le_bytes_u8, zreplicate_u8. Qed.

Lemma write_end_of_opt_u8 : Forall is_u8 write_end_of_opt.
Proof. apply Forall_app_2; apply le_bytes_u8. Qed.

#[export] Hint Resolve Forall_app_2 le_bytes_u8 write_option_u8 write_end_of_opt_u8 : monitor.

(** The options a writer put at the end of a block. *)
Definition write_options (opts : list (Z * bytes)) : bytes :=
  concat ((λ o, write_option o.1 o.2) <$> opts) ++ write_end_of_opt.

Definition option_ok (o : Z * bytes) : Prop :=
  0 < o.1 <= U16_MAX ∧ zlen o.2 <= U16_MAX ∧ Forall is_u8 o.2.

Lemma write_options_u8 opts : Forall option_ok opts → Forall is_u8 (write_options opts).
Proof.
  unfold write_options. induction 1 as [|o opts (? & ? & ?) ? IH]; cbn [fmap list_fmap concat];
    [auto with monitor|]. rewrite <- app_assoc. auto with monitor.
Qed.

Lemma length_write_options opts : zlen (write_options opts) mod 4 = 0.
Proof.
  unfold write_options. induction opts as [|o opts IH]; [done|]. cbn [fmap list_fmap concat].
  rewrite <- app_assoc, length_app, Nat2Z.inj_add, length_write_option, Z.add_mod, IH by lia.
  rewrite (Z.add_mod 4), (proj2 (pad4_bounds _)) by lia. done.
Qed.

(** Options are read back as they were written. *)
Lemma for_each_write_options opts :
  Forall option_ok opts → for_each_ordered_option (write_options opts) Little = Ok opts.
Proof.
  induction 1 as [|o opts (Hc & Hl & Hu) Ho IH].
  { unfold write_options. cbn [fmap list_fmap concat app]. rewrite <- (app_nil_r write_end_of_opt).
    apply for_each_end. }
  assert (Happ : write_options (o :: opts) = write_option o.1 o.2 ++ write_options opts)
    by (unfold write_options; cbn [fmap list_fmap concat]; by rewrite <- app_assoc).
  rewrite Happ, for_each_write_option, IH by auto using write_options_u8. by destruct o.
Qed.

Lemma le_num_u16 n : is_u16 n → le_num (le_bytes 2 n) = n.
Proof. intros. rewrite le_num_le_bytes. apply Z.mod_small. zlia. Qed.

Lemma linktype_roundtrip l : linktype_from_pcapng (pcapng_linktype l) = Some l.
Proof. by destruct l. Qed.

Lemma linktype_u16 l : is_u16 (pcapng_linktype l).
Proof. destruct l; cbn; zlia. Qed.

(** The bodies of the writer's blocks, with their options as a list. *)
Definition shb_body (userappl : bytes) : bytes :=
  le_bytes 2 1 ++ le_bytes 2 0 ++ le_bytes 8 U64_MAX ++ write_options [(SHB_USERAPPL, userappl)].

Definition idb_body (idb : InterfaceDescriptionBlock) : bytes :=
  le_bytes 2 (pcapng_linktype (idb_link_type idb)) ++ le_bytes 2 0 ++ le_bytes 4 (snaplen idb)
    ++ write_options [(IF_NAME, interface_name idb); (IF_TSRESOL, [WRITER_TSRESOL])].

Definition epb_body (ts : Z) (direction : Direction) (data : bytes) : bytes :=
  le_bytes 4 INTERFACE_ID ++ le_bytes 4 (Z.shiftr ts 32) ++ le_bytes 4 (Z.land ts U32_MAX)
    ++ le_bytes 4 (zlen data) ++ le_bytes 4 (zlen data)
    ++ (data ++ zreplicate (pad4 (zlen data) - zlen data) 0)
    ++ write_options [(EPB_FLAGS, le_bytes 4 (epb_flags_bits direction))].

Lemma shb_write_to_body shb :
  shb_write_to shb = write_block BT_SECTION_HEADER (le_bytes 4 BYTE_ORDER_MAGIC
    ++ shb_body (lit "capture-agent/" ++ agent_version shb ++ lit " on " ++ hostname shb)).
Proof.
  unfold shb_write_to, shb_body, write_options. cbn [fmap list_fmap concat fst snd].
  by rewrite app_nil_r.
Qed.

Lemma idb_write_to_body idb : idb_write_to idb = write_block BT_INTERFACE_DESCRIPTION (idb_body idb).
Proof.
  unfold idb_write_to, idb_body, write_options. cbn [fmap list_fmap concat fst snd].
  by rewrite app_nil_r, <- (app_assoc (write_option IF_NAME _)).
Qed.

Lemma epb_write_body ts direction data :
  is_u64 ts →
  write_enhanced_packet_block ts direction data = write_block BT_ENHANCED_PACKET (epb_body ts direction data).
Proof.
  intros Hts. unfold write_enhanced_packet_block, epb_timestamp_halves, epb_body, write_options.
  cbn [fmap list_fmap concat fst snd]. rewrite Z.max_r, Z.mod_small, app_nil_r by zlia.
  by rewrite <- (app_assoc data).
Qed.

Lemma start_section_shb r userappl :
  Reader.order r = Some Little → zlen userappl <= U16_MAX → Forall is_u8 userappl →
  Reader.start_section r (le_bytes 4 BYTE_ORDER_MAGIC ++ shb_body userappl)
  = Ok (r <| Reader.supported_section := true |> <| Reader.interfaces := [] |>
          <| Reader.interface_name_bytes := 0 |>).
Proof.
  intros Ho Hl Hu. unfold Reader.start_section, Reader.the_order. rewrite Ho. cbv beta zeta. cbn [default].
  set (body := le_bytes 4 BYTE_ORDER_MAGIC ++ shb_body userappl).
  change (sub body 4 2) with (le_bytes 2 1). change (sub body 6 2) with (le_bytes 2 0).
  change (sub body 8 8) with (le_bytes 8 U64_MAX).
  change (zdrop 16 body) with (write_options [(SHB_USERAPPL, userappl)]).
  rewrite for_each_write_options; [done|]. repeat constructor; cbn; zlia || done.
Qed.

Lemma parse_idb_body idb :
  is_u32 (snaplen idb) → is_Some (decode (interface_name idb)) → Forall is_u8 (interface_name idb) →
  zlen (interface_name idb) <= U16_MAX →
  parse_ordered_interface (idb_body idb) Little
  = Ok (mkStoredInterface (pcapng_linktype (idb_link_type idb)) (Some (interface_name idb))
          (snaplen idb) WRITER_TSRESOL).
Proof.
  intros Hs [cs Hcs] Hu Hl. unfold parse_ordered_interface.
  rewrite (proj2 (Z.ltb_ge _ _)) by (unfold idb_body; wire_len; lia).
  change (sub (idb_body idb) 0 2) with (le_bytes 2 (pcapng_linktype (idb_link_type idb))).
  change (sub (idb_body idb) 4 4) with (le_bytes 4 (snaplen idb)).
  change (zdrop 8 (idb_body idb))
    with (write_options [(IF_NAME, interface_name idb); (IF_TSRESOL, [WRITER_TSRESOL])]).
  rewrite for_each_write_options.
  - cbn [result_bind order_num foldl]. rewrite le_num_u16, le_num_u32 by auto using linktype_u16.
    unfold interface_option. cbn. by rewrite (from_utf8_lossy_valid _ _ Hcs).
  - unfold WRITER_TSRESOL. repeat constructor; cbn; zlia || done.
Qed.

Lemma halves_join ts : is_u64 ts → Z.lor (Z.shiftl (Z.shiftr ts 32) 32) (Z.land ts U32_MAX) = ts.
Proof.
  intros Hts. change U32_MAX with (Z.ones 32). apply Z.bits_inj'. intros n Hn.
  rewrite Z.lor_spec, Z.shiftl_spec, Z.land_spec, Z.testbit_ones_nonneg by lia.
  destruct (Z.ltb_spec n 32).
  - rewrite (Z.testbit_neg_r _ (n - 32)), andb_true_r by lia. done.
  - rewrite Z.shiftr_spec, andb_false_r, orb_false_r by lia. f_equal. lia.
Qed.

Lemma halves_u32 ts : is_u64 ts → is_u32 (Z.shiftr ts 32) ∧ is_u32 (Z.land ts U32_MAX).
Proof.
  intros Hts. change U32_MAX with (Z.ones 32).
  rewrite Z.shiftr_div_pow2, Z.land_ones by lia. change (2 ^ 32) with 4294967296.
  pose proof (Z.mod_pos_bound ts 4294967296). pose proof (Z.div_mod ts 4294967296). zlia.
Qed.

(** At the writer's resolution the counter is the nanoseconds themselves. *)
Lemma epb_timestamp_ns ts : is_u64 ts → epb_timestamp ts WRITER_TSRESOL = Ok ts.
Proof.
  intros Hts. unfold epb_timestamp. cbn [WRITER_TSRESOL Z.land Pos.land Z.eqb].
  change (10 ^ Z.land WRITER_TSRESOL 127) with 1000000000.
  rewrite Z.div_mul, !(proj2 (Z.ltb_ge _ _)) by (zlia || by vm_compute). done.
Qed.

Lemma flags_roundtrip d :
  packet_option Little (Unknown, false) (EPB_FLAGS, le_bytes 4 (epb_flags_bits d)) = (d, false).
Proof. by destruct d. Qed.

Lemma length_epb_body ts d data : zlen (epb_body ts d data) = 32 + pad4 (zlen data).
Proof.
  unfold epb_body, write_options, write_end_of_opt. cbn [fmap list_fmap concat fst snd]. rewrite app_nil_r.
  pose proof (pad4_bounds (zlen data)). rewrite !length_app, !Nat2Z.inj_add, length_write_option.
  wire_len. change (pad4 (Z.of_nat 4)) with 4. lia.
Qed.

Lemma parse_epb_body ts d data link_type :
  is_u64 ts → zlen data <= U32_MAX →
  parse_ordered_packet (epb_body ts d data) Little WRITER_TSRESOL link_type
  = Ok (mkReadPacket link_type ts d (zlen data) data).
Proof.
  intros Hts Hd. pose proof (pad4_bounds (zlen data)) as [Hp _]. destruct (halves_u32 ts Hts).
  pose proof (length_epb_body ts d data) as Hlen. unfold parse_ordered_packet.
  change (sub (epb_body ts d data) 4 4) with (le_bytes 4 (Z.shiftr ts 32)).
  change (sub (epb_body ts d data) 8 4) with (le_bytes 4 (Z.land ts U32_MAX)).
  change (sub (epb_body ts d data) 12 4) with (le_bytes 4 (zlen data)).
  change (sub (epb_body ts d data) 16 4) with (le_bytes 4 (zlen data)).
  cbn [order_num]. rewrite !le_num_u32 by (done || zlia). rewrite Hlen.
  rewrite !(proj2 (Z.ltb_ge _ _)) by lia.
  rewrite halves_join, epb_timestamp_ns by done. cbn [result_bind].
  assert (Hfix : ∃ hdr, zlen hdr = 20 ∧ epb_body ts d data = hdr ++ data
    ++ zreplicate (pad4 (zlen data) - zlen data) 0
    ++ write_options [(EPB_FLAGS, le_bytes 4 (epb_flags_bits d))]).
  { exists (ztake 20 (epb_body ts d data)). split; [done|]. unfold epb_body. by rewrite <- (app_assoc data). }
  destruct Hfix as (hdr & Hh & ->). rewrite sub_app by lia.
  rewrite (app_assoc data), (app_assoc hdr), zdrop_app_eq by (wire_len; lia).
  rewrite for_each_write_options.
  2: { apply Forall_singleton. split; [|split]; [|done|apply le_bytes_u8]. done. }
  cbn [result_bind foldl]. by rewrite flags_roundtrip.
Qed.

(** ** The reader ends *)

Lemma result_bind_Ok {E A B} (m : result E A) (k : A → result E B) b :
  result_bind m k = Ok b → ∃ a, m = Ok a ∧ k a = Ok b.
Proof. destruct m; [eauto|done]. Qed.

Lemma read_exact_Ok s n a b : read_exact s n = Ok (a, b) → n <= zlen s ∧ b = zdrop n s ∧ a = ztake n s.
Proof. unfold read_exact. case_zb; [done|]. intros [= <- <-]. auto with lia. Qed.

Lemma read_exact_shrinks s n a b :
  read_exact s n = Ok (a, b) → 0 <= n → zlen b = zlen s - n.
Proof. intros (? & -> & _)%read_exact_Ok ?. wire_len. lia. Qed.

Lemma read_exact_le s n a b : read_exact s n = Ok (a, b) → zlen b <= zlen s.
Proof. intros (? & -> & _)%read_exact_Ok. wire_len. lia. Qed.

(** Every block takes at least twelve bytes of the stream. *)
Lemma read_section_block_shrinks s order b rest o :
  read_section_block s order = Ok (Some (b, rest, o)) → 12 + zlen rest <= zlen s.
Proof.
  unfold read_section_block, read_exact_or_eof.
  intros (head & Hh & Hk)%result_bind_Ok. destruct (_ =? 0); [by simplify_eq|].
  apply result_bind_Ok in Hh as ([header rest1] & Hr1 & [= <-]).
  apply result_bind_Ok in Hk as ([[magic co] rest2] & Hm & Hk).
  assert (zlen rest2 <= zlen rest1) as Hle.
  { destruct (bool_decide _).
    - apply result_bind_Ok in Hm as ([m1 r1] & ?%read_exact_le & Hm).
      apply result_bind_Ok in Hm as (? & _ & [= <- <- <-]). done.
    - by apply result_bind_Ok in Hm as (? & _ & [= <- <- <-]). }
  destruct (_ || _); [done|].
  apply result_bind_Ok in Hk as ([body rest3] & ?%read_exact_le & Hk).
  apply result_bind_Ok in Hk as ([trailer rest4] & Hr4 & Hk).
  destruct (negb _); [done|]. simplify_eq.
  apply read_exact_shrinks in Hr1, Hr4; lia.
Qed.

Lemma block_step_inner r kind body r' p :
  Reader.block_step r kind body = Ok (r', p) →
  Reader.inner r' = Reader.inner r ∧ Reader.order r' = Reader.order r.
Proof.
  unfold Reader.block_step. intros Hb.
  repeat match type of Hb with
  | (if ?b then _ else _) = _ => destruct b
  | result_bind _ _ = _ => apply result_bind_Ok in Hb as (? & Hs & Hb)
  end; simplify_eq; try done; revert Hs.
  - unfold Reader.start_section. destruct (Reader.supported_section _); [|by intros [= <-]].
    destruct (_ || _); [done|]. by intros (? & _ & [= <-])%result_bind_Ok.
  - unfold Reader.add_interface. case_zb; [done|]. intros (? & _ & Hs)%result_bind_Ok.
    case_zb; by simplify_eq.
Qed.

(** With the stream's length as fuel the loop returns. *)
Lemma next_loop_total fuel r :
  zlen (Reader.inner r) < Z.of_nat fuel → is_Some (Reader.next_loop fuel r).
Proof.
  revert r. induction fuel as [|fuel IH]; intros r Hf; [lia|]. cbn [Reader.next_loop].
  destruct (read_section_block _ _) as [[[[[kind body] rest] o]|]|] eqn:Hb; [|by eexists..].
  apply read_section_block_shrinks in Hb.
  destruct (Reader.block_step _ _ _) as [[r' [p|]]|] eqn:Hs; [by eexists| |by eexists].
  apply block_step_inner in Hs as [Hi _]. apply IH. rewrite Hi. change (zlen rest < Z.of_nat fuel). lia.
Qed.

Lemma next_loop_mono fuel k r x :
  Reader.next_loop fuel r = Some x → Reader.next_loop (fuel + k) r = Some x.
Proof.
  revert r. induction fuel as [|fuel IH]; intros r; [done|]. cbn [Nat.add Reader.next_loop].
  destruct (read_section_block _ _) as [[[[[kind body] rest] o]|]|]; [|done..].
  destruct (Reader.block_step _ _ _) as [[r' [p|]]|]; [done|apply IH|done].
Qed.

Lemma next_packet_loop fuel r :
  zlen (Reader.inner r) < Z.of_nat fuel → Reader.next_loop fuel r = Some (Reader.next_packet r).
Proof.
  intros Hf. destruct (next_loop_total (S (length (Reader.inner r))) r ltac:(lia)) as [x Hx].
  unfold Reader.next_packet. rewrite Hx.
  replace fuel with (S (length (Reader.inner r)) + (fuel - S (length (Reader.inner r))))%nat by lia.
  by apply next_loop_mono.
Qed.

(** ** The round trip of a capture file *)

(** What is written after the file is opened. *)
Inductive FileRecord :=
| PacketRecord (timestamp : Z) (direction : Direction) (data : bytes)
| StatsRecord (now received dropped : Z).

Definition write_record (w : Writer.t) (rec : FileRecord) : Writer.t :=
  match rec with
  | PacketRecord ts d data => Writer.write_packet w ts d data
  | StatsRecord now received dropped => Writer.write_interface_stats w now received dropped
  end.

(** A record the format can hold: a clock within the 64-bit nanosecond range,
    a frame within the block bound. *)
Definition record_ok (rec : FileRecord) : Prop :=
  match rec with
  | PacketRecord ts _ data => is_u64 ts ∧ 44 + pad4 (zlen data) <= MAX_BLOCK_LEN
  | StatsRecord _ _ _ => True
  end.

(** What a reader should deliver for a record. *)
Definition record_packet (link_type : LinkType) (rec : FileRecord) : list ReadPacket :=
  match rec with
  | PacketRecord ts d data => [mkReadPacket link_type ts d (zlen data) data]
  | StatsRecord _ _ _ => []
  end.

(** [next_packet] until it returns [None]; [n] bounds the number of calls. *)
Fixpoint read_packets (n : nat) (r : Reader.t) : result IoErrorKind (list ReadPacket) :=
  match n with
  | O => Err InvalidData
  | S n' =>
      let? '(r, p) := Reader.next_packet r in
      match p with
      | None => Ok []
      | Some p => let? ps := read_packets n' r in Ok (p :: ps)
      end
  end.

(** The bytes of one record. *)
Definition record_bytes (rec : FileRecord) : bytes :=
  match rec with
  | PacketRecord ts d data => write_enhanced_packet_block ts d data
  | StatsRecord now received dropped => write_interface_statistics_block now received dropped
  end.

Lemma write_records_file recs w :
  Writer.file (foldl write_record w recs) = Writer.file w ++ concat (record_bytes <$> recs).
Proof.
  revert w. induction recs as [|rec recs IH]; intros w; cbn [foldl fmap list_fmap concat].
  { by rewrite app_nil_r. }
  rewrite IH, app_assoc. f_equal. by destruct rec.
Qed.

(** A reader positioned after the header blocks. *)
Definition reader_at (idb : InterfaceDescriptionBlock) (rest : bytes) : Reader.t :=
  Reader.mk rest (Some Little) true
    [mkStoredInterface (pcapng_linktype (idb_link_type idb)) (Some (interface_name idb))
       (snaplen idb) WRITER_TSRESOL] (zlen (interface_name idb)).

Lemma next_loop_block idb t body rest fuel :
  is_u32 t → le_bytes 4 t ≠ le_bytes 4 BT_SECTION_HEADER →
  12 + zlen body <= MAX_BLOCK_LEN → zlen body mod 4 = 0 →
  Reader.next_loop (S fuel) (reader_at idb (write_block t body ++ rest)) =
  match Reader.block_step (reader_at idb rest) t body with
  | Err e => Some (Err e)
  | Ok (r, Some p) => Some (Ok (r, Some p))
  | Ok (r, None) => Reader.next_loop fuel r
  end.
Proof.
  intros. cbn [Reader.next_loop reader_at Reader.inner Reader.order].
  by rewrite read_section_block_write by done.
Qed.

Lemma decode_packet_record idb ts d data rest :
  is_u64 ts → zlen data <= U32_MAX →
  Reader.decode_packet (reader_at idb rest) (epb_body ts d data)
  = Ok (mkReadPacket (idb_link_type idb) ts d (zlen data) data).
Proof.
  intros. pose proof (pad4_bounds (zlen data)) as [Hp _]. unfold Reader.decode_packet.
  rewrite (proj2 (Z.ltb_ge _ _)) by (rewrite length_epb_body; lia).
  change (sub (epb_body ts d data) 0 4) with (le_bytes 4 0).
  change (ok_or (nth_z _ _) InvalidData) with (@Ok IoErrorKind _ (mkStoredInterface
    (pcapng_linktype (idb_link_type idb)) (Some (interface_name idb)) (snaplen idb) WRITER_TSRESOL)).
  cbn [result_bind linktype_raw timestamp_resolution]. rewrite linktype_roundtrip. cbn [ok_or result_bind].
  by apply parse_epb_body.
Qed.

Lemma next_loop_packet idb ts d data rest fuel :
  record_ok (PacketRecord ts d data) →
  Reader.next_loop (S fuel) (reader_at idb (record_bytes (PacketRecord ts d data) ++ rest))
  = Some (Ok (reader_at idb rest, Some (mkReadPacket (idb_link_type idb) ts d (zlen data) data))).
Proof.
  intros [Hts Hlen]. pose proof (pad4_bounds (zlen data)) as [Hp Hm].
  cbn [record_bytes]. rewrite epb_write_body by done.
  rewrite next_loop_block; [|unfold BT_ENHANCED_PACKET; zlia|done|rewrite length_epb_body; lia|].
  2: { rewrite length_epb_body, Z.add_mod, Hm by lia. done. }
  unfold Reader.block_step. cbn [BT_ENHANCED_PACKET BT_SECTION_HEADER BT_INTERFACE_DESCRIPTION
    Z.eqb Pos.eqb Reader.supported_section reader_at negb].
  change (Reader.mk rest _ _ _ _) with (reader_at idb rest).
  rewrite decode_packet_record by (unfold MAX_BLOCK_LEN in *; zlia || done). done.
Qed.

Lemma next_loop_stats idb now received dropped rest fuel :
  Reader.next_loop (S fuel) (reader_at idb (record_bytes (StatsRecord now received dropped) ++ rest))
  = Reader.next_loop fuel (reader_at idb rest).
Proof.
  cbn [record_bytes]. unfold write_interface_statistics_block.
  destruct (epb_timestamp_halves now) as [hi lo].
  by rewrite next_loop_block.
Qed.

Lemma read_packets_records idb recs n :
  Forall record_ok recs → (length recs < n)%nat →
  read_packets n (reader_at idb (concat (record_bytes <$> recs)))
  = Ok (concat (record_packet (idb_link_type idb) <$> recs)).
Proof.
  intros Hok. revert n. induction Hok as [|rec recs Hrec _ IH]; intros n Hn.
  { destruct n; [lia|done]. }
  cbn [fmap list_fmap concat length] in *. destruct rec as [ts d data|now received dropped].
  - destruct n as [|n]; [lia|]. cbn [read_packets]. unfold Reader.next_packet.
    rewrite next_loop_packet by done. cbn [default from_option id result_bind].
    by rewrite IH by lia.
  - cbn [record_packet app]. rewrite <- (IH n) by lia. destruct n as [|n]; [lia|]. cbn [read_packets].
    f_equal. apply (inj Some).
    rewrite <- (next_packet_loop (S (length (record_bytes (StatsRecord now received dropped)
       ++ concat (record_bytes <$> recs))))), next_loop_stats by (cbn [reader_at Reader.inner]; lia).
    apply next_packet_loop. cbn [reader_at Reader.inner record_bytes].
    unfold write_interface_statistics_block. destruct (epb_timestamp_halves now).
    rewrite length_app, Nat2Z.inj_add, length_write_block. lia.
Qed.

(** A file the writer can have opened: its strings fit the 16-bit option
    lengths. *)
Definition header_ok (idb : InterfaceDescriptionBlock) (hostname agent_version : bytes) : Prop :=
  is_u32 (snaplen idb) ∧ is_Some (decode (interface_name idb)) ∧ Forall is_u8 (interface_name idb) ∧
  zlen (interface_name idb) <= U16_MAX ∧ Forall is_u8 hostname ∧ Forall is_u8 agent_version ∧
  zlen hostname + zlen agent_version <= U16_MAX - 18.

Lemma lit_u8 s : Forall is_u8 (lit s).
Proof.
  unfold lit. apply Forall_fmap, Forall_true. intros c. cbn.
  pose proof (Ascii.N_ascii_bounded c). width. lia.
Qed.

Lemma length_shb_body u : zlen (shb_body u) = 20 + pad4 (zlen u).
Proof.
  unfold shb_body, write_options, write_end_of_opt. cbn [fmap list_fmap concat fst snd].
  rewrite app_nil_r, !length_app, !Nat2Z.inj_add, length_write_option. wire_len. lia.
Qed.

Lemma length_idb_body idb : zlen (idb_body idb) = 24 + pad4 (zlen (interface_name idb)).
Proof.
  unfold idb_body, write_options, write_end_of_opt. cbn [fmap list_fmap concat fst snd].
  rewrite app_nil_r, !length_app, !Nat2Z.inj_add, !length_write_option. wire_len.
  change (pad4 (Z.of_nat 1)) with 4. lia.
Qed.

Lemma mod4_add a b : a mod 4 = 0 → b mod 4 = 0 → (a + b) mod 4 = 0.
Proof. intros Ha Hb. by rewrite Z.add_mod, Ha, Hb by lia. Qed.

Lemma add_interface_idb r idb :
  r = Reader.mk (Reader.inner r) (Some Little) true [] 0 →
  is_u32 (snaplen idb) → is_Some (decode (interface_name idb)) → Forall is_u8 (interface_name idb) →
  zlen (interface_name idb) <= U16_MAX →
  Reader.add_interface r (idb_body idb) = Ok (reader_at idb (Reader.inner r)).
Proof.
  intros -> Hs Hd Hu Hl. unfold Reader.add_interface.
  cbn [Reader.interfaces Reader.the_order Reader.order default from_option id length].
  rewrite (proj2 (Z.leb_gt _ _)) by done. unfold Reader.the_order.
  cbn [Reader.order default from_option id]. rewrite parse_idb_body by done.
  cbn [result_bind Reader.interface_name_bytes Reader.name_bytes si_name fmap option_fmap option_map
    default from_option id].
  rewrite (proj2 (Z.ltb_ge _ _)); [done|]. unfold MAX_INTERFACE_NAME_BYTES, Reader.name_bytes. cbn. zlia.
Qed.

Lemma open_section u rest fuel :
  zlen u <= U16_MAX → Forall is_u8 u →
  Reader.open_loop (S fuel) (Reader.mk (write_block BT_SECTION_HEADER
      (le_bytes 4 BYTE_ORDER_MAGIC ++ shb_body u) ++ rest) None false [] 0)
  = Reader.open_loop fuel (Reader.mk rest (Some Little) true [] 0).
Proof.
  intros Hl Hu. pose proof (length_shb_body u) as Hsl. pose proof (pad4_bounds (zlen u)) as [? Hm].
  assert (Hbl : zlen (le_bytes 4 BYTE_ORDER_MAGIC ++ shb_body u) = 24 + pad4 (zlen u))
    by (rewrite length_app, Nat2Z.inj_add, Hsl, length_le_bytes; lia).
  cbn [Reader.open_loop Reader.inner Reader.order].
  rewrite read_section_block_write_section; [|rewrite Hbl; unfold MAX_BLOCK_LEN; zlia..|].
  2: { rewrite Hbl. by apply mod4_add. }
  unfold Reader.block_step at 1. rewrite Z.eqb_refl, start_section_shb by done. done.
Qed.

Lemma open_interface idb rest fuel :
  is_u32 (snaplen idb) → is_Some (decode (interface_name idb)) → Forall is_u8 (interface_name idb) →
  zlen (interface_name idb) <= U16_MAX →
  Reader.open_loop (S fuel) (Reader.mk (write_block BT_INTERFACE_DESCRIPTION (idb_body idb) ++ rest)
     (Some Little) true [] 0)
  = Some (Ok (reader_at idb rest, mkParsedInterface (Some (interface_name idb)) (idb_link_type idb)
                                    (snaplen idb) WRITER_TSRESOL)).
Proof.
  intros Hs Hd Hu Hl. pose proof (length_idb_body idb) as Hil.
  pose proof (pad4_bounds (zlen (interface_name idb))) as [? Hm].
  cbn [Reader.open_loop Reader.inner Reader.order].
  rewrite read_section_block_write; [|unfold BT_INTERFACE_DESCRIPTION; zlia|done|..].
  2: { rewrite Hil. unfold MAX_BLOCK_LEN. zlia. }
  2: { rewrite Hil. by apply mod4_add. }
  match goal with |- context [Reader.block_step ?x] => change x with (Reader.mk rest (Some Little) true [] 0) end.
  unfold Reader.block_step. cbn [BT_SECTION_HEADER BT_INTERFACE_DESCRIPTION Z.eqb Pos.eqb
    Reader.supported_section negb].
  rewrite add_interface_idb by done.
  cbn [result_bind Reader.inner Reader.supported_section reader_at andb Reader.interfaces last mbind option_bind].
  unfold supported. cbn [linktype_raw]. by rewrite linktype_roundtrip.
Qed.

Lemma new_header idb host version rest :
  header_ok idb host version →
  Reader.new (Writer.file (Writer.create idb host version) ++ rest)
  = Ok (reader_at idb rest,
        mkParsedInterface (Some (interface_name idb)) (idb_link_type idb) (snaplen idb) WRITER_TSRESOL).
Proof.
  intros (Hs & Hd & Hu & Hl & Hh & Ha & Hlen). unfold Reader.new. cbn [Writer.create Writer.file].
  rewrite shb_write_to_body, idb_write_to_body, <- app_assoc. cbn [hostname agent_version].
  set (stream := write_block BT_SECTION_HEADER _ ++ _).
  assert (∃ n, S (length stream) = S (S n)) as [n ->].
  { exists (Nat.pred (length stream)). enough (0 < zlen stream) by lia. subst stream.
    rewrite length_app, Nat2Z.inj_add, length_write_block. lia. }
  subst stream. rewrite open_section, open_interface; [done..| |].
  - rewrite !length_app. cbn. zlia.
  - auto using Forall_app_2, lit_u8.
Qed.

Lemma finished_file_reads_back idb host version recs :
  header_ok idb host version → Forall record_ok recs →
  let file := Writer.finish (foldl write_record (Writer.create idb host version) recs) in
  Reader.new file
  = Ok (reader_at idb (concat (record_bytes <$> recs)),
        mkParsedInterface (Some (interface_name idb)) (idb_link_type idb) (snaplen idb) 9) ∧
  read_packets (S (length recs)) (reader_at idb (concat (record_bytes <$> recs)))
  = Ok (concat (record_packet (idb_link_type idb) <$> recs)).
Proof.
  intros Hh Hr. unfold Writer.finish. cbn zeta.
  rewrite write_records_file, new_header by done. split; [done|]. apply read_packets_records; [done|lia].
Qed.

(** C9: A capture file reads back as it was written.  For every interface
    whose name is UTF-8 of at most 65535 bytes, and every sequence of packet and
    statistics records within the format's bounds (a timestamp in the 64-bit
    nanosecond range, a block within 16 MiB), opening the finished file yields
    that interface at nanosecond resolution, and calling [next_packet] until it
    returns [None] yields exactly the packets written, in order, each with its
    link type, timestamp, direction, length and bytes. *)
Theorem pcapng_roundtrip idb host version recs :
  header_ok idb host version → Forall record_ok recs →
  ∃ r, Reader.new (Writer.finish (foldl write_record (Writer.create idb host version) recs))
       = Ok (r, mkParsedInterface (Some (interface_name idb)) (idb_link_type idb) (snaplen idb) 9) ∧
       read_packets (S (length recs)) r = Ok (concat (record_packet (idb_link_type idb) <$> recs)).
Proof. intros Hh Hr. eexists. by apply finished_file_reads_back. Qed.

Definition sample_idb : InterfaceDescriptionBlock := mkIdb (lit "en0") Ethernet 65535.
Definition sample_records : list FileRecord :=
  [PacketRecord 1700000000123456789 Inbound [1; 2; 3; 4; 5]; StatsRecord 1700000001000000000 10 2;
   PacketRecord 1700000002000000000 Outbound []].

Lemma pcapng_roundtrip_witness :
  ∃ r, Reader.new (Writer.finish (foldl write_record (Writer.create sample_idb (lit "host") (lit "1.0")) sample_records))
       = Ok (r, mkParsedInterface (Some (lit "en0")) Ethernet 65535 9) ∧
       read_packets 4 r = Ok (concat (record_packet Ethernet <$> sample_records)).
Proof.
  apply (pcapng_roundtrip sample_idb (lit "host") (lit "1.0") sample_records).
  - repeat split; try apply lit_u8; try (vm_compute; congruence). by eexists.
  - repeat constructor; vm_compute; congruence.
Defined.

(** *** The reader on any stream *)

(** What a reader retains. *)
Definition reader_inv (r : Reader.t) : Prop :=
  zlen (Reader.interfaces r) <= MAX_INTERFACES ∧
  Reader.interface_name_bytes r
  = Z.of_nat (sum_list_with (λ s, Z.to_nat (Reader.name_bytes s)) (Reader.interfaces r)) ∧
  Reader.interface_name_bytes r <= MAX_INTERFACE_NAME_BYTES.

Lemma start_section_Ok r body r' :
  Reader.start_section r body = Ok r' →
  Reader.inner r' = Reader.inner r ∧ Reader.order r' = Reader.order r ∧
  Reader.interfaces r' = [] ∧ Reader.interface_name_bytes r' = 0.
Proof.
  unfold Reader.start_section. destruct (Reader.supported_section _); [|by intros [= <-]].
  destruct (_ || _); [done|]. by intros (? & _ & [= <-])%result_bind_Ok.
Qed.

Lemma block_step_inv r kind body r' p :
  reader_inv r → Reader.block_step r kind body = Ok (r', p) → reader_inv r'.
Proof.
  unfold Reader.block_step. intros Hinv Hb.
  repeat match type of Hb with
  | (if ?b then _ else _) = _ => destruct b
  | result_bind _ _ = _ => apply result_bind_Ok in Hb as (? & Hs & Hb)
  end; simplify_eq; try done.
  - apply start_section_Ok in Hs as (_ & _ & Hi & Hn). unfold reader_inv. by rewrite Hi, Hn.
  - revert Hs. unfold Reader.add_interface. destruct Hinv as (Hn & Hsum & Hb). case_zb; [done|].
    intros (entry & _ & Hs)%result_bind_Ok. case_zb; [done|]. simplify_eq.
    unfold reader_inv. cbn. rewrite length_app, sum_list_with_app. cbn.
    assert (0 <= Reader.name_bytes entry) by (unfold Reader.name_bytes; destruct (si_name entry); cbn; lia).
    lia.
Qed.

Lemma next_loop_inv fuel r r' p :
  reader_inv r → Reader.next_loop fuel r = Some (Ok (r', p)) → reader_inv r'.
Proof.
  revert r. induction fuel as [|fuel IH]; intros r Hinv; [done|]. cbn [Reader.next_loop].
  destruct (read_section_block _ _) as [[[[[kind body] rest] o]|]|]; [|by intros [= <-]|done].
  destruct (Reader.block_step _ _ _) as [[r1 [q|]]|] eqn:Hs; [..|done].
  - intros [= <- <-]. by apply block_step_inv in Hs.
  - apply IH. by apply block_step_inv in Hs.
Qed.

Lemma open_loop_inv fuel r r' i :
  reader_inv r → Reader.open_loop fuel r = Some (Ok (r', i)) → reader_inv r'.
Proof.
  revert r. induction fuel as [|fuel IH]; intros r Hinv; [done|]. cbn [Reader.open_loop].
  destruct (read_section_block _ _) as [[[[[kind body] rest] o]|]|]; [|done..].
  destruct (Reader.block_step _ _ _) as [[r1 q]|] eqn:Hs; [|done].
  apply block_step_inv in Hs; [|done].
  case_match; [by intros [= <- <-]|]. by apply IH.
Qed.

(** The readers a stream leads to. *)
Inductive reader_reachable (stream : bytes) : Reader.t → Prop :=
| reachable_new r i : Reader.new stream = Ok (r, i) → reader_reachable stream r
| reachable_next r r' p :
    reader_reachable stream r → Reader.next_packet r = Ok (r', p) → reader_reachable stream r'.

(** Whatever the stream holds, a reader retains at most 4096 interfaces and
    16 MiB of interface names, and its running count of name bytes is the sum
    over the retained interfaces: untrusted captures cannot make it grow
    without bound. *)
Theorem reader_bounded stream r :
  reader_reachable stream r →
  zlen (Reader.interfaces r) <= 4096 ∧
  Z.of_nat (sum_list_with (λ s, Z.to_nat (Reader.name_bytes s)) (Reader.interfaces r)) <= 16777216.
Proof.
  intros Hr. enough (Hi : reader_inv r) by (destruct Hi as (? & <- & ?); done).
  induction Hr as [r i Hn|r r' p _ IH Hn].
  - unfold Reader.new in Hn. destruct (Reader.open_loop _ _) as [x|] eqn:Ho; [|done].
    cbn in Hn. subst x. by apply open_loop_inv in Ho.
  - unfold Reader.next_packet in Hn. destruct (Reader.next_loop _ _) as [x|] eqn:Ho; [|done].
    cbn in Hn. subst x. by apply next_loop_inv in Ho.
Qed.

Lemma reader_bounded_witness :
  ∃ r, reader_reachable (Writer.file (Writer.create sample_idb (lit "h") (lit "1"))) r ∧
       zlen (Reader.interfaces r) <= 4096.
Proof.
  exists (reader_at sample_idb []).
  assert (Hr : reader_reachable (Writer.file (Writer.create sample_idb (lit "h") (lit "1")))
                 (reader_at sample_idb [])) by (eapply reachable_new; vm_compute; reflexivity).
  split; [exact Hr|]. exact (proj1 (reader_bounded _ _ Hr)).
Defined.

Lemma open_loop_total fuel r :
  zlen (Reader.inner r) < Z.of_nat fuel → is_Some (Reader.open_loop fuel r).
Proof.
  revert r. induction fuel as [|fuel IH]; intros r Hf; [lia|]. cbn [Reader.open_loop].
  destruct (read_section_block _ _) as [[[[[kind body] rest] o]|]|] eqn:Hb; [|by eexists..].
  apply read_section_block_shrinks in Hb.
  destruct (Reader.block_step _ _ _) as [[r' q]|] eqn:Hs; [|by eexists].
  case_match; [by eexists|].
  apply block_step_inner in Hs as [Hi _]. apply IH. rewrite Hi. change (zlen rest < Z.of_nat fuel). lia.
Qed.

(** A delivered packet took at least twelve bytes of the stream. *)
Lemma next_packet_shrinks r r' p :
  Reader.next_packet r = Ok (r', Some p) → 12 + zlen (Reader.inner r') <= zlen (Reader.inner r).
Proof.
  unfold Reader.next_packet. generalize (S (length (Reader.inner r))). intros fuel.
  revert r. induction fuel as [|fuel IH]; intros r; [done|]. cbn [Reader.next_loop].
  destruct (read_section_block _ _) as [[[[[kind body] rest] o]|]|] eqn:Hb; [|done..].
  apply read_section_block_shrinks in Hb.
  destruct (Reader.block_step _ _ _) as [[r1 [q|]]|] eqn:Hs; [..|done];
    apply block_step_inner in Hs as [Hi _]; change (Reader.inner r1 = rest) in Hi.
  - intros [= <- <-]. rewrite Hi. lia.
  - intros Hr%IH. rewrite Hi in Hr. lia.
Qed.

(** C39: Reading always ends.  Opening a stream and asking for its next packet
    both return (every block takes at least twelve bytes, so the length of what
    is left is fuel enough), and a stream of [n] bytes is exhausted or refused
    after at most [n / 12 + 1] calls: more calls change nothing. *)
Theorem reader_terminates stream r k :
  is_Some (Reader.open_loop (S (length stream)) (Reader.mk stream None false [] 0)) ∧
  is_Some (Reader.next_loop (S (length (Reader.inner r))) r) ∧
  read_packets (S (length (Reader.inner r) / 12) + k) r = read_packets (S (length (Reader.inner r) / 12)) r.
Proof.
  split_and!; [apply open_loop_total; cbn; lia|apply next_loop_total; lia|].
  assert (Hn : ∀ n r, zlen (Reader.inner r) < 12 * Z.of_nat n → read_packets (n + k) r = read_packets n r).
  { clear r. intros n. induction n as [|n IH]; intros r Hn; [lia|]. cbn [Nat.add read_packets].
    destruct (Reader.next_packet r) as [[r' [p|]]|] eqn:Hp; [|done..]. cbn [result_bind].
    apply next_packet_shrinks in Hp. by rewrite IH by lia. }
  apply Hn. pose proof (Nat.div_mod_eq (length (Reader.inner r)) 12).
  pose proof (Nat.mod_upper_bound (length (Reader.inner r)) 12). lia.
Qed.

(** *** The writer's byte count *)

Definition is_packet (rec : FileRecord) : bool :=
  match rec with PacketRecord _ _ _ => true | StatsRecord _ _ _ => false end.

(** [bytes_written] counts the packet blocks exactly: over any records it
    grows by the size of the blocks appended to the file for packets,
    statistics blocks left out. *)
Lemma bytes_written_counts_packets w recs :
  Writer.bytes_written (foldl write_record w recs)
  = Writer.bytes_written w + zlen (concat (record_bytes <$> List.filter is_packet recs)).
Proof.
  revert w. induction recs as [|rec recs IH]; intros w; cbn [foldl List.filter].
  { cbn. lia. }
  rewrite IH. destruct rec as [ts d data|now received dropped]; cbn [is_packet]; [|done].
  cbn [fmap list_fmap concat record_bytes write_record]. rewrite length_app.
  unfold write_enhanced_packet_block. destruct (epb_timestamp_halves ts) as [hi lo].
  rewrite Nat2Z.inj_add, length_write_block, !length_app, !Nat2Z.inj_add, length_write_option.
  pose proof (pad4_bounds (zlen data)). unfold write_end_of_opt. wire_len.
  change (pad4 (Z.of_nat 4)) with 4. unfold Writer.write_packet. cbn. lia.
Qed.
