(* ===== verification/Paths.v ===== *)
(** * File paths

    The operations of [std::path] (Unix) the program uses to name and to
    validate capture files, on the text of a path, and the decimal printing the
    file names are numbered with. *)

From S2P Require Import Prelude Text.

Definition SLASH : Z := 47.
Definition DOT : bytes := lit ".".

(** [Path::is_absolute] on Unix: the path starts with the root. *)
Definition is_absolute (p : bytes) : bool := bool_decide (head p = Some SLASH).

(** A leading [.] is a component of its own. *)
Definition include_cur_dir (p : bytes) : bool :=
  negb (is_absolute p) && bool_decide (head p = head DOT) &&
  bool_decide (nth_z p 1 = None ∨ nth_z p 1 = Some SLASH).

(** [Components::len_before_body]. *)
Definition len_before_body (p : bytes) : Z := if is_absolute p || include_cur_dir p then 1 else 0.

(** The text after the last separator, and whether there is one. *)
Fixpoint last_piece (p : bytes) : bytes * bool :=
  match p with
  | [] => ([], false)
  | b :: p' =>
      let '(piece, sep) := last_piece p' in
      if sep then (piece, true)
      else if b =? SLASH then (piece, true) else (b :: piece, false)
  end.

Inductive Component := RootDir | CurDir | ParentDir | Normal (name : bytes).

#[export] Instance component_eq_dec : EqDecision Component.
Proof. solve_decision. Defined.

(** [parse_single_component]. *)
Definition parse_single_component (piece : bytes) : option Component :=
  if bool_decide (piece = DOT) then None
  else if bool_decide (piece = lit "..") then Some ParentDir
  else if bool_decide (piece = []) then None
  else Some (Normal piece).

(** [parse_next_component_back]: how much of the end of the body it takes. *)
Definition parse_next_component_back (p : bytes) : Z * option Component :=
  let '(piece, sep) := last_piece (zdrop (len_before_body p) p) in
  (zlen piece + (if sep then 1 else 0), parse_single_component piece).

(** [trim_right]: the end of the path without empty and [.] pieces. *)
Fixpoint trim_right (fuel : nat) (p : bytes) : bytes :=
  match fuel with
  | O => p
  | S fuel' =>
      if zlen p <=? len_before_body p then p
      else
        match parse_next_component_back p with
        | (size, None) => trim_right fuel' (ztake (zlen p - size) p)
        | (_, Some _) => p
        end
  end.

(** [Components::next_back], and the path that is left. *)
Definition next_back (p : bytes) : option (Component * bytes) :=
  let p := trim_right (length p) p in
  if zlen p <=? len_before_body p then
    if is_absolute p then Some (RootDir, []) else if include_cur_dir p then Some (CurDir, []) else None
  else
    match parse_next_component_back p with
    | (size, Some c) => Some (c, ztake (zlen p - size) p)
    | (_, None) => None
    end.

Definition parent (p : bytes) : option bytes :=
  match next_back p with
  | Some (RootDir, _) | None => None
  | Some (_, rest) => Some (trim_right (length rest) rest)
  end.

Definition file_name (p : bytes) : option bytes :=
  match next_back p with Some (Normal name, _) => Some name | _ => None end.

(** [rsplit_file_at_dot]: before and after the last dot of a file name. *)
Fixpoint after_last_dot (name : bytes) : bytes * option bytes :=
  match name with
  | [] => ([], None)
  | b :: name' =>
      match after_last_dot name' with
      | (before, Some after) => (b :: before, Some after)
      | (before, None) => if b =? 46 then ([], Some before) else (b :: before, None)
      end
  end.

Definition rsplit_file_at_dot (name : bytes) : option bytes * option bytes :=
  if bool_decide (name = lit "..") then (Some name, None)
  else
    match after_last_dot name with
    | (_, None) => (None, Some name)
    | ([], Some _) => (Some name, None)
    | (before, Some after) => (Some before, Some after)
    end.

Definition file_stem (p : bytes) : option bytes :=
  name ← file_name p;
  match rsplit_file_at_dot name with (Some before, _) => Some before | (None, after) => after end.

Definition extension (p : bytes) : option bytes :=
  name ← file_name p;
  match rsplit_file_at_dot name with (Some _, after) => after | (None, _) => None end.

(** [PathBuf::push]. *)
Definition path_push (p q : bytes) : bytes :=
  if is_absolute q then q
  else if bool_decide (p = []) || bool_decide (last p = Some SLASH) then p ++ q
  else p ++ [SLASH] ++ q.

(** [PathBuf::pop]. *)
Definition path_pop (p : bytes) : bytes :=
  match parent p with Some q => ztake (zlen q) p | None => p end.

(** [Path::with_file_name]. *)
Definition with_file_name (p name : bytes) : bytes :=
  path_push (match file_name p with Some _ => path_pop p | None => p end) name.

(** The components, first to last. *)
Fixpoint components_loop (fuel : nat) (p : bytes) (acc : list Component) : list Component :=
  match fuel with
  | O => acc
  | S fuel' => match next_back p with None => acc | Some (c, rest) => components_loop fuel' rest (c :: acc) end
  end.
Definition components (p : bytes) : list Component := components_loop (S (length p)) p [].

(** [Path::starts_with], component by component. *)
Definition path_starts_with (p base : bytes) : bool := bool_decide (components base `prefix_of` components p).

Example path_examples :
  parent (lit "/a/b.pcapng") = Some (lit "/a") ∧ parent (lit "b") = Some [] ∧ parent (lit "/") = None ∧
  parent (lit "./a//b/./") = Some (lit "./a") ∧ file_name (lit "a/b/./") = Some (lit "b") ∧
  file_name (lit "a/..") = None ∧ file_stem (lit "/x/run.tar.gz") = Some (lit "run.tar") ∧
  extension (lit "/x/run.tar.gz") = Some (lit "gz") ∧ extension (lit "/x/.rc") = None ∧
  with_file_name (lit "/x/run.pcapng") (lit "y") = lit "/x/y" ∧
  components (lit "//a/./b/../c/") = [RootDir; Normal (lit "a"); Normal (lit "b"); ParentDir; Normal (lit "c")] ∧
  components (lit "./.") = [CurDir].
Proof. repeat split. Qed.

(** ** Decimal numbers *)

(** [{n:04}]: at least four digits. *)
Definition dec4 (n : Z) : bytes := let d := dec n in zreplicate (4 - zlen d) 48 ++ d.

Definition undec (l : bytes) : Z := foldl (λ a b, a * 10 + (b - 48)) 0 l.

Lemma digits_spec fuel n acc :
  0 <= n < 10 ^ Z.of_nat (S fuel) →
  ∃ ds, digits (S fuel) 10 n acc = ds ++ acc ∧ foldl (λ a d, a * 10 + d) 0 ds = n ∧ Forall (λ d, 0 <= d < 10) ds.
Proof.
  revert n acc. induction fuel as [|fuel IH]; intros n acc Hn.
  - exists [n mod 10]. cbn [digits]. replace (n / 10) with 0 by (symmetry; apply Z.div_small; lia).
    cbn. rewrite Z.mod_small by lia. split_and!; [done|lia|]. repeat constructor; lia.
  - remember (S fuel) as f. cbn [digits]. pose proof (Z.mod_pos_bound n 10 ltac:(lia)).
    pose proof (Z.div_mod n 10 ltac:(lia)) as Hdm. destruct (Z.eqb_spec (n / 10) 0) as [Hz|Hz].
    + exists [n mod 10]. cbn. split_and!; [done|lia|]. repeat constructor; lia.
    + destruct (IH (n / 10) (n mod 10 :: acc)) as (ds & -> & Hv & Hd).
      { split; [apply Z.div_pos; lia|]. apply Z.div_lt_upper_bound; [lia|].
        rewrite <- Z.pow_succ_r, <- Nat2Z.inj_succ by lia. apply Hn. }
      exists (ds ++ [n mod 10]). rewrite <- app_assoc, foldl_snoc, Hv. split_and!; [done|lia|].
      apply Forall_app. split; [done|]. repeat constructor; lia.
Qed.

Lemma undec_digits a ds :
  Forall (λ d, 0 <= d < 10) ds →
  foldl (λ a b, a * 10 + (b - 48)) a (digit_char <$> ds) = foldl (λ a d, a * 10 + d) a ds.
Proof.
  intros Hd. revert a. induction Hd as [|d ds Hd _ IH]; intros a; [done|].
  cbn [fmap list_fmap foldl]. rewrite IH. f_equal. unfold digit_char. rewrite (proj2 (Z.ltb_lt _ _)) by lia. lia.
Qed.

Lemma dec_spec n : is_u64 n → undec (dec n) = n ∧ Forall (λ b, 48 <= b <= 57) (dec n).
Proof.
  intros Hn. destruct (digits_spec 19 n []) as (ds & E & Hv & Hd).
  { change (10 ^ Z.of_nat 20) with 100000000000000000000. width. lia. }
  unfold dec. rewrite E, app_nil_r. split; [unfold undec; by rewrite undec_digits|]. apply Forall_fmap.
  eapply Forall_impl; [exact Hd|]. intros d Hb. cbn in *. unfold digit_char. rewrite (proj2 (Z.ltb_lt _ _)) by lia. lia.
Qed.

Lemma dec4_spec n : is_u64 n → undec (dec4 n) = n ∧ Forall (λ b, 48 <= b <= 57) (dec4 n).
Proof.
  intros Hn. destruct (dec_spec n Hn) as [Hv Hd]. unfold dec4, undec. rewrite foldl_app.
  assert (Hz : ∀ k, foldl (λ a b, a * 10 + (b - 48)) 0 (replicate k 48) = 0).
  { intros k. induction k as [|k IH]; [done|]. exact IH. }
  unfold zreplicate. rewrite Hz. split; [done|]. apply Forall_app. split; [|done]. apply Forall_replicate. lia.
Qed.

(** Digits end where something else follows. *)
Lemma digits_prefix_unique d1 d2 s1 s2 :
  Forall (λ b, 48 <= b <= 57) d1 → Forall (λ b, 48 <= b <= 57) d2 →
  (s1 = [] ∨ head s1 = Some 46) → (s2 = [] ∨ head s2 = Some 46) →
  d1 ++ s1 = d2 ++ s2 → d1 = d2 ∧ s1 = s2.
Proof.
  assert (Hmix : ∀ b d s s', 48 <= b <= 57 → (s = [] ∨ head s = Some 46) → s ≠ (b :: d) ++ s').
  { intros b d s s' Hb [->|Hs] E; [done|]. subst s. cbn in Hs. injection Hs as ->. lia. }
  intros H1. revert d2. induction H1 as [|b d1 Hb _ IH]; intros d2 H2 Hs1 Hs2 E.
  - destruct H2 as [|b d2 Hb H2]; [done|]. by destruct (Hmix b d2 s1 s2 Hb Hs1).
  - destruct H2 as [|b' d2 Hb' H2]; [by destruct (Hmix b d1 s2 s1 Hb Hs2)|].
    cbn in E. injection E as -> E. by destruct (IH d2 H2 Hs1 Hs2 E) as [-> ->].
Qed.
