(* ===== verification/Ring.v ===== *)
(** * Capture to file

    [capture-agent/src/ring.rs] and the writer thread of [main.rs]: a run writes
    pcapng files under a [.partial] name and gives each its real name only when
    it is finished; rotation, autostop and the disk guard decide when.  The file
    system is a map from paths to contents; what the operating system answers
    during a call (clocks, free space, whether an open, a write, a flush or a
    rename succeeds) is an argument of the call. *)

From S2P Require Import Prelude Text Packet Pcapng Paths.

Definition DEFAULT_LOW_DISK_FLOOR_BYTES : Z := 500 * 1024 * 1024.

Record RingConfig := mkRingConfig { ring_mode : bytes; ring_threshold : Z }.
Record AutostopConfig := mkAutostopConfig { autostop_mode : bytes; autostop_threshold : Z }.

Record CaptureFileStatus := mkCaptureFileStatus {
  cf_writing : bool;
  cf_path : option bytes;
  cf_bytes_written : Z;
  cf_ring_file : option Z;
  cf_ring_total : option Z;
  cf_autostop_reason : option bytes;
  cf_backpressure_drops : Z
}.

Abbreviation Fs := (gmap bytes bytes).

(** [create_new] may fail, or the header blocks may not be written whole. *)
Inductive OpenOutcome := Opened | OpenFailed | HeaderFailed (written : Z).

Record Os := mkOs {
  os_now : Z;                    (* [Instant::now()], nanoseconds *)
  os_wall : Z;                   (* [SystemTime::now()], nanoseconds *)
  os_free : option Z;            (* [free_space_bytes]; [None] is an error *)
  os_open : OpenOutcome;
  os_write_fails : option Z;     (* a block write stops after so many bytes *)
  os_finish_ok : bool;
  os_rename_ok : bool
}.

(** ** The file a writer holds *)

Definition writer_create (fs : Fs) (os : Os) (path : bytes) (idb : InterfaceDescriptionBlock)
    (host version : bytes) : Fs * option Writer.t :=
  let w := Writer.create idb host version in
  match fs !! path with
  | Some _ => (fs, None)
  | None =>
      match os_open os with
      | OpenFailed => (fs, None)
      | HeaderFailed k => (<[path := ztake k (Writer.file w)]> fs, None)
      | Opened => (<[path := Writer.file w]> fs, Some w)
      end
  end.

(** A block written whole, or its beginning and an error. *)
Definition writer_append (os : Os) (w w' : Writer.t) : Writer.t * bool :=
  match os_write_fails os with
  | None => (w', true)
  | Some k => (w <| Writer.file := ztake (zlen (Writer.file w) + k) (Writer.file w') |>, false)
  end.

(** ** A run *)

Module RingState.
Record t := mk {
  writer : Writer.t;
  base_path : bytes;
  idb : InterfaceDescriptionBlock;
  hostname : bytes;
  agent_version : bytes;
  ring : option RingConfig;
  autostop : option AutostopConfig;
  current_index : Z;
  started_at : Z;
  file_started_at : Z;
  packets_this_file : Z;
  bytes_before_current_file : Z
}.
#[global] Instance eta : RecordEta t := λ r,
  mk (writer r) (base_path r) (idb r) (hostname r) (agent_version r) (ring r) (autostop r)
     (current_index r) (started_at r) (file_started_at r) (packets_this_file r) (bytes_before_current_file r).
End RingState.

Definition member_path (base_path : bytes) (ring : option RingConfig) (index : Z) : bytes :=
  match ring with
  | None => base_path
  | Some _ =>
      let stem := from_utf8_lossy (default [] (file_stem base_path)) in
      let ext := from_utf8_lossy (default [] (extension base_path)) in
      if bool_decide (ext = []) then with_file_name base_path (stem ++ lit "-" ++ dec4 index)
      else with_file_name base_path (stem ++ lit "-" ++ dec4 index ++ lit "." ++ ext)
  end.

Definition partial_path (final_path : bytes) : bytes := final_path ++ lit ".partial".

Definition open_next (fs : Fs) (os : Os) (base_path : bytes) (ring : option RingConfig) (index : Z)
    (idb : InterfaceDescriptionBlock) (host version : bytes) : Fs * option Writer.t :=
  writer_create fs os (partial_path (member_path base_path ring index)) idb host version.

(** [Writer::finish], then [std::fs::rename]. *)
Definition finish_and_rename (fs : Fs) (os : Os) (final_path : bytes) : Fs :=
  let partial := partial_path final_path in
  if os_finish_ok os && os_rename_ok os then
    match fs !! partial with
    | Some contents => <[final_path := contents]> (delete partial fs)
    | None => fs
    end
  else fs.

Definition disk_dir (base_path : bytes) : bytes :=
  match parent base_path with
  | Some p => if bool_decide (p = []) then DOT else p
  | None => DOT
  end.

Inductive StartError := FreeSpaceUnknown (dir : bytes) | BelowFloor (free : Z) (dir : bytes) | CouldNotOpen.

Definition start (fs : Fs) (state : option RingState.t) (os : Os) (base_path : bytes)
    (ring : option RingConfig) (autostop : option AutostopConfig) (idb : InterfaceDescriptionBlock)
    (host version : bytes) : Fs * option RingState.t * result StartError unit :=
  match os_free os with
  | None => (fs, state, Err (FreeSpaceUnknown (disk_dir base_path)))
  | Some free =>
      if free <? DEFAULT_LOW_DISK_FLOOR_BYTES then (fs, state, Err (BelowFloor free (disk_dir base_path)))
      else
        match open_next fs os base_path ring 1 idb host version with
        | (fs, None) => (fs, state, Err CouldNotOpen)
        | (fs, Some w) =>
            (fs, Some (RingState.mk w base_path idb host version ring autostop 1 (os_now os) (os_now os) 0 0), Ok ())
        end
  end.

Definition run_member (st : RingState.t) : bytes :=
  member_path (RingState.base_path st) (RingState.ring st) (RingState.current_index st).

Definition stop (fs : Fs) (state : option RingState.t) (os : Os) : Fs * option RingState.t :=
  match state with
  | Some st => (finish_and_rename fs os (run_member st), None)
  | None => (fs, None)
  end.

(** The current file's contents follow its writer. *)
Definition sync (fs : Fs) (st : RingState.t) : Fs :=
  <[partial_path (run_member st) := Writer.file (RingState.writer st)]> fs.

Definition ring_write_packet (fs : Fs) (st : RingState.t) (os : Os) (timestamp : Z) (direction : Direction)
    (data : bytes) : Fs * RingState.t * bool :=
  let w := RingState.writer st in
  let '(w, ok) := writer_append os w (Writer.write_packet w timestamp direction data) in
  let st := st <| RingState.writer := w |> in
  let st := if ok then st <| RingState.packets_this_file ::= Z.add 1 |> else st in
  (sync fs st, st, ok).

Definition ring_bytes_written (st : RingState.t) : Z :=
  RingState.bytes_before_current_file st + Writer.bytes_written (RingState.writer st).

(** [t.elapsed().as_secs()]. *)
Definition elapsed_secs (now t : Z) : Z := sat_sub now t / 1000000000.

Definition should_rotate (now : Z) (st : RingState.t) : bool :=
  match RingState.ring st with
  | Some cfg =>
      if bool_decide (ring_mode cfg = lit "size") then
        ring_threshold cfg <=? Writer.bytes_written (RingState.writer st)
      else if bool_decide (ring_mode cfg = lit "duration") then
        ring_threshold cfg <=? elapsed_secs now (RingState.file_started_at st)
      else if bool_decide (ring_mode cfg = lit "count") then
        ring_threshold cfg <=? RingState.packets_this_file st
      else false
  | None => false
  end.

Definition autostop_reason (now : Z) (st : RingState.t) : option bytes :=
  match RingState.autostop st with
  | Some cfg =>
      if bool_decide (autostop_mode cfg = lit "duration")
         && (autostop_threshold cfg <=? elapsed_secs now (RingState.started_at st)) then Some (lit "duration")
      else if bool_decide (autostop_mode cfg = lit "totalSize") then
        if autostop_threshold cfg <=? ring_bytes_written st then Some (lit "totalSize") else None
      else None
  | None => None
  end.

Definition low_disk (os : Os) : bool :=
  match os_free os with Some free => free <? DEFAULT_LOW_DISK_FLOOR_BYTES | None => false end.

(** The next member takes over; the current one is finished.  A member that
    cannot be opened leaves the run as it is. *)
Definition rotate (fs : Fs) (st : RingState.t) (os : Os) : Fs * RingState.t :=
  let next_index := RingState.current_index st + 1 in
  match open_next fs os (RingState.base_path st) (RingState.ring st) next_index (RingState.idb st)
          (RingState.hostname st) (RingState.agent_version st) with
  | (fs, Some new_writer) =>
      let old_final := run_member st in
      let st := st <| RingState.bytes_before_current_file ::= λ b, b + Writer.bytes_written (RingState.writer st) |>
                   <| RingState.writer := new_writer |>
                   <| RingState.packets_this_file := 0 |>
                   <| RingState.file_started_at := os_now os |> in
      (finish_and_rename fs os old_final, st <| RingState.current_index := next_index |>)
  | (fs, None) => (fs, st)
  end.

Definition tick_status (st : RingState.t) : CaptureFileStatus :=
  mkCaptureFileStatus true (Some (from_utf8_lossy (run_member st))) (ring_bytes_written st)
    ((λ _, RingState.current_index st) <$> RingState.ring st) None None 0.

Definition on_tick (fs : Fs) (state : option RingState.t) (os : Os) (received dropped : Z)
    : Fs * option RingState.t * option CaptureFileStatus :=
  match state with
  | None => (fs, None, None)
  | Some st =>
      let w := RingState.writer st in
      let '(w, _) := writer_append os w (Writer.write_interface_stats w (os_wall os) received dropped) in
      let st := st <| RingState.writer := w |> in
      let fs := sync fs st in
      let reason := autostop_reason (os_now os) st in
      if bool_decide (is_Some reason) || low_disk os then
        (finish_and_rename fs os (run_member st), None,
         Some (mkCaptureFileStatus false (Some (from_utf8_lossy (run_member st))) (ring_bytes_written st) None None
                 (Some (default (lit "lowDisk") reason)) 0))
      else
        let '(fs, st) := if should_rotate (os_now os) st then rotate fs st os else (fs, st) in
        (fs, Some st, Some (tick_status st))
  end.

(** ** The writer thread *)

Inductive WriterCommand :=
| Start (path : bytes) (ring : option RingConfig) (autostop : option AutostopConfig)
    (idb : InterfaceDescriptionBlock) (host version : bytes)
| Stop
| Packet (timestamp : Z) (direction : Direction) (data : bytes)
| Stats (received dropped : Z).

Definition WRITER_QUEUE_CAPACITY : Z := 4096.

(** The state the threads share, the queue between them, the writer thread's
    own run, the disk, and the capture-file errors sent to the clients. *)
Module WriterThread.
Record t := mk {
  disk : Fs;
  current : option RingState.t;
  queue : list WriterCommand;
  active : bool;
  bytes_written : Z;
  backpressure_drops : Z;
  path : option bytes;
  ring_file : option Z;
  autostop_reason : option bytes;
  errors : list StartError
}.
#[global] Instance eta : RecordEta t := λ r,
  mk (disk r) (current r) (queue r) (active r) (bytes_written r) (backpressure_drops r) (path r) (ring_file r)
     (autostop_reason r) (errors r).

Definition init (disk : Fs) : t := mk disk None [] false 0 0 None None None [].

Definition apply_status (th : t) (status : CaptureFileStatus) : t :=
  th <| active := cf_writing status |>
     <| path := cf_path status |>
     <| bytes_written := cf_bytes_written status |>
     <| ring_file := cf_ring_file status |>
     <| autostop_reason := cf_autostop_reason status |>.

(** One command of the receive loop. *)
Definition handle (th : t) (os : Os) (cmd : WriterCommand) : t :=
  match cmd with
  | Start p ring_config autostop idb host version =>
      let '(fs, st, r) := start (disk th) (current th) os p ring_config autostop idb host version in
      let th := th <| disk := fs |> <| current := st |> in
      match r with
      | Ok _ =>
          th <| autostop_reason := None |> <| ring_file := None |>
             <| path := Some (from_utf8_lossy p) |> <| bytes_written := 0 |> <| active := true |>
      | Err e => th <| errors ::= λ es, es ++ [e] |>
      end
  | Stop =>
      let th := th <| active := false |> <| autostop_reason := None |> in
      let '(fs, st) := stop (disk th) (current th) os in
      th <| disk := fs |> <| current := st |>
  | Packet ts d data =>
      match current th with
      | Some st =>
          let '(fs, st, ok) := ring_write_packet (disk th) st os ts d data in
          let th := th <| disk := fs |> <| current := Some st |> in
          if ok then th <| bytes_written := ring_bytes_written st |> else th
      | None => th
      end
  | Stats received dropped =>
      let '(fs, st, status) := on_tick (disk th) (current th) os received dropped in
      let th := th <| disk := fs |> <| current := st |> in
      match status with Some status => apply_status th status | None => th end
  end.

(** [writer_rx.recv()] and its command. *)
Definition recv (th : t) (os : Os) : t :=
  match queue th with
  | [] => th
  | cmd :: rest => handle (th <| queue := rest |>) os cmd
  end.

(** The capture loop's side: a packet is offered only while a file is being
    written, and never waits for room. *)
Definition offer_packet (th : t) (timestamp : Z) (direction : Direction) (data : bytes) : t :=
  if active th then
    if zlen (queue th) <? WRITER_QUEUE_CAPACITY then th <| queue ::= λ q, q ++ [Packet timestamp direction data] |>
    else th <| backpressure_drops ::= Z.add 1 |>
  else th.

Definition offer_stats (th : t) (received dropped : Z) : t :=
  if active th then
    if zlen (queue th) <? WRITER_QUEUE_CAPACITY then th <| queue ::= λ q, q ++ [Stats received dropped] |>
    else th
  else th.

(** The status every tick reports. *)
Definition status (th : t) : CaptureFileStatus :=
  mkCaptureFileStatus (active th) (path th) (bytes_written th) (ring_file th) None (autostop_reason th)
    (backpressure_drops th).
End WriterThread.

(** ** Requests *)

Inductive ConfigError := UnknownMode (mode : bytes) | ZeroThreshold.

Definition validate_ring_config (ring : RingConfig) : result ConfigError unit :=
  if bool_decide (ring_mode ring ∈ [lit "size"; lit "duration"; lit "count"]) then
    if ring_threshold ring =? 0 then Err ZeroThreshold else Ok ()
  else Err (UnknownMode (ring_mode ring)).

Definition validate_autostop_config (autostop : AutostopConfig) : result ConfigError unit :=
  if bool_decide (autostop_mode autostop ∈ [lit "duration"; lit "totalSize"]) then
    if autostop_threshold autostop =? 0 then Err ZeroThreshold else Ok ()
  else Err (UnknownMode (autostop_mode autostop)).

Definition err {E A} (r : result E A) : option E := match r with Ok _ => None | Err e => Some e end.

(** Whether [needle] occurs in [l]. *)
Fixpoint contains (l needle : bytes) : bool :=
  bool_decide (needle `prefix_of` l) || match l with [] => false | _ :: l' => contains l' needle end.

Inductive PathError := EmptyPath | InsideData | DotDot | InsideCwd.

Section paths.
(** [std::fs::canonicalize], an answer of the file system. *)
Context (canonicalize : bytes → option bytes).

(** The deepest ancestor that exists, and what is below it. *)
Fixpoint existing_prefix (fuel : nat) (path existing : bytes) (rest : list bytes) : bytes :=
  match fuel with
  | O => path
  | S fuel' =>
      match canonicalize existing with
      | Some real => foldr (λ part acc, path_push acc part) real rest
      | None =>
          match parent existing, file_name existing with
          | Some p, Some name => existing_prefix fuel' path p (rest ++ [name])
          | _, _ => path
          end
      end
  end.

Definition canonicalize_existing_prefix (path : bytes) : bytes :=
  existing_prefix (S (length path)) path path [].

Definition validate_capture_file_path (path cwd : bytes) : result PathError bytes :=
  if bool_decide (trim path = []) then Err EmptyPath
  else if contains path (lit ".data/") || contains path (lit ".data\") then Err InsideData
  else if bool_decide (ParentDir ∈ components path) then Err DotDot
  else
    let resolved := if is_absolute path then path else path_push cwd path in
    let real_cwd := default cwd (canonicalize cwd) in
    if path_starts_with resolved cwd || path_starts_with (canonicalize_existing_prefix resolved) real_cwd
    then Err InsideCwd
    else Ok resolved.

Inductive RequestError := BadConfig (e : ConfigError) | AlreadyActive | BadPath (e : PathError).

(** [ControlMessage::StartCaptureFile]: queued for the writer thread, or
    refused.  [send] waits for room. *)
Definition start_capture_file (th : WriterThread.t) (cwd path : bytes) (ring : option RingConfig)
    (autostop : option AutostopConfig) (idb : InterfaceDescriptionBlock) (host version : bytes)
    : result RequestError WriterThread.t :=
  let config_error :=
    match ring ≫= λ r, err (validate_ring_config r) with
    | Some e => Some e
    | None => autostop ≫= λ a, err (validate_autostop_config a)
    end in
  match config_error with
  | Some e => Err (BadConfig e)
  | None =>
      if WriterThread.active th then Err AlreadyActive
      else
        match validate_capture_file_path path cwd with
        | Err e => Err (BadPath e)
        | Ok resolved =>
            Ok (th <| WriterThread.queue ::= λ q, q ++ [Start resolved ring autostop idb host version] |>)
        end
  end.
End paths.

Definition stop_capture_file (th : WriterThread.t) : WriterThread.t :=
  th <| WriterThread.queue ::= λ q, q ++ [Stop] |>.

(** ** The members of a run have names of their own *)

Lemma member_path_form base cfg :
  ∃ pre suf, (suf = [] ∨ head suf = Some 46) ∧ ∀ i, member_path base (Some cfg) i = pre ++ dec4 i ++ suf.
Proof.
  unfold member_path. set (stem := from_utf8_lossy (default [] (file_stem base))).
  set (ext := from_utf8_lossy _).
  assert (Hform : ∀ suf, ∃ pre, ∀ i,
    with_file_name base (stem ++ lit "-" ++ dec4 i ++ suf) = pre ++ dec4 i ++ suf).
  { intros suf. unfold with_file_name. set (dir := match file_name base with Some _ => _ | None => _ end).
    assert (Habs : ∀ i, is_absolute (stem ++ lit "-" ++ dec4 i ++ suf) = is_absolute (stem ++ lit "-"))
      by (intros i; by destruct stem). unfold path_push. setoid_rewrite Habs.
    destruct (is_absolute _); [|destruct (_ || _)]; eexists; intros i; rewrite !app_assoc; reflexivity. }
  case_bool_decide.
  - destruct (Hform []) as [pre Hp]. exists pre, []. split; [by left|]. intros i. by rewrite <- Hp, !app_nil_r.
  - destruct (Hform (lit "." ++ ext)) as [pre Hp]. exists pre, (lit "." ++ ext). split; [by right|done].
Qed.

Lemma member_neq base cfg i j :
  is_u64 i → is_u64 j → i ≠ j → member_path base (Some cfg) i ≠ member_path base (Some cfg) j.
Proof.
  intros Hi Hj Hne E. destruct (member_path_form base cfg) as (pre & suf & Hs & Hf). rewrite !Hf in E.
  apply app_inv_head in E. destruct (dec4_spec i Hi) as [Hv1 Hd1], (dec4_spec j Hj) as [Hv2 Hd2].
  destruct (digits_prefix_unique _ _ _ _ Hd1 Hd2 Hs Hs E) as [E' _]. congruence.
Qed.

Lemma partial_neq p q : p ≠ q → partial_path p ≠ partial_path q.
Proof. intros Hne E. by apply app_inv_tail in E. Qed.

Lemma member_not_partial base ring i j :
  is_u64 i → is_u64 j → member_path base ring i ≠ partial_path (member_path base ring j).
Proof.
  intros Hi Hj E. destruct ring as [cfg|].
  - destruct (member_path_form base cfg) as (pre & suf & Hs & Hf). unfold partial_path in E. rewrite !Hf in E.
    rewrite <- !app_assoc in E. apply app_inv_head in E.
    destruct (dec4_spec i Hi) as [_ Hd1], (dec4_spec j Hj) as [_ Hd2].
    apply digits_prefix_unique in E as [_ E]; [|done..|].
    + apply (f_equal length) in E. rewrite length_app in E. cbn in E. lia.
    + right. destruct Hs as [->|Hs]; [done|]. by destruct suf.
  - apply (f_equal length) in E. unfold partial_path in E. rewrite length_app in E. cbn in E. lia.
Qed.

(** ** No packet is lost *)

Section run.
Context (base : bytes) (ring : option RingConfig) (autostop : option AutostopConfig)
  (idb : InterfaceDescriptionBlock) (host version : bytes).

Abbreviation member := (member_path base ring).

(** The file that holds the records [recs]. *)
Definition contents (recs : list FileRecord) : bytes :=
  Writer.finish (foldl write_record (Writer.create idb host version) recs).

(** Where a finished member is: under its real name, or, when a flush or a
    rename failed ([strict] false), still under its partial one. *)
Definition member_at (strict : bool) (fs : Fs) (i : Z) (recs : list FileRecord) : Prop :=
  fs !! member i = Some (contents recs) ∨
  strict = false ∧ fs !! partial_path (member i) = Some (contents recs).

Definition members_at (strict : bool) (fs : Fs) (closed : list (list FileRecord)) : Prop :=
  ∀ i recs, closed !! i = Some recs → member_at strict fs (Z.of_nat i + 1) recs.

Definition packet_count (recs : list FileRecord) : Z := zlen (filter (λ r, is_packet r = true) recs).
Definition packet_bytes (recs : list FileRecord) : Z :=
  Writer.bytes_written (foldl write_record (Writer.create idb host version) recs).

Record run_inv (strict : bool) (closed : list (list FileRecord)) (cur : list FileRecord) (fs : Fs)
    (st : RingState.t) : Prop := {
  ri_writer : RingState.writer st = foldl write_record (Writer.create idb host version) cur;
  ri_base : RingState.base_path st = base;
  ri_idb : RingState.idb st = idb;
  ri_host : RingState.hostname st = host;
  ri_version : RingState.agent_version st = version;
  ri_ring : RingState.ring st = ring;
  ri_index : RingState.current_index st = zlen closed + 1;
  ri_bound : zlen closed < U32_MAX;
  ri_single : closed ≠ [] → ring ≠ None;
  ri_partial : fs !! partial_path (member (RingState.current_index st)) = Some (contents cur);
  ri_closed : members_at strict fs closed;
  ri_packets : RingState.packets_this_file st = packet_count cur;
  ri_bytes : RingState.bytes_before_current_file st = packet_bytes (concat closed)
}.

Lemma run_member_inv strict closed cur fs st :
  run_inv strict closed cur fs st → run_member st = member (zlen closed + 1).
Proof. intros Hi. unfold run_member. by rewrite (ri_base _ _ _ _ _ Hi), (ri_ring _ _ _ _ _ Hi), (ri_index _ _ _ _ _ Hi). Qed.

(** A change under other names leaves the closed members where they are. *)
Lemma members_at_frame strict fs fs' closed :
  zlen closed < U32_MAX → members_at strict fs closed →
  (∀ i, 1 <= i <= zlen closed → fs' !! member i = fs !! member i ∧
        fs' !! partial_path (member i) = fs !! partial_path (member i)) →
  members_at strict fs' closed.
Proof.
  intros Hb Hm Hf i recs Hi. pose proof (lookup_lt_Some _ _ _ Hi).
  destruct (Hf (Z.of_nat i + 1)) as [E1 E2]; [lia|]. unfold member_at. rewrite E1, E2. by apply Hm.
Qed.

(** The names of the members below [k] are not those of member [k]. *)
Lemma other_names (closed : list (list FileRecord)) i k :
  (closed ≠ [] → ring ≠ None) → zlen closed < U32_MAX →
  1 <= i <= zlen closed → zlen closed < k <= zlen closed + 2 →
  member i ≠ member k ∧ partial_path (member i) ≠ partial_path (member k) ∧
  member i ≠ partial_path (member k) ∧ partial_path (member i) ≠ member k.
Proof.
  intros Hs Hb Hi Hk. destruct ring as [cfg|] eqn:Er.
  - assert (member_path base (Some cfg) i ≠ member_path base (Some cfg) k) by (apply member_neq; zlia).
    split_and!; [done|by apply partial_neq|apply member_not_partial; zlia|].
    apply not_eq_sym, member_not_partial; zlia.
  - exfalso. apply Hs; [|done]. intros ->. cbn in Hi. lia.
Qed.

Lemma packet_count_app a b : packet_count (a ++ b) = packet_count a + packet_count b.
Proof. unfold packet_count. rewrite filter_app, length_app. lia. Qed.

Lemma bytes_foldl w w' recs :
  Writer.bytes_written (foldl write_record w recs) - Writer.bytes_written w
  = Writer.bytes_written (foldl write_record w' recs) - Writer.bytes_written w'.
Proof.
  revert w w'. induction recs as [|r recs IH]; intros w w'; cbn [foldl]; [lia|].
  specialize (IH (write_record w r) (write_record w' r)). destruct r; cbn in *; lia.
Qed.

Lemma packet_bytes_app a b : packet_bytes (a ++ b) = packet_bytes a + packet_bytes b.
Proof.
  unfold packet_bytes. rewrite foldl_app. set (w := foldl _ _ a).
  pose proof (bytes_foldl w (Writer.create idb host version) b). cbn [Writer.bytes_written Writer.create] in *. lia.
Qed.

(** A record written whole. *)
Lemma append_inv strict closed cur fs st rec :
  run_inv strict closed cur fs st →
  let st' := st <| RingState.writer := write_record (RingState.writer st) rec |> in
  let st' := if is_packet rec then st' <| RingState.packets_this_file ::= Z.add 1 |> else st' in
  run_inv strict closed (cur ++ [rec]) (sync fs st') st'.
Proof.
  intros Hi st1 st'. pose proof (run_member_inv _ _ _ _ _ Hi) as Hm. destruct Hi.
  assert (Hm' : run_member st' = member (zlen closed + 1)).
  { rewrite <- Hm. unfold run_member. subst st' st1. by destruct (is_packet rec). }
  assert (Hw : RingState.writer st' = foldl write_record (Writer.create idb host version) (cur ++ [rec])).
  { rewrite foldl_snoc, <- ri_writer0. subst st' st1. by destruct (is_packet rec). }
  assert (Hf : sync fs st' = <[partial_path (member (zlen closed + 1)) := contents (cur ++ [rec])]> fs).
  { unfold sync. rewrite Hm', Hw. done. }
  rewrite Hf. split; try (subst st' st1; destruct (is_packet rec); done).
  - replace (RingState.current_index st') with (zlen closed + 1) by (subst st' st1; by destruct (is_packet rec)).
    apply lookup_insert_eq.
  - eapply members_at_frame; [done..|]. intros i Hi.
    destruct (other_names closed i (zlen closed + 1)) as (H1 & H2 & H3 & H4); [done|done|done|lia|].
    by rewrite !lookup_insert_ne by congruence.
  - rewrite packet_count_app, <- ri_packets0. subst st' st1. destruct rec; cbn [is_packet]; [|rewrite Z.add_0_r; reflexivity]. apply Z.add_comm.
Qed.

(** The current member is finished. *)
Lemma finish_run_inv strict closed cur fs st os :
  run_inv strict closed cur fs st → (strict = true → os_finish_ok os && os_rename_ok os = true) →
  members_at strict (finish_and_rename fs os (run_member st)) (closed ++ [cur]) ∧
  (∀ p, p ≠ run_member st → p ≠ partial_path (run_member st) →
        finish_and_rename fs os (run_member st) !! p = fs !! p).
Proof.
  intros Hi Hs. rewrite (run_member_inv _ _ _ _ _ Hi). destruct Hi. rewrite ri_index0 in ri_partial0.
  unfold finish_and_rename. destruct (os_finish_ok os && os_rename_ok os) eqn:Eok.
  - rewrite ri_partial0. split.
    + intros i recs [Hi|(Hge & Hi)]%lookup_app_Some.
      * pose proof (lookup_lt_Some _ _ _ Hi). unfold member_at.
        destruct (other_names closed (Z.of_nat i + 1) (zlen closed + 1)) as (H1 & H2 & H3 & H4); [done|done|lia|lia|].
        rewrite !lookup_insert_ne, !lookup_delete_ne by congruence. by apply ri_closed0.
      * apply list_lookup_singleton_Some in Hi as [Hi <-]. left.
        replace (Z.of_nat i + 1) with (zlen closed + 1) by lia. apply lookup_insert_eq.
    + intros p H1 H2. by rewrite lookup_insert_ne, lookup_delete_ne by congruence.
  - split; [|done]. destruct strict; [by specialize (Hs eq_refl)|].
    intros i recs [Hi|(Hge & Hi)]%lookup_app_Some; [by apply ri_closed0|].
    apply list_lookup_singleton_Some in Hi as [Hi <-]. right. split; [done|].
    by replace (Z.of_nat i + 1) with (zlen closed + 1) by lia.
Qed.

(** Opening the next member changes its partial name only. *)
Lemma open_next_frame fs os i p :
  p ≠ partial_path (member i) → (open_next fs os base ring i idb host version).1 !! p = fs !! p.
Proof.
  intros Hp. unfold open_next, writer_create. destruct (fs !! _); [done|].
  destruct (os_open os); cbn; rewrite ?lookup_insert_ne by congruence; done.
Qed.

Lemma open_next_Some fs os i fs' w :
  open_next fs os base ring i idb host version = (fs', Some w) →
  w = Writer.create idb host version ∧ fs' !! partial_path (member i) = Some (contents []).
Proof.
  unfold open_next, writer_create. destruct (fs !! _); [done|].
  destruct (os_open os); intros [=]; subst. by rewrite lookup_insert_eq.
Qed.

(** The run with another disk that agrees on its names. *)
Lemma run_inv_disk strict closed cur fs fs' st :
  run_inv strict closed cur fs st →
  (∀ i, 1 <= i <= zlen closed + 1 → fs' !! member i = fs !! member i ∧
        fs' !! partial_path (member i) = fs !! partial_path (member i)) →
  run_inv strict closed cur fs' st.
Proof.
  intros Hi Hf. destruct Hi. split; try done.
  - rewrite ri_index0 in *. destruct (Hf (zlen closed + 1)) as [_ ->]; [lia|done].
  - eapply members_at_frame; [done..|]. intros i ?. apply Hf. lia.
Qed.

Lemma rotate_inv strict closed cur fs st os :
  run_inv strict closed cur fs st → ring ≠ None → zlen closed + 1 < U32_MAX →
  (strict = true → os_finish_ok os && os_rename_ok os = true) →
  let '(fs', st') := rotate fs st os in
  run_inv strict closed cur fs' st' ∨ run_inv strict (closed ++ [cur]) [] fs' st'.
Proof.
  intros Hi Hr Hb Hs. pose proof (run_member_inv _ _ _ _ _ Hi) as Hm. unfold rotate.
  rewrite (ri_base _ _ _ _ _ Hi), (ri_idb _ _ _ _ _ Hi), (ri_host _ _ _ _ _ Hi), (ri_version _ _ _ _ _ Hi),
    (ri_ring _ _ _ _ _ Hi), (ri_index _ _ _ _ _ Hi).
  set (k := zlen closed + 1 + 1).
  assert (Hnames : ∀ i, 1 <= i <= zlen closed + 1 →
    member i ≠ partial_path (member k) ∧ partial_path (member i) ≠ partial_path (member k)).
  { intros i Hi'. destruct (other_names (closed ++ [cur]) i k) as (H1 & H2 & H3 & H4);
      rewrite ?length_app; cbn [length]; subst k; try done; try lia. }
  destruct (open_next _ _ _ _ _ _ _ _) as [fs1 ow] eqn:Eo.
  assert (Hi1 : run_inv strict closed cur fs1 st).
  { eapply run_inv_disk; [done|]. intros i Hi'. destruct (Hnames i Hi') as [H1 H2].
    change fs1 with (fs1, ow).1. rewrite <- Eo. by rewrite !open_next_frame. }
  destruct ow as [w|]; [|by left]. right. apply open_next_Some in Eo as [-> Hpart].
  destruct (finish_run_inv strict closed cur fs1 st os Hi1 Hs) as [Hmem Hframe].
  assert (Hk : zlen (closed ++ [cur]) + 1 = k) by (rewrite length_app; cbn; lia).
  rewrite Hm in *. destruct Hi. split; try done.
  - rewrite length_app. cbn [length]. lia.
  - change (RingState.current_index _) with k. rewrite Hframe, Hpart; [done| |]; apply not_eq_sym; apply Hnames; lia.
  - change (RingState.bytes_before_current_file _)
      with (RingState.bytes_before_current_file st + Writer.bytes_written (RingState.writer st)).
    rewrite concat_app, packet_bytes_app, ri_bytes0, ri_writer0. cbn [concat]. by rewrite app_nil_r.
Qed.

(** What one command does to a run: it goes on, in the same member or the
    next, or it ends with all its members finished. *)
Definition run_or_done (strict : bool) (recs : list FileRecord) (fs : Fs) (st : option RingState.t) : Prop :=
  match st with
  | Some st => ∃ closed cur, recs = concat closed ++ cur ∧ run_inv strict closed cur fs st ∧
      zlen closed <= zlen recs
  | None => ∃ members, members ≠ [] ∧ recs = concat members ∧ members_at strict fs members
  end.

Lemma should_rotate_ring now st : should_rotate now st = true → RingState.ring st ≠ None.
Proof. unfold should_rotate. by destruct (RingState.ring st). Qed.

Lemma run_bytes strict closed cur fs st :
  run_inv strict closed cur fs st → ring_bytes_written st = packet_bytes (concat closed ++ cur).
Proof.
  intros Hi. unfold ring_bytes_written. rewrite packet_bytes_app, (ri_bytes _ _ _ _ _ Hi), (ri_writer _ _ _ _ _ Hi). done.
Qed.

Lemma tick_inv strict closed cur fs st os received dropped :
  let rec := StatsRecord (os_wall os) received dropped in
  let recs := concat closed ++ cur in
  run_inv strict closed cur fs st → zlen closed <= zlen recs → zlen recs + 1 < U32_MAX → os_write_fails os = None →
  (strict = true → os_finish_ok os && os_rename_ok os = true) →
  let '(fs', st', status) := on_tick fs (Some st) os received dropped in
  run_or_done strict (recs ++ [rec]) fs' st' ∧
  (cf_bytes_written <$> status) = Some (packet_bytes (recs ++ [rec])).
Proof.
  intros rec recs Hi Hl Hb Hw Hs. unfold on_tick, writer_append. rewrite Hw.
  pose proof (append_inv strict closed cur fs st rec Hi) as Hi'. cbn [is_packet rec write_record] in Hi'.
  set (st1 := st <| RingState.writer := _ |>) in *. set (fs1 := sync fs st1) in *.
  pose proof (run_bytes _ _ _ _ _ Hi') as Hby. rewrite app_assoc in Hby. change (concat closed ++ cur) with recs in Hby.
  destruct (_ || _).
  - split; [|by rewrite <- Hby]. exists (closed ++ [cur ++ [rec]]). split_and!.
    + by destruct closed.
    + rewrite concat_app. cbn. by rewrite app_nil_r, app_assoc.
    + by apply finish_run_inv.
  - assert (Hgo : run_or_done strict (recs ++ [rec]) fs1 (Some st1)).
    { exists closed, (cur ++ [rec]). split_and!; [by rewrite app_assoc|done|]. rewrite length_app. lia. }
    destruct (should_rotate _ _) eqn:Er; [|by split; [|rewrite <- Hby]].
    apply should_rotate_ring in Er. rewrite (ri_ring _ _ _ _ _ Hi') in Er.
    pose proof (rotate_inv strict closed _ fs1 st1 os Hi' Er ltac:(lia) Hs) as Hr.
    destruct (rotate fs1 st1 os) as [fs2 st2]. destruct Hr as [Hr|Hr]; (split; [|rewrite <- Hby]); cbn.
    + exists closed, (cur ++ [rec]). split_and!; [by rewrite app_assoc|done|]. rewrite length_app. lia.
    + f_equal. rewrite (run_bytes _ _ _ _ _ Hr), Hby. f_equal. by rewrite app_assoc.
    + exists (closed ++ [cur ++ [rec]]), []. rewrite concat_app. cbn [concat]. rewrite !app_nil_r.
      split_and!; [by rewrite app_assoc|done|]. rewrite !length_app. cbn [length]. lia.
    + f_equal. rewrite (run_bytes _ _ _ _ _ Hr), Hby, concat_app. cbn [concat]. rewrite !app_nil_r. f_equal. by rewrite app_assoc.
Qed.

(** *** The writer thread *)

(** What a command writes while a run is active. *)
Definition record_of (os : Os) (cmd : WriterCommand) : list FileRecord :=
  match cmd with
  | Packet ts d data => [PacketRecord ts d data]
  | Stats received dropped => [StatsRecord (os_wall os) received dropped]
  | Start _ _ _ _ _ _ | Stop => []
  end.

Fixpoint recorded (th : WriterThread.t) (cmds : list (Os * WriterCommand)) : list FileRecord :=
  match cmds with
  | [] => []
  | (os, cmd) :: cmds' =>
      (match WriterThread.current th with Some _ => record_of os cmd | None => [] end)
        ++ recorded (WriterThread.handle th os cmd) cmds'
  end.

Definition run_commands (th : WriterThread.t) (cmds : list (Os * WriterCommand)) : WriterThread.t :=
  foldl (λ th '(os, cmd), WriterThread.handle th os cmd) th cmds.

(** A packet or a tick whose block is written whole. *)
Definition data_command (c : Os * WriterCommand) : Prop :=
  os_write_fails c.1 = None ∧ match c.2 with Packet _ _ _ | Stats _ _ => True | _ => False end.
Definition disk_healthy (os : Os) : Prop := os_finish_ok os && os_rename_ok os = true.
#[local] Instance disk_healthy_dec os : Decision (disk_healthy os).
Proof. unfold disk_healthy. apply _. Defined.

Definition thread_inv (strict : bool) (recs : list FileRecord) (th : WriterThread.t) : Prop :=
  run_or_done strict recs (WriterThread.disk th) (WriterThread.current th) ∧
  WriterThread.bytes_written th = packet_bytes recs.

Lemma handle_inv strict recs th os cmd :
  thread_inv strict recs th → zlen recs + 1 < U32_MAX → data_command (os, cmd) → (strict = true → disk_healthy os) →
  thread_inv strict (recs ++ (match WriterThread.current th with Some _ => record_of os cmd | None => [] end)) (WriterThread.handle th os cmd).
Proof.
  intros [Hi Hby] Hb [Hw Hc] Hs. cbn [fst snd] in *.
  destruct (WriterThread.current th) as [st|] eqn:Ec.
  2: { rewrite app_nil_r. destruct cmd; try done; cbn [WriterThread.handle]; rewrite Ec; [by split; [rewrite Ec|]|].
       by split. }
  destruct Hi as (closed & cur & -> & Hi & Hl). destruct cmd as [| |ts d data|received dropped]; try done; cbn [record_of].
  - cbn [WriterThread.handle]. rewrite Ec. unfold ring_write_packet, writer_append. rewrite Hw.
    pose proof (append_inv strict closed cur _ st (PacketRecord ts d data) Hi) as Hi'.
    cbn [is_packet write_record] in Hi'. split; cbn.
    + exists closed, (cur ++ [PacketRecord ts d data]). split_and!; [by rewrite app_assoc|exact Hi'|].
      rewrite length_app. lia.
    + rewrite <- app_assoc. by rewrite <- (run_bytes _ _ _ _ _ Hi').
  - pose proof (tick_inv strict closed cur _ st os received dropped Hi Hl Hb Hw Hs) as Ht.
    cbn [WriterThread.handle]. rewrite Ec. destruct (on_tick _ _ _ _ _) as [[fs' st'] [status|]];
      destruct Ht as [Ht Hst]; [|done]. injection Hst as Hst. by split.
Qed.

Lemma run_commands_inv strict recs th cmds :
  thread_inv strict recs th → zlen recs + zlen cmds < U32_MAX → Forall data_command cmds →
  (strict = true → Forall (λ c, disk_healthy c.1) cmds) →
  thread_inv strict (recs ++ recorded th cmds) (run_commands th cmds).
Proof.
  intros Hi Hl Hc. revert recs th Hi Hl. induction Hc as [|[os cmd] cmds Hcmd _ IH]; intros recs th Hi Hl Hs.
  { cbn. by rewrite app_nil_r. }
  cbn [recorded run_commands foldl length] in *. rewrite app_assoc. apply IH.
  - apply handle_inv; [done|lia|done|]. intros E. specialize (Hs E). by inversion Hs.
  - rewrite length_app. destruct (WriterThread.current th); [|cbn; lia]. destruct cmd; cbn; lia.
  - intros E. specialize (Hs E). by inversion Hs.
Qed.

Lemma start_inv strict th os :
  WriterThread.current th = None →
  let th' := WriterThread.handle th os (Start base ring autostop idb host version) in
  is_Some (WriterThread.current th') → thread_inv strict [] th'.
Proof.
  intros Hn th' Hs. subst th'. cbn [WriterThread.handle] in *. unfold start in *. rewrite Hn in *.
  destruct (os_free os) as [free|]; [|by destruct Hs]. destruct (free <? _); [by destruct Hs|].
  destruct (open_next _ _ _ _ _ _ _ _) as [fs [w|]] eqn:Eo; [|by destruct Hs].
  apply open_next_Some in Eo as [-> Hp]. split; [|done]. exists [], []. split_and!; [done| |done].
  split; try done.
Qed.

Lemma stop_inv strict recs th os :
  thread_inv strict recs th → (strict = true → disk_healthy os) →
  let th' := WriterThread.handle th os Stop in
  WriterThread.current th' = None ∧ thread_inv strict recs th'.
Proof.
  intros [Hi Hby] Hs th'. subst th'. cbn [WriterThread.handle]. unfold stop.
  destruct (WriterThread.current th) as [st|] eqn:Ec; cbn; rewrite Ec; (split; [done|]); (split; [|done]); cbn.
  - destruct Hi as (closed & cur & -> & Hi & _). exists (closed ++ [cur]). split_and!.
    + by destruct closed.
    + rewrite concat_app. cbn. by rewrite app_nil_r.
    + by apply finish_run_inv.
  - exact Hi.
Qed.
End run.

(** C3: A capture to file loses no packet.  Once a run has started, whatever
    packets and ticks follow, however the run rotates (by size, duration or
    count, with any opens of the next member failing), whether it stops by
    itself (autostop, low disk) or by request: the records written while it was
    active are, in order, those of its members; every member reads back through
    the pcapng reader as exactly its packets; and each is complete under its
    real name, or, only if some flush or rename failed, under its [.partial]
    name.  The byte count reported is that of the packet blocks of all
    members. *)
Theorem capture_run_lossless th os path ring autostop idb host version cmds os' :
  let th0 := WriterThread.handle th os (Start path ring autostop idb host version) in
  let th1 := WriterThread.handle (run_commands th0 cmds) os' Stop in
  let written := recorded th0 cmds in
  WriterThread.current th = None → is_Some (WriterThread.current th0) → header_ok idb host version →
  Forall data_command cmds → zlen cmds < U32_MAX → Forall record_ok written →
  WriterThread.current th1 = None ∧
  WriterThread.bytes_written th1 = zlen (concat (record_bytes <$> List.filter is_packet written)) ∧
  ∃ members, members ≠ [] ∧ concat members = written ∧
    ∀ i recs, members !! i = Some recs →
    let name := member_path path ring (Z.of_nat i + 1) in
    ∃ file r, (WriterThread.disk th1 !! name = Some file ∨
             ¬ Forall disk_healthy (os' :: cmds.*1) ∧ WriterThread.disk th1 !! partial_path name = Some file) ∧
      Reader.new file = Ok (r, mkParsedInterface (Some (interface_name idb)) (idb_link_type idb) (snaplen idb) 9) ∧
      read_packets (S (length recs)) r = Ok (concat (record_packet (idb_link_type idb) <$> recs)).
Proof.
  intros th0 th1 written Hn Hst Hh Hc Hl Hr.
  set (strict := bool_decide (Forall disk_healthy (os' :: cmds.*1))).
  assert (Hstrict : strict = true → disk_healthy os' ∧ Forall (λ c, disk_healthy c.1) cmds).
  { intros Hd%bool_decide_eq_true. apply Forall_cons in Hd as [Hd1 Hd2]. split; [done|]. exact (proj1 (Forall_fmap fst disk_healthy cmds) Hd2). }
  pose proof (start_inv path ring autostop idb host version strict th os Hn Hst) as H0.
  apply (run_commands_inv _ _ _ _ _ _ _ _ cmds) in H0; [|cbn; lia|done|tauto].
  apply (stop_inv _ _ _ _ _ _ _ _ os') in H0 as (Hend & Hi & Hby); [|tauto]. fold th0 th1 written in Hend, Hi, Hby.
  rewrite Hend in Hi. destruct Hi as (members & Hne & Hcat & Hm). split_and!; [done| |].
  - rewrite Hby. unfold packet_bytes. cbn [app]. by rewrite bytes_written_counts_packets.
  - exists members. split_and!; [done|by rewrite <- Hcat|]. intros i recs Hi name. specialize (Hm i recs Hi).
    assert (Hok : Forall record_ok recs).
    { cbn [app] in Hcat. rewrite Hcat, Forall_concat in Hr. by eapply Forall_lookup_1 in Hr. }
    destruct (finished_file_reads_back idb host version recs Hh Hok) as [Hnew Hread].
    exists (contents idb host version recs). eexists. split_and!; [|exact Hnew|exact Hread].
    destruct Hm as [?|[Hf ?]]; [by left|]. right. split; [|done]. by apply bool_decide_eq_false in Hf.
Qed.

(** A healthy system, at second [t]; and one whose next open fails. *)
Definition sample_os (t : Z) : Os := mkOs (t * 1000000000) (1700000000000000000 + t) (Some (2 ^ 40)) Opened None true true.
Definition busy_os (t : Z) : Os := mkOs (t * 1000000000) (1700000000000000000 + t) (Some (2 ^ 40)) OpenFailed None true true.

Definition sample_start : WriterCommand :=
  Start (lit "/tmp/cap.pcapng") (Some (mkRingConfig (lit "count") 2)) (Some (mkAutostopConfig (lit "duration") 60))
    sample_idb (lit "host") (lit "1.0").
Definition sample_packet (n : Z) : WriterCommand := Packet (1700000000000000000 + n) Inbound [n; n + 1; n + 2].

(** Two packets, a tick that cannot rotate, a third, a tick that does, a
    fourth in the second member. *)
Definition sample_commands : list (Os * WriterCommand) :=
  [(sample_os 1, sample_packet 1); (sample_os 1, sample_packet 2); (busy_os 2, Stats 2 0);
   (sample_os 2, sample_packet 3); (sample_os 3, Stats 3 0); (sample_os 4, sample_packet 4)].

Definition sample_thread : WriterThread.t := WriterThread.handle (WriterThread.init ∅) (sample_os 0) sample_start.

Example sample_run_files :
  (elements (dom (WriterThread.disk (run_commands sample_thread sample_commands))) ≡ₚ
     [lit "/tmp/cap-0001.pcapng"; lit "/tmp/cap-0002.pcapng.partial"]) ∧
  WriterThread.ring_file (run_commands sample_thread sample_commands) = Some 2.
Proof. vm_compute. split; [|reflexivity]. first [reflexivity|apply Permutation_swap]. Qed.

Lemma capture_run_lossless_witness :
  let th1 := WriterThread.handle (run_commands sample_thread sample_commands) (sample_os 5) Stop in
  let written := recorded sample_thread sample_commands in
  WriterThread.current th1 = None ∧
  WriterThread.bytes_written th1 = zlen (concat (record_bytes <$> List.filter is_packet written)) ∧
  ∃ members, members ≠ [] ∧ concat members = written ∧
    ∀ i recs, members !! i = Some recs →
    let name := member_path (lit "/tmp/cap.pcapng") (Some (mkRingConfig (lit "count") 2)) (Z.of_nat i + 1) in
    ∃ file r, (WriterThread.disk th1 !! name = Some file ∨
             ¬ Forall disk_healthy (sample_os 5 :: sample_commands.*1) ∧
             WriterThread.disk th1 !! partial_path name = Some file) ∧
      Reader.new file = Ok (r, mkParsedInterface (Some (lit "en0")) Ethernet 65535 9) ∧
      read_packets (S (length recs)) r = Ok (concat (record_packet Ethernet <$> recs)).
Proof.
  apply (capture_run_lossless (WriterThread.init ∅) (sample_os 0) (lit "/tmp/cap.pcapng")
           (Some (mkRingConfig (lit "count") 2)) (Some (mkAutostopConfig (lit "duration") 60))
           sample_idb (lit "host") (lit "1.0") sample_commands (sample_os 5)).
  - reflexivity.
  - vm_compute. eexists. reflexivity.
  - repeat split; try apply lit_u8; try (vm_compute; congruence). by eexists.
  - repeat constructor.
  - vm_compute. reflexivity.
  - match goal with |- Forall _ ?l => let l' := eval vm_compute in l in change l with l' end.
    repeat constructor; vm_compute; congruence.
Defined.

(** ** Limits of the run's promises *)

(** A member whose header could not be written blocks rotation for good.
    The failed attempt leaves its [.partial] file behind, the next attempt
    refuses to open an existing file, and so every later rotation of the run
    leaves disk and run as they are. *)
Theorem rotation_blocked fs st os k :
  os_open os = HeaderFailed k →
  let '(fs', st') := rotate fs st os in ∀ os', rotate fs' st' os' = (fs', st').
Proof.
  intros Ho. unfold rotate, open_next, writer_create. set (p := partial_path _).
  destruct (fs !! p) as [c|] eqn:Ep; [|rewrite Ho]; intros os'; fold p; [by rewrite Ep|].
  by rewrite lookup_insert_eq.
Qed.

Lemma rotation_blocked_witness :
  let st := RingState.mk (Writer.create sample_idb [] []) (lit "/tmp/a") sample_idb [] []
              (Some (mkRingConfig (lit "count") 2)) None 1 0 0 2 0 in
  let os := mkOs 2000000000 0 (Some (2 ^ 40)) (HeaderFailed 10) None true true in
  let '(fs', st') := rotate ∅ st os in ∀ os', rotate fs' st' os' = (fs', st').
Proof. apply (rotation_blocked ∅ _ _ 10). reflexivity. Defined.

(** A run that stopped by itself keeps reporting why.  Once no run is
    active, packets and ticks leave the thread's state as it is, so the status
    of every later tick repeats the reason until the next start or stop. *)
Theorem autostop_reason_sticks th cmds :
  WriterThread.current th = None →
  Forall (λ c : Os * WriterCommand, match c.2 with Packet _ _ _ | Stats _ _ => True | _ => False end) cmds →
  WriterThread.status (run_commands th cmds) = WriterThread.status th.
Proof.
  intros Hn Hc. revert th Hn. induction Hc as [|[os cmd] cmds Hcmd _ IH]; intros th Hn; [done|].
  cbn [run_commands foldl]. rewrite IH; destruct cmd; try done; cbn [WriterThread.handle]; by rewrite Hn.
Qed.

Definition stopped_thread : WriterThread.t := run_commands sample_thread [(sample_os 61, Stats 9 0)].

Lemma autostop_reason_sticks_witness :
  cf_autostop_reason (WriterThread.status stopped_thread) = Some (lit "duration") ∧
  WriterThread.status (run_commands stopped_thread [(sample_os 62, Stats 9 0); (sample_os 63, Stats 9 0)])
  = WriterThread.status stopped_thread.
Proof.
  split; [vm_compute; reflexivity|].
  apply (autostop_reason_sticks stopped_thread [(sample_os 62, Stats 9 0); (sample_os 63, Stats 9 0)]);
    [vm_compute; reflexivity|repeat constructor].
Defined.

(** Two requests handled before the writer thread takes either: both pass the
    check, the second run replaces the first, and the first run's file keeps its
    [.partial] name. *)
Example second_start_abandons_first_run :
  let request th p := start_capture_file (λ _, None) th (lit "/srv") (lit p) None None sample_idb (lit "h") (lit "1") in
  match (let? th := request (WriterThread.init ∅) "/tmp/a" in request th "/tmp/b") with
  | Ok th =>
      let th := WriterThread.recv (WriterThread.recv th (sample_os 0)) (sample_os 0) in
      let th := run_commands th [(sample_os 1, sample_packet 1); (sample_os 2, Stop)] in
      WriterThread.current th = None ∧ WriterThread.errors th = [] ∧
      is_Some (WriterThread.disk th !! lit "/tmp/a.partial") ∧ WriterThread.disk th !! lit "/tmp/a" = None ∧
      is_Some (WriterThread.disk th !! lit "/tmp/b")
  | Err _ => False
  end.
Proof. vm_compute. repeat split; by eexists. Qed.

(** A second run under the same name replaces the first one's file: only the
    [.partial] file is opened with [create_new]. *)
Example second_run_overwrites_first :
  let run p := [(sample_os 0, Start (lit "/tmp/a") None None sample_idb (lit "h") (lit "1"));
                (sample_os 1, sample_packet p); (sample_os 2, Stop)] in
  let once := run_commands (WriterThread.init ∅) (run 1) in
  let twice := run_commands once (run 7) in
  WriterThread.errors twice = [] ∧
  is_Some (WriterThread.disk once !! lit "/tmp/a") ∧
  WriterThread.disk twice !! lit "/tmp/a" ≠ WriterThread.disk once !! lit "/tmp/a" ∧
  size (WriterThread.disk twice) = 1%nat.
Proof. vm_compute. split_and!; [done|by eexists|congruence|done]. Qed.
