(* ===== verification/Transaction.v ===== *)
(** * Requests and responses

    The transaction tracker of [capture-agent/src/transaction.rs]: DNS and
    HTTP/1.x requests waiting for their responses, service times on the
    capture clock, and requests reported once when they time out.  The
    statistics shared with the periodic emitter are a field of the tracker.
    Timestamps are microseconds. *)

From S2P Require Import Prelude Packet Text L7 Flow.

Definition DNS_TIMEOUT_US : Z := 5000000.
Definition HTTP_TIMEOUT_US : Z := 30000000.
Definition MAX_PENDING : Z := 4096.
Definition MAX_HTTP_PIPELINE : Z := 32.
Definition RECENT_SAMPLES : Z := 1024.
Definition SWEEP_INTERVAL_US : Z := 500000.
Definition MAX_LABEL_CHARS : Z := 120.

Inductive TxnProtocol := TxnDns | TxnHttp.

#[export] Instance TxnProtocol_eq_dec : EqDecision TxnProtocol.
Proof. solve_decision. Defined.

Definition txn_label (p : TxnProtocol) : bytes :=
  match p with TxnDns => lit "DNS" | TxnHttp => lit "HTTP" end.

Definition timeout_us (p : TxnProtocol) : Z :=
  match p with TxnDns => DNS_TIMEOUT_US | TxnHttp => HTTP_TIMEOUT_US end.

Inductive RequestRef :=
| RefDns (key : FlowKey) (id : Z)
| RefHttp (key : FlowKey) (seq : Z).

Inductive TxnEvent :=
| TxnNone
| TxnRequest (request : RequestRef)
| TxnUntracked
| TxnRetransmittedRequest
| TxnAnswered (protocol : TxnProtocol) (service_time_us : Z) (request_frame_id : option bytes)
| TxnDuplicateResponse
| TxnInformational
| TxnUnmatched.

Record Unanswered := mkUnanswered {
  un_protocol : TxnProtocol;
  un_flow_id : bytes;
  un_request_frame_id : option bytes;
  un_description : bytes
}.

Definition unanswered_summary (u : Unanswered) : bytes :=
  lit "no " ++ txn_label (un_protocol u) ++ lit " response to " ++ un_description u
    ++ lit " within " ++ dec (timeout_us (un_protocol u) / 1000000) ++ lit " s".

Record PendingRequest := mkPending {
  sent_at_us : Z;
  request_is_outbound : bool;
  description : bytes;
  frame_id : option bytes;
  dns_qname : option bytes;
  http_seq : Z
}.
#[export] Instance eta_PendingRequest : RecordEta PendingRequest := λ r,
  mkPending (sent_at_us r) (request_is_outbound r) (description r) (frame_id r) (dns_qname r) (http_seq r).

(** ** Statistics *)

Module ProtocolStats.
Record t := mk {
  answered : Z;
  unanswered : Z;
  untracked : Z;
  min_us : option Z;
  max_us : option Z;
  recent : list Z
}.
#[global] Instance eta : RecordEta t := λ r,
  mk (answered r) (unanswered r) (untracked r) (min_us r) (max_us r) (recent r).

Definition default_stats : t := mk 0 0 0 None None [].

Definition record (s : t) (service_time_us : Z) : t :=
  let s :=
    s <| answered ::= Z.succ |>
      <| min_us ::= λ m, Some (match m with Some m => Z.min m service_time_us | None => service_time_us end) |>
      <| max_us ::= λ m, Some (match m with Some m => Z.max m service_time_us | None => service_time_us end) |> in
  let s := if zlen (recent s) =? RECENT_SAMPLES then s <| recent ::= zdrop 1 |> else s in
  s <| recent ::= λ l, l ++ [service_time_us] |>.
End ProtocolStats.

Definition nearest_rank (sorted : list Z) (percent : Z) : option Z :=
  if bool_decide (sorted = []) then None
  else
    let rank := Z.max ((percent * zlen sorted + 99) / 100) 1 in
    nth_z sorted (rank - 1).

Record ServiceTimeSummary := mkServiceTimeSummary {
  sum_protocol : bytes;
  sum_answered : Z;
  sum_unanswered : Z;
  sum_untracked : Z;
  sum_min_us : option Z;
  sum_max_us : option Z;
  sample_count : Z;
  median_us : option Z;
  p95_us : option Z
}.

Definition summary (s : ProtocolStats.t) (protocol : TxnProtocol) : ServiceTimeSummary :=
  let sorted := sort_by_key (λ x, x) (ProtocolStats.recent s) in
  mkServiceTimeSummary (txn_label protocol) (ProtocolStats.answered s) (ProtocolStats.unanswered s)
    (ProtocolStats.untracked s) (ProtocolStats.min_us s) (ProtocolStats.max_us s) (zlen sorted)
    (nearest_rank sorted 50) (nearest_rank sorted 95).

Record ServiceTimeStats := mkServiceTimeStats { stats_dns : ProtocolStats.t; stats_http : ProtocolStats.t }.
#[export] Instance eta_ServiceTimeStats : RecordEta ServiceTimeStats := λ r,
  mkServiceTimeStats (stats_dns r) (stats_http r).

Definition for_protocol (p : TxnProtocol) (s : ServiceTimeStats) : ProtocolStats.t :=
  match p with TxnDns => stats_dns s | TxnHttp => stats_http s end.

(** A change through [for_protocol]'s mutable reference. *)
Definition update_protocol (p : TxnProtocol) (f : ProtocolStats.t → ProtocolStats.t)
    (s : ServiceTimeStats) : ServiceTimeStats :=
  match p with TxnDns => s <| stats_dns ::= f |> | TxnHttp => s <| stats_http ::= f |> end.

Definition stats_snapshot (s : ServiceTimeStats) : list ServiceTimeSummary :=
  [summary (stats_dns s) TxnDns; summary (stats_http s) TxnHttp].

(** ** Display *)

Definition ELLIPSIS : Z := 8230.

(** [char::escape_unicode]. *)
Definition escape_unicode (c : Z) : bytes := lit "\u{" ++ hex c ++ lit "}".

Definition display_char (c : Z) : bytes :=
  if in_range 33 126 c || (c =? 32) then encode_char c else escape_unicode c.

Fixpoint display_chars (count : Z) (cs : list Z) : bytes :=
  match cs with
  | [] => []
  | c :: cs' =>
      if count =? MAX_LABEL_CHARS then encode_char ELLIPSIS
      else display_char c ++ display_chars (count + 1) cs'
  end.

Definition display_safe (text : bytes) : bytes := display_chars 0 (chars text).

(** ** The tracker *)

Module TransactionTracker.
Record t := mk {
  dns : gmap (FlowKey * Z) PendingRequest;
  http : gmap FlowKey (list PendingRequest);
  answered_dns : gmap (FlowKey * Z) Z;
  pending_total : Z;
  next_http_seq : Z;
  last_sweep_us : option Z;
  stats : ServiceTimeStats
}.
#[global] Instance eta : RecordEta t := λ r,
  mk (dns r) (http r) (answered_dns r) (pending_total r) (next_http_seq r) (last_sweep_us r) (stats r).

Definition new (stats : ServiceTimeStats) : t := mk ∅ ∅ ∅ 0 0 None stats.

Definition pending_len (st : t) : Z := pending_total st.

Definition reset (st : t) : t :=
  st <| dns := ∅ |> <| http := ∅ |> <| answered_dns := ∅ |> <| pending_total := 0 |>
     <| last_sweep_us := None |>.

Definition untracked (st : t) (p : TxnProtocol) : t * TxnEvent :=
  (st <| stats ::= update_protocol p (λ s, s <| ProtocolStats.untracked ::= Z.succ |>) |>, TxnUntracked).

Definition answered (st : t) (p : TxnProtocol) (pending : PendingRequest) (ts_us : Z) : t * TxnEvent :=
  let service_time_us := sat_sub ts_us (sent_at_us pending) in
  (st <| pending_total ::= Z.pred |>
      <| stats ::= update_protocol p (λ s, ProtocolStats.record s service_time_us) |>,
   TxnAnswered p service_time_us (frame_id pending)).

Definition is_dns_service (key : FlowKey) (server_is_remote : bool) : bool :=
  let server_port := if server_is_remote then remote_port key else local_port key in
  bool_decide (fk_protocol key = Udp) && (server_port =? 53).

Definition dns_query (st : t) (key : FlowKey) (is_outbound : bool) (name : bytes) (id qtype ts_us : Z)
    : t * TxnEvent :=
  if negb (is_dns_service key is_outbound) then (st, TxnNone)
  else if bool_decide (is_Some (dns st !! (key, id))) then (st, TxnRetransmittedRequest)
  else if MAX_PENDING <=? pending_total st then untracked st TxnDns
  else
    (st <| answered_dns ::= delete (key, id) |>
        <| dns ::= <[(key, id) := mkPending ts_us is_outbound
             ([34] ++ display_safe name ++ [34; 32] ++ dns_type_name qtype) None
             (Some (to_ascii_lowercase name)) 0]> |>
        <| pending_total ::= Z.succ |>,
     TxnRequest (RefDns key id)).

(** A response travels the other way and echoes the question. *)
Definition dns_matches (pending : PendingRequest) (is_outbound : bool) (name : bytes) : bool :=
  negb (eqb (request_is_outbound pending) is_outbound)
  && bool_decide (dns_qname pending = Some (to_ascii_lowercase name)).

Definition dns_response (st : t) (key : FlowKey) (is_outbound : bool) (name : bytes) (id ts_us : Z)
    : t * TxnEvent :=
  if negb (is_dns_service key (negb is_outbound)) then (st, TxnNone)
  else
    match dns st !! (key, id) with
    | Some pending =>
        if dns_matches pending is_outbound name then
          let st := st <| dns ::= delete (key, id) |> in
          let st :=
            if Z.of_nat (size (answered_dns st)) <? MAX_PENDING
            then st <| answered_dns ::= <[(key, id) := ts_us]> |> else st in
          answered st TxnDns pending ts_us
        else (st, TxnUnmatched)
    | None =>
        if bool_decide (is_Some (answered_dns st !! (key, id))) then (st, TxnDuplicateResponse)
        else (st, TxnUnmatched)
    end.

Definition http_request (st : t) (key : FlowKey) (is_outbound : bool) (method path : bytes) (ts_us : Z)
    : t * TxnEvent :=
  if (MAX_PENDING <=? pending_total st)
     || match http st !! key with Some queue => MAX_HTTP_PIPELINE <=? zlen queue | None => false end
  then untracked st TxnHttp
  else
    let seq := next_http_seq st in
    (st <| next_http_seq ::= Z.succ |>
        <| http ::= <[key := default [] (http st !! key) ++
             [mkPending ts_us is_outbound (display_safe (method ++ [32] ++ path)) None None seq]]> |>
        <| pending_total ::= Z.succ |>,
     TxnRequest (RefHttp key seq)).

Definition is_interim (status : bytes) : bool :=
  starts_with (lit "1") status && negb (bool_decide (status = lit "101")).

Definition http_response (st : t) (key : FlowKey) (is_outbound : bool) (status : bytes) (ts_us : Z)
    : t * TxnEvent :=
  match http st !! key with
  | None | Some [] => (st, TxnUnmatched)
  | Some (front :: queue) =>
      if eqb (request_is_outbound front) is_outbound then (st, TxnUnmatched)
      else if is_interim status then (st, TxnInformational)
      else
        let st :=
          st <| http ::= if bool_decide (queue = []) then delete key else <[key := queue]> |> in
        answered st TxnHttp front ts_us
  end.

Definition observe_frame (st : t) (flow : option (FlowKey * bool)) (l7 : L7Info) (ts_us : Z)
    (is_tcp_retransmit : bool) : t * TxnEvent :=
  if is_tcp_retransmit then (st, TxnNone)
  else
    match flow with
    | None => (st, TxnNone)
    | Some (key, is_outbound) =>
        match l7 with
        | L7Dns query_name id qtype => dns_query st key is_outbound query_name id qtype ts_us
        | L7DnsResponse query_name id _ _ _ _ => dns_response st key is_outbound query_name id ts_us
        | L7Http method path => http_request st key is_outbound method path ts_us
        | L7HttpResponse status _ _ _ => http_response st key is_outbound status ts_us
        | L7TlsClientHello _ _ _ _ _ _ | L7None => (st, TxnNone)
        end
    end.

(** The first queued request with that number gets the id. *)
Fixpoint attach_in (seq : Z) (id : bytes) (queue : list PendingRequest) : list PendingRequest :=
  match queue with
  | [] => []
  | p :: queue' =>
      if http_seq p =? seq then p <| frame_id := Some id |> :: queue' else p :: attach_in seq id queue'
  end.

Definition attach_frame_id (st : t) (request : RequestRef) (id : bytes) : t :=
  match request with
  | RefDns key tid => st <| dns ::= alter (λ p, p <| frame_id := Some id |>) (key, tid) |>
  | RefHttp key seq => st <| http ::= alter (attach_in seq id) key |>
  end.

Definition timed_out (now_us : Z) (p : TxnProtocol) (pending : PendingRequest) : bool :=
  timeout_us p <=? sat_sub now_us (sent_at_us pending).

Definition unanswered_of (p : TxnProtocol) (key : FlowKey) (pending : PendingRequest) : Unanswered :=
  mkUnanswered p (connection_id key) (frame_id pending) (description pending).

Definition dns_unanswered (kp : (FlowKey * Z) * PendingRequest) : Unanswered :=
  unanswered_of TxnDns kp.1.1 kp.2.
Definition http_unanswered (kp : FlowKey * PendingRequest) : Unanswered := unanswered_of TxnHttp kp.1 kp.2.

Section expire.
Context `{IterOrder}.

Definition dns_expired (st : t) (now_us : Z) : list ((FlowKey * Z) * PendingRequest) :=
  filter (λ kp : (FlowKey * Z) * PendingRequest, timed_out now_us TxnDns kp.2 = true) (iter (dns st)).

(** The requests popped from the front of each queue. *)
Definition http_expired (st : t) (now_us : Z) : list (FlowKey * PendingRequest) :=
  iter (http st) ≫= λ kq : FlowKey * list PendingRequest,
    pair kq.1 <$> (span_while (timed_out now_us TxnHttp) kq.2).1.

Definition count_unanswered (s : ServiceTimeStats) (u : Unanswered) : ServiceTimeStats :=
  update_protocol (un_protocol u) (λ p, p <| ProtocolStats.unanswered ::= Z.succ |>) s.

Definition sweep_due (st : t) (now_us : Z) : bool :=
  match last_sweep_us st with
  | Some last => negb (sat_sub now_us last <? SWEEP_INTERVAL_US)
  | None => true
  end.

Definition expire (st : t) (now_us : Z) : t * list Unanswered :=
  if negb (sweep_due st now_us) then (st, [])
  else
    let expired :=
      (dns_unanswered <$> dns_expired st now_us) ++ (http_unanswered <$> http_expired st now_us) in
    (st <| last_sweep_us := Some now_us |>
        <| dns ::= λ m, foldl (λ m k, delete k m) m (dns_expired st now_us).*1 |>
        <| http ::= λ m, filter (λ kq : FlowKey * list PendingRequest, kq.2 ≠ [])
                           ((λ q, (span_while (timed_out now_us TxnHttp) q).2) <$> m) |>
        <| answered_dns ::= filter (λ ka : (FlowKey * Z) * Z, sat_sub now_us ka.2 < DNS_TIMEOUT_US) |>
        <| pending_total ::= λ n, n - zlen expired |>
        <| stats ::= λ s, foldl count_unanswered s expired |>, expired).
End expire.
End TransactionTracker.

(** ** Runs of the tracker *)

Module Txn.
Export TransactionTracker.

Inductive op :=
| Frame (flow : option (FlowKey * bool)) (l7 : L7Info) (ts_us : Z) (is_tcp_retransmit : bool)
| Attach (request : RequestRef) (id : bytes)
| Expire (now_us : Z)
| Reset.

Section runs.
Context `{IterOrder}.

Definition apply (st : t) (o : op) : t :=
  match o with
  | Frame flow l7 ts r => (observe_frame st flow l7 ts r).1
  | Attach request id => attach_frame_id st request id
  | Expire now => (expire st now).1
  | Reset => reset st
  end.

(** The requests still waiting, by protocol. *)
Definition outstanding (p : TxnProtocol) (st : t) : Z :=
  match p with
  | TxnDns => Z.of_nat (size (dns st))
  | TxnHttp => map_total (λ q : list PendingRequest, zlen q) (http st)
  end.

Definition seqs_ok (next : Z) (q : list PendingRequest) : Prop :=
  StronglySorted (λ a b, http_seq a < http_seq b) q ∧ Forall (λ p, http_seq p < next) q.

Record wf (st : t) : Prop := {
  wf_total : pending_total st = outstanding TxnDns st + outstanding TxnHttp st;
  wf_max : pending_total st <= MAX_PENDING;
  wf_queues : ∀ key q, http st !! key = Some q →
    q ≠ [] ∧ zlen q <= MAX_HTTP_PIPELINE ∧ seqs_ok (next_http_seq st) q;
  wf_answered : Z.of_nat (size (answered_dns st)) <= MAX_PENDING
}.

(** What a protocol's requests have come to. *)
Definition ledger (p : TxnProtocol) (st : t) : Z :=
  let s := for_protocol p (stats st) in
  ProtocolStats.answered s + ProtocolStats.unanswered s + outstanding p st.

Definition ref_protocol (r : RequestRef) : TxnProtocol :=
  match r with RefDns _ _ => TxnDns | RefHttp _ _ => TxnHttp end.

(** Whether a frame started a request of that protocol. *)
Definition started (p : TxnProtocol) (e : TxnEvent) : Z :=
  match e with TxnRequest r => if bool_decide (ref_protocol r = p) then 1 else 0 | _ => 0 end.

Lemma new_wf s : wf (new s).
Proof. by split. Qed.

Lemma reset_wf st : wf (reset st).
Proof. by split. Qed.

Lemma for_update p p' f s :
  for_protocol p (update_protocol p' f s) = if bool_decide (p = p') then f (for_protocol p s) else for_protocol p s.
Proof. by destruct p, p', s. Qed.

Lemma record_answered s x : ProtocolStats.answered (ProtocolStats.record s x) = ProtocolStats.answered s + 1.
Proof. unfold ProtocolStats.record. cbn. by case_match. Qed.

Lemma record_unanswered s x : ProtocolStats.unanswered (ProtocolStats.record s x) = ProtocolStats.unanswered s.
Proof. unfold ProtocolStats.record. cbn. by case_match. Qed.

Lemma seqs_ok_weaken n m q : seqs_ok n q → n <= m → seqs_ok m q.
Proof. intros [? Hf] ?. split; [done|]. eapply Forall_impl; [exact Hf|]. cbn. lia. Qed.

(** Decides which protocol's column an event enters. *)
Ltac entries := repeat case_bool_decide; simplify_eq; try done; lia.

(** Whether a frame answered a request of that protocol. *)
Definition finished (p : TxnProtocol) (e : TxnEvent) : Z :=
  match e with TxnAnswered p' _ _ => if bool_decide (p' = p) then 1 else 0 | _ => 0 end.

(** The counters move with the events. *)
Definition counts_ok (st : t) (r : t * TxnEvent) : Prop := ∀ p,
  ProtocolStats.answered (for_protocol p (stats r.1))
  = ProtocolStats.answered (for_protocol p (stats st)) + finished p r.2 ∧
  ProtocolStats.unanswered (for_protocol p (stats r.1)) = ProtocolStats.unanswered (for_protocol p (stats st)).

Lemma counts_ok_same st st' e : stats st' = stats st → (∀ p, finished p e = 0) → counts_ok st (st', e).
Proof. intros Hs He p. cbn. rewrite He, Hs. lia. Qed.

Lemma untracked_counts st p : counts_ok st (untracked st p).
Proof. intros p'. unfold untracked. cbn. rewrite for_update. case_bool_decide; cbn; lia. Qed.

Lemma answered_counts st st' p pending ts : stats st' = stats st → counts_ok st (answered st' p pending ts).
Proof.
  intros Hs p'. unfold answered. cbn. rewrite Hs, for_update.
  repeat case_bool_decide; simplify_eq; rewrite ?record_answered, ?record_unanswered; lia.
Qed.

Lemma observe_frame_counts st flow l7 ts r : counts_ok st (observe_frame st flow l7 ts r).
Proof.
  unfold observe_frame, dns_query, dns_response, http_request, http_response.
  repeat case_match; auto using counts_ok_same, untracked_counts, answered_counts.
Qed.

(** A step keeps the invariant and enters each request it starts once. *)
Definition step_ok (st : t) (r : t * TxnEvent) : Prop :=
  wf r.1 ∧ ∀ p, ledger p r.1 = ledger p st + started p r.2.

Lemma step_ok_same st e : wf st → (∀ p, started p e = 0) → step_ok st (st, e).
Proof. intros Hwf He. split; [done|]. intros p. rewrite He. cbn. lia. Qed.

Lemma untracked_ok st p : wf st → step_ok st (untracked st p).
Proof.
  intros [Ht Hm Hq Ha]. split; [by split|]. intros p'. unfold untracked, ledger. cbn [fst snd started].
  cbn. rewrite for_update. case_bool_decide; cbn; destruct p'; cbn; lia.
Qed.

(** The ledger entry of an answered request. *)
Lemma answered_ledger st p pending ts p' :
  ledger p' (answered st p pending ts).1
  = ledger p' st + if bool_decide (p' = p) then 1 else 0.
Proof.
  unfold answered, ledger. cbn. rewrite for_update. case_bool_decide; [|destruct p'; cbn; lia].
  rewrite record_answered, record_unanswered. destruct p'; cbn; lia.
Qed.

Lemma dns_query_ok st key out name id qtype ts :
  wf st → step_ok st (dns_query st key out name id qtype ts).
Proof.
  intros Hwf. unfold dns_query. destruct (negb _); [by apply step_ok_same|].
  case_bool_decide as Hk; [by apply step_ok_same|]. case_zb; [by apply untracked_ok|].
  apply eq_None_not_Some in Hk. destruct Hwf as [Ht Hm Hq Ha].
  split; [split|]; cbn.
  - rewrite map_size_insert_None by done. cbn in Ht. lia.
  - lia.
  - done.
  - destruct (answered_dns st !! (key, id)) eqn:E.
    + rewrite (map_size_delete_Some (key, id)) by eauto. lia.
    + by rewrite delete_id.
  - intros []; unfold ledger; cbn; [rewrite map_size_insert_None by done|]; entries.
Qed.

Lemma dns_response_ok st key out name id ts :
  wf st → step_ok st (dns_response st key out name id ts).
Proof.
  intros Hwf. unfold dns_response. destruct (negb _); [by apply step_ok_same|].
  destruct (dns st !! (key, id)) as [pending|] eqn:Hp.
  2: { case_bool_decide; by apply step_ok_same. }
  destruct (dns_matches _ _ _); [|by apply step_ok_same]. destruct Hwf as [Ht Hm Hq Ha].
  assert (Hs : size (dns st) = S (size (delete (key, id) (dns st)))) by (by eapply size_delete_Some).
  split; [|intros p; rewrite answered_ledger; case_zb; destruct p; unfold ledger; cbn; entries].
  cbn in Ht. case_zb; split; cbn; try done; try lia.
  destruct (decide (is_Some (answered_dns st !! (key, id)))).
  - rewrite map_size_insert_Some by done. lia.
  - rewrite map_size_insert_None by (by apply eq_None_not_Some). cbn in *. lia.
Qed.

Lemma seqs_ok_snoc n q p : seqs_ok n q → http_seq p = n → seqs_ok (Z.succ n) (q ++ [p]).
Proof.
  intros [Hs Hf] Hp. split.
  - induction Hs as [|a l Hs IH Ha]; cbn [app]; [repeat constructor|].
    apply Forall_cons in Hf as [? Hf]. constructor; [by apply IH|].
    apply Forall_app. split; [done|]. repeat constructor. lia.
  - apply Forall_app. split; [eapply Forall_impl; [exact Hf|cbn; lia]|]. repeat constructor. lia.
Qed.

Lemma http_request_ok st key out method path ts :
  wf st → step_ok st (http_request st key out method path ts).
Proof.
  intros Hwf. unfold http_request. destruct (_ || _) eqn:Hc; [by apply untracked_ok|].
  apply orb_false_iff in Hc as [Hmax Hlen]. apply Z.leb_gt in Hmax. destruct Hwf as [Ht Hm Hq Ha].
  set (p := mkPending _ _ _ _ _ _). set (q := default [] (http st !! key)).
  assert (Hq' : zlen q < MAX_HTTP_PIPELINE ∧ seqs_ok (next_http_seq st) q).
  { subst q. destruct (http st !! key) as [q|] eqn:Hk; cbn.
    - apply Z.leb_gt in Hlen. split; [done|]. by destruct (Hq _ _ Hk) as (_ & _ & ?).
    - split; [done|]. split; constructor. }
  assert (Htot : map_total (λ q : list PendingRequest, zlen q) (<[key := q ++ [p]]> (http st))
    = map_total (λ q : list PendingRequest, zlen q) (http st) + 1).
  { subst q. destruct (http st !! key) as [q|] eqn:Hk; cbn [default from_option id].
    - rewrite (map_total_replace _ _ _ _ _ Hk), length_app. cbn. lia.
    - rewrite map_total_insert by done. cbn. lia. }
  destruct Hq' as [Hql Hqs]. cbn in Ht. split; [split|]; cbn.
  - rewrite Htot. lia.
  - lia.
  - intros key' q'. destruct (decide (key' = key)) as [->|Hne].
    + rewrite lookup_insert_eq. intros [= <-]. rewrite length_app. split_and!; [by destruct q|cbn; lia|].
      by apply seqs_ok_snoc.
    + rewrite lookup_insert_ne by done. intros (? & ? & ?)%Hq. split_and!; [done..|].
      eapply seqs_ok_weaken; [done|lia].
  - done.
  - intros []; unfold ledger; cbn; [|rewrite Htot]; entries.
Qed.

Lemma seqs_ok_tail n p q : seqs_ok n (p :: q) → seqs_ok n q.
Proof. intros [Hs Hf]. split; [by inversion Hs|by inversion Hf]. Qed.

Lemma http_response_ok st key out status ts :
  wf st → step_ok st (http_response st key out status ts).
Proof.
  intros Hwf. unfold http_response. destruct (http st !! key) as [[|front queue]|] eqn:Hk;
    [by apply step_ok_same| |by apply step_ok_same].
  destruct (eqb _ _); [by apply step_ok_same|]. destruct (is_interim _); [by apply step_ok_same|].
  destruct Hwf as [Ht Hm Hq Ha]. destruct (Hq _ _ Hk) as (_ & Hl & Hs).
  set (m := if bool_decide (queue = []) then _ else _).
  assert (Htot : map_total (λ q : list PendingRequest, zlen q) (m (http st))
    = map_total (λ q : list PendingRequest, zlen q) (http st) - 1).
  { subst m. case_bool_decide as Hq0.
    - rewrite (map_total_delete _ (http st) _ _ Hk), Hq0. cbn. lia.
    - rewrite (map_total_replace _ _ _ _ _ Hk). cbn. lia. }
  cbn in Ht. split; [split|intros p; rewrite answered_ledger; destruct p; unfold ledger; cbn; rewrite ?Htot; entries];
    cbn; [rewrite Htot; lia|lia| |done].
  intros key' q' Hk'. destruct (decide (key' = key)) as [->|Hne].
  - subst m. case_bool_decide; [by rewrite lookup_delete_eq in Hk'|].
    rewrite lookup_insert_eq in Hk'. simplify_eq. split_and!; [done|cbn in Hl; lia|by eapply seqs_ok_tail].
  - apply (Hq key'). subst m. case_bool_decide;
      [by rewrite lookup_delete_ne in Hk'|by rewrite lookup_insert_ne in Hk'].
Qed.

Lemma observe_frame_ok st flow l7 ts r : wf st → step_ok st (observe_frame st flow l7 ts r).
Proof.
  intros. unfold observe_frame. destruct r; [by apply step_ok_same|].
  destruct flow as [[key out]|]; [|by apply step_ok_same].
  destruct l7; auto using step_ok_same, dns_query_ok, dns_response_ok, http_request_ok, http_response_ok.
Qed.

(** Draining a prefix of every queue, and dropping the queues left empty. *)
Lemma drain_total (pre post : list PendingRequest → list PendingRequest) (m : gmap FlowKey (list PendingRequest)) :
  (∀ q, zlen q = zlen (pre q) + zlen (post q)) →
  map_total (λ q : list PendingRequest, zlen q)
    (filter (λ kq : FlowKey * list PendingRequest, kq.2 ≠ []) (post <$> m))
  + zlen (map_to_list m ≫= λ kq : FlowKey * list PendingRequest, pair kq.1 <$> pre kq.2)
  = map_total (λ q : list PendingRequest, zlen q) m.
Proof.
  intros Hsplit. induction m as [|k q m Hk IH] using map_ind.
  { rewrite fmap_empty, map_filter_empty, map_to_list_empty, !map_total_empty. done. }
  rewrite map_to_list_insert, fmap_insert, (map_total_insert _ m) by done.
  rewrite bind_cons, length_app, length_fmap. cbn [fst snd]. specialize (Hsplit q).
  assert (Hk' : filter (λ kq : FlowKey * list PendingRequest, kq.2 ≠ []) (post <$> m) !! k = None).
  { apply map_lookup_filter_None. left. by rewrite lookup_fmap, Hk. }
  rewrite map_filter_insert. destruct (decide _) as [Hp|Hp].
  - rewrite map_total_insert by done. lia.
  - rewrite delete_id by (by rewrite lookup_fmap, Hk).
    assert (Hp' : zlen (post q) = 0) by (cbn in Hp; destruct (post q); [done|]; by destruct Hp).
    lia.
Qed.

Lemma span_while_app {A} (f : A → bool) l : (span_while f l).1 ++ (span_while f l).2 = l.
Proof.
  induction l as [|x l IH]; [done|]. cbn [span_while]. destruct (f x); [|done].
  destruct (span_while f l). cbn in *. by rewrite IH.
Qed.

Lemma length_http_expired st now :
  zlen (http_expired st now)
  = zlen (map_to_list (http st) ≫= λ kq : FlowKey * list PendingRequest,
            pair kq.1 <$> (span_while (timed_out now TxnHttp) kq.2).1).
Proof. unfold http_expired. by rewrite iter_perm. Qed.

(** The sizes after a sweep. *)
Lemma expire_dns_size st now :
  Z.of_nat (size (foldl (λ m k, delete k m) (dns st) (dns_expired st now).*1))
  = Z.of_nat (size (dns st)) - zlen (dns_expired st now).
Proof.
  rewrite <- (delete_all_size (dns_expired st now).*1 (dns st)).
  - rewrite length_fmap. lia.
  - apply NoDup_fmap_fst_filter.
  - intros k (kp & -> & [_ Hk]%list_elem_of_filter)%list_elem_of_fmap.
    destruct kp as [k p]. apply elem_of_iter in Hk. eauto.
Qed.

Lemma expire_http_total st now :
  map_total (λ q : list PendingRequest, zlen q)
    (filter (λ kq : FlowKey * list PendingRequest, kq.2 ≠ [])
       ((λ q, (span_while (timed_out now TxnHttp) q).2) <$> http st))
  = map_total (λ q : list PendingRequest, zlen q) (http st) - zlen (http_expired st now).
Proof.
  rewrite length_http_expired.
  rewrite <- (drain_total (λ q, (span_while (timed_out now TxnHttp) q).1)
                (λ q, (span_while (timed_out now TxnHttp) q).2) (http st)); [lia|].
  intros q. rewrite <- (span_while_app (timed_out now TxnHttp) q) at 1. rewrite length_app. lia.
Qed.

Lemma count_unanswered_all p us s :
  let s' := for_protocol p (foldl count_unanswered s us) in
  ProtocolStats.answered s' = ProtocolStats.answered (for_protocol p s) ∧
  ProtocolStats.unanswered s' = ProtocolStats.unanswered (for_protocol p s)
    + zlen (filter (λ u, un_protocol u = p) us).
Proof.
  revert s. induction us as [|u us IH]; intros s; cbn [foldl].
  { cbn. lia. }
  destruct (IH (count_unanswered s u)) as [-> ->]. unfold count_unanswered. rewrite for_update.
  rewrite filter_cons. case_bool_decide as Hp; case_decide; simplify_eq; try done; cbn [length]; cbn; lia.
Qed.

Lemma filter_protocol_same p {A} (f : A → Unanswered) l :
  (∀ x, un_protocol (f x) = p) → zlen (filter (λ u, un_protocol u = p) (f <$> l)) = zlen l.
Proof.
  intros Hf. rewrite list_filter_all, length_fmap; [done|]. apply Forall_fmap, Forall_true. exact Hf.
Qed.

Lemma filter_protocol_other p p' {A} (f : A → Unanswered) l :
  (∀ x, un_protocol (f x) = p') → p' ≠ p → filter (λ u, un_protocol u = p) (f <$> l) = [].
Proof.
  intros Hf Hne. induction l as [|x l IH]; [done|]. rewrite fmap_cons, filter_cons_False, IH; [done|].
  by rewrite Hf.
Qed.

Lemma seqs_ok_suffix n q1 q2 : seqs_ok n (q1 ++ q2) → seqs_ok n q2.
Proof. induction q1; [done|]. cbn [app]. intros ?%seqs_ok_tail. auto. Qed.

(** A sweep keeps the invariant and moves requests from waiting to unanswered,
    each counted once. *)
Lemma expire_ok st now :
  wf st →
  wf (expire st now).1 ∧ (∀ p, ledger p (expire st now).1 = ledger p st) ∧
  ∀ p, ProtocolStats.unanswered (for_protocol p (stats (expire st now).1))
       = ProtocolStats.unanswered (for_protocol p (stats st))
         + zlen (filter (λ u, un_protocol u = p) (expire st now).2).
Proof.
  intros [Ht Hm Hq Ha]. unfold expire. destruct (sweep_due st now); cbn [negb].
  2: { cbn. split; [by split|]. split; intros; [done|lia]. }
  pose proof (expire_dns_size st now) as Hd. pose proof (expire_http_total st now) as Hh.
  set (us := _ ++ _). cbn in Ht.
  assert (Hlen : zlen us = zlen (dns_expired st now) + zlen (http_expired st now)).
  { subst us. rewrite length_app, !length_fmap. lia. }
  assert (Hus : ∀ p, zlen (filter (λ u, un_protocol u = p) us)
    = match p with TxnDns => zlen (dns_expired st now) | TxnHttp => zlen (http_expired st now) end).
  { intros p. subst us. rewrite filter_app, length_app. destruct p.
    - rewrite (filter_protocol_other TxnDns TxnHttp http_unanswered) by done.
      rewrite <- (filter_protocol_same TxnDns dns_unanswered (dns_expired st now)) by done. cbn [length]. lia.
    - rewrite (filter_protocol_other TxnHttp TxnDns dns_unanswered) by done.
      rewrite <- (filter_protocol_same TxnHttp http_unanswered (http_expired st now)) by done. cbn [length]. lia. }
  clearbody us. split_and!.
  - split; cbn.
    + rewrite Hd, Hh, Hlen. lia.
    + lia.
    + intros key q' [Hq' Hne]%map_lookup_filter_Some. rewrite lookup_fmap in Hq'.
      destruct (http st !! key) as [q|] eqn:Hk; [|done]. cbn in Hq'. simplify_eq.
      destruct (Hq _ _ Hk) as (_ & Hl & Hs). pose proof (span_while_app (timed_out now TxnHttp) q) as Hspan.
      split_and!; [done| |rewrite <- Hspan in Hs; by eapply seqs_ok_suffix].
      rewrite <- Hspan in Hl. rewrite length_app in Hl. lia.
    + etrans; [|exact Ha]. apply inj_le, map_size_filter.
  - intros p. unfold ledger. cbn. destruct (count_unanswered_all p us (stats st)) as [-> ->].
    rewrite Hus. destruct p; cbn; [rewrite Hd|rewrite Hh]; lia.
  - intros p. cbn. by destruct (count_unanswered_all p us (stats st)) as [_ ->].
Qed.

Lemma attach_in_seqs seq id q : http_seq <$> attach_in seq id q = http_seq <$> q.
Proof. induction q as [|p q IH]; [done|]. cbn [attach_in]. case_zb; [done|]. cbn. by f_equal. Qed.

Lemma attach_in_length seq id q : length (attach_in seq id q) = length q.
Proof. by rewrite <- (length_fmap http_seq), attach_in_seqs, length_fmap. Qed.

Lemma seqs_ok_fmap n q :
  seqs_ok n q ↔ StronglySorted Z.lt (http_seq <$> q) ∧ Forall (λ s, s < n) (http_seq <$> q).
Proof.
  unfold seqs_ok. rewrite Forall_fmap. apply and_iff_compat_r.
  induction q as [|p q IH]; [split; constructor|]. cbn [fmap list_fmap].
  split; intros Hs; inversion Hs as [|? ? Hs' Hf]; subst; constructor; try (by apply IH).
  - by apply Forall_fmap.
  - rewrite Forall_fmap in Hf. exact Hf.
Qed.

Lemma alter_Some {K V} `{Countable K} (f : V → V) (m : gmap K V) k v :
  m !! k = Some v → alter f k m = <[k := f v]> m.
Proof. intros Hk. apply map_eq. intros j. rewrite lookup_alter, lookup_insert. case_decide; by simplify_map_eq. Qed.

Lemma alter_None {K V} `{Countable K} (f : V → V) (m : gmap K V) k : m !! k = None → alter f k m = m.
Proof. intros Hk. apply map_eq. intros j. rewrite lookup_alter. case_decide; by simplify_map_eq. Qed.

(** Attaching a packet id changes no count and no order. *)
Lemma attach_ok st request id :
  wf st → wf (attach_frame_id st request id) ∧
  stats (attach_frame_id st request id) = stats st ∧
  ∀ p, outstanding p (attach_frame_id st request id) = outstanding p st.
Proof.
  intros [Ht Hm Hq Ha].
  assert (Hout : ∀ p, outstanding p (attach_frame_id st request id) = outstanding p st).
  { destruct request as [key tid|key seq], p; cbn; try done.
    - destruct (dns st !! (key, tid)) as [q|] eqn:Hk; [|by rewrite alter_None].
      rewrite (alter_Some _ _ _ q), map_size_insert_Some by eauto. done.
    - destruct (http st !! key) as [q|] eqn:Hk.
      + rewrite (alter_Some _ _ _ q) by done. rewrite (map_total_replace _ _ _ _ _ Hk), attach_in_length. lia.
      + by rewrite alter_None. }
  split; [|split; [by destruct request|done]].
  split.
  - rewrite !Hout. by destruct request.
  - by destruct request.
  - destruct request as [key tid|key seq]; [done|]. cbn. intros key' q'. rewrite lookup_alter.
    case_decide; [|apply Hq]. subst. destruct (http st !! key') as [q|] eqn:Hk; [|done].
    cbn. intros [= <-]. destruct (Hq _ _ Hk) as (Hne & Hl & Hs). rewrite attach_in_length.
    split_and!; [|done|].
    + intros E. apply Hne. apply length_zero_iff_nil. by rewrite <- (attach_in_length seq id), E.
    + apply seqs_ok_fmap. rewrite attach_in_seqs. by apply seqs_ok_fmap.
  - by destruct request.
Qed.

Lemma apply_wf st o : wf st → wf (apply st o).
Proof.
  intros Hwf. destruct o; cbn [apply]; [by apply observe_frame_ok|by apply attach_ok|by apply expire_ok|apply reset_wf].
Qed.

(** *** The log of a run *)

(** A request, by what identifies it: its protocol, its connection, its number
    (the DNS id, the place in the order of HTTP requests) and what was kept of
    its frame, apart from the id of the packet event, which comes later. *)
Record Request := mkRequest { rq_protocol : TxnProtocol; rq_key : FlowKey; rq_number : Z; rq_pending : PendingRequest }.

Definition bare (p : PendingRequest) : PendingRequest := p <| frame_id := None |>.
Definition dns_request (kp : (FlowKey * Z) * PendingRequest) : Request := mkRequest TxnDns kp.1.1 kp.1.2 (bare kp.2).
Definition http_entry (kp : FlowKey * PendingRequest) : Request := mkRequest TxnHttp kp.1 (http_seq kp.2) (bare kp.2).

Definition queue_requests (kq : FlowKey * list PendingRequest) : list Request := http_entry ∘ pair kq.1 <$> kq.2.
Definition http_waiting (m : gmap FlowKey (list PendingRequest)) : list Request := map_to_list m ≫= queue_requests.
Definition dns_waiting (m : gmap (FlowKey * Z) PendingRequest) : list Request := dns_request <$> map_to_list m.

(** Every request the tracker holds. *)
Definition waiting (st : t) : list Request := dns_waiting (dns st) ++ http_waiting (http st).

(** What happens to a request. *)
Inductive entry :=
| Started (q : Request)
| Answered (q : Request) (service_time_us : Z) (request_frame_id : option bytes)
| Reported (q : Request) (u : Unanswered)
| Dropped (q : Request).

(** The entries of a step.  A frame that starts a request enters what it says;
    one that answers enters the request held for it: the query of its
    connection and id, or the request its connection has waited on longest. *)
Definition frame_entries (st : t) (key : FlowKey) (is_outbound : bool) (l7 : L7Info) (ts_us : Z) (e : TxnEvent) : list entry :=
  match e, l7 with
  | TxnRequest _, L7Dns name id qtype =>
      [Started (mkRequest TxnDns key id (mkPending ts_us is_outbound
         ([34] ++ display_safe name ++ [34; 32] ++ dns_type_name qtype) None (Some (to_ascii_lowercase name)) 0))]
  | TxnRequest _, L7Http method path =>
      [Started (mkRequest TxnHttp key (next_http_seq st) (mkPending ts_us is_outbound
         (display_safe (method ++ [32] ++ path)) None None (next_http_seq st)))]
  | TxnAnswered _ us fid, L7DnsResponse _ id _ _ _ _ =>
      match dns st !! (key, id) with Some p => [Answered (dns_request ((key, id), p)) us fid] | None => [] end
  | TxnAnswered _ us fid, L7HttpResponse _ _ _ _ =>
      match http st !! key with Some (p :: _) => [Answered (http_entry (key, p)) us fid] | _ => [] end
  | _, _ => []
  end.

Definition entries (st : t) (o : op) : list entry :=
  match o with
  | Frame (Some (key, out)) l7 ts r => frame_entries st key out l7 ts (observe_frame st (Some (key, out)) l7 ts r).2
  | Frame None _ _ _ | Attach _ _ => []
  | Expire now =>
      if sweep_due st now then
        ((λ kp, Reported (dns_request kp) (dns_unanswered kp)) <$> dns_expired st now)
        ++ ((λ kp, Reported (http_entry kp) (http_unanswered kp)) <$> http_expired st now)
      else []
  | Reset => Dropped <$> waiting st
  end.

Fixpoint log (st : t) (ops : list op) : list entry :=
  match ops with [] => [] | o :: ops' => entries st o ++ log (apply st o) ops' end.

Definition starts : list entry → list Request := omap (λ e, match e with Started q => Some q | _ => None end).
Definition answers : list entry → list Request := omap (λ e, match e with Answered q _ _ => Some q | _ => None end).
Definition reports : list entry → list Request := omap (λ e, match e with Reported q _ => Some q | _ => None end).
Definition drops : list entry → list Request := omap (λ e, match e with Dropped q => Some q | _ => None end).

Definition of_protocol (p : TxnProtocol) (l : list Request) : Z := zlen (filter (λ q, rq_protocol q = p) l).

(** What a step sends is what its entries say. *)
Definition told (st : t) (o : op) : Prop :=
  match o with
  | Frame flow l7 ts r =>
      match (observe_frame st flow l7 ts r).2 with
      | TxnRequest ref => ∃ q, entries st o = [Started q] ∧
          ref = match rq_protocol q with
                | TxnDns => RefDns (rq_key q) (rq_number q)
                | TxnHttp => RefHttp (rq_key q) (rq_number q)
                end
      | TxnAnswered protocol us fid => ∃ q p, entries st o = [Answered q us fid] ∧ rq_protocol q = protocol ∧
          rq_pending q = bare p ∧ us = sat_sub ts (sent_at_us p) ∧ fid = frame_id p
      | _ => entries st o = []
      end
  | Expire now => (expire st now).2 = omap (λ e, match e with Reported _ u => Some u | _ => None end) (entries st o)
  | Attach _ _ | Reset => True
  end.

(** *** Each request comes to one end *)

Definition ends (l : list entry) : list Request := answers l ++ reports l ++ drops l.

Lemma ends_app l l' : ends (l ++ l') ≡ₚ ends l ++ ends l'.
Proof. unfold ends, answers, reports, drops. rewrite !omap_app. solve_Permutation. Qed.

Lemma http_waiting_insert m k q : http_waiting (<[k := q]> m) ≡ₚ queue_requests (k, q) ++ http_waiting (delete k m).
Proof.
  unfold http_waiting. rewrite <- insert_delete_eq, map_to_list_insert by apply lookup_delete_eq. by rewrite bind_cons.
Qed.

Lemma http_waiting_lookup m k q : m !! k = Some q → http_waiting m ≡ₚ queue_requests (k, q) ++ http_waiting (delete k m).
Proof. intros Hk. rewrite <- http_waiting_insert. by rewrite insert_id. Qed.

Lemma http_waiting_default m k :
  http_waiting m ≡ₚ queue_requests (k, default [] (m !! k)) ++ http_waiting (delete k m).
Proof.
  destruct (m !! k) as [q|] eqn:Hk; [by apply http_waiting_lookup|]. by rewrite delete_id.
Qed.

Lemma dns_waiting_insert m k p : m !! k = None → dns_waiting (<[k := p]> m) ≡ₚ dns_request (k, p) :: dns_waiting m.
Proof. intros Hk. unfold dns_waiting. by rewrite map_to_list_insert. Qed.

Lemma dns_waiting_delete m k p : m !! k = Some p → dns_waiting m ≡ₚ dns_request (k, p) :: dns_waiting (delete k m).
Proof. intros Hk. unfold dns_waiting. by rewrite <- (map_to_list_delete m k p Hk). Qed.

(** The requests before a step and those it starts are those it ends and those
    after it. *)
Definition balanced (st st' : t) (l : list entry) : Prop := starts l ++ waiting st ≡ₚ ends l ++ waiting st'.

Lemma balanced_same st st' l : dns st' = dns st → http st' = http st → starts l = [] → ends l = [] → balanced st st' l.
Proof. unfold balanced, waiting. by intros -> -> -> ->. Qed.

Lemma dns_query_balanced st key out name id qtype ts :
  let r := dns_query st key out name id qtype ts in
  balanced st r.1 (frame_entries st key out (L7Dns name id qtype) ts r.2).
Proof.
  unfold dns_query. destruct (negb _); [by apply balanced_same|].
  case_bool_decide as Hk; [by apply balanced_same|]. case_zb; [by apply balanced_same|].
  apply eq_None_not_Some in Hk. unfold balanced, waiting. cbn. by rewrite dns_waiting_insert.
Qed.

Lemma http_request_balanced st key out method path ts :
  let r := http_request st key out method path ts in
  balanced st r.1 (frame_entries st key out (L7Http method path) ts r.2).
Proof.
  unfold http_request. destruct (_ || _); [by apply balanced_same|]. unfold balanced, waiting. cbn.
  rewrite http_waiting_insert, (http_waiting_default (http st) key).
  unfold queue_requests. cbn. rewrite fmap_app. cbn. solve_Permutation.
Qed.

Lemma dns_response_balanced st key out name id ts qt rc ac ans :
  let r := dns_response st key out name id ts in
  balanced st r.1 (frame_entries st key out (L7DnsResponse name id qt rc ac ans) ts r.2).
Proof.
  unfold dns_response. destruct (negb _); [by apply balanced_same|].
  destruct (dns st !! (key, id)) as [p|] eqn:Hp; [|case_bool_decide; by apply balanced_same].
  destruct (dns_matches _ _ _); [|by apply balanced_same].
  unfold balanced, waiting. cbn. rewrite Hp. cbn. case_zb; cbn; by rewrite (dns_waiting_delete _ _ _ Hp).
Qed.

Lemma http_response_balanced st key out status ts a b c :
  let r := http_response st key out status ts in
  balanced st r.1 (frame_entries st key out (L7HttpResponse status a b c) ts r.2).
Proof.
  unfold http_response. destruct (http st !! key) as [[|front queue]|] eqn:Hk; [by apply balanced_same| |by apply balanced_same].
  destruct (eqb _ _); [by apply balanced_same|]. destruct (is_interim _); [by apply balanced_same|].
  unfold balanced, waiting. cbn. rewrite Hk. cbn. rewrite (http_waiting_lookup _ _ _ Hk). cbn.
  case_bool_decide as Hq; [rewrite Hq|rewrite http_waiting_insert]; cbn; solve_Permutation.
Qed.

Lemma observe_balanced st key out l7 ts r :
  let res := observe_frame st (Some (key, out)) l7 ts r in balanced st res.1 (frame_entries st key out l7 ts res.2).
Proof.
  unfold observe_frame. destruct r; [by apply balanced_same|].
  destruct l7; try (by apply balanced_same);
    auto using dns_query_balanced, http_request_balanced, dns_response_balanced, http_response_balanced.
Qed.

Lemma bare_attach_in key seq id q : queue_requests (key, attach_in seq id q) = queue_requests (key, q).
Proof. induction q as [|p q IH]; [done|]. cbn [attach_in]. case_zb; [done|]. unfold queue_requests in *. cbn. by f_equal. Qed.

Lemma attach_balanced st request id : balanced st (attach_frame_id st request id) [].
Proof.
  unfold balanced, waiting. destruct request as [key tid|key seq]; cbn.
  - destruct (dns st !! (key, tid)) as [p|] eqn:Hk; [|by rewrite alter_None].
    rewrite (alter_Some _ _ _ p) by done. rewrite <- insert_delete_eq, dns_waiting_insert by apply lookup_delete_eq.
    by rewrite (dns_waiting_delete _ _ _ Hk).
  - destruct (http st !! key) as [q|] eqn:Hk; [|by rewrite alter_None].
    rewrite (alter_Some _ _ _ q) by done. by rewrite http_waiting_insert, bare_attach_in, <- http_waiting_lookup.
Qed.

(** Draining a prefix of every queue. *)
Lemma drain_waiting (f : PendingRequest → bool) m :
  http_waiting m ≡ₚ
    (map_to_list m ≫= λ kq : FlowKey * list PendingRequest, http_entry <$> (pair kq.1 <$> (span_while f kq.2).1))
    ++ http_waiting (filter (λ kq : FlowKey * list PendingRequest, kq.2 ≠ []) ((λ q, (span_while f q).2) <$> m)).
Proof.
  induction m as [|k q m Hk IH] using map_ind; [done|].
  rewrite fmap_insert, map_filter_insert, (http_waiting_insert m), delete_id by done.
  rewrite map_to_list_insert, bind_cons by done. cbn [fst snd]. rewrite IH at 1.
  assert (Hq : queue_requests (k, q)
    = (http_entry <$> (pair k <$> (span_while f q).1)) ++ queue_requests (k, (span_while f q).2)).
  { unfold queue_requests. cbn. rewrite <- list_fmap_compose, <- fmap_app. by rewrite span_while_app. }
  rewrite Hq. set (m' := filter _ (_ <$> m)).
  assert (Hk' : m' !! k = None).
  { apply map_lookup_filter_None. left. by rewrite lookup_fmap, Hk. }
  case_decide as Hne.
  - rewrite http_waiting_insert, delete_id by done. solve_Permutation.
  - rewrite delete_id by (by rewrite lookup_fmap, Hk). fold m'.
    cbn in Hne. rewrite Hne.
    cbn. rewrite app_nil_r. solve_Permutation.
Qed.

Lemma sweep_dns_waiting st now :
  dns_waiting (dns st) ≡ₚ
    (dns_request <$> dns_expired st now) ++ dns_waiting (foldl (λ m k, delete k m) (dns st) (dns_expired st now).*1).
Proof.
  unfold dns_waiting. rewrite <- fmap_app. apply fmap_Permutation. set (ex := dns_expired st now).
  assert (Hex : ∀ kp, kp ∈ ex ↔ dns st !! kp.1 = Some kp.2 ∧ timed_out now TxnDns kp.2 = true).
  { intros [k p]. unfold ex, dns_expired. rewrite list_elem_of_filter, elem_of_iter. cbn. tauto. }
  assert (Hnd : NoDup ex).
  { unfold ex, dns_expired. apply NoDup_filter. rewrite iter_perm. apply NoDup_map_to_list. }
  assert (Hrest : ∀ k p, foldl (λ m k, delete k m) (dns st) ex.*1 !! k = Some p
    ↔ dns st !! k = Some p ∧ (k, p) ∉ ex).
  { intros k p. rewrite delete_all_lookup. case_bool_decide as Hin.
    - split; [done|]. intros [Hk Hno]. exfalso. apply list_elem_of_fmap in Hin as ([k' p'] & -> & Hin).
      pose proof (proj1 (proj1 (Hex _) Hin)) as Hk'. cbn in *. rewrite Hk in Hk'. by injection Hk' as ->.
    - split; [|tauto]. intros Hk. split; [done|]. intros Hin'. apply Hin. apply list_elem_of_fmap. by exists (k, p). }
  apply NoDup_Permutation.
  - apply NoDup_map_to_list.
  - apply NoDup_app. split_and!; [done| |apply NoDup_map_to_list].
    intros [k p] Hin Hin'%elem_of_map_to_list%Hrest. tauto.
  - intros [k p]. rewrite elem_of_app, !elem_of_map_to_list, Hrest. split.
    + intros Hk. destruct (decide (timed_out now TxnDns p = true)) as [Ht|Ht].
      * left. by apply Hex.
      * right. split; [done|]. intros [_ ?]%Hex. done.
    + intros [[Hk _]%Hex|[Hk _]]; done.
Qed.

Lemma ends_reported {A} (f : A → Request) (g : A → Unanswered) l :
  ends ((λ x, Reported (f x) (g x)) <$> l) = f <$> l ∧ starts ((λ x, Reported (f x) (g x)) <$> l) = [].
Proof.
  unfold ends, answers, reports, drops, starts. induction l as [|x l [IH1 IH2]]; [done|]. cbn in *.
  assert (Ha : ∀ l : list A, answers ((λ x, Reported (f x) (g x)) <$> l) = []) by (by induction l0).
  unfold answers in Ha. specialize (Ha l). split; [|done]. cbn in Ha. rewrite Ha in *. cbn in *. by f_equal.
Qed.

Lemma expire_balanced st now : balanced st (expire st now).1 (entries st (Expire now)).
Proof.
  cbn [entries]. unfold expire. destruct (sweep_due st now); [|by apply balanced_same]. cbn [negb fst].
  unfold balanced. set (e1 := _ <$> dns_expired st now). set (e2 := _ <$> http_expired st now).
  assert (Hs : starts (e1 ++ e2) = []).
  { unfold starts. rewrite omap_app. fold (starts e1) (starts e2). unfold e1, e2.
    by rewrite (proj2 (ends_reported _ _ _)), (proj2 (ends_reported _ _ _)). }
  rewrite Hs, ends_app. unfold e1, e2. rewrite (proj1 (ends_reported _ _ _)), (proj1 (ends_reported _ _ _)).
  unfold waiting. cbn. rewrite (sweep_dns_waiting st now), (drain_waiting (timed_out now TxnHttp) (http st)).
  assert (Hh : http_entry <$> http_expired st now ≡ₚ
    (map_to_list (http st) ≫= λ kq : FlowKey * list PendingRequest,
       http_entry <$> (pair kq.1 <$> (span_while (timed_out now TxnHttp) kq.2).1))).
  { unfold http_expired. rewrite iter_perm. induction (map_to_list (http st)) as [|kq l IH]; [done|].
    rewrite !bind_cons, fmap_app. by rewrite IH. }
  rewrite Hh. solve_Permutation.
Qed.

Lemma apply_balanced st o : balanced st (apply st o) (entries st o).
Proof.
  destruct o as [[[key out]|] l7 ts r|request id|now|]; cbn [apply].
  - apply observe_balanced.
  - apply balanced_same; by destruct r.
  - apply attach_balanced.
  - apply expire_balanced.
  - unfold balanced. cbn [entries].
    assert (H1 : ∀ l, starts (Dropped <$> l) = []) by (by induction l).
    assert (H2 : ∀ l, ends (Dropped <$> l) = l).
    { unfold ends. intros l. assert (answers (Dropped <$> l) = []) as -> by (by induction l).
      assert (reports (Dropped <$> l) = []) as -> by (by induction l). cbn. induction l; [done|]. cbn. by f_equal. }
    rewrite H1, H2. unfold waiting at 2. cbn. by rewrite app_nil_r.
Qed.

Lemma log_balanced st ops : balanced st (foldl apply st ops) (log st ops).
Proof.
  revert st. induction ops as [|o ops IH]; intros st; [by apply balanced_same|]. cbn [foldl log].
  unfold balanced. rewrite ends_app. unfold starts. rewrite omap_app. fold (starts (entries st o)).
  pose proof (apply_balanced st o) as H1. pose proof (IH (apply st o)) as H2. unfold balanced in *.
  fold (starts (log (apply st o) ops)).
  transitivity (starts (log (apply st o) ops) ++ (starts (entries st o) ++ waiting st)); [solve_Permutation|].
  rewrite H1. 
  transitivity (ends (entries st o) ++ (starts (log (apply st o) ops) ++ waiting (apply st o))); [solve_Permutation|].
  rewrite H2. solve_Permutation.
Qed.

(** *** What is sent, and the counters *)

Lemma told_all st o : told st o.
Proof.
  destruct o as [[[key out]|] l7 ts r|request id|now|]; cbn [told entries]; [| |done| |done].
  - unfold observe_frame. destruct r; [done|]. destruct l7; try done.
    + unfold http_request. destruct (_ || _); [done|]. by eexists.
    + unfold http_response. destruct (http st !! key) as [[|front queue]|] eqn:Hk; [done| |done].
      destruct (eqb _ _); [done|]. destruct (is_interim _); [done|]. cbn. rewrite Hk. by eexists _, front.
    + unfold dns_query. destruct (negb _); [done|]. case_bool_decide; [done|]. case_zb; [done|]. by eexists.
    + unfold dns_response. destruct (negb _); [done|]. destruct (dns st !! (key, id)) as [p|] eqn:Hp; [|by case_bool_decide].
      destruct (dns_matches _ _ _); [|done]. cbn. rewrite Hp. by eexists _, p.
  - by destruct r.
  - unfold expire. destruct (sweep_due st now); [|done]. cbn [negb snd]. rewrite omap_app. f_equal.
    + induction (dns_expired st now); [done|]. cbn. by f_equal.
    + induction (http_expired st now); [done|]. cbn. by f_equal.
Qed.

(** Every step of a run. *)
Fixpoint all_told (st : t) (ops : list op) : Prop :=
  match ops with [] => True | o :: ops' => told st o ∧ all_told (apply st o) ops' end.

Lemma all_told_run st ops : all_told st ops.
Proof. revert st. induction ops as [|o ops IH]; intros st; [done|]. split; [apply told_all|apply IH]. Qed.

Lemma of_protocol_app p l l' : of_protocol p (l ++ l') = of_protocol p l + of_protocol p l'.
Proof. unfold of_protocol. rewrite filter_app, length_app. lia. Qed.

Lemma of_protocol_one p q : of_protocol p [q] = if bool_decide (rq_protocol q = p) then 1 else 0.
Proof. unfold of_protocol. rewrite filter_cons. case_decide; case_bool_decide; done. Qed.

Lemma of_protocol_nil p : of_protocol p [] = 0.
Proof. done. Qed.

Ltac tally := cbn -[of_protocol]; rewrite ?of_protocol_nil, ?Z.add_0_r; (done || lia).

(** What a step adds to the counters of a protocol. *)
Definition counts (st : t) (o : op) : Prop := ∀ p,
  ProtocolStats.answered (for_protocol p (stats (apply st o)))
  = ProtocolStats.answered (for_protocol p (stats st)) + of_protocol p (answers (entries st o)) ∧
  ProtocolStats.unanswered (for_protocol p (stats (apply st o)))
  = ProtocolStats.unanswered (for_protocol p (stats st)) + of_protocol p (reports (entries st o)).

Lemma frame_counts st flow l7 ts r : counts st (Frame flow l7 ts r).
Proof.
  intros p. cbn [apply]. destruct (observe_frame_counts st flow l7 ts r p) as [-> ->].
  pose proof (told_all st (Frame flow l7 ts r)) as Ht. cbn [told] in Ht.
  destruct (observe_frame st flow l7 ts r).2; try (rewrite Ht; tally).
  - destruct Ht as (q & -> & _). tally.
  - destruct Ht as (q & p' & -> & <- & _). cbn -[of_protocol]. rewrite of_protocol_one, of_protocol_nil, Z.add_0_r. split; [|done].
    by repeat case_bool_decide.
Qed.

Lemma reported_counts {A} (f : A → Request) (g : A → Unanswered) p l :
  (∀ x, rq_protocol (f x) = un_protocol (g x)) →
  of_protocol p (reports ((λ x, Reported (f x) (g x)) <$> l)) = zlen (filter (λ u, un_protocol u = p) (g <$> l)) ∧
  answers ((λ x, Reported (f x) (g x)) <$> l) = [].
Proof.
  intros Hf. induction l as [|x l [IH1 IH2]]; [done|]. split; [|done]. rewrite !fmap_cons, filter_cons.
  change (reports (Reported (f x) (g x) :: ?l)) with (f x :: reports l).
  change (f x :: ?l) with ([f x] ++ l). rewrite of_protocol_app, of_protocol_one, IH1, Hf. case_bool_decide; case_decide; cbn [length]; (lia || done).
Qed.

Lemma expire_counts st now : wf st → counts st (Expire now).
Proof.
  intros Hwf p. cbn [apply]. destruct (expire_ok st now Hwf) as (_ & _ & ->). unfold expire. cbn [entries].
  destruct (sweep_due st now); cbn [negb fst snd]; [|tally].
  set (us := _ ++ _). set (l1 := (λ kp, Reported _ _) <$> dns_expired st now).
  set (l2 := (λ kp, Reported _ _) <$> http_expired st now).
  destruct (reported_counts dns_request dns_unanswered p (dns_expired st now)) as [H1 H1']; [done|].
  destruct (reported_counts http_entry http_unanswered p (http_expired st now)) as [H2 H2']; [done|].
  fold l1 in H1, H1'. fold l2 in H2, H2'. split.
  - cbn -[of_protocol]. destruct (count_unanswered_all p us (stats st)) as [-> _].
    unfold answers in *. rewrite omap_app, H1', H2'. tally.
  - unfold reports in *. rewrite omap_app, of_protocol_app, H1, H2. unfold us. rewrite filter_app, length_app. lia.
Qed.

Lemma apply_counts st o : wf st → counts st o.
Proof.
  intros Hwf. destruct o as [flow l7 ts r|request id|now|].
  - apply frame_counts.
  - intros p. cbn. destruct (attach_ok st request id Hwf) as (_ & -> & _). tally.
  - by apply expire_counts.
  - intros p. cbn [entries apply]. assert (answers (Dropped <$> waiting st) = []) as -> by (by induction (waiting st)).
    assert (reports (Dropped <$> waiting st) = []) as -> by (by induction (waiting st)). tally.
Qed.

Lemma log_counts st ops p : wf st →
  ProtocolStats.answered (for_protocol p (stats (foldl apply st ops)))
  = ProtocolStats.answered (for_protocol p (stats st)) + of_protocol p (answers (log st ops)) ∧
  ProtocolStats.unanswered (for_protocol p (stats (foldl apply st ops)))
  = ProtocolStats.unanswered (for_protocol p (stats st)) + of_protocol p (reports (log st ops)).
Proof.
  revert st. induction ops as [|o ops IH]; intros st Hwf; [tally|]. cbn [foldl log].
  destruct (IH (apply st o) (apply_wf st o Hwf)) as [-> ->]. destruct (apply_counts st o Hwf p) as [-> ->].
  unfold answers, reports. rewrite !omap_app, !of_protocol_app. lia.
Qed.

(** *** HTTP requests are numbered once *)

Definition numbers (l : list entry) : list Z := rq_number <$> filter (λ q, rq_protocol q = TxnHttp) (starts l).

Lemma apply_numbers st o :
  (next_http_seq (apply st o) = next_http_seq st ∧ numbers (entries st o) = []) ∨
  (next_http_seq (apply st o) = next_http_seq st + 1 ∧ numbers (entries st o) = [next_http_seq st]).
Proof.
  destruct o as [[[key out]|] l7 ts r|request id|now|]; cbn [apply entries].
  - unfold observe_frame. destruct r; [by left|]. destruct l7; try (by left).
    + unfold http_request. destruct (_ || _); [by left|]. by right.
    + unfold http_response. destruct (http st !! key) as [[|front queue]|] eqn:Hk; [by left| |by left].
      destruct (eqb _ _); [by left|]. destruct (is_interim _); [by left|]. left. cbn. by rewrite Hk.
    + unfold dns_query. destruct (negb _); [by left|]. case_bool_decide; [by left|]. case_zb; by left.
    + unfold dns_response. destruct (negb _); [by left|]. destruct (dns st !! (key, id)) as [p|] eqn:Hp.
      * destruct (dns_matches _ _ _); [|by left]. left. cbn. rewrite Hp. by case_zb.
      * case_bool_decide; by left.
  - left. by destruct r.
  - left. by destruct request.
  - left. unfold expire. destruct (sweep_due st now); [|done]. split; [done|]. unfold numbers, starts. rewrite omap_app.
    assert (Hn : ∀ {A} (f : A → Request) g (l : list A), starts ((λ x, Reported (f x) (g x)) <$> l) = [])
      by (intros; apply ends_reported). unfold starts in Hn. by rewrite !Hn.
  - left. split; [done|]. unfold numbers. assert (starts (Dropped <$> waiting st) = []) as -> by (by induction (waiting st)). done.
Qed.

Lemma log_numbers st ops : NoDup (numbers (log st ops)) ∧ Forall (λ n, next_http_seq st <= n) (numbers (log st ops)).
Proof.
  revert st. induction ops as [|o ops IH]; intros st; [by repeat constructor|]. cbn [log].
  assert (Ha : numbers (entries st o ++ log (apply st o) ops) = numbers (entries st o) ++ numbers (log (apply st o) ops)).
  { unfold numbers, starts. by rewrite omap_app, filter_app, fmap_app. }
  rewrite Ha. destruct (IH (apply st o)) as [Hn Hf]. destruct (apply_numbers st o) as [[He ->]|[He ->]]; cbn [app].
  - by rewrite <- He.
  - assert (Hf' : Forall (λ n, next_http_seq st + 1 <= n) (numbers (log (apply st o) ops))) by (by rewrite <- He).
    rewrite Forall_forall in Hf'. split.
    + constructor; [|done]. intros Hin%Hf'. lia.
    + constructor; [lia|]. apply Forall_forall. intros n Hin%Hf'. lia.
Qed.


(** Over every run (resets included) the tracker holds at most 4096
    requests, at most 32 per connection in the order they were sent, remembers
    at most 4096 answered queries, and its running total is the number of
    requests it holds, so the unchecked subtractions never underflow. *)
Theorem txn_bounded s ops :
  let st := foldl apply (new s) ops in
  pending_len st = Z.of_nat (size (dns st)) + map_total (λ q : list PendingRequest, zlen q) (http st) ∧
  0 <= pending_len st <= 4096 ∧ Z.of_nat (size (answered_dns st)) <= 4096 ∧
  ∀ key q, http st !! key = Some q → 1 <= zlen q <= 32 ∧ StronglySorted Z.lt (http_seq <$> q).
Proof.
  intros st. assert (Hwf : wf st).
  { subst st. pose proof (new_wf s) as Hn. revert Hn. generalize (new s).
    induction ops as [|o ops IH]; intros st0 Hst; [done|]. apply IH. by apply apply_wf. }
  destruct Hwf as [Ht Hm Hq Ha]. clearbody st. unfold pending_len. cbn in Ht.
  assert (0 <= map_total (λ q : list PendingRequest, zlen q) (http st)) by (apply map_total_nonneg; intros; lia).
  unfold MAX_PENDING, MAX_HTTP_PIPELINE in *. split_and!; [done|lia|done|done|].
  intros key q (Hne & Hl & Hs)%Hq. apply seqs_ok_fmap in Hs as [Hs _].
  split; [|done]. destruct q; [done|]. cbn [length] in *. lia.
Qed.
End runs.

(** ** Service times *)

(** The HTTP messages of one connection whose client is the local side. *)
Inductive http_msg :=
| HttpReq (method path : bytes) (ts_us : Z)
| HttpResp (status : bytes) (ts_us : Z).

Definition msg_frame (key : FlowKey) (client_outbound : bool) (st : t) (m : http_msg) : t * TxnEvent :=
  match m with
  | HttpReq method path ts => observe_frame st (Some (key, client_outbound)) (L7Http method path) ts false
  | HttpResp status ts =>
      observe_frame st (Some (key, negb client_outbound)) (L7HttpResponse status None None None) ts false
  end.

(** The service times a sequence of messages yields. *)
Fixpoint service_times (key : FlowKey) (client_outbound : bool) (st : t) (ms : list http_msg) : list Z :=
  match ms with
  | [] => []
  | m :: ms' =>
      let r := msg_frame key client_outbound st m in
      match r.2 with
      | TxnAnswered _ us _ => us :: service_times key client_outbound r.1 ms'
      | _ => service_times key client_outbound r.1 ms'
      end
  end.

Definition req_times (ms : list http_msg) : list Z :=
  omap (λ m, match m with HttpReq _ _ ts => Some ts | _ => None end) ms.
(** Final responses only: an interim response answers nothing. *)
Definition final_times (ms : list http_msg) : list Z :=
  omap (λ m, match m with HttpResp s ts => if is_interim s then None else Some ts | _ => None end) ms.

(** No response comes before its request. *)
Fixpoint causal (waiting : Z) (ms : list http_msg) : Prop :=
  match ms with
  | [] => True
  | HttpReq _ _ _ :: ms' => causal (waiting + 1) ms'
  | HttpResp s _ :: ms' =>
      if is_interim s then causal waiting ms' else 0 < waiting ∧ causal (waiting - 1) ms'
  end.

Lemma http_response_interim st key out status ts :
  is_interim status = true →
  (http_response st key out status ts).1 = st ∧ ∀ p us id, (http_response st key out status ts).2 ≠ TxnAnswered p us id.
Proof. intros Hi. unfold http_response. rewrite Hi. by repeat case_match. Qed.

Lemma http_response_final st key out status ts front queue :
  http st !! key = Some (front :: queue) → request_is_outbound front = negb out → is_interim status = false →
  ∃ st', http_response st key out status ts
         = (st', TxnAnswered TxnHttp (sat_sub ts (sent_at_us front)) (frame_id front)) ∧
    default [] (http st' !! key) = queue ∧ pending_total st' = pending_total st - 1.
Proof.
  intros Hk Ho Hi. unfold http_response. rewrite Hk, Ho, Hi.
  destruct (eqb _ _) eqn:E; [by destruct out|]. eexists. split; [done|]. cbn.
  split; [|lia]. case_bool_decide; subst; [by rewrite lookup_delete_eq|by rewrite lookup_insert_eq].
Qed.

Lemma service_times_queue key out ms st :
  let q := default [] (http st !! key) in
  Forall (λ p, request_is_outbound p = out) q → causal (zlen q) ms →
  pending_total st + zlen (req_times ms) <= MAX_PENDING → zlen q + zlen (req_times ms) <= MAX_HTTP_PIPELINE →
  service_times key out st ms = zip_with sat_sub (final_times ms) ((sent_at_us <$> q) ++ req_times ms).
Proof.
  revert st. induction ms as [|m ms IH]; intros st q Hout Hc Hp Hl; [done|].
  destruct m as [method path ts|status ts]; cbn [service_times msg_frame observe_frame].
  - cbn [req_times omap list_omap length] in *. fold (req_times ms) in *.
    unfold http_request.
    assert (Hroom : (MAX_PENDING <=? pending_total st) || match http st !! key with
       | Some queue => MAX_HTTP_PIPELINE <=? zlen queue | None => false end = false).
    { apply orb_false_iff. split; [apply Z.leb_gt; lia|]. subst q.
      destruct (http st !! key) as [q|] eqn:Hk; [|done]. cbn in Hl. apply Z.leb_gt. lia. }
    rewrite Hroom. cbn [snd fst].
    set (p := mkPending _ _ _ _ _ _). set (st' := _ <| pending_total ::= Z.succ |>).
    assert (Hq' : default [] (http st' !! key) = q ++ [p]) by (cbn; by rewrite lookup_insert_eq).
    assert (Hp' : pending_total st' = pending_total st + 1) by (cbn; lia).
    clearbody st'. rewrite IH; rewrite ?Hq', ?Hp'; rewrite ?length_app; cbn [length].
    + cbn [final_times omap list_omap]. fold (final_times ms). f_equal.
      rewrite fmap_app, <- app_assoc. done.
    + apply Forall_app. split; [done|]. by repeat constructor.
    + cbn [causal] in Hc. replace (Z.of_nat (length q + 1)) with (zlen q + 1) by lia. done.
    + lia.
    + lia.
  - cbn [req_times omap list_omap causal final_times] in *. fold (req_times ms) (final_times ms) in *.
    destruct (is_interim status) eqn:Hi.
    + destruct (http_response_interim st key (negb out) status ts Hi) as [Hst He].
      rewrite Hst. destruct (http_response _ _ _ _ _) as [? e]. cbn [snd] in *.
      destruct e; try (by apply IH). by destruct (He protocol service_time_us request_frame_id).
    + destruct Hc as [Hpos Hc]. subst q. destruct (http st !! key) as [[|front queue]|] eqn:Hk; [done| |done].
      cbn [default from_option id length] in *. apply Forall_cons in Hout as [Hf Hout].
      destruct (http_response_final st key (negb out) status ts front queue) as (st' & -> & Hq' & Hp');
        [done|by rewrite negb_involutive|done|]. cbn [fst snd].
      rewrite IH; rewrite ?Hq', ?Hp'; [done|done| |lia..].
      by replace (zlen queue) with (Z.of_nat (S (length queue)) - 1) by lia.
Qed.

(** On one HTTP connection the k-th final response answers the k-th request.
    For any interleaving of requests, interim (1xx) and final responses in
    which no response precedes its request, within the pipeline and global
    bounds, the service times reported are exactly the response times minus the
    request times, pair by pair in order; interim responses consume nothing. *)
Theorem http_pipeline_in_order key out ms st :
  http st !! key = None → causal 0 ms →
  pending_len st + zlen (req_times ms) <= MAX_PENDING → zlen (req_times ms) <= MAX_HTTP_PIPELINE →
  service_times key out st ms = zip_with sat_sub (final_times ms) (req_times ms).
Proof.
  intros Hk Hc Hp Hl. rewrite service_times_queue; rewrite ?Hk; cbn; (done || lia || auto).
Qed.

Definition sample_key : FlowKey := mkFlowKey Tcp (lit "10.0.0.2") 50000 (lit "10.0.0.1") 80.
Definition sample_msgs : list http_msg :=
  [HttpReq (lit "GET") (lit "/a") 100; HttpReq (lit "GET") (lit "/b") 120; HttpResp (lit "100") 130;
   HttpResp (lit "200") 150; HttpReq (lit "GET") (lit "/c") 160; HttpResp (lit "404") 170; HttpResp (lit "101") 200].

Lemma http_pipeline_in_order_witness :
  service_times sample_key true (new (mkServiceTimeStats ProtocolStats.default_stats ProtocolStats.default_stats)) sample_msgs
  = [50; 50; 40].
Proof.
  rewrite (http_pipeline_in_order sample_key true sample_msgs); [reflexivity|reflexivity|..];
    repeat split; vm_compute; congruence.
Defined.

Section dns_service.
Context `{IterOrder} (key : FlowKey) (id : Z) (out : bool) (name : bytes) (t0 : Z).

(** The query is waiting, with the send time of its first attempt. *)
Definition waits (st : t) : Prop :=
  ∃ p, dns st !! (key, id) = Some p ∧ sent_at_us p = t0 ∧ request_is_outbound p = out ∧
       dns_qname p = Some (to_ascii_lowercase name).

(** A response to it: the other way, echoing its question. *)
Definition answers_query (o : op) : Prop :=
  ∃ n qt rc ac ans ts, o = Frame (Some (key, negb out)) (L7DnsResponse n id qt rc ac ans) ts false ∧
    to_ascii_lowercase n = to_ascii_lowercase name.

(** What happens to the tracker meanwhile: anything but such a response, a
    reset, or a sweep past the query's timeout. *)
Definition meanwhile (o : op) : Prop :=
  ¬ answers_query o ∧ o ≠ Reset ∧ match o with Expire now => sat_sub now t0 < DNS_TIMEOUT_US | _ => True end.

Lemma waits_dns st st' : dns st' = dns st → waits st → waits st'.
Proof. unfold waits. by intros ->. Qed.

Lemma waits_ne st st' k : k ≠ (key, id) → dns st' !! (key, id) = dns st !! (key, id) → waits st → waits st'.
Proof. unfold waits. by intros _ ->. Qed.

Lemma dns_query_waits st k out' n i qt ts : waits st → waits (dns_query st k out' n i qt ts).1.
Proof.
  intros Hw. unfold dns_query. destruct (negb _); [done|]. case_bool_decide as Hk; [done|].
  case_zb; [by eapply waits_dns|].
  assert (Hne : (k, i) ≠ (key, id)).
  { intros E. apply Hk. rewrite E. destruct Hw as (p & -> & _). eauto. }
  eapply (waits_ne st); [exact Hne| |done]. cbn. by rewrite lookup_insert_ne.
Qed.

Lemma dns_response_waits st k out' n i ts :
  waits st → ¬ (k = key ∧ i = id ∧ out' = negb out ∧ to_ascii_lowercase n = to_ascii_lowercase name) →
  waits (dns_response st k out' n i ts).1.
Proof.
  intros Hw Hno. unfold dns_response. destruct (negb (is_dns_service _ _)); [done|].
  destruct (dns st !! (k, i)) as [p|] eqn:Hp; [|by case_bool_decide].
  destruct (dns_matches p out' n) eqn:Hm; [|done].
  assert (Hne : (k, i) ≠ (key, id)).
  { intros [= -> ->]. destruct Hw as (p' & Hp' & _ & Ho & Hn). rewrite Hp in Hp'. injection Hp' as <-.
    unfold dns_matches in Hm. apply andb_true_iff in Hm as [Hd Hq%bool_decide_eq_true].
    apply Hno. split_and!; [done..| |congruence]. rewrite Ho in Hd. by destruct out', out. }
  eapply (waits_ne st); [exact Hne| |done]. case_zb; cbn; by rewrite lookup_delete_ne.
Qed.

Lemma meanwhile_waits st o : waits st → meanwhile o → waits (apply st o).
Proof.
  intros Hw (Hno & Hr & He). destruct o as [flow l7 ts r|request fid|now|]; [| | |done].
  - cbn [apply]. unfold observe_frame. destruct r; [done|]. destruct flow as [[k out']|]; [|done].
    destruct l7; try done.
    + unfold http_request. case_match; by eapply waits_dns.
    + unfold http_response, answered. repeat case_match; by eapply waits_dns.
    + by apply dns_query_waits.
    + apply dns_response_waits; [done|]. intros (-> & -> & -> & Hn). apply Hno. unfold answers_query. eauto 10.
  - destruct request as [k i|k s]; [|by eapply waits_dns]. destruct Hw as (p & Hp & ? & ? & ?).
    destruct (decide ((k, i) = (key, id))) as [[= -> ->]|Hne].
    + exists (p <| frame_id := Some fid |>). cbn. rewrite lookup_alter, decide_True, Hp by done. done.
    + exists p. cbn. by rewrite lookup_alter_ne.
  - destruct Hw as (p & Hp & Ht & Ho & Hq). exists p. split; [|done]. cbn [apply].
    unfold expire. destruct (sweep_due st now); [|done]. cbn. rewrite delete_all_lookup.
    rewrite bool_decide_false; [done|].
    intros (kp & Hk & [Ht' Hin]%list_elem_of_filter)%list_elem_of_fmap.
    destruct kp as [k p']. cbn in Hk. subst k. apply elem_of_iter in Hin. simplify_eq.
    unfold timed_out in Ht'. apply Z.leb_le in Ht'. cbn in *. lia.
Qed.

(** A DNS query's service time is measured from its first attempt.  Once a
    query is accepted, whatever happens before its timeout is swept (other
    traffic, retransmissions of the query, responses that go the wrong way or
    do not echo the question, ids attached), the first response that does
    answer it is matched and reports exactly the time since the first query,
    case differences in the name ignored. *)
Theorem dns_service_time st ops qtype n qt rc ac ans ts :
  is_dns_service key out = true → dns st !! (key, id) = None → pending_len st < MAX_PENDING →
  Forall meanwhile ops → to_ascii_lowercase n = to_ascii_lowercase name →
  let st1 := (observe_frame st (Some (key, out)) (L7Dns name id qtype) t0 false).1 in
  let st2 := foldl apply st1 ops in
  ∃ fid, (observe_frame st2 (Some (key, negb out)) (L7DnsResponse n id qt rc ac ans) ts false).2
         = TxnAnswered TxnDns (sat_sub ts t0) fid.
Proof.
  intros Hsvc Hnone Hroom Hops Hn st1 st2. unfold pending_len in Hroom.
  assert (Hw1 : waits st1).
  { subst st1. cbn [observe_frame]. unfold dns_query. rewrite Hsvc, Hnone. cbn [negb].
    rewrite bool_decide_false by (by intros []). rewrite (proj2 (Z.leb_gt _ _)) by lia.
    eexists. cbn. rewrite lookup_insert_eq. done. }
  assert (Hw2 : waits st2).
  { subst st2. clearbody st1. revert st1 Hw1. induction Hops as [|o ops Ho _ IH]; intros st1 Hw1; [done|].
    apply IH. by apply meanwhile_waits. }
  destruct Hw2 as (p & Hp & Ht & Ho & Hq). cbn [observe_frame]. unfold dns_response.
  rewrite negb_involutive, Hsvc, Hp. cbn [negb]. unfold dns_matches. rewrite Ho, Hq, Hn.
  rewrite bool_decide_true by done. destruct (eqb _ _) eqn:E; [by destruct out|]. cbn [negb andb].
  unfold answered. rewrite Ht. eauto.
Qed.
End dns_service.

Definition empty_stats : ServiceTimeStats :=
  mkServiceTimeStats ProtocolStats.default_stats ProtocolStats.default_stats.
Definition sample_dns_key : FlowKey := mkFlowKey Udp (lit "10.0.0.2") 40000 (lit "9.9.9.9") 53.

Lemma dns_service_time_witness :
  let st1 := (observe_frame (new empty_stats) (Some (sample_dns_key, true)) (L7Dns (lit "example.com") 7 1) 1000 false).1 in
  let st2 := foldl apply st1 [Frame (Some (sample_dns_key, true)) (L7Dns (lit "example.com") 7 1) 500000 false;
                              Expire 600000] in
  ∃ fid, (observe_frame st2 (Some (sample_dns_key, false)) (L7DnsResponse (lit "Example.COM") 7 1 0 0 []) 700000 false).2
         = TxnAnswered TxnDns 699000 fid.
Proof.
  refine (dns_service_time sample_dns_key 7 true (lit "example.com") 1000 (new empty_stats) _ 1
    (lit "Example.COM") 1 0 0 [] 700000 _ _ _ _ _); [reflexivity..| |reflexivity].
  repeat constructor; try done; intros (? & ? & ? & ? & ? & ? & [=] & _).
Defined.

(** A query that times out, one that is answered, a request dropped by a
    switch, and one that still waits. *)
Definition sample_ops : list op :=
  [Frame (Some (sample_dns_key, true)) (L7Dns (lit "example.com") 7 1) 1000 false;
   Frame (Some (sample_dns_key, true)) (L7Dns (lit "example.org") 8 1) 1000 false;
   Attach (RefDns sample_dns_key 8) (lit "p1");
   Frame (Some (sample_dns_key, false)) (L7DnsResponse (lit "example.org") 8 1 0 0 []) 1500 false;
   Frame (Some (sample_key, true)) (L7Http (lit "GET") (lit "/a")) 2000 false;
   Expire 6000000; Reset;
   Frame (Some (sample_key, true)) (L7Http (lit "GET") (lit "/b")) 6000001 false].

Example sample_log :
  (λ e, match e with
        | Started q => (0, rq_number q) | Answered q us _ => (1, us) | Reported q _ => (2, rq_number q) | Dropped q => (3, rq_number q)
        end) <$> log (new empty_stats) sample_ops
  = [(0, 7); (0, 8); (1, 500); (0, 0); (2, 7); (3, 0); (0, 1)] ∧
  rq_number <$> waiting (foldl apply (new empty_stats) sample_ops) = [1].
Proof. by vm_compute. Qed.

(** ** Sweeps *)

Section sweeps.
Context `{IterOrder}.

Definition in_send_order (q : list PendingRequest) : Prop :=
  StronglySorted (λ a b, sent_at_us a <= sent_at_us b) q.

Lemma timed_out_mono now p a b :
  sent_at_us a <= sent_at_us b → timed_out now p b = true → timed_out now p a = true.
Proof. unfold timed_out. rewrite !Z.leb_le. unfold sat_sub. lia. Qed.

Lemma span_while_sorted now q :
  in_send_order q → Forall (λ p, timed_out now TxnHttp p = false) (span_while (timed_out now TxnHttp) q).2.
Proof.
  induction 1 as [|p q Hs IH Hp]; [constructor|]. cbn [span_while].
  destruct (timed_out now TxnHttp p) eqn:Ht.
  - by destruct (span_while _ q).
  - cbn. constructor; [done|]. eapply Forall_impl; [exact Hp|]. cbn. intros b Hb.
    destruct (timed_out now TxnHttp b) eqn:E; [|done]. by rewrite (timed_out_mono now TxnHttp p b) in Ht.
Qed.

Lemma span_while_fst {A} (f : A → bool) l : Forall (λ x, f x = true) (span_while f l).1.
Proof.
  induction l as [|x l IH]; [constructor|]. cbn [span_while]. destruct (f x) eqn:E; [|constructor].
  destruct (span_while f l). cbn in *. by constructor.
Qed.

(** A sweep that is due reports exactly the requests that timed out.  The
    DNS queries left are those not yet timed out, unchanged; what is reported
    had timed out and was waiting; and, on connections whose requests were
    queued in send order, every HTTP request left is within its timeout and the
    queue is its suffix. *)
Theorem expire_exact st now :
  sweep_due st now = true →
  (∀ k, dns (expire st now).1 !! k
        = match dns st !! k with Some p => if timed_out now TxnDns p then None else Some p | None => None end) ∧
  (∀ key q, http st !! key = Some q → in_send_order q →
     ∃ gone rest, q = gone ++ rest ∧ Forall (λ p, timed_out now TxnHttp p = true) gone ∧
       Forall (λ p, timed_out now TxnHttp p = false) rest ∧
       http (expire st now).1 !! key = if bool_decide (rest = []) then None else Some rest) ∧
  (∀ u, u ∈ (expire st now).2 ↔
     (∃ k p, dns st !! k = Some p ∧ timed_out now TxnDns p = true ∧ u = unanswered_of TxnDns k.1 p) ∨
     (∃ key q p, http st !! key = Some q ∧ p ∈ (span_while (timed_out now TxnHttp) q).1 ∧
        u = unanswered_of TxnHttp key p)).
Proof.
  intros Hdue. unfold expire. rewrite Hdue. cbn. split_and!.
  - intros k. rewrite delete_all_lookup. case_bool_decide as Hin.
    + apply list_elem_of_fmap in Hin as ([k' p] & -> & [Ht Hi]%list_elem_of_filter).
      apply elem_of_iter in Hi. cbn in *. by rewrite Hi, Ht.
    + destruct (dns st !! k) as [p|] eqn:Hp; [|done]. destruct (timed_out now TxnDns p) eqn:Ht; [|done].
      destruct Hin. apply list_elem_of_fmap. exists (k, p). split; [done|].
      apply list_elem_of_filter. split; [done|]. by apply elem_of_iter.
  - intros key q Hk Hs. exists (span_while (timed_out now TxnHttp) q).1, (span_while (timed_out now TxnHttp) q).2.
    split_and!; [by rewrite span_while_app|apply span_while_fst|by apply span_while_sorted|].
    case_bool_decide as Hr.
    + apply map_lookup_filter_None. right. intros q'. rewrite lookup_fmap, Hk. cbn. intros [= <-] Hne. by apply Hne.
    + apply map_lookup_filter_Some. rewrite lookup_fmap, Hk. done.
  - intros u. rewrite elem_of_app, !list_elem_of_fmap. split.
    + intros [([k p] & -> & [Ht Hi%elem_of_iter]%list_elem_of_filter)|([key p] & -> & Hin)].
      * left. by exists k, p.
      * right. apply list_elem_of_bind in Hin as ([key' q] & Hp & Hi%elem_of_iter).
        apply list_elem_of_fmap in Hp as (p' & [= -> ->] & Hp). by exists key', q, p'.
    + intros [(k & p & Hp & Ht & ->)|(key & q & p & Hq & Hp & ->)].
      * left. exists (k, p). split; [done|]. apply list_elem_of_filter. split; [done|]. by apply elem_of_iter.
      * right. exists (key, p). split; [done|]. apply list_elem_of_bind. exists (key, q).
        split; [|by apply elem_of_iter]. apply list_elem_of_fmap. by exists p.
Qed.
End sweeps.

Lemma expire_exact_witness :
  let st := (observe_frame (new empty_stats) (Some (sample_dns_key, true)) (L7Dns (lit "example.com") 7 1) 1000 false).1 in
  dns (expire st 6000000).1 !! (sample_dns_key, 7) = None.
Proof.
  intros st. destruct (expire_exact st 6000000 eq_refl) as [Hd _]. rewrite Hd. by vm_compute.
Defined.

(** [expire] documents that it returns every request whose timeout has passed,
    on the ground that a queue is in send order.  A capture file whose frames
    are out of order queues an old request behind a newer one, and it stays. *)
Definition late_queue : t :=
  foldl apply (new empty_stats)
    [Frame (Some (sample_key, true)) (L7Http (lit "GET") (lit "/new")) 20000000 false;
     Frame (Some (sample_key, true)) (L7Http (lit "GET") (lit "/old")) 0 false].

Theorem expire_misses_out_of_order :
  (expire late_queue 40000000).2 = [] ∧
  match http (expire late_queue 40000000).1 !! sample_key with
  | Some [p; q] => timed_out 40000000 TxnHttp q = true
  | _ => False
  end.
Proof. by vm_compute. Qed.

(** ** Statistics *)

Definition count_le (v : Z) (l : list Z) : Z := zlen (filter (λ x, x <= v) l).

(** The nearest-rank percentile: the smallest sample with at least [percent]
    per cent of the samples at or below it. *)
Definition is_percentile (percent : Z) (l : list Z) (o : option Z) : Prop :=
  match o with
  | None => l = []
  | Some v =>
      v ∈ l ∧ percent * zlen l <= 100 * count_le v l ∧
      ∀ u, u ∈ l → u < v → 100 * count_le u l < percent * zlen l
  end.

Lemma count_le_app v l1 l2 : count_le v (l1 ++ l2) = count_le v l1 + count_le v l2.
Proof. unfold count_le. rewrite filter_app, length_app. lia. Qed.

Lemma count_le_all v l : Forall (λ x, x <= v) l → count_le v l = zlen l.
Proof. intros. unfold count_le. by rewrite list_filter_all. Qed.

Lemma count_le_none v l : Forall (λ x, v < x) l → count_le v l = 0.
Proof.
  unfold count_le. induction 1; [done|]. rewrite filter_cons_False by lia. done.
Qed.

Lemma count_le_bounds v l : 0 <= count_le v l <= zlen l.
Proof. unfold count_le. pose proof (length_filter (λ x, x <= v) l). lia. Qed.

#[global] Instance count_le_perm v : Proper ((≡ₚ) ==> eq) (count_le v).
Proof. intros l l' Hp. unfold count_le. by rewrite Hp. Qed.

Lemma is_percentile_perm percent l l' o : l ≡ₚ l' → is_percentile percent l o → is_percentile percent l' o.
Proof.
  intros Hp. destruct o as [v|]; cbn.
  - intros (Hv & Hc & Hu). rewrite <- Hp. split_and!; [done..|]. intros u Hin. rewrite <- Hp in *. auto.
  - intros ->. by apply Permutation_nil_l in Hp.
Qed.

Lemma nearest_rank_spec percent l :
  1 <= percent <= 100 → StronglySorted Z.le l → is_percentile percent l (nearest_rank l percent).
Proof.
  intros Hp Hs. unfold nearest_rank. case_bool_decide as Hl; [done|].
  assert (Hn : 1 <= zlen l) by (destruct l; [done|]; cbn [length]; lia).
  set (rank := Z.max ((percent * zlen l + 99) / 100) 1).
  assert (Hr : 1 <= rank <= zlen l ∧ percent * zlen l <= 100 * rank ∧ 100 * (rank - 1) < percent * zlen l).
  { pose proof (Z.div_mod (percent * zlen l + 99) 100). pose proof (Z.mod_pos_bound (percent * zlen l + 99) 100).
    assert (percent * zlen l <= 100 * zlen l) by nia. assert (1 <= percent * zlen l) by nia. lia. }
  destruct (nth_z_is_Some l (rank - 1) ltac:(lia)) as [v Hv]. rewrite Hv. unfold nth_z in Hv.
  assert (Hsplit : l = take (Z.to_nat (rank - 1)) l ++ v :: drop (Z.to_nat rank) l).
  { rewrite <- (take_drop_middle l _ _ Hv) at 1. do 2 f_equal. f_equal. lia. }
  set (l1 := take _ _) in *. set (l2 := drop _ _) in *.
  assert (Hl1 : zlen l1 = rank - 1) by (subst l1; rewrite length_take; lia).
  assert (Hc : ∀ u, count_le u l = count_le u l1 + count_le u (v :: l2)).
  { intros u. rewrite Hsplit at 1. apply count_le_app. }
  rewrite Hsplit in Hs. apply StronglySorted_app in Hs as (H12 & _ & H2).
  apply StronglySorted_inv in H2 as [_ H2]. cbn. split_and!.
  - by eapply list_elem_of_lookup_2.
  - rewrite Hc. change (v :: l2) with ([v] ++ l2). rewrite count_le_app.
    rewrite (count_le_all v l1), (count_le_all v [v]).
    + pose proof (count_le_bounds v l2). cbn [length]. lia.
    + repeat constructor. lia.
    + apply Forall_forall. intros x Hx. apply H12; [done|left].
  - intros u _ Hu. rewrite Hc, (count_le_none u (v :: l2)).
    + pose proof (count_le_bounds u l1). lia.
    + constructor; [done|]. eapply Forall_impl; [exact H2|]. cbn. lia.
Qed.

Definition record_all (xs : list Z) : ProtocolStats.t := foldl ProtocolStats.record ProtocolStats.default_stats xs.

(** The samples the percentiles are over. *)
Definition window (xs : list Z) : list Z := drop (length xs - 1024) xs.

Lemma record_extremes s x :
  ProtocolStats.min_us (ProtocolStats.record s x)
  = Some (match ProtocolStats.min_us s with Some m => Z.min m x | None => x end) ∧
  ProtocolStats.max_us (ProtocolStats.record s x)
  = Some (match ProtocolStats.max_us s with Some m => Z.max m x | None => x end).
Proof. unfold ProtocolStats.record. cbn. by case_match. Qed.

Lemma record_all_snoc xs x : record_all (xs ++ [x]) = ProtocolStats.record (record_all xs) x.
Proof. unfold record_all. by rewrite foldl_app. Qed.

Lemma record_all_recent xs : ProtocolStats.recent (record_all xs) = window xs.
Proof.
  induction xs as [|x xs IH] using rev_ind; [done|]. rewrite record_all_snoc. unfold ProtocolStats.record.
  cbn. rewrite IH. unfold window, RECENT_SAMPLES. rewrite length_drop, length_app. cbn [length].
  destruct (Z.eqb_spec (Z.of_nat (length xs - (length xs - 1024))) 1024); cbn; rewrite IH; unfold window.
  - unfold zdrop. rewrite drop_drop, drop_app_le by lia. f_equal. f_equal. lia.
  - rewrite drop_app_le by lia. do 2 f_equal. lia.
Qed.

Lemma record_all_extremes xs :
  ProtocolStats.min_us (record_all xs) = (match xs with [] => None | x :: xs' => Some (foldl Z.min x xs') end) ∧
  ProtocolStats.max_us (record_all xs) = (match xs with [] => None | x :: xs' => Some (foldl Z.max x xs') end) ∧
  ProtocolStats.answered (record_all xs) = zlen xs.
Proof.
  induction xs as [|x xs IH] using rev_ind; [done|]. destruct IH as (Hmin & Hmax & Ha).
  destruct (record_extremes (record_all xs) x) as [Hlo Hhi].
  rewrite record_all_snoc, Hlo, Hhi, record_answered, Hmin, Hmax, Ha, length_app.
  destruct xs as [|y xs]; [done|]. cbn [app length]. rewrite !foldl_app. split_and!; (done || lia).
Qed.

Lemma foldl_min_spec xs x : foldl Z.min x xs ∈ x :: xs ∧ Forall (λ y, foldl Z.min x xs <= y) (x :: xs).
Proof.
  revert x. induction xs as [|y xs IH]; intros x; cbn [foldl].
  { split; [left|]. repeat constructor. lia. }
  destruct (IH (Z.min x y)) as [Hin Hall]. apply Forall_cons in Hall as [Hm Hall]. split.
  - apply elem_of_cons in Hin as [->|Hin]; [|right; by right].
    destruct (Z.min_spec x y) as [[_ ->]|[_ ->]]; [left|right; left].
  - repeat constructor; [lia..|done].
Qed.

Lemma foldl_max_spec xs x : foldl Z.max x xs ∈ x :: xs ∧ Forall (λ y, y <= foldl Z.max x xs) (x :: xs).
Proof.
  revert x. induction xs as [|y xs IH]; intros x; cbn [foldl].
  { split; [left|]. repeat constructor. lia. }
  destruct (IH (Z.max x y)) as [Hin Hall]. apply Forall_cons in Hall as [Hm Hall]. split.
  - apply elem_of_cons in Hin as [->|Hin]; [|right; by right].
    destruct (Z.max_spec x y) as [[_ ->]|[_ ->]]; [right; left|left].
  - repeat constructor; [lia..|done].
Qed.

(** The summary of a protocol describes its service times.  After any
    samples, [answered] is their number, [min_us] and [max_us] are the least
    and greatest of all of them, and the median and 95th percentile are the
    nearest-rank percentiles (the smallest sample with at least that share of
    the samples at or below it) of the last 1024. *)
Theorem summary_describes_samples xs protocol :
  let s := summary (record_all xs) protocol in
  sum_answered s = zlen xs ∧ sample_count s = Z.min (zlen xs) 1024 ∧
  is_percentile 50 (window xs) (median_us s) ∧ is_percentile 95 (window xs) (p95_us s) ∧
  match sum_min_us s, sum_max_us s with
  | Some lo, Some hi => lo ∈ xs ∧ hi ∈ xs ∧ Forall (λ x, lo <= x <= hi) xs
  | None, None => xs = []
  | _, _ => False
  end.
Proof.
  cbn. pose proof (record_all_recent xs) as Hr. destruct (record_all_extremes xs) as (Hmin & Hmax & Ha).
  rewrite Hmin, Hmax, Ha, Hr. set (sorted := sort_by_key (λ x, x) (window xs)).
  assert (Hp : sorted ≡ₚ window xs) by apply sort_by_key_perm.
  assert (Hs : StronglySorted Z.le sorted) by apply (sort_by_key_sorted (λ x : Z, x)).
  split_and!; [done| |by eapply is_percentile_perm, nearest_rank_spec|by eapply is_percentile_perm, nearest_rank_spec|].
  - rewrite Hp. unfold window. rewrite length_drop. lia.
  - destruct xs as [|x xs]; [done|]. destruct (foldl_min_spec xs x) as [Hi Hf], (foldl_max_spec xs x) as [Hi' Hf'].
    split_and!; [done..|]. rewrite Forall_forall in *. intros y Hy. split; auto.
Qed.

(** ** Display safety *)

Definition printable (b : Z) : Prop := 32 <= b <= 126.

Lemma digit_char_printable d : 0 <= d < 16 → printable (digit_char d).
Proof. intros. unfold digit_char, printable. case_zb; lia. Qed.

Lemma digits_base fuel base n acc :
  0 < base → Forall (λ d, 0 <= d < base) acc → Forall (λ d, 0 <= d < base) (digits fuel base n acc).
Proof.
  intros Hb. revert n acc. induction fuel as [|fuel IH]; intros n acc Ha; [done|]. cbn [digits].
  pose proof (Z.mod_pos_bound n base Hb). case_zb; [|apply IH]; by constructor.
Qed.

Ltac ascii := cbn; repeat (apply Forall_cons; split; [unfold printable; lia|]); apply Forall_nil; done.

Lemma display_char_printable c : Forall printable (display_char c).
Proof.
  unfold display_char. destruct (_ || _) eqn:Hc.
  - assert (32 <= c <= 126).
    { apply orb_true_iff in Hc as [?%in_range_true|?%Z.eqb_eq]; lia. }
    unfold encode_char. rewrite (proj2 (Z.ltb_lt _ _)) by lia. by apply Forall_singleton.
  - unfold escape_unicode. apply Forall_app_2; [ascii|]. apply Forall_app_2; [|ascii].
    unfold hex. apply Forall_fmap. eapply Forall_impl; [by apply digits_base|]. apply digit_char_printable.
Qed.

Lemma length_digits fuel base n acc :
  0 < base → 0 <= n < base ^ Z.of_nat fuel →
  ∀ k, 0 < k → n < base ^ k → zlen (digits fuel base n acc) <= k + zlen acc.
Proof.
  intros Hb. revert n acc. induction fuel as [|fuel IH]; intros n acc Hn k Hk Hnk; cbn [digits]; [lia|].
  destruct (Z.eqb_spec (n / base) 0) as [|Hne]; [cbn [length]; lia|].
  rewrite Nat2Z.inj_succ, Z.pow_succ_r in Hn by lia.
  assert (0 <= n / base < base ^ Z.of_nat fuel) by (split; [apply Z.div_pos|apply Z.div_lt_upper_bound]; lia).
  assert (Hk1 : 1 < k).
  { destruct (Z.eq_dec k 1) as [->|]; [|lia]. rewrite Z.pow_1_r in Hnk. by rewrite Z.div_small in Hne by lia. }
  etrans; [apply (IH (n / base) _ ltac:(done) (k - 1)); [lia|]|cbn [length]; lia].
  apply Z.div_lt_upper_bound; [done|]. rewrite <- Z.pow_succ_r by lia. by replace (Z.succ (k - 1)) with k by lia.
Qed.

Lemma display_char_length c : 0 <= c <= 1114111 → zlen (display_char c) <= 10.
Proof.
  intros Hc. unfold display_char. destruct (_ || _) eqn:E.
  - unfold encode_char. repeat case_zb; cbn [length]; lia.
  - unfold escape_unicode, hex. rewrite !length_app, length_fmap.
    pose proof (length_digits 16 16 c [] ltac:(lia) ltac:(lia) 6 ltac:(lia) ltac:(lia)). cbn in *. lia.
Qed.

Lemma display_chars_shape cs count :
  Forall (λ c, 0 <= c <= 1114111) cs → 0 <= count <= 120 →
  ∃ body tail, display_chars count cs = body ++ tail ∧ Forall printable body ∧
    (tail = [] ∨ tail = [226; 128; 166]) ∧ zlen body <= 10 * (120 - count).
Proof.
  intros Hcs. revert count. induction Hcs as [|c cs Hc _ IH]; intros count Hn; cbn [display_chars].
  { exists [], []. split_and!; [done|constructor|by left|cbn; lia]. }
  unfold MAX_LABEL_CHARS. destruct (Z.eqb_spec count 120).
  { exists [], [226; 128; 166]. split_and!; [done|constructor|by right|cbn; lia]. }
  destruct (IH (count + 1)) as (body & tail & -> & Hb & Ht & Hl); [lia|].
  exists (display_char c ++ body), tail. split_and!; [by rewrite app_assoc| |done|].
  - apply Forall_app_2; [apply display_char_printable|done].
  - rewrite length_app. pose proof (display_char_length c Hc). lia.
Qed.

Lemma display_chars_identity cs count :
  Forall printable cs → 0 <= count → count + zlen cs <= 120 → display_chars count cs = cs.
Proof.
  intros Hcs. revert count. induction Hcs as [|c cs Hc _ IH]; intros count Hn Hl; [done|].
  cbn [length] in Hl. cbn [display_chars]. unfold MAX_LABEL_CHARS. rewrite (proj2 (Z.eqb_neq _ _)) by lia.
  rewrite IH by lia. unfold display_char, printable in *.
  assert (in_range 33 126 c || (c =? 32) = true) as ->.
  { apply orb_true_iff. rewrite in_range_true, Z.eqb_eq. lia. }
  unfold encode_char. by rewrite (proj2 (Z.ltb_lt _ _)) by lia.
Qed.

(** Text from the network is made safe to display.  Whatever it holds
    (control characters, terminal escapes, bidirectional overrides), its
    displayed form is printable ASCII of at most 1200 bytes, followed at most by
    one ellipsis; and printable ASCII of up to 120 characters is shown as it
    is. *)
Theorem display_safe_safe text :
  (∃ body tail, display_safe text = body ++ tail ∧ Forall printable body ∧
     (tail = [] ∨ tail = [226; 128; 166]) ∧ zlen body <= 1200) ∧
  (Forall printable text ∧ zlen text <= 120 → display_safe text = text).
Proof.
  unfold display_safe, chars. split.
  - apply (display_chars_shape _ 0); [|lia]. destruct (decode text) eqn:Hd; [|constructor].
    by eapply decode_range.
  - intros [Hp Hl]. rewrite decode_ascii by (eapply Forall_impl; [exact Hp|]; unfold printable, is_ascii; cbn; lia).
    apply display_chars_identity; [done|lia|done].
Qed.

Lemma display_safe_safe_witness :
  display_safe (lit "GET /index.html") = lit "GET /index.html" ∧
  display_safe ([27; 91] ++ lit "2J") = lit "\u{1b}[2J".
Proof.
  split; [|by vm_compute]. apply display_safe_safe. split; [|by vm_compute]. ascii.
Defined.

(** The constant is documented as the longest description kept, but it counts
    the characters of the request: escaped, they take up to ten times that. *)
Theorem display_safe_exceeds_label : zlen (display_safe (zreplicate 120 7)) = 600.
Proof. by vm_compute. Qed.
End Txn.
