(* ===== verification/Keylog.v ===== *)
(** * The TLS key log watcher

    [capture-agent/src/keylog.rs]: lines of an NSS key log, the incremental
    reading of the files of eligible processes under a per-poll budget, and the
    bounded store of secrets.  The hexadecimal decoder is the [hex] crate's and
    a parameter; the file system is a parameter of a poll; an [Instant] is a
    number of milliseconds; erasing memory has no effect on values. *)

From S2P Require Import Prelude Text.

Definition MAX_KEYLOG_SESSIONS_PER_PID : Z := 128.
Definition MAX_KEYLOG_SECRET_BYTES : Z := 1024 * 1024.
Definition MAX_KEYLOG_READ_BYTES_PER_POLL : Z := 64 * 1024.
Definition MAX_KEYLOG_LINE_BYTES : Z := 1024.
Definition UNUSED_SECRET_TTL : Z := 10 * 60 * 1000.

Definition secret_label_for_direction (client_is_outbound packet_is_outbound handshake : bool) : bytes :=
  let client_to_server := eqb client_is_outbound packet_is_outbound in
  match handshake, client_to_server with
  | true, true => lit "CLIENT_HANDSHAKE_TRAFFIC_SECRET"
  | true, false => lit "SERVER_HANDSHAKE_TRAFFIC_SECRET"
  | false, true => lit "CLIENT_TRAFFIC_SECRET_0"
  | false, false => lit "SERVER_TRAFFIC_SECRET_0"
  end.

(** [hex::decode]. *)
Class HexDecoder := hex_decode : bytes → option bytes.

Record SessionSecret := mkSessionSecret {
  client_random : bytes;
  label : bytes;
  secret : bytes
}.

Section lines.
Context `{HexDecoder}.

Definition parse_keylog_line (line : bytes) : option SessionSecret :=
  let line := trim line in
  if bool_decide (line = []) || starts_with (lit "#") line then None
  else
    match split_whitespace line with
    | l :: r :: s :: rest =>
        match hex_decode r with
        | None => None
        | Some client_random =>
            match hex_decode s with
            | None => None
            | Some secret =>
                match rest with
                | [] => Some (mkSessionSecret client_random l secret)
                | _ :: _ => None
                end
            end
        end
    | _ => None
    end.
End lines.

Record WatchedFile := mkWatchedFile {
  path : bytes;
  offset : Z;
  pending_line : bytes;
  discarding_oversized_line : bool
}.
#[export] Instance eta_WatchedFile : RecordEta WatchedFile := λ r,
  mkWatchedFile (path r) (offset r) (pending_line r) (discarding_oversized_line r).

Record StoredSecret := mkStoredSecret {
  value : SessionSecret;
  inserted_at : Z;
  order : Z;
  associated_with_flow : bool
}.
#[export] Instance eta_StoredSecret : RecordEta StoredSecret := λ r,
  mkStoredSecret (value r) (inserted_at r) (order r) (associated_with_flow r).

(** What a path gives when it is opened, sought in and read. *)
Inductive FileState :=
| OpenFails
| SeekFails
| ReadFails
| Contents (data : bytes).

Definition secret_key : Type := Z * bytes * bytes.

Module KeyLogWatcher.
Record t := mk {
  eligible : gmap Z WatchedFile;
  secrets : gmap secret_key StoredSecret;
  next_order : Z;
  last_polled_pid : Z
}.
#[global] Instance eta : RecordEta t := λ r,
  mk (eligible r) (secrets r) (next_order r) (last_polled_pid r).

Definition new : t := mk ∅ ∅ 0 0.

Definition register_eligible_pid (st : t) (pid : Z) (keylog_path : bytes) : t :=
  st <| eligible ::= <[pid := mkWatchedFile keylog_path 0 [] false]> |>.

Definition unregister_pid (st : t) (pid : Z) : t :=
  st <| eligible ::= delete pid |>
     <| secrets ::= filter (λ ks : secret_key * StoredSecret, ks.1.1.1 ≠ pid) |>.

Definition is_eligible (st : t) (pid : Z) : bool := bool_decide (is_Some (eligible st !! pid)).

Definition secret_for (st : t) (pid : Z) (random lbl : bytes) : option SessionSecret :=
  value <$> secrets st !! (pid, random, lbl).

Definition mark_flow_seen (st : t) (pid : Z) (random : bytes) : t :=
  st <| secrets ::= map_imap (λ (k : secret_key) s,
          Some (if bool_decide (k.1.1 = pid) && bool_decide (k.1.2 = random)
                then s <| associated_with_flow := true |> else s)) |>.

Definition take_secret (st : t) (pid : Z) (random lbl : bytes) : t * option SessionSecret :=
  (st <| secrets ::= delete (pid, random, lbl) |>, value <$> secrets st !! (pid, random, lbl)).

Definition remove_flow_secrets (st : t) (pid : Z) (random : bytes) : t :=
  st <| secrets ::= filter (λ ks : secret_key * StoredSecret, ks.1.1.1 ≠ pid ∨ ks.1.1.2 ≠ random) |>.

Definition secret_bytes (m : gmap secret_key StoredSecret) : Z := map_total (λ s, zlen (secret (value s))) m.

(** *** Reading *)

Section poll.
Context `{HexDecoder} `{IterOrder}.

(** One byte of a file: the watched state, and a secret if it ended a line. *)
Definition read_byte (w : WatchedFile) (byte : Z) : WatchedFile * option SessionSecret :=
  if discarding_oversized_line w then
    (if byte =? 10 then w <| discarding_oversized_line := false |> else w, None)
  else if byte =? 10 then
    (w <| pending_line := [] |>, from_utf8 (pending_line w) ≫= parse_keylog_line)
  else if zlen (pending_line w) <? MAX_KEYLOG_LINE_BYTES then
    (w <| pending_line ::= λ l, l ++ [byte] |>, None)
  else (w <| pending_line := [] |> <| discarding_oversized_line := true |>, None).

Fixpoint read_bytes (w : WatchedFile) (buf : bytes) : WatchedFile * list SessionSecret :=
  match buf with
  | [] => (w, [])
  | b :: buf' =>
      let '(w, found) := read_byte w b in
      let '(w, more) := read_bytes w buf' in
      (w, option_list found ++ more)
  end.

(** The processes in the order a poll visits them. *)
Definition poll_order (st : t) : list Z :=
  let pids := sort_by_key (λ p, p) (iter (eligible st)).*1 in
  let start := zlen (filter (λ p, p <= last_polled_pid st) pids) in
  let pid_count := zlen pids in
  if 0 <? pid_count
  then zdrop (start mod pid_count) pids ++ ztake (start mod pid_count) pids else pids.

(** The loop over the processes: the files, the last process polled, and the
    secrets found. *)
Fixpoint poll_pids (fs : bytes → FileState) (pids : list Z) (remaining : Z)
    (files : gmap Z WatchedFile) (last : Z) : gmap Z WatchedFile * Z * list (Z * SessionSecret) :=
  match pids with
  | [] => (files, last, [])
  | pid :: pids' =>
      if remaining =? 0 then (files, last, [])
      else
        match files !! pid with
        | None => poll_pids fs pids' remaining files last
        | Some watched =>
            match fs (path watched) with
            | OpenFails | SeekFails => poll_pids fs pids' remaining files pid
            | ReadFails => poll_pids fs pids' remaining files last
            | Contents data =>
                let buf := ztake remaining (zdrop (offset watched) data) in
                let '(watched, found) := read_bytes (watched <| offset ::= Z.add (zlen buf) |>) buf in
                let '(files, last, more) :=
                  poll_pids fs pids' (sat_sub remaining (zlen buf)) (<[pid := watched]> files) pid in
                (files, last, (pair pid <$> found) ++ more)
            end
        end
  end.

Definition insert_secret (now : Z) (st : t) (ps : Z * SessionSecret) : t :=
  let st := st <| next_order ::= λ n, (n + 1) mod 2 ^ 64 |> in
  st <| secrets ::= <[(ps.1, client_random ps.2, label ps.2) := mkStoredSecret ps.2 now (next_order st) false]> |>.

(** *** Bounds *)

(** The sessions of a process, with the order of their oldest secret. *)
Definition sessions_of (pid : Z) (m : gmap secret_key StoredSecret) : gmap bytes Z :=
  foldl (λ (acc : gmap bytes Z) (ks : secret_key * StoredSecret),
    if bool_decide (ks.1.1.1 = pid) then
      <[ks.1.1.2 := match acc !! ks.1.1.2 with
                    | Some o => Z.min o (order ks.2)
                    | None => order ks.2
                    end]> acc
    else acc) ∅ (iter m).

(** The eviction of one process's oldest sessions; every turn removes a
    session. *)
Fixpoint cap_sessions (fuel : nat) (pid : Z) (m : gmap secret_key StoredSecret)
    : gmap secret_key StoredSecret :=
  match fuel with
  | O => m
  | S fuel' =>
      let sessions := sessions_of pid m in
      if Z.of_nat (size sessions) <=? MAX_KEYLOG_SESSIONS_PER_PID then m
      else
        match min_by_key (λ ro : bytes * Z, ro.2) (iter sessions) with
        | Some (oldest_random, _) =>
            cap_sessions fuel' pid
              (filter (λ ks : secret_key * StoredSecret, ks.1.1.1 ≠ pid ∨ ks.1.1.2 ≠ oldest_random) m)
        | None => m
        end
  end.

(** The eviction of the oldest secrets; every turn removes one. *)
Fixpoint cap_bytes (fuel : nat) (m : gmap secret_key StoredSecret) : gmap secret_key StoredSecret :=
  match fuel with
  | O => m
  | S fuel' =>
      if MAX_KEYLOG_SECRET_BYTES <? secret_bytes m then
        match min_by_key (λ ks : secret_key * StoredSecret, order ks.2) (iter m) with
        | Some (key, _) => cap_bytes fuel' (delete key m)
        | None => m
        end
      else m
  end.

Definition unexpired (now : Z) (s : StoredSecret) : bool :=
  associated_with_flow s || (sat_sub now (inserted_at s) <=? UNUSED_SECRET_TTL).

Definition enforce_caps (st : t) (now : Z) : t :=
  let m := filter (λ ks : secret_key * StoredSecret, unexpired now ks.2 = true) (secrets st) in
  let m := foldl (λ m pid, cap_sessions (S (size m)) pid m) m (iter (eligible st)).*1 in
  st <| secrets := cap_bytes (S (size m)) m |>.

Definition poll_at (st : t) (fs : bytes → FileState) (now : Z) : t :=
  let '(files, last, found) :=
    poll_pids fs (poll_order st) MAX_KEYLOG_READ_BYTES_PER_POLL (eligible st) (last_polled_pid st) in
  let st := st <| eligible := files |> <| last_polled_pid := last |> in
  enforce_caps (foldl (insert_secret now) st found) now.
End poll.
End KeyLogWatcher.

(** ** Incremental reading *)

Module Kl.
Export KeyLogWatcher.

Section reading.
Context `{HexDecoder}.

(** The complete lines of a text, and what follows the last newline. *)
Fixpoint split_lines (cur l : bytes) : list bytes * bytes :=
  match l with
  | [] => ([], cur)
  | b :: l' =>
      if b =? 10 then let '(ls, rest) := split_lines [] l' in (cur :: ls, rest)
      else split_lines (cur ++ [b]) l'
  end.

(** What a key log says: its complete lines of at most 1024 bytes, parsed. *)
Definition line_secret (line : bytes) : option SessionSecret :=
  if zlen line <=? MAX_KEYLOG_LINE_BYTES then from_utf8 line ≫= parse_keylog_line else None.
Definition log_secrets (l : bytes) : list SessionSecret := omap line_secret (split_lines [] l).1.

(** A watched file in the middle of the line [cur]. *)
Definition in_line (w : WatchedFile) (cur : bytes) : Prop :=
  if zlen cur <=? MAX_KEYLOG_LINE_BYTES
  then pending_line w = cur ∧ discarding_oversized_line w = false
  else pending_line w = [] ∧ discarding_oversized_line w = true.

Lemma split_lines_app cur l1 l2 :
  split_lines cur (l1 ++ l2)
  = let '(ls1, cur1) := split_lines cur l1 in
    let '(ls2, cur2) := split_lines cur1 l2 in (ls1 ++ ls2, cur2).
Proof.
  revert cur. induction l1 as [|b l1 IH]; intros cur; cbn [app split_lines].
  { by destruct (split_lines cur l2). }
  destruct (b =? 10); [|apply IH]. rewrite IH.
  destruct (split_lines [] l1) as [ls1 cur1]. by destruct (split_lines cur1 l2).
Qed.

Lemma read_byte_in_line w cur b w' found :
  in_line w cur → read_byte w b = (w', found) →
  path w' = path w ∧ offset w' = offset w ∧
  if b =? 10 then in_line w' [] ∧ found = line_secret cur else in_line w' (cur ++ [b]) ∧ found = None.
Proof.
  unfold in_line, read_byte, line_secret. rewrite length_app. cbn [length].
  intros Hw Hr. unfold MAX_KEYLOG_LINE_BYTES in *.
  destruct (Z.leb_spec (zlen cur) 1024) as [Hl|Hl]; destruct Hw as [Hp Hd]; rewrite Hd, ?Hp in Hr.
  - destruct (b =? 10); [by simplify_eq|].
    destruct (Z.ltb_spec (zlen cur) 1024); simplify_eq; cbn; split_and!; try done.
    + by rewrite (proj2 (Z.leb_le _ _)) by lia.
    + by rewrite (proj2 (Z.leb_gt _ _)) by lia.
  - destruct (b =? 10); simplify_eq; cbn; split_and!; try done.
    by rewrite (proj2 (Z.leb_gt _ _)) by lia.
Qed.

Lemma read_bytes_in_line w cur buf w' found :
  in_line w cur → read_bytes w buf = (w', found) →
  path w' = path w ∧ offset w' = offset w ∧
  in_line w' (split_lines cur buf).2 ∧ found = omap line_secret (split_lines cur buf).1.
Proof.
  revert w cur w' found. induction buf as [|b buf IH]; intros w cur w' found Hw Hr; cbn [read_bytes] in Hr.
  { simplify_eq. done. }
  destruct (read_byte w b) as [w1 f1] eqn:Hb. destruct (read_bytes w1 buf) as [w2 f2] eqn:Hr2. simplify_eq.
  apply (read_byte_in_line _ cur) in Hb as (Hp1 & Ho1 & Hc); [|done]. cbn [split_lines].
  destruct (b =? 10); destruct Hc as [Hw1 ->].
  - apply (IH w1 []) in Hr2 as (Hp2 & Ho2 & Hl & ->); [|done].
    destruct (split_lines [] buf) as [ls rest]. cbn in *. split_and!; [congruence|congruence|done|].
    by destruct (line_secret cur).
  - apply (IH w1 (cur ++ [b])) in Hr2 as (Hp2 & Ho2 & Hl & ->); [|done].
    split_and!; [congruence|congruence|done|done].
Qed.

(** A file read up to its offset. *)
Definition read_up_to (w : WatchedFile) (data : bytes) : Prop :=
  0 <= offset w <= zlen data ∧ in_line w (split_lines [] (ztake (offset w) data)).2.

(** Reading on, in a file that was appended to. *)
Lemma read_on w data data' limit w' found :
  read_up_to w data → data `prefix_of` data' → 0 <= limit →
  let buf := ztake limit (zdrop (offset w) data') in
  read_bytes (w <| offset ::= Z.add (zlen buf) |>) buf = (w', found) →
  read_up_to w' data' ∧ path w' = path w ∧ offset w' = offset w + zlen buf ∧
  log_secrets (ztake (offset w') data') = log_secrets (ztake (offset w) data) ++ found.
Proof.
  intros [Ho Hl] [ext ->] Hlim buf Hr.
  assert (Hbl : zlen buf <= zlen (data ++ ext) - offset w).
  { subst buf. rewrite length_ztake, length_zdrop, length_app. lia. }
  assert (Hold : ztake (offset w) (data ++ ext) = ztake (offset w) data) by (unfold ztake; rewrite take_app_le; [done|lia]).
  assert (Htake : ztake (zlen buf + offset w) (data ++ ext) = ztake (offset w) data ++ buf).
  { rewrite Z.add_comm, ztake_add, Hold by lia. f_equal.
    rewrite <- (ztake_zdrop limit (zdrop (offset w) (data ++ ext))). apply ztake_app. }
  clearbody buf. apply (read_bytes_in_line _ (split_lines [] (ztake (offset w) data)).2) in Hr as (Hp & Hoff & Hin & ->);
    [|exact Hl]. cbn in Hp, Hoff. unfold read_up_to, log_secrets. rewrite Hoff, Htake, split_lines_app.
  destruct (split_lines [] (ztake (offset w) data)) as [ls cur]. cbn [snd fst] in *.
  destruct (split_lines cur buf) as [ls' cur']. cbn [snd fst] in *.
  split_and!; [lia|lia|done|done|lia|]. by rewrite omap_app.
Qed.
End reading.

Section polling.
Context `{HexDecoder} `{IterOrder}.
Implicit Types (fs : bytes → FileState) (files : gmap Z WatchedFile).

Definition found_for (pid : Z) (found : list (Z * SessionSecret)) : list SessionSecret :=
  (filter (λ ps : Z * SessionSecret, ps.1 = pid) found).*2.

(** What a file is known to hold after a poll. *)
Definition content_after (fs : bytes → FileState) (w : WatchedFile) (data : bytes) : bytes :=
  match fs (path w) with Contents d => d | _ => data end.

Definition appended (fs : bytes → FileState) (p data : bytes) : Prop :=
  match fs p with Contents d => data `prefix_of` d | _ => True end.

Lemma found_for_app pid l1 l2 : found_for pid (l1 ++ l2) = found_for pid l1 ++ found_for pid l2.
Proof. unfold found_for. by rewrite filter_app, fmap_app. Qed.

Lemma found_for_pair pid pid' l : found_for pid (pair pid' <$> l) = if decide (pid' = pid) then l else [].
Proof.
  unfold found_for. induction l as [|x l IH]; [by case_decide|]. rewrite fmap_cons, filter_cons. cbn [fst].
  case_decide; cbn [fmap list_fmap]; by rewrite IH.
Qed.

Lemma poll_pids_other fs pids remaining files last pid :
  pid ∉ pids →
  let r := poll_pids fs pids remaining files last in
  r.1.1 !! pid = files !! pid ∧ found_for pid r.2 = [].
Proof.
  revert remaining files last. induction pids as [|q pids IH]; intros remaining files last Hni; [done|].
  apply not_elem_of_cons in Hni as [Hne Hni]. cbn [poll_pids]. destruct (remaining =? 0); [done|].
  destruct (files !! q) as [w|]; [|by apply IH]. destruct (fs (path w)) as [| | |data]; [by apply IH..|].
  destruct (read_bytes _ _) as [w' found]. set (rem := sat_sub _ _).
  specialize (IH rem (<[q := w']> files) q Hni). destruct (poll_pids _ _ _ _ _) as [[files' last'] more].
  cbn [fst snd] in *. rewrite found_for_app, found_for_pair, decide_False by done. destruct IH as [-> ->].
  by rewrite lookup_insert_ne.
Qed.

Lemma read_up_to_mono w data d :
  read_up_to w data → data `prefix_of` d →
  read_up_to w d ∧ ztake (offset w) d = ztake (offset w) data.
Proof.
  intros [Ho Hl] [ext ->].
  assert (Hold : ztake (offset w) (data ++ ext) = ztake (offset w) data)
    by (unfold ztake; rewrite take_app_le; [done|lia]).
  split; [|done]. split; [rewrite length_app; lia|]. by rewrite Hold.
Qed.

Lemma poll_pids_reads fs pids remaining files last pid w data :
  NoDup pids → 0 <= remaining → files !! pid = Some w → read_up_to w data → appended fs (path w) data →
  let r := poll_pids fs pids remaining files last in
  ∃ w', r.1.1 !! pid = Some w' ∧ path w' = path w ∧ read_up_to w' (content_after fs w data) ∧
    log_secrets (ztake (offset w') (content_after fs w data))
    = log_secrets (ztake (offset w) data) ++ found_for pid r.2.
Proof.
  intros Hnd. revert remaining files last. induction Hnd as [|q pids Hq _ IH]; intros remaining files last Hrem Hw Hr Ha.
  { exists w. unfold content_after, appended in *. cbn. rewrite app_nil_r.
    destruct (fs (path w)); try done. by destruct (read_up_to_mono w data data0) as [? ->]. }
  assert (Hstop : ∃ w', files !! pid = Some w' ∧ path w' = path w ∧ read_up_to w' (content_after fs w data) ∧
    log_secrets (ztake (offset w') (content_after fs w data)) = log_secrets (ztake (offset w) data) ++ []).
  { exists w. unfold content_after, appended in *. rewrite app_nil_r.
    destruct (fs (path w)); try done. by destruct (read_up_to_mono w data data0) as [? ->]. }
  cbn [poll_pids]. destruct (remaining =? 0); [done|].
  destruct (decide (q = pid)) as [->|Hne].
  - rewrite Hw. unfold content_after, appended in *. destruct (fs (path w)) as [| | |d] eqn:Hfs.
    1-3: match goal with |- context [poll_pids ?fs ?p ?r ?f ?l] =>
           destruct (poll_pids_other fs p r f l pid Hq) as [Hl Hf] end; cbv zeta; by rewrite Hl, Hf.
    destruct (read_bytes _ _) as [w' found] eqn:Hb. set (rem := sat_sub _ _).
    apply (read_on w data) in Hb as (Hr' & Hp & Ho & Hs); [|done..].
    pose proof (poll_pids_other fs pids rem (<[pid := w']> files) pid pid Hq) as Hoth.
    destruct (poll_pids _ _ _ _ _) as [[files' last'] more]. cbn [fst snd] in *. destruct Hoth as [Hl Hm].
    exists w'. rewrite Hl, lookup_insert_eq, found_for_app, Hm, found_for_pair, decide_True, app_nil_r by done. done.
  - destruct (files !! q) as [wq|]; [|by apply IH]. destruct (fs (path wq)) as [| | |d]; [by apply IH..|].
    destruct (read_bytes _ _) as [w' found]. set (rem := sat_sub _ _).
    specialize (IH rem (<[q := w']> files) q).
    destruct (poll_pids _ _ _ _ _) as [[files' last'] more]. cbn [fst snd] in *.
    rewrite found_for_app, found_for_pair, decide_False by done. apply IH; [subst rem; zlia| |done..].
    by rewrite lookup_insert_ne.
Qed.

Lemma rotation_perm {A} n (l : list A) : zdrop n l ++ ztake n l ≡ₚ l.
Proof. rewrite (Permutation_app_comm (zdrop n l)), ztake_zdrop. done. Qed.

Lemma poll_order_perm st : poll_order st ≡ₚ (iter (eligible st)).*1.
Proof.
  etrans; [|apply (sort_by_key_perm (λ p : Z, p) (iter (eligible st)).*1)].
  unfold poll_order. case_zb; [apply rotation_perm|done].
Qed.

Lemma poll_order_NoDup st : NoDup (poll_order st).
Proof. rewrite poll_order_perm. apply NoDup_iter_fst. Qed.

Lemma elem_of_poll_order st pid : pid ∈ poll_order st ↔ is_Some (eligible st !! pid).
Proof.
  rewrite poll_order_perm, list_elem_of_fmap. split.
  - intros ([q w] & -> & Hq%elem_of_iter). eauto.
  - intros [w Hw]. exists (pid, w). split; [done|]. by apply elem_of_iter.
Qed.

Lemma insert_secrets_eligible now found st :
  eligible (foldl (insert_secret now) st found) = eligible st ∧
  last_polled_pid (foldl (insert_secret now) st found) = last_polled_pid st.
Proof. revert st. induction found as [|ps found IH]; intros st; [done|]. cbn [foldl].
  by destruct (IH (insert_secret now st ps)) as [-> ->].
Qed.

(** The secrets one poll finds. *)
Definition poll_found (st : t) (fs : bytes → FileState) : list (Z * SessionSecret) :=
  (poll_pids fs (poll_order st) MAX_KEYLOG_READ_BYTES_PER_POLL (eligible st) (last_polled_pid st)).2.

Lemma poll_at_eligible st fs now :
  eligible (poll_at st fs now)
  = (poll_pids fs (poll_order st) MAX_KEYLOG_READ_BYTES_PER_POLL (eligible st) (last_polled_pid st)).1.1 ∧
  last_polled_pid (poll_at st fs now)
  = (poll_pids fs (poll_order st) MAX_KEYLOG_READ_BYTES_PER_POLL (eligible st) (last_polled_pid st)).1.2.
Proof.
  unfold poll_at. destruct (poll_pids _ _ _ _ _) as [[files last] found].
  unfold enforce_caps. cbn. apply insert_secrets_eligible.
Qed.

(** Polls in turn, with everything they find. *)
Fixpoint run_polls (st : t) (polls : list ((bytes → FileState) * Z)) : t * list (Z * SessionSecret) :=
  match polls with
  | [] => (st, [])
  | (fs, now) :: polls' =>
      let r := run_polls (poll_at st fs now) polls' in (r.1, poll_found st fs ++ r.2)
  end.

(** The file at [p] is only appended to from poll to poll (it may be missing
    or unreadable at any of them); [last_content] is what it last held. *)
Fixpoint append_only (p data : bytes) (polls : list ((bytes → FileState) * Z)) : Prop :=
  match polls with
  | [] => True
  | (fs, _) :: polls' =>
      appended fs p data ∧ append_only p (match fs p with Contents d => d | _ => data end) polls'
  end.
Fixpoint last_content (p data : bytes) (polls : list ((bytes → FileState) * Z)) : bytes :=
  match polls with
  | [] => data
  | (fs, _) :: polls' => last_content p (match fs p with Contents d => d | _ => data end) polls'
  end.

Lemma run_polls_reads st polls pid w data :
  eligible st !! pid = Some w → read_up_to w data → append_only (path w) data polls →
  let r := run_polls st polls in
  ∃ w', eligible r.1 !! pid = Some w' ∧ path w' = path w ∧ read_up_to w' (last_content (path w) data polls) ∧
    log_secrets (ztake (offset w') (last_content (path w) data polls))
    = log_secrets (ztake (offset w) data) ++ found_for pid r.2.
Proof.
  revert st w data. induction polls as [|[fs now] polls IH]; intros st w data Hw Hr Ha.
  { exists w. cbn. rewrite app_nil_r. done. }
  destruct Ha as [Ha Hrest]. cbn [run_polls fst snd last_content].
  destruct (poll_at_eligible st fs now) as [He _].
  destruct (poll_pids_reads fs (poll_order st) MAX_KEYLOG_READ_BYTES_PER_POLL (eligible st)
    (last_polled_pid st) pid w data) as (w1 & Hw1 & Hp1 & Hr1 & Hs1); [apply poll_order_NoDup|done..|].
  unfold content_after in *. rewrite <- He in Hw1.
  destruct (IH _ w1 _ Hw1 Hr1) as (w2 & Hw2 & Hp2 & Hr2 & Hs2); [by rewrite Hp1|].
  rewrite Hp1 in *. exists w2. split_and!; [done|congruence|done|].
  rewrite Hs2, Hs1, found_for_app, app_assoc. done.
Qed.

(** C13: Incremental reading of a key log is equivalent to parsing it whole.
    For a process registered with a file that is only appended to, over any
    sequence of polls (the file missing or unreadable at some, its bytes split
    anywhere by the 64 KiB budget shared with other processes), the secrets
    found for the process are exactly those of the complete lines of at most
    1024 bytes in the part of the file read so far: none lost, none twice, none
    joined across a chunk boundary. *)
Theorem keylog_incremental st polls pid p :
  append_only p [] polls →
  let r := run_polls (register_eligible_pid st pid p) polls in
  ∃ w, eligible r.1 !! pid = Some w ∧ 0 <= offset w <= zlen (last_content p [] polls) ∧
       found_for pid r.2 = log_secrets (ztake (offset w) (last_content p [] polls)).
Proof.
  intros Ha. destruct (run_polls_reads (register_eligible_pid st pid p) polls pid (mkWatchedFile p 0 [] false) [])
    as (w & Hw & _ & [Ho _] & Hs); [by apply lookup_insert_eq|done|done|]. by exists w.
Qed.

(** *** Fairness *)

(** The processes a poll attempts before its budget runs out. *)
Fixpoint visits (fs : bytes → FileState) (pids : list Z) (remaining : Z) (files : gmap Z WatchedFile) : list Z :=
  match pids with
  | [] => []
  | pid :: pids' =>
      if remaining =? 0 then []
      else
        pid ::
        match files !! pid with
        | Some w =>
            match fs (path w) with
            | Contents data =>
                let buf := ztake remaining (zdrop (offset w) data) in
                visits fs pids' (sat_sub remaining (zlen buf))
                  (<[pid := (read_bytes (w <| offset ::= Z.add (zlen buf) |>) buf).1]> files)
            | _ => visits fs pids' remaining files
            end
        | None => visits fs pids' remaining files
        end
  end.

(** A poll attempts all the processes, or a prefix that ends with the one it
    remembers. *)
Lemma visits_prefix fs pids remaining files last :
  let v := visits fs pids remaining files in
  v = pids ∨
  ∃ k, v = take k pids ∧ (k < length pids)%nat ∧
    ((k = 0%nat ∧ remaining = 0) ∨
     pids !! Nat.pred k = Some (poll_pids fs pids remaining files last).1.2 ∧ (0 < k)%nat).
Proof.
  revert remaining files last. induction pids as [|pid pids IH]; intros remaining files last; [by left|].
  cbn [visits poll_pids]. destruct (Z.eqb_spec remaining 0) as [->|Hrem].
  { right. exists 0%nat. cbn [length]. split_and!; [done|lia|by left]. }
  assert (Hskip : ∀ last', let v := pid :: visits fs pids remaining files in
    v = pid :: pids ∨ ∃ k, v = take k (pid :: pids) ∧ (k < length (pid :: pids))%nat ∧
      ((k = 0%nat ∧ remaining = 0) ∨
       (pid :: pids) !! Nat.pred k = Some (poll_pids fs pids remaining files last').1.2 ∧ (0 < k)%nat)).
  { intros last'. destruct (IH remaining files last') as [->|(k & -> & Hk & Hl)]; [by left|]. right.
    destruct Hl as [[_ ?]|[Hl Hk']]; [done|]. exists (S k). cbn [length take Nat.pred].
    split_and!; [done|lia|]. right. split; [|lia]. destruct k; [lia|]. done. }
  destruct (files !! pid) as [w|]; [|by apply Hskip].
  destruct (fs (path w)) as [| | |data]; [by apply Hskip..|].
  set (buf := ztake remaining _). destruct (read_bytes _ _) as [w' found]. cbn [fst].
  destruct (IH (sat_sub remaining (zlen buf)) (<[pid := w']> files) pid) as [->|(k & -> & Hk & Hl)]; [by left|].
  right. exists (S k). cbn [length take Nat.pred]. split_and!; [done|lia|]. right. split; [|lia].
  destruct (poll_pids _ _ _ _ _) as [[files' last'] more] eqn:Hp. cbn [fst snd] in *.
  destruct Hl as [[-> Hz]|[Hl Hk']].
  - destruct pids as [|q pids]; [cbn in Hk; lia|]. cbn [poll_pids] in Hp. rewrite Hz, Z.eqb_refl in Hp. by simplify_eq.
  - destruct k; [lia|]. done.
Qed.

Lemma poll_pids_dom fs pids remaining files last q :
  is_Some ((poll_pids fs pids remaining files last).1.1 !! q) ↔ is_Some (files !! q).
Proof.
  revert remaining files last. induction pids as [|pid pids IH]; intros remaining files last; [done|].
  cbn [poll_pids]. destruct (remaining =? 0); [done|]. destruct (files !! pid) as [w|] eqn:Hw; [|apply IH].
  destruct (fs (path w)) as [| | |data]; [apply IH..|]. destruct (read_bytes _ _) as [w' found].
  specialize (IH (sat_sub remaining (zlen (ztake remaining (zdrop (offset w) data)))) (<[pid := w']> files) pid).
  destruct (poll_pids _ _ _ _ _) as [[files' last'] more]. cbn [fst] in *. rewrite IH.
  destruct (decide (q = pid)) as [->|]; [|by rewrite lookup_insert_ne]. rewrite lookup_insert_eq, Hw.
  split; eauto.
Qed.

Definition sorted_pids (st : t) : list Z := sort_by_key (λ p, p) (iter (eligible st)).*1.

Lemma sorted_pids_sorted st : StronglySorted Z.le (sorted_pids st).
Proof. apply (sort_by_key_sorted (λ p : Z, p)). Qed.

Lemma elem_of_sorted_pids st pid : pid ∈ sorted_pids st ↔ is_Some (eligible st !! pid).
Proof.
  unfold sorted_pids. rewrite (sort_by_key_perm (λ p : Z, p)), <- poll_order_perm. apply elem_of_poll_order.
Qed.

Lemma sorted_pids_NoDup st : NoDup (sorted_pids st).
Proof. unfold sorted_pids. rewrite (sort_by_key_perm (λ p : Z, p)). apply NoDup_iter_fst. Qed.

Lemma sorted_pids_dom st st' :
  (∀ q, is_Some (eligible st' !! q) ↔ is_Some (eligible st !! q)) → sorted_pids st' = sorted_pids st.
Proof.
  intros Hdom. apply (StronglySorted_unique Z.le); [apply sorted_pids_sorted..|].
  apply NoDup_Permutation; [apply sorted_pids_NoDup..|]. intros q. by rewrite !elem_of_sorted_pids.
Qed.

(** How many processes come no later than the one last polled. *)
Definition rank_of (v : Z) (l : list Z) : nat := length (filter (λ p, p <= v) l).

Lemma rank_of_lookup l j v :
  StronglySorted Z.le l → NoDup l → l !! j = Some v → rank_of v l = S j.
Proof.
  intros Hs Hnd Hj. assert (Hlt := lookup_lt_Some _ _ _ Hj). unfold rank_of.
  rewrite <- (take_drop_middle l j v Hj) in Hs, Hnd |- *. rewrite filter_app, filter_cons_True by lia.
  apply StronglySorted_app in Hs as (H12 & _ & H2). apply StronglySorted_inv in H2 as [_ H2].
  apply NoDup_app in Hnd as (_ & _ & [Hv _]%NoDup_cons).
  rewrite length_app, list_filter_all, length_take; cbn [length].
  - replace (filter _ (drop (S j) l)) with (@nil Z); [cbn [length]; lia|].
    symmetry. apply list_filter_none, Forall_forall. intros x Hx.
    rewrite Forall_forall in H2. specialize (H2 x Hx). assert (x ≠ v) by (by intros ->). lia.
  - apply Forall_forall. intros x Hx. apply H12; [done|left].
Qed.

Lemma poll_order_rotate st :
  poll_order st = rotate (rank_of (last_polled_pid st) (sorted_pids st)) (sorted_pids st).
Proof.
  unfold poll_order, rotate, rank_of. fold (sorted_pids st).
  destruct (Z.ltb_spec 0 (zlen (sorted_pids st))) as [Hl|Hl].
  - unfold zdrop, ztake. rewrite <- Nat2Z.inj_mod, Nat2Z.id. done.
  - destruct (sorted_pids st); [done|]. cbn in Hl. lia.
Qed.

Lemma read_bytes_offset w buf : offset (read_bytes w buf).1 = offset w.
Proof.
  revert w. induction buf as [|b buf IH]; intros w; [done|]. cbn [read_bytes].
  destruct (read_byte w b) as [w1 f1] eqn:Hb. specialize (IH w1). destruct (read_bytes w1 buf). cbn in *.
  rewrite IH. unfold read_byte in Hb. by repeat case_match; simplify_eq.
Qed.

Lemma visits_subset fs pids remaining files pid : pid ∈ visits fs pids remaining files → pid ∈ pids.
Proof.
  destruct (visits_prefix fs pids remaining files 0) as [->|(k & -> & _)]; [done|]. apply (subseteq_take k pids).
Qed.

(** What an attempt achieves: bytes left unread in a readable file are read. *)
Lemma visits_progress fs pids remaining files last pid w data :
  NoDup pids → 0 <= remaining → pid ∈ visits fs pids remaining files → files !! pid = Some w →
  fs (path w) = Contents data → 0 <= offset w < zlen data →
  ∃ w', (poll_pids fs pids remaining files last).1.1 !! pid = Some w' ∧ offset w < offset w'.
Proof.
  intros Hnd. revert remaining files last. induction Hnd as [|q pids Hq _ IH]; intros remaining files last Hrem Hv Hw Hfs Ho.
  { by apply not_elem_of_nil in Hv. }
  cbn [visits poll_pids] in *. destruct (Z.eqb_spec remaining 0) as [|Hne]; [by apply not_elem_of_nil in Hv|].
  destruct (decide (q = pid)) as [->|Hqp].
  - rewrite Hw, Hfs. set (buf := ztake remaining _).
    assert (0 < zlen buf) by (subst buf; rewrite length_ztake, length_zdrop; lia).
    pose proof (read_bytes_offset (w <| offset ::= Z.add (zlen buf) |>) buf) as Hoff.
    destruct (read_bytes _ _) as [w' found]. set (rem := sat_sub _ _).
    destruct (poll_pids_other fs pids rem (<[pid := w']> files) pid pid Hq) as [Hl _].
    destruct (poll_pids _ _ _ _ _) as [[files' last'] more]. cbn in *.
    exists w'. rewrite Hl, lookup_insert_eq. split; [done|]. lia.
  - apply elem_of_cons in Hv as [->|Hv]; [done|].
    destruct (files !! q) as [wq|]; [|by apply IH]. destruct (fs (path wq)) as [| | |d]; [by apply IH..|].
    set (rem := sat_sub _ _) in *. destruct (read_bytes _ _) as [w' found]. cbn [fst] in Hv.
    destruct (IH rem (<[q := w']> files) q) as (w2 & Hw2 & Hlt); [subst rem; zlia|done|by rewrite lookup_insert_ne|done..|].
    destruct (poll_pids _ _ _ _ _) as [[files' last'] more]. eauto.
Qed.

Lemma rotate_nat_add_shift n a b len k :
  (0 < len)%nat → Z.of_nat a mod Z.of_nat len = (Z.of_nat n + Z.of_nat k) mod Z.of_nat len →
  rotate_nat_add a b len = rotate_nat_add n (k + b) len.
Proof.
  intros Hlen Ha. unfold rotate_nat_add. f_equal.
  rewrite Z.add_mod, Ha, <- Z.add_mod by lia. f_equal. lia.
Qed.

(** A process a poll does not attempt moves forward in the next one. *)
Lemma unvisited_moves st fs now pid i :
  poll_order st !! i = Some pid → pid ∉ visits fs (poll_order st) MAX_KEYLOG_READ_BYTES_PER_POLL (eligible st) →
  ∃ k, (0 < k)%nat ∧ (k <= i)%nat ∧ poll_order (poll_at st fs now) !! (i - k)%nat = Some pid.
Proof.
  intros Hi Hv. set (st' := poll_at st fs now).
  destruct (poll_at_eligible st fs now) as [He Hlast].
  assert (Hsorted : sorted_pids st' = sorted_pids st).
  { apply sorted_pids_dom. intros q. subst st'. rewrite He. apply poll_pids_dom. }
  destruct (visits_prefix fs (poll_order st) MAX_KEYLOG_READ_BYTES_PER_POLL (eligible st) (last_polled_pid st))
    as [Heq|(k & Heq & Hk & Hl)]; rewrite Heq in Hv.
  { destruct Hv. by eapply list_elem_of_lookup_2. }
  destruct Hl as [[_ Hz]|[Hl Hk0]]; [done|]. rewrite <- Hlast in Hl. fold st' in Hl.
  assert (Hki : (k <= i)%nat).
  { destruct (decide (k <= i)%nat); [done|]. destruct Hv. eapply list_elem_of_lookup_2.
    rewrite lookup_take_lt; [exact Hi|lia]. }
  exists k. split_and!; [done..|].
  rewrite poll_order_rotate in Hi, Hl, Hk |- *. rewrite Hsorted. rewrite length_rotate in Hk.
  apply lookup_rotate_r_Some in Hi as [Hi Hilt]. apply lookup_rotate_r_Some in Hl as [Hl _].
  apply lookup_rotate_r_Some. split; [|lia].
  apply rank_of_lookup in Hl; [|apply sorted_pids_sorted|apply sorted_pids_NoDup]. rewrite Hl.
  rewrite (rotate_nat_add_shift (rank_of (last_polled_pid st) (sorted_pids st)) _ _ _ k); [|lia|].
  - by replace (k + (i - k))%nat with i by lia.
  - unfold rotate_nat_add. set (len := length (sorted_pids st)) in *.
    set (base := rank_of _ _). rewrite Nat2Z.inj_succ, Z2Nat.id by (apply Z.mod_pos; lia).
    rewrite <- Z.add_1_r, Z.add_mod_idemp_l by lia. f_equal. lia.
Qed.

Lemma eligible_poll_at st fs now q : is_Some (eligible (poll_at st fs now) !! q) ↔ is_Some (eligible st !! q).
Proof. destruct (poll_at_eligible st fs now) as [-> _]. apply poll_pids_dom. Qed.

Lemma visited_within st pid i polls :
  poll_order st !! i = Some pid → (i < length polls)%nat →
  ∃ k fs now, polls !! k = Some (fs, now) ∧
    let st_k := (run_polls st (take k polls)).1 in
    pid ∈ visits fs (poll_order st_k) MAX_KEYLOG_READ_BYTES_PER_POLL (eligible st_k).
Proof.
  revert st i. induction polls as [|[fs now] polls IH]; intros st i Hi Hl; [cbn in Hl; lia|].
  destruct (decide (pid ∈ visits fs (poll_order st) MAX_KEYLOG_READ_BYTES_PER_POLL (eligible st))) as [|Hv].
  { by exists 0%nat, fs, now. }
  destruct (unvisited_moves st fs now pid i Hi Hv) as (k & Hk & Hki & Hnext). cbn [length] in Hl.
  destruct (IH _ _ Hnext) as (m & fs' & now' & Hm & Hvis); [lia|].
  by exists (S m), fs', now'.
Qed.

(** C35: No process starves another of the read budget.  Among as many polls as
    there are eligible processes, every eligible process is served: at one of
    them, if its file can be read and holds bytes not yet read, its offset
    advances, however much the other files hold. *)
Theorem keylog_polls_are_fair st pid polls :
  is_eligible st pid = true → Z.of_nat (size (eligible st)) <= zlen polls →
  ∃ k fs now, polls !! k = Some (fs, now) ∧
    let st_k := (run_polls st (take k polls)).1 in
    ∀ w data, eligible st_k !! pid = Some w → fs (path w) = Contents data → 0 <= offset w < zlen data →
    ∃ w', eligible (poll_at st_k fs now) !! pid = Some w' ∧ offset w < offset w'.
Proof.
  intros Hel Hn. apply bool_decide_eq_true in Hel.
  assert (Hin : pid ∈ poll_order st) by (by apply elem_of_poll_order).
  apply list_elem_of_lookup_1 in Hin as [i Hi]. pose proof (lookup_lt_Some _ _ _ Hi) as Hlt.
  rewrite poll_order_perm, length_fmap, length_iter in Hlt.
  destruct (visited_within st pid i polls Hi) as (k & fs & now & Hk & Hv); [lia|].
  exists k, fs, now. split; [done|]. intros st_k w data Hw Hfs Ho.
  destruct (poll_at_eligible st_k fs now) as [-> _].
  eapply visits_progress; [apply poll_order_NoDup|done|exact Hv|done..].
Qed.
End polling.

(** A decoder for hexadecimal digits, to run the watcher on. *)
Definition hex_digit (b : Z) : option Z :=
  if in_range 48 57 b then Some (b - 48)
  else if in_range 97 102 b then Some (b - 87)
  else if in_range 65 70 b then Some (b - 55)
  else None.
Fixpoint simple_hex (l : bytes) : option bytes :=
  match l with
  | [] => Some []
  | [_] => None
  | h :: l :: rest =>
      match hex_digit h, hex_digit l, simple_hex rest with
      | Some h, Some l, Some r => Some (h * 16 + l :: r)
      | _, _, _ => None
      end
  end.

Definition sample_log : bytes := lit "CLIENT_RANDOM 0a0b ff" ++ [10] ++ lit "# note" ++ [10] ++ lit "CLIENT_R".
Definition sample_fs (p : bytes) : FileState :=
  if bool_decide (p = lit "/keys") then Contents sample_log else OpenFails.

Lemma keylog_incremental_witness :
  let r := run_polls (H := simple_hex) (register_eligible_pid new 7 (lit "/keys")) [(λ _, OpenFails, 0); (sample_fs, 1)] in
  ∃ w, eligible r.1 !! 7 = Some w ∧ 0 <= offset w <= zlen sample_log ∧
       found_for 7 r.2 = log_secrets (H := simple_hex) (ztake (offset w) sample_log).
Proof.
  refine (keylog_incremental (H := simple_hex) new [(λ _, OpenFails, 0); (sample_fs, 1)] 7 (lit "/keys") _).
  split; [done|]. split; [|done]. apply prefix_nil.
Defined.

Lemma keylog_polls_are_fair_witness :
  let st := register_eligible_pid new 7 (lit "/keys") in
  ∃ k fs now, [(sample_fs, 1)] !! k = Some (fs, now) ∧
    let st_k := (run_polls (H := simple_hex) st (take k [(sample_fs, 1)])).1 in
    ∀ w data, eligible st_k !! 7 = Some w → fs (path w) = Contents data → 0 <= offset w < zlen data →
    ∃ w', eligible (poll_at (H := simple_hex) st_k fs now) !! 7 = Some w' ∧ offset w < offset w'.
Proof. apply (keylog_polls_are_fair (H := simple_hex)); [by vm_compute|]. by vm_compute. Defined.

Example sample_poll_found :
  poll_found (H := simple_hex) (register_eligible_pid new 7 (lit "/keys")) sample_fs
  = [(7, mkSessionSecret [10; 11] (lit "CLIENT_RANDOM") [255])].
Proof. by vm_compute. Qed.

(** ** Bounds of the store *)

Section bounds.
Context `{IterOrder}.
Implicit Types m : gmap secret_key StoredSecret.

(** The sessions of a process are those it has a secret of. *)
Lemma sessions_of_elem pid m r :
  is_Some (sessions_of pid m !! r) ↔ ∃ l s, m !! (pid, r, l) = Some s.
Proof.
  assert (Hfold : ∀ (l : list (secret_key * StoredSecret)) (acc : gmap bytes Z),
    is_Some (foldl (λ (acc : gmap bytes Z) (ks : secret_key * StoredSecret),
      if bool_decide (ks.1.1.1 = pid) then
        <[ks.1.1.2 := match acc !! ks.1.1.2 with Some o => Z.min o (order ks.2) | None => order ks.2 end]> acc
      else acc) acc l !! r) ↔ is_Some (acc !! r) ∨ ∃ lb s, ((pid, r, lb), s) ∈ l).
  { induction l as [|[[[q r'] lb] s] l IH]; intros acc; cbn [foldl].
    { split; [by left|]. intros [|(? & ? & []%not_elem_of_nil)]; done. }
    rewrite IH. cbn [fst snd]. case_bool_decide as Hq.
    - subst q. destruct (decide (r' = r)) as [->|Hr].
      + rewrite lookup_insert_eq. split; [|by left; eauto]. intros _. right. exists lb, s. left.
      + rewrite lookup_insert_ne by done. split; intros [|(lb' & s' & Hin)]; try (by left); right; exists lb', s'.
        * by right.
        * apply elem_of_cons in Hin as [[=]|]; done.
    - split; intros [|(lb' & s' & Hin)]; try (by left); right; exists lb', s'.
      + by right.
      + apply elem_of_cons in Hin as [[=]|]; done. }
  unfold sessions_of. rewrite Hfold, lookup_empty. split.
  - intros [[]|(lb & s & Hin%elem_of_iter)]; [done|eauto].
  - intros (lb & s & Hs). right. exists lb, s. by apply elem_of_iter.
Qed.

Lemma sessions_of_mono pid m m' :
  m' ⊆ m → (size (sessions_of pid m') <= size (sessions_of pid m))%nat.
Proof.
  intros Hsub. rewrite <- !size_dom. apply subseteq_size. intros r. rewrite !elem_of_dom, !sessions_of_elem.
  intros (l & s & Hs). exists l, s. by eapply lookup_weaken.
Qed.

Lemma submap_size m m' : m' ⊆ m → (size m' <= size m)%nat.
Proof. intros Hsub. rewrite <- !size_dom. by apply subseteq_size, subseteq_dom. Qed.

Lemma filter_drops (P : secret_key * StoredSecret → Prop) `{!∀ x, Decision (P x)} m k s :
  m !! k = Some s → ¬ P (k, s) → (size (filter P m) < size m)%nat.
Proof.
  intros Hk Hp. rewrite (size_delete_Some m k s Hk). apply le_n_S, submap_size.
  apply map_subseteq_spec. intros j s' [Hj HP]%map_lookup_filter_Some.
  destruct (decide (j = k)) as [->|]; [congruence|]. by rewrite lookup_delete_ne.
Qed.

(** The session loop ends below its cap. *)
Lemma cap_sessions_spec fuel pid m :
  (size m < fuel)%nat →
  cap_sessions fuel pid m ⊆ m ∧
  Z.of_nat (size (sessions_of pid (cap_sessions fuel pid m))) <= MAX_KEYLOG_SESSIONS_PER_PID.
Proof.
  revert m. induction fuel as [|fuel IH]; intros m Hf; [lia|]. cbn [cap_sessions].
  destruct (Z.leb_spec (Z.of_nat (size (sessions_of pid m))) MAX_KEYLOG_SESSIONS_PER_PID) as [Hs|Hs]; [done|].
  destruct (min_by_key _ _) as [[r o]|] eqn:Hm.
  - apply min_by_key_spec in Hm as [Hin%elem_of_iter _].
    destruct (proj1 (sessions_of_elem pid m r)) as (l & s & Hk); [eauto|].
    set (m' := filter _ m). assert (Hdrop : (size m' < size m)%nat).
    { eapply filter_drops; [exact Hk|]. cbn. tauto. }
    destruct (IH m') as [Hsub Hcap]; [lia|]. split; [|done].
    etrans; [exact Hsub|]. apply map_filter_subseteq.
  - apply min_by_key_None in Hm. apply (f_equal length) in Hm. rewrite length_iter in Hm.
    unfold MAX_KEYLOG_SESSIONS_PER_PID in Hs. cbn in Hm. lia.
Qed.

(** The byte loop ends below its cap. *)
Lemma cap_bytes_spec fuel m :
  (size m < fuel)%nat → cap_bytes fuel m ⊆ m ∧ secret_bytes (cap_bytes fuel m) <= MAX_KEYLOG_SECRET_BYTES.
Proof.
  revert m. induction fuel as [|fuel IH]; intros m Hf; [lia|]. cbn [cap_bytes].
  destruct (Z.ltb_spec MAX_KEYLOG_SECRET_BYTES (secret_bytes m)) as [Hs|Hs]; [|done].
  destruct (min_by_key _ _) as [[k s]|] eqn:Hm.
  - apply min_by_key_spec in Hm as [Hin%elem_of_iter _]. rewrite (size_delete_Some m k s Hin) in Hf.
    destruct (IH (delete k m)) as [Hsub Hcap]; [lia|]. split; [|done].
    etrans; [exact Hsub|]. apply delete_subseteq.
  - apply min_by_key_None in Hm. apply (f_equal length) in Hm. rewrite length_iter in Hm.
    apply map_size_empty_inv in Hm. subst m. unfold secret_bytes in Hs. rewrite map_total_empty in Hs. done.
Qed.

Lemma cap_all_sessions_spec pids m :
  let m' := foldl (λ m pid, cap_sessions (S (size m)) pid m) m pids in
  m' ⊆ m ∧ ∀ pid, pid ∈ pids → Z.of_nat (size (sessions_of pid m')) <= MAX_KEYLOG_SESSIONS_PER_PID.
Proof.
  revert m. induction pids as [|pid pids IH]; intros m; cbn [foldl].
  { split; [done|]. intros ? []%not_elem_of_nil. }
  destruct (cap_sessions_spec (S (size m)) pid m) as [Hsub Hcap]; [lia|].
  destruct (IH (cap_sessions (S (size m)) pid m)) as [Hsub' Hcap']. split; [by etrans|].
  intros q [->|Hq]%elem_of_cons; [|by apply Hcap'].
  pose proof (sessions_of_mono pid _ _ Hsub'). lia.
Qed.

Lemma enforce_caps_spec st now :
  let m := secrets (enforce_caps st now) in
  m ⊆ secrets st ∧ secret_bytes m <= MAX_KEYLOG_SECRET_BYTES ∧
  (∀ k s, m !! k = Some s → unexpired now s = true) ∧
  ∀ pid, is_Some (eligible st !! pid) → Z.of_nat (size (sessions_of pid m)) <= MAX_KEYLOG_SESSIONS_PER_PID.
Proof.
  cbn -[cap_bytes]. set (m0 := filter _ (secrets st)). set (pids := (iter (eligible st)).*1).
  destruct (cap_all_sessions_spec pids m0) as [Hsub1 Hs]. set (m1 := foldl _ m0 pids) in *.
  destruct (cap_bytes_spec (S (size m1)) m1) as [Hsub2 Hb]; [lia|].
  assert (Hsub : cap_bytes (S (size m1)) m1 ⊆ m0) by (by etrans).
  split_and!; [|done| |].
  - etrans; [exact Hsub|]. apply map_filter_subseteq.
  - intros k s Hk. apply (lookup_weaken _ _ _ _ Hk) in Hsub. by apply map_lookup_filter_Some in Hsub as [_ ?].
  - intros pid [w Hw]. pose proof (sessions_of_mono pid _ _ Hsub2). specialize (Hs pid).
    assert (Hp : pid ∈ pids) by (apply list_elem_of_fmap; exists (pid, w); split; [done|]; by apply elem_of_iter).
    specialize (Hs Hp). lia.
Qed.
End bounds.

Section watcher.
Context `{HexDecoder} `{IterOrder}.

(** After every poll, whatever the files hold, the store is within its
    bounds: at most 1 MiB of secrets in all, at most 128 sessions per eligible
    process, and no secret that is older than ten minutes without a flow. *)
Theorem keylog_bounded st fs now :
  let st' := poll_at st fs now in
  secret_bytes (secrets st') <= 1048576 ∧
  (∀ pid, is_eligible st' pid = true → Z.of_nat (size (sessions_of pid (secrets st'))) <= 128) ∧
  ∀ k s, secrets st' !! k = Some s → associated_with_flow s = true ∨ sat_sub now (inserted_at s) <= 600000.
Proof.
  unfold poll_at. destruct (poll_pids _ _ _ _ _) as [[files last] found].
  set (st1 := foldl _ _ _). destruct (enforce_caps_spec st1 now) as (_ & Hb & Hu & Hs). split_and!; [done| |].
  - intros pid He%bool_decide_eq_true. by apply Hs.
  - intros k s [?|?%Z.leb_le]%Hu%orb_true_iff; [by left|by right].
Qed.

(** What a client of the watcher does. *)
Inductive op :=
| Register (pid : Z) (p : bytes)
| Unregister (pid : Z)
| Poll (fs : bytes → FileState) (now : Z)
| MarkFlow (pid : Z) (random : bytes)
| Take (pid : Z) (random lbl : bytes)
| RemoveFlow (pid : Z) (random : bytes).

Definition apply (st : t) (o : op) : t :=
  match o with
  | Register pid p => register_eligible_pid st pid p
  | Unregister pid => unregister_pid st pid
  | Poll fs now => poll_at st fs now
  | MarkFlow pid random => mark_flow_seen st pid random
  | Take pid random lbl => (take_secret st pid random lbl).1
  | RemoveFlow pid random => remove_flow_secrets st pid random
  end.

(** Every stored secret is filed under its owner, its client random and its
    label, and its owner is eligible. *)
Definition filed (st : t) : Prop := ∀ pid r l s,
  secrets st !! (pid, r, l) = Some s →
  is_Some (eligible st !! pid) ∧ client_random (value s) = r ∧ label (value s) = l.

Lemma poll_pids_found_eligible fs pids remaining files last ps :
  ps ∈ (poll_pids fs pids remaining files last).2 → is_Some (files !! ps.1).
Proof.
  revert remaining files last. induction pids as [|pid pids IH]; intros remaining files last; cbn [poll_pids].
  { by intros ?%not_elem_of_nil. }
  destruct (remaining =? 0); [by intros ?%not_elem_of_nil|].
  destruct (files !! pid) as [w|] eqn:Hw; [|apply IH]. destruct (fs (path w)) as [| | |data]; [apply IH..|].
  destruct (read_bytes _ _) as [w' found]. set (rem := sat_sub _ _).
  specialize (IH rem (<[pid := w']> files) pid). destruct (poll_pids _ _ _ _ _) as [[files' last'] more].
  cbn [snd] in *. rewrite elem_of_app, list_elem_of_fmap. intros [(x & -> & _)|Hin].
  - cbn. eauto.
  - destruct (decide (pid = ps.1)) as [<-|Hne]; [eauto|]. specialize (IH Hin). by rewrite lookup_insert_ne in IH.
Qed.

Lemma insert_secrets_filed now found st :
  filed st → (∀ ps, ps ∈ found → is_Some (eligible st !! ps.1)) → filed (foldl (insert_secret now) st found).
Proof.
  revert st. induction found as [|[pid x] found IH]; intros st Hf He; [done|]. cbn [foldl]. apply IH.
  - intros q r l s. cbn. rewrite lookup_insert_Some. intros [[[= <- <- <-] <-]|[_ Hs]]; [|by apply Hf].
    cbn. split; [|done]. apply (He (pid, x)). left.
  - intros ps Hps. cbn. apply He. by right.
Qed.

Lemma filed_sub st m : filed st → m ⊆ secrets st → filed (st <| secrets := m |>).
Proof. intros Hf Hsub pid r l s Hs. cbn in *. apply (Hf pid r l s). by eapply lookup_weaken. Qed.

Lemma poll_at_filed st fs now : filed st → filed (poll_at st fs now).
Proof.
  intros Hf. unfold poll_at.
  pose proof (poll_pids_dom fs (poll_order st) MAX_KEYLOG_READ_BYTES_PER_POLL (eligible st) (last_polled_pid st)) as Hd.
  pose proof (poll_pids_found_eligible fs (poll_order st) MAX_KEYLOG_READ_BYTES_PER_POLL (eligible st) (last_polled_pid st)) as Hfound.
  destruct (poll_pids _ _ _ _ _) as [[files last] found]. cbn [fst snd] in *.
  set (st1 := _ <| last_polled_pid := last |>).
  assert (Hf1 : filed st1).
  { intros pid r l s Hs. destruct (Hf pid r l s Hs) as [He Hv]. split; [|done]. by apply Hd. }
  assert (Hf2 : filed (foldl (insert_secret now) st1 found)).
  { apply insert_secrets_filed; [done|]. intros ps Hps. apply Hd. by apply Hfound. }
  apply (filed_sub (foldl (insert_secret now) st1 found)); [done|]. apply enforce_caps_spec.
Qed.

Lemma apply_filed st o : filed st → filed (apply st o).
Proof.
  intros Hf. destruct o as [pid p|pid|fs now|pid random|pid random lbl|pid random]; cbn [apply].
  - intros q r l s Hs. destruct (Hf q r l s Hs) as [[w Hw] Hv]. split; [|done]. cbn.
    destruct (decide (pid = q)) as [->|]; [by rewrite lookup_insert_eq|by rewrite lookup_insert_ne].
  - intros q r l s [Hs Hne]%map_lookup_filter_Some. destruct (Hf q r l s Hs) as [He Hv]. split; [|done].
    cbn in *. by rewrite lookup_delete_ne.
  - by apply poll_at_filed.
  - intros q r l s. cbn. rewrite map_lookup_imap. destruct (secrets st !! (q, r, l)) as [s0|] eqn:Hs; [|done].
    cbn. intros [= <-]. destruct (Hf q r l s0 Hs) as [He Hv]. split; [done|]. by destruct (_ && _).
  - apply (filed_sub st); [done|]. apply delete_subseteq.
  - apply (filed_sub st); [done|]. apply map_filter_subseteq.
Qed.

(** Secrets stay with the process they came from.  Over any use of the
    watcher, a secret handed out for a process, a client random and a label is
    one stored under exactly those, by a process that is still eligible; once a
    process is unregistered no secret of it can be looked up. *)
Theorem keylog_isolated ops pid r l s :
  let st := foldl apply new ops in
  secret_for st pid r l = Some s →
  is_eligible st pid = true ∧ client_random s = r ∧ label s = l ∧
  ∀ r' l', secret_for (apply st (Unregister pid)) pid r' l' = None.
Proof.
  intros st Hs. assert (Hf : filed st).
  { subst st. clear Hs. assert (Hn : filed new) by (by intros ????). revert Hn. generalize new.
    induction ops as [|o ops IH]; intros st0 H0'; [done|]. apply IH. by apply apply_filed. }
  clearbody st. unfold secret_for in *. apply fmap_Some in Hs as (x & Hx & ->).
  destruct (Hf pid r l x Hx) as (He & Hr & Hl). split_and!; [by apply bool_decide_eq_true|done..|].
  intros r' l'. apply fmap_None. cbn. apply map_lookup_filter_None. right. cbn. tauto.
Qed.
End watcher.

Lemma keylog_isolated_witness :
  is_eligible (foldl (apply (H := simple_hex)) new [Register 7 (lit "/keys"); Poll sample_fs 1]) 7 = true.
Proof.
  refine (proj1 (keylog_isolated (H := simple_hex) [Register 7 (lit "/keys"); Poll sample_fs 1] 7 [10; 11]
    (lit "CLIENT_RANDOM") (mkSessionSecret [10; 11] (lit "CLIENT_RANDOM") [255]) _)). by vm_compute.
Defined.
End Kl.
