(* ===== verification/TlsStream.v ===== *)
(** * TLS byte streams and records

    [capture-agent/src/tls_stream.rs]: the sliding consumer that puts one TCP
    direction in order ([TlsTcpStream]), the incremental record framer
    ([TlsRecordFramer]) and their composition ([TlsDirectionStream]).  Vectors
    carry their capacity, which [bytes_held] reports. *)

From S2P Require Import Prelude.

Definition MAX_TLS_RECORD_BODY_BYTES : Z := Z.shiftl 1 14 + 256.
Definition MAX_TLS_RECORD_WIRE_BYTES : Z := 5 + MAX_TLS_RECORD_BODY_BYTES.
Definition TLS_REORDER_WINDOW_BYTES : Z := MAX_TLS_RECORD_WIRE_BYTES.

Definition first_data_sequence (tcp_sequence : Z) (syn : bool) : Z :=
  wrapping_add tcp_sequence (if syn then 1 else 0).

Inductive TlsStreamError := ReorderWindowExceeded | ConflictingOverlap | RecordTooLarge.

(** [v.drain(..n)]. *)
Definition vec_drain {A} (v : vec A) (n : Z) : vec A := mkVec (zdrop n (vlist v)) (vcap v).

Module TlsTcpStream.
Record t := mk { next_seq : Z; held : vec Z; present : vec Z }.
#[global] Instance eta : RecordEta t := λ r, mk (next_seq r) (held r) (present r).

Definition new (initial_seq : Z) : t := mk initial_seq vec_new vec_new.

Section feed.
Context `{VecPolicy}.

(** The byte loop: the slots, and whether a byte conflicted. *)
Fixpoint write_slots (slot : Z) (payload : bytes) (h p : vec Z) : vec Z * vec Z * bool :=
  match payload with
  | [] => (h, p, false)
  | byte :: payload' =>
      if bool_decide (nth_z (vlist p) slot = Some 0) then
        write_slots (slot + 1) payload' (vec_set h slot byte) (vec_set p slot 1)
      else if bool_decide (nth_z (vlist h) slot = Some byte) then
        write_slots (slot + 1) payload' h p
      else (h, p, true)
  end.

(** [present.iter().take_while(|p| p != 0).count()]. *)
Fixpoint leading_present (l : list Z) : Z :=
  match l with [] => 0 | x :: l' => if x =? 0 then 0 else 1 + leading_present l' end.

(** The segment from the first byte not yet delivered on: its offset and what
    is left of it; [None] when all of it was delivered. *)
Definition trim (st : t) (seq : Z) (payload : bytes) : option (Z * bytes) :=
  let relative := seq_delta seq (next_seq st) in
  if relative <? 0 then
    let overlap := Z.abs relative in
    if zlen payload <=? overlap then None else Some (0, zdrop overlap payload)
  else Some (relative, payload).

(** The contiguous prefix leaves the window. *)
Definition deliver (st : t) : t * bytes :=
  let contiguous := leading_present (vlist (present st)) in
  if contiguous =? 0 then (st, [])
  else
    (mk (wrapping_add (next_seq st) contiguous) (vec_drain (held st) contiguous)
       (vec_drain (present st) contiguous),
     ztake contiguous (vlist (held st))).

Definition feed (st : t) (seq : Z) (payload : bytes) : t * result TlsStreamError bytes :=
  if bool_decide (payload = []) then (st, Ok [])
  else
    match trim st seq payload with
    | None => (st, Ok [])
    | Some (offset, payload) =>
        match checked_add offset (zlen payload) with
        | None => (st, Err ReorderWindowExceeded)
        | Some end_ =>
            if TLS_REORDER_WINDOW_BYTES <? end_ then
              if (offset =? 0) && bool_decide (vlist (held st) = []) then
                (st <| next_seq ::= λ n, wrapping_add n (wrap_u32 (zlen payload)) |>, Ok payload)
              else (st, Err ReorderWindowExceeded)
            else
              let grow := zlen (vlist (held st)) <? end_ in
              let h := if grow then vec_resize (held st) end_ 0 else held st in
              let p := if grow then vec_resize (present st) end_ 0 else present st in
              let '(h, p, conflict) := write_slots offset payload h p in
              let st := st <| held := h |> <| present := p |> in
              if conflict then (st, Err ConflictingOverlap)
              else let '(st, out) := deliver st in (st, Ok out)
        end
    end.
End feed.

Definition bytes_held (st : t) : Z := vcap (held st) + vcap (present st).

Definition has_pending_gap (st : t) : bool :=
  bool_decide (0 ∈ vlist (present st)) && bool_decide (Exists (λ p, p ≠ 0) (vlist (present st))).
End TlsTcpStream.

(** The framer's own error, whose only constructor the source also calls
    [RecordTooLarge]. *)
Inductive TlsRecordError := BodyTooLarge.

Module TlsRecordFramer.
Record t := mk { buffer : vec Z }.

Definition new : t := mk vec_new.

(** [u16::from_be_bytes([buffer[3], buffer[4]])]. *)
Definition body_len (buf : bytes) : Z := be16 (default 0 (nth_z buf 3)) (default 0 (nth_z buf 4)).

Section feed.
Context `{VecPolicy}.

(** The length the buffer must reach, or [None] for a record too large. *)
Definition target (buf : bytes) : option Z :=
  if zlen buf <? 5 then Some 5
  else if MAX_TLS_RECORD_BODY_BYTES <? body_len buf then None
  else Some (5 + body_len buf).

(** Whether the buffer, just extended towards [tgt], is a whole record;
    [None] for a record too large. *)
Definition completes (buf : bytes) (tgt : Z) : option bool :=
  if zlen buf =? 5 then
    if MAX_TLS_RECORD_BODY_BYTES <? body_len buf then None else Some (body_len buf =? 0)
  else Some (zlen buf =? tgt).

(** The loop over the input; every turn takes a byte or more.  The outer option
    is the fuel. *)
Fixpoint feed_loop (fuel : nat) (buf : vec Z) (input : bytes) (records : list (vec Z))
    : option (vec Z * result TlsRecordError (list (vec Z))) :=
  match fuel with
  | O => None
  | S fuel' =>
      if bool_decide (input = []) then Some (buf, Ok records)
      else
        match target (vlist buf) with
        | None => Some (vec_new, Err BodyTooLarge)
        | Some tgt =>
            let amount := Z.min (tgt - zlen (vlist buf)) (zlen input) in
            let buf := vec_extend buf (ztake amount input) in
            let input := zdrop amount input in
            match completes (vlist buf) tgt with
            | None => Some (vec_new, Err BodyTooLarge)
            | Some true => feed_loop fuel' vec_new input (records ++ [buf])
            | Some false => feed_loop fuel' buf input records
            end
        end
  end.

Definition feed (st : t) (input : bytes) : t * result TlsRecordError (list (vec Z)) :=
  match feed_loop (S (length input)) (buffer st) input [] with
  | Some (buf, r) => (mk buf, r)
  | None => (st, Ok [])
  end.
End feed.

Definition bytes_held (st : t) : Z := vcap (buffer st).
End TlsRecordFramer.

Module TlsDirectionStream.
Record t := mk { tcp : TlsTcpStream.t; records : TlsRecordFramer.t }.

Definition new (initial_seq : Z) : t := mk (TlsTcpStream.new initial_seq) TlsRecordFramer.new.

Definition feed_segment `{VecPolicy} (st : t) (seq : Z) (payload : bytes)
    : t * result TlsStreamError (list (vec Z)) :=
  let '(tcp, r) := TlsTcpStream.feed (tcp st) seq payload in
  match r with
  | Err e => (mk tcp (records st), Err e)
  | Ok contiguous =>
      let '(framer, out) := TlsRecordFramer.feed (records st) contiguous in
      (mk tcp framer, map_err (λ 'BodyTooLarge, RecordTooLarge) out)
  end.

Definition bytes_held (st : t) : Z := TlsTcpStream.bytes_held (tcp st) + TlsRecordFramer.bytes_held (records st).
Definition has_pending_gap (st : t) : bool := TlsTcpStream.has_pending_gap (tcp st).
End TlsDirectionStream.

(** ** Framing *)

Module Framing.
Import TlsRecordFramer.

(** A whole record, and the beginning of one. *)
Definition record (r : bytes) : Prop :=
  zlen r = 5 + body_len r ∧ 0 <= body_len r <= MAX_TLS_RECORD_BODY_BYTES.
Definition partial (b : bytes) : Prop :=
  zlen b < 5 ∨ (body_len b <= MAX_TLS_RECORD_BODY_BYTES ∧ zlen b < 5 + body_len b).
(** A header that declares more than the protocol allows. *)
Definition oversized (h : bytes) : Prop := zlen h = 5 ∧ MAX_TLS_RECORD_BODY_BYTES < body_len h.

Lemma body_len_app b c : 5 <= zlen b → body_len (b ++ c) = body_len b.
Proof.
  intros Hl. unfold body_len, nth_z. by rewrite !lookup_app_l by lia.
Qed.

Lemma partial_nil : partial [].
Proof. left. cbn. lia. Qed.

Lemma record_not_partial r c : record r → ¬ partial (r ++ c).
Proof.
  intros [Hl Hb] [Hp|[_ Hp]]; rewrite length_app in Hp; [lia|].
  rewrite body_len_app in Hp by lia. lia.
Qed.

Lemma oversized_not_partial h c : oversized h → ¬ partial (h ++ c).
Proof.
  intros [Hl Hb] [Hp|[Hp _]]; [rewrite length_app in Hp; lia|]. rewrite body_len_app in Hp by lia. lia.
Qed.

Lemma oversized_not_record h c r d : oversized h → record r → h ++ c ≠ r ++ d.
Proof.
  intros [Hl Hb] [Hr Hrb] E. assert (body_len (h ++ c) = body_len (r ++ d)) as E' by (by rewrite E).
  rewrite !body_len_app in E' by lia. lia.
Qed.

Lemma record_prefix_eq r c r' d : record r → record r' → r ++ c = r' ++ d → r = r' ∧ c = d.
Proof.
  intros [Hr Hb] [Hr' Hb'] E. assert (E' : body_len (r ++ c) = body_len (r' ++ d)) by (by rewrite E).
  rewrite !body_len_app in E' by lia. apply app_inj_1; [lia|done].
Qed.

(** A byte string splits into records and a beginning in one way only. *)
Lemma framing_unique rs rest rs' rest' :
  Forall record rs → Forall record rs' → partial rest → partial rest' →
  concat rs ++ rest = concat rs' ++ rest' → rs = rs' ∧ rest = rest'.
Proof.
  intros Hrs. revert rs'. induction Hrs as [|r rs Hr _ IH]; intros rs' Hrs' Hp Hp' E.
  - destruct Hrs' as [|r' rs' Hr' _]; [done|]. exfalso. cbn in E. subst rest.
    rewrite <- app_assoc in Hp. by eapply record_not_partial.
  - destruct Hrs' as [|r' rs' Hr' Hrs'].
    + exfalso. cbn in E. subst rest'. rewrite <- app_assoc in Hp'. by eapply record_not_partial.
    + cbn in E. rewrite <- !app_assoc in E. apply record_prefix_eq in E as [-> E]; [|done..].
      apply IH in E as [-> ->]; done.
Qed.

Lemma no_oversized rs rest new_ h tl :
  Forall record rs → partial rest → Forall record new_ → oversized h →
  concat rs ++ rest ≠ concat new_ ++ h ++ tl.
Proof.
  intros Hrs Hp Hrec Ho. revert rs Hrs. induction Hrec as [|r new_ Hr _ IH]; intros rs Hrs Hg; cbn in Hg.
  - destruct Hrs as [|r rs Hr _]; cbn in Hg; [subst rest; by eapply oversized_not_partial|].
    rewrite <- app_assoc in Hg. by eapply oversized_not_record.
  - rewrite <- app_assoc in Hg. destruct Hrs as [|r' rs Hr' Hrs]; cbn in Hg.
    { subst rest. by eapply record_not_partial. }
    rewrite <- app_assoc in Hg. apply record_prefix_eq in Hg as [_ Hg]; [|done..]. by eapply IH.
Qed.

(** The bytes of the records returned. *)
Definition texts (r : result TlsRecordError (list (vec Z))) : result TlsRecordError (list bytes) :=
  let? rs := r in Ok (vlist <$> rs).

(** What a run of the framer means: the bytes it was given are the records it
    returned, then the beginning it holds; or it met an oversized header. *)
Definition frames (given : bytes) (recs : list bytes) (out : vec Z * result TlsRecordError (list bytes)) : Prop :=
  match out with
  | (buf, Ok rs) => ∃ new_, rs = recs ++ new_ ∧ given = concat new_ ++ vlist buf ∧ Forall record new_ ∧ partial (vlist buf)
  | (buf, Err e) => e = BodyTooLarge ∧ vlist buf = [] ∧
      ∃ new_ h rest, given = concat new_ ++ h ++ rest ∧ Forall record new_ ∧ oversized h
  end.

Section feed.
Context `{VecPolicy}.

Lemma body_len_nonneg b : Forall is_u8 b → 0 <= body_len b.
Proof.
  intros Hb. unfold body_len, be16, nth_z. rewrite Forall_lookup in Hb.
  destruct (b !! Z.to_nat 3) eqn:E1, (b !! Z.to_nat 4) eqn:E2; cbn;
    repeat match goal with E : _ !! _ = Some _ |- _ => apply Hb in E end; width; lia.
Qed.

(** One turn: a beginning extended towards its target. *)
Lemma extend_cases buf piece tgt :
  partial buf → target buf = Some tgt → Forall is_u8 (buf ++ piece) →
  0 < zlen piece <= tgt - zlen buf →
  match completes (buf ++ piece) tgt with
  | None => oversized (buf ++ piece)
  | Some true => record (buf ++ piece)
  | Some false => partial (buf ++ piece)
  end.
Proof.
  intros Hp Ht Hu Hl. pose proof (body_len_nonneg _ Hu) as Hnn. unfold target in Ht. unfold completes.
  rewrite length_app in *. destruct (Z.ltb_spec (zlen buf) 5) as [Hlt|Hge]; simplify_eq.
  - destruct (Z.eqb_spec (Z.of_nat (length buf + length piece)) 5) as [H5|H5].
    + destruct (Z.ltb_spec MAX_TLS_RECORD_BODY_BYTES (body_len (buf ++ piece))).
      { split; [rewrite length_app; lia|lia]. }
      destruct (Z.eqb_spec (body_len (buf ++ piece)) 0) as [Hz|Hz].
      * split; [rewrite length_app; lia|lia].
      * right. rewrite length_app. lia.
    + left. rewrite length_app. lia.
  - destruct (Z.ltb_spec MAX_TLS_RECORD_BODY_BYTES (body_len buf)); [done|]. simplify_eq.
    rewrite (proj2 (Z.eqb_neq _ 5)) by lia. rewrite body_len_app in * by lia.
    destruct (Z.eqb_spec (Z.of_nat (length buf + length piece)) (5 + body_len buf)).
    + split; rewrite ?length_app, body_len_app by lia; lia.
    + right. rewrite body_len_app, length_app by lia. lia.
Qed.

Lemma partial_target buf : partial buf → ∃ tgt, target buf = Some tgt ∧ zlen buf < tgt.
Proof.
  unfold target. intros [Hp|[Hb Hp]].
  - rewrite (proj2 (Z.ltb_lt _ _)) by lia. eauto.
  - case_zb; [eauto with lia|]. rewrite (proj2 (Z.ltb_ge _ _)) by lia. eauto.
Qed.

Lemma feed_loop_frames fuel buf input recs :
  partial (vlist buf) → Forall is_u8 (vlist buf ++ input) → (length input < fuel)%nat →
  ∃ buf' r, feed_loop fuel buf input recs = Some (buf', r) ∧
    frames (vlist buf ++ input) (vlist <$> recs) (buf', texts r).
Proof.
  revert buf input recs. induction fuel as [|fuel IH]; intros buf input recs Hp Hu Hf; [lia|].
  cbn [feed_loop]. case_bool_decide as Hi.
  { do 2 eexists. split; [done|]. exists []. subst input. rewrite !app_nil_r. done. }
  destruct (partial_target _ Hp) as (tgt & Ht & Hlt). rewrite Ht.
  set (amount := Z.min (tgt - zlen (vlist buf)) (zlen input)).
  assert (Hin : 0 < zlen input) by (destruct input; [done|]; cbn [length]; lia).
  assert (Hsplit : input = ztake amount input ++ zdrop amount input) by (by rewrite ztake_zdrop).
  assert (Hpl : zlen (ztake amount input) = amount) by (rewrite length_ztake; lia).
  assert (Hrl : (length (zdrop amount input) < fuel)%nat) by (rewrite length_zdrop; lia).
  set (piece := ztake amount input) in *. set (rest := zdrop amount input) in *. clearbody piece rest. subst input.
  rewrite app_assoc in Hu. pose proof (proj1 (Forall_app _ _ _) Hu) as [Hu1 Hu2].
  pose proof (extend_cases (vlist buf) piece tgt Hp Ht Hu1 ltac:(lia)) as Hc.
  cbn [vec_extend vlist]. destruct (completes _ _) as [[|]|].
  - destruct (IH vec_new rest (recs ++ [vec_extend buf piece])) as (buf' & r & -> & Hfr); [apply partial_nil|done|done|].
    do 2 eexists. split; [done|]. destruct r as [rs|e]; cbn [texts result_bind frames vlist vec_new app] in *.
    + destruct Hfr as (new_ & Hrs & -> & Hrec & Hpt). exists ((vlist buf ++ piece) :: new_).
      cbn [concat]. rewrite Hrs, fmap_app, <- !app_assoc. split_and!; [done|done|by constructor|done].
    + destruct Hfr as (-> & -> & new_ & h & tl & -> & Hrec & Ho). split_and!; [done..|].
      exists ((vlist buf ++ piece) :: new_), h, tl. cbn [concat]. rewrite <- !app_assoc. split_and!; [done|by constructor|done].
  - destruct (IH (vec_extend buf piece) rest recs) as (buf' & r & Hout & Hfr); [done|done|done|].
    exists buf', r. split; [done|]. by rewrite app_assoc.
  - do 2 eexists. split; [done|]. cbn. split_and!; [done..|]. exists [], (vlist buf ++ piece), rest.
    rewrite <- app_assoc. done.
Qed.

(** A chunk at a time. *)
Fixpoint feed_chunks (st : t) (chunks : list bytes) : t * result TlsRecordError (list bytes) :=
  match chunks with
  | [] => (st, Ok [])
  | c :: chunks' =>
      match feed st c with
      | (st, Err e) => (st, Err e)
      | (st, Ok rs) => let '(st, r) := feed_chunks st chunks' in (st, let? rs' := r in Ok ((vlist <$> rs) ++ rs'))
      end
  end.

Lemma feed_frames st input :
  partial (vlist (buffer st)) → Forall is_u8 (vlist (buffer st) ++ input) →
  ∃ buf r, feed st input = (mk buf, r) ∧ frames (vlist (buffer st) ++ input) [] (buf, texts r).
Proof.
  intros Hp Hu. destruct (feed_loop_frames (S (length input)) (buffer st) input []) as (buf & r & Ho & Hf); [done..|lia|].
  unfold feed. rewrite Ho. eauto.
Qed.

Lemma feed_chunks_frames st chunks :
  partial (vlist (buffer st)) → Forall is_u8 (vlist (buffer st) ++ concat chunks) →
  ∃ buf r, feed_chunks st chunks = (mk buf, r) ∧ frames (vlist (buffer st) ++ concat chunks) [] (buf, r).
Proof.
  revert st. induction chunks as [|c chunks IH]; intros st Hp Hu; cbn [feed_chunks concat] in *.
  { destruct st as [buf]. exists buf, (Ok []). split; [done|]. exists []. split_and!; [done|apply app_nil_r|constructor|done]. }
  rewrite app_assoc in Hu. pose proof (proj1 (Forall_app _ _ _) Hu) as [Hu1 Hu2].
  destruct (feed_frames st c Hp Hu1) as (buf & r & -> & Hf). destruct r as [rs|e].
  - cbn in Hf. destruct Hf as (new_ & Hrs & Hgiven & Hrec & Hpt). rewrite Hrs.
    assert (Hu3 : Forall is_u8 (vlist buf ++ concat chunks)).
    { apply Forall_app. split; [|done]. rewrite Hgiven in Hu1. by apply Forall_app in Hu1 as [_ ?]. }
    destruct (IH (mk buf) Hpt Hu3) as (buf' & r' & -> & Hf'). exists buf'.
    rewrite app_assoc, Hgiven, <- app_assoc. destruct r' as [rs'|e]; cbn [result_bind frames] in *.
    + destruct Hf' as (new' & -> & Hg' & Hrec' & Hpt'). eexists. split; [done|].
      exists (new_ ++ new'). cbn [buffer] in *. rewrite Hg', concat_app, <- app_assoc.
      split_and!; [done|done|by apply Forall_app|done].
    + destruct Hf' as (-> & Hb & new' & h & rest & Hg' & Hrec' & Ho). eexists. split; [done|].
      split_and!; [done..|]. exists (new_ ++ new'), h, rest. cbn [buffer] in *. rewrite Hg', concat_app, <- app_assoc.
      split_and!; [done|by apply Forall_app|done].
  - cbn in Hf. destruct Hf as (-> & Hb & new_ & h & rest & Hg & Hrec & Ho). do 2 eexists. split; [done|].
    split_and!; [done..|]. exists new_, h, (rest ++ concat chunks). rewrite app_assoc, Hg, <- !app_assoc. done.
Qed.

(** Record framing does not depend on how the bytes arrive.  However the
    bytes of a sequence of TLS records (each within the protocol's length
    limit), followed by the beginning of one more, are cut into chunks, feeding
    the chunks in order returns exactly those records and keeps exactly that
    beginning, without error. *)
Theorem tls_framing_roundtrip rs rest chunks :
  Forall record rs → partial rest → Forall is_u8 (concat rs ++ rest) → concat chunks = concat rs ++ rest →
  ∃ buf, feed_chunks new chunks = (mk buf, Ok rs) ∧ vlist buf = rest.
Proof.
  intros Hrs Hp Hu Hc. destruct (feed_chunks_frames new chunks) as (buf & r & -> & Hf);
    [apply partial_nil|by rewrite Hc|].
  cbn [buffer new vec_new vlist app] in Hf. rewrite Hc in Hf. destruct r as [rs'|e]; cbn in Hf.
  - destruct Hf as (new_ & -> & Hg & Hrec & Hpt). apply framing_unique in Hg as [-> ->]; eauto.
  - destruct Hf as (_ & _ & new_ & h & tl & Hg & Hrec & Ho). by apply no_oversized in Hg.
Qed.

(** The framer holds no more than one record, whatever it is fed: after any
    chunks its buffer is the beginning of a record, shorter than the largest
    record on the wire. *)
Theorem tls_framer_bounded chunks :
  Forall is_u8 (concat chunks) →
  let st := (feed_chunks new chunks).1 in
  zlen (vlist (buffer st)) < MAX_TLS_RECORD_WIRE_BYTES.
Proof.
  intros Hu. destruct (feed_chunks_frames new chunks) as (buf & r & -> & Hf); [apply partial_nil|done|].
  cbn [fst buffer]. assert (Hp : partial (vlist buf)).
  { destruct r; cbn in Hf; [by destruct Hf as (? & ? & ? & ? & ?)|]. destruct Hf as (_ & -> & _). apply partial_nil. }
  unfold partial, MAX_TLS_RECORD_WIRE_BYTES in *. assert (0 <= MAX_TLS_RECORD_BODY_BYTES) by done. lia.
Qed.
End feed.
End Framing.

(** Concrete bytes. *)
Ltac u8s := cbn; repeat (apply Forall_cons; split; [width; lia|]); apply Forall_nil; done.

Definition sample_records : list bytes := [[22; 3; 3; 0; 2; 9; 9]; [23; 3; 3; 0; 0]; [23; 3; 3; 0; 1; 7]].

Lemma tls_framing_roundtrip_witness :
  ∃ buf, Framing.feed_chunks TlsRecordFramer.new [[22; 3]; [3; 0; 2; 9]; [9; 23; 3; 3; 0; 0; 23; 3; 3]; []; [0; 1; 7; 23]]
         = (TlsRecordFramer.mk buf, Ok sample_records) ∧ vlist buf = [23].
Proof.
  apply (Framing.tls_framing_roundtrip sample_records [23]); [| |u8s|reflexivity].
  - repeat constructor; vm_compute; congruence.
  - left. vm_compute. reflexivity.
Defined.

Lemma tls_framer_bounded_witness :
  zlen (vlist (TlsRecordFramer.buffer (Framing.feed_chunks TlsRecordFramer.new [[22; 3]; [3; 0; 2; 9]]).1))
  < MAX_TLS_RECORD_WIRE_BYTES.
Proof. apply (Framing.tls_framer_bounded [[22; 3]; [3; 0; 2; 9]]). u8s. Defined.

(** ** Ordering *)

Module Ordering.
Import TlsTcpStream.

Section ordering.
Context `{VecPolicy}.
(** The bytes one side sends, by offset from its first data byte, and the
    sequence number of that byte. *)
Context (sent : Z → Z) (base : Z).

Definition sent_slice (off n : Z) : bytes := (λ i, sent (off + Z.of_nat i)) <$> seq 0 (Z.to_nat n).

Lemma length_sent_slice off n : length (sent_slice off n) = Z.to_nat n.
Proof. unfold sent_slice. by rewrite length_fmap, length_seq. Qed.

Lemma lookup_sent_slice off n i :
  (i < Z.to_nat n)%nat → sent_slice off n !! i = Some (sent (off + Z.of_nat i)).
Proof.
  intros. unfold sent_slice. rewrite list_lookup_fmap, lookup_seq_lt by done. cbn. do 2 f_equal. 
Qed.

Lemma sent_slice_spec l off :
  l = sent_slice off (zlen l) ↔ ∀ i x, l !! i = Some x → x = sent (off + Z.of_nat i).
Proof.
  split.
  - intros E i x Hx. pose proof (lookup_lt_Some _ _ _ Hx). rewrite E in Hx.
    rewrite lookup_sent_slice in Hx by lia. congruence.
  - intros Hl. apply list_eq. intros i. destruct (l !! i) as [x|] eqn:Hx.
    + pose proof (lookup_lt_Some _ _ _ Hx). rewrite lookup_sent_slice by lia. f_equal. auto.
    + apply lookup_ge_None in Hx. symmetry. apply lookup_ge_None. rewrite length_sent_slice. lia.
Qed.

Lemma sent_slice_drop l off k :
  0 <= k <= zlen l → l = sent_slice off (zlen l) → zdrop k l = sent_slice (off + k) (zlen (zdrop k l)).
Proof.
  intros Hk E. apply sent_slice_spec. intros i x. unfold zdrop. rewrite lookup_drop. intros Hx.
  rewrite (proj1 (sent_slice_spec l off) E _ _ Hx). f_equal. lia.
Qed.

Lemma sent_slice_app off n m : 0 <= n → 0 <= m → sent_slice off n ++ sent_slice (off + n) m = sent_slice off (n + m).
Proof.
  intros. apply list_eq. intros i. destruct (decide (i < Z.to_nat n)%nat).
  - rewrite lookup_app_l by (rewrite length_sent_slice; lia). by rewrite !lookup_sent_slice by lia.
  - rewrite lookup_app_r by (rewrite length_sent_slice; lia). rewrite length_sent_slice.
    destruct (decide (i < Z.to_nat (n + m))%nat).
    + rewrite !lookup_sent_slice by lia. do 2 f_equal. lia.
    + rewrite !lookup_ge_None_2 by (rewrite length_sent_slice; lia). done.
Qed.

(** The window [h]/[p] from offset [n] on holds only bytes that were sent. *)
Definition slots_ok (n : Z) (h p : list Z) : Prop :=
  length h = length p ∧ ∀ i x, p !! i = Some x → x ≠ 0 → h !! i = Some (sent (n + Z.of_nat i)).

(** Which offsets a window covers. *)
Definition marked (p : list Z) (i : nat) : Prop := ∃ x, p !! i = Some x ∧ x ≠ 0.

Lemma write_slots_sent n slot payload h p :
  0 <= slot → slots_ok n (vlist h) (vlist p) → slot + zlen payload <= zlen (vlist p) →
  payload = sent_slice (n + slot) (zlen payload) →
  ∃ h' p', write_slots slot payload h p = (h', p', false) ∧ slots_ok n (vlist h') (vlist p') ∧
    length (vlist p') = length (vlist p) ∧
    ∀ i, marked (vlist p') i ↔ marked (vlist p) i ∨ slot <= Z.of_nat i < slot + zlen payload.
Proof.
  revert slot h p. induction payload as [|b payload IH]; intros slot h p Hs Hok Hl Hp; cbn [write_slots].
  { exists h, p. split_and!; [done..|]. intros i. cbn. split; [by left|]. intros [?|?]; [done|lia]. }
  assert (Hb : b = sent (n + slot)).
  { pose proof (proj1 (sent_slice_spec _ _) Hp 0%nat b eq_refl). subst b. f_equal. lia. }
  assert (Hp' : payload = sent_slice (n + (slot + 1)) (zlen payload)).
  { pose proof (sent_slice_drop (b :: payload) (n + slot) 1 ltac:(cbn [length]; lia) Hp) as Hd. rewrite Z.add_assoc. exact Hd. }
  cbn [length] in Hl. destruct (nth_z_is_Some (vlist p) slot ltac:(lia)) as [x Hx].
  unfold nth_z in *. rewrite Hx. destruct Hok as [Hlen Hok]. case_bool_decide as Hz.
  - destruct (IH (slot + 1) (vec_set h slot b) (vec_set p slot 1)) as (h' & p' & -> & Hok' & Hl' & Hm); [lia| | |done|].
    + split; [cbn; by rewrite !length_insert|]. intros i y. cbn. rewrite list_lookup_insert_Some.
      intros [(<- & <- & _)|(Hne & Hy)] Hy0.
      * rewrite list_lookup_insert_eq by (apply lookup_lt_Some in Hx; lia). f_equal. rewrite Hb. f_equal. lia.
      * rewrite list_lookup_insert_ne by done. by eapply Hok.
    + cbn. rewrite length_insert. lia.
    + exists h', p'. split_and!; [done..|cbn in Hl'; by rewrite length_insert in Hl'|].
      intros i. rewrite Hm. cbn [length]. unfold marked. cbn [vec_set vlist]. split.
      * intros [(y & Hy & Hy0)|?]; [|right; lia]. apply list_lookup_insert_Some in Hy as [(<- & _)|(_ & Hy)].
        { right. lia. } left. eauto.
      * intros [(y & Hy & Hy0)|Hi].
        { left. exists y. rewrite list_lookup_insert_ne; [done|]. intros <-. congruence. }
        destruct (decide (Z.of_nat i = slot)); [|right; lia]. left. exists 1. split; [|done].
        replace i with (Z.to_nat slot) by lia. apply list_lookup_insert_eq. by apply lookup_lt_Some in Hx.
  - assert (Hx0 : x ≠ 0) by congruence.
    assert (Hh : vlist h !! Z.to_nat slot = Some b).
    { rewrite (Hok _ _ Hx Hx0), Hb. do 2 f_equal. lia. }
    rewrite Hh, bool_decide_true by done.
    destruct (IH (slot + 1) h p) as (h' & p' & -> & Hok' & Hl' & Hm); [lia|done|lia|done|].
    exists h', p'. split_and!; [done..|]. intros i. rewrite Hm. cbn [length]. split; [intros [?|?]; auto with lia|].
    intros [?|Hi]; [by left|]. destruct (decide (Z.of_nat i = slot)); [|right; lia]. left. exists x.
    split; [|done]. by replace i with (Z.to_nat slot) by lia.
Qed.

Lemma leading_present_spec l :
  0 <= leading_present l <= zlen l ∧
  (∀ i, Z.of_nat i < leading_present l → marked l i) ∧ ¬ marked l (Z.to_nat (leading_present l)).
Proof.
  induction l as [|x l (Hb & Hm & Hn)]; cbn [leading_present length].
  { split_and!; try (intros; lia). by intros (? & ? & _). }
  destruct (Z.eqb_spec x 0) as [->|Hx].
  { split_and!; try (intros; lia). by intros (? & [= <-] & ?). }
  split_and!; [lia|lia| |].
  - intros [|i] Hi; [by exists x|]. destruct (Hm i ltac:(lia)) as (y & Hy & ?). by exists y.
  - intros (y & Hy & Hy0). apply Hn. exists y. split; [|done].
    by replace (Z.to_nat (1 + leading_present l)) with (S (Z.to_nat (leading_present l))) in Hy by lia.
Qed.

(** The consumer after the first [n] bytes were delivered. *)
Record inv (n : Z) (st : t) : Prop := {
  inv_n : 0 <= n <= 2 ^ 31;
  inv_seq : next_seq st = wrapping_add base n;
  inv_slots : slots_ok n (vlist (held st)) (vlist (present st));
  inv_head : ¬ marked (vlist (present st)) 0;
  inv_end : ∀ i, marked (vlist (present st)) i → n + Z.of_nat i < 2 ^ 31
}.

(** The offsets it has seen. *)
Definition seen (n : Z) (st : t) (k : Z) : Prop :=
  k < n ∨ n <= k ∧ marked (vlist (present st)) (Z.to_nat (k - n)).

Lemma inv_new : inv 0 (new (wrap_u32 base)).
Proof.
  split; cbn; [lia|unfold wrapping_add; by rewrite Z.add_0_r| | |].
  - split; [done|]. intros i x Hx. by rewrite lookup_nil in Hx.
  - by intros (? & ? & _).
  - intros i (x & Hx & _). by rewrite lookup_nil in Hx.
Qed.

Lemma segment_delta n st off :
  inv n st → 0 <= off < 2 ^ 31 → seq_delta (wrapping_add base off) (next_seq st) = off - n.
Proof.
  intros Hi Ho. pose proof (inv_n _ _ Hi). rewrite (inv_seq _ _ Hi).
  replace (wrapping_add base off) with (wrapping_add (wrapping_add base n) (off - n))
    by (rewrite wrapping_add_assoc; f_equal; lia).
  apply seq_delta_add. lia.
Qed.

(** Delivering keeps the invariant and forgets nothing seen. *)
Lemma deliver_inv n st :
  0 <= n <= 2 ^ 31 → next_seq st = wrapping_add base n → slots_ok n (vlist (held st)) (vlist (present st)) →
  (∀ i, marked (vlist (present st)) i → n + Z.of_nat i < 2 ^ 31) →
  let '(st', out) := deliver st in
  out = sent_slice n (zlen out) ∧ inv (n + zlen out) st' ∧
  ∀ k, seen (n + zlen out) st' k ↔ seen n st k.
Proof.
  intros Hn Hseq [Hlen Hok] Hend. unfold deliver.
  destruct (leading_present_spec (vlist (present st))) as (Hb & Hm & Hnm).
  destruct (Z.eqb_spec (leading_present (vlist (present st))) 0) as [Hz|Hz].
  { rewrite Hz in Hnm. cbn [length]. rewrite Z.add_0_r. split_and!; [done| |done]. by split. }
  set (c := leading_present _) in *. clearbody c.
  assert (Hlo : zlen (ztake c (vlist (held st))) = c) by (rewrite length_ztake; lia).
  rewrite Hlo. split_and!.
  - rewrite <- Hlo at 2. apply sent_slice_spec. intros i x. unfold ztake. rewrite lookup_take_Some.
    intros [Hx Hi]. destruct (Hm i ltac:(lia)) as (y & Hy & Hy0). rewrite (Hok _ _ Hy Hy0) in Hx. congruence.
  - split; cbn.
    + split; [lia|]. destruct (Hm (Z.to_nat (c - 1)) ltac:(lia)) as (y & Hy & Hy0).
      specialize (Hend _ (ex_intro _ y (conj Hy Hy0))). lia.
    + by rewrite Hseq, wrapping_add_assoc.
    + split; [by rewrite !length_zdrop, Hlen|]. intros i x. unfold zdrop. rewrite !lookup_drop. intros Hx Hx0.
      rewrite (Hok _ _ Hx Hx0). do 2 f_equal. lia.
    + intros (x & Hx & Hx0). apply Hnm. exists x. unfold zdrop in Hx. rewrite lookup_drop, Nat.add_0_r in Hx. done.
    + intros i (x & Hx & Hx0). unfold zdrop in Hx. rewrite lookup_drop in Hx.
      specialize (Hend _ (ex_intro _ x (conj Hx Hx0))). lia.
  - intros k. unfold seen. cbn [present vec_drain vlist]. unfold marked, zdrop. setoid_rewrite lookup_drop. split.
    + intros [Hk|(Hk & x & Hx & Hx0)].
      * destruct (decide (k < n)); [by left|]. right. split; [lia|]. apply Hm. lia.
      * right. split; [lia|]. exists x. split; [|done].
        by replace (Z.to_nat (k - n)) with (Z.to_nat c + Z.to_nat (k - (n + c)))%nat by lia.
    + intros [Hk|(Hk & x & Hx & Hx0)]; [left; lia|]. destruct (decide (k < n + c)); [left; lia|].
      right. split; [lia|]. exists x. split; [|done].
      by replace (Z.to_nat c + Z.to_nat (k - (n + c)))%nat with (Z.to_nat (k - n)) by lia.
Qed.

Lemma vec_grow_list (v : vec Z) m :
  zlen (vlist v) <= m → vlist (vec_resize v m 0) = vlist v ++ zreplicate (m - zlen (vlist v)) 0.
Proof.
  intros Hm. unfold vec_resize. destruct (Z.leb_spec m (zlen (vlist v))); [|done]. cbn.
  replace m with (zlen (vlist v)) by lia. rewrite ztake_zlen, Z.sub_diag. cbn. by rewrite app_nil_r.
Qed.

(** Growing the window with absent slots. *)
Lemma grow_slots n h p m :
  slots_ok n h p → zlen h <= m →
  let h' := h ++ zreplicate (m - zlen h) 0 in
  let p' := p ++ zreplicate (m - zlen h) 0 in
  slots_ok n h' p' ∧ zlen p' = m ∧ ∀ i, marked p' i ↔ marked p i.
Proof.
  intros [Hl Hok] Hm h' p'. subst h' p'.
  assert (Hmark : ∀ i x, (p ++ zreplicate (m - zlen h) 0) !! i = Some x → x ≠ 0 → p !! i = Some x).
  { intros i x Hx Hx0. apply lookup_app_Some in Hx as [?|[_ Hx]]; [done|].
    apply lookup_replicate in Hx as [-> _]. done. }
  split_and!.
  - split; [by rewrite !length_app, Hl|]. intros i x Hx Hx0. apply Hmark in Hx; [|done].
    apply lookup_app_l_Some. eauto.
  - rewrite length_app, length_zreplicate. lia.
  - intros i. unfold marked. split; intros (x & Hx & Hx0); exists x; [eauto|].
    split; [|done]. by apply lookup_app_l_Some.
Qed.

Lemma grow_window n (h p : vec Z) m :
  slots_ok n (vlist h) (vlist p) →
  let h' := if zlen (vlist h) <? m then vec_resize h m 0 else h in
  let p' := if zlen (vlist h) <? m then vec_resize p m 0 else p in
  slots_ok n (vlist h') (vlist p') ∧ m <= zlen (vlist p') ∧ ∀ i, marked (vlist p') i ↔ marked (vlist p) i.
Proof.
  intros Hok h' p'. subst h' p'. pose proof Hok as [Hlen _].
  destruct (Z.ltb_spec (zlen (vlist h)) m) as [Hlt|Hge]; [|split_and!; [done|lia|done]].
  rewrite !vec_grow_list by lia. rewrite <- Hlen.
  destruct (grow_slots n (vlist h) (vlist p) m Hok ltac:(lia)) as (Hok' & Hl' & Hm). split_and!; [done|lia|done].
Qed.

(** What is left of a segment beyond what was delivered. *)
Lemma trim_segment n st off payload :
  inv n st → 0 <= off < 2 ^ 31 → payload = sent_slice off (zlen payload) → payload ≠ [] →
  match trim st (wrapping_add base off) payload with
  | None => off + zlen payload <= n
  | Some (slot, rest) => 0 <= slot ∧ rest = sent_slice (n + slot) (zlen rest) ∧
      n + slot = Z.max off n ∧ n + slot + zlen rest = off + zlen payload ∧ 0 < zlen rest
  end.
Proof.
  intros Hi Ho Hp Hne. unfold trim. rewrite (segment_delta n) by done.
  assert (0 < zlen payload) by (destruct payload; [done|]; cbn [length]; lia).
  destruct (Z.ltb_spec (off - n) 0).
  - destruct (Z.leb_spec (zlen payload) (Z.abs (off - n))); [lia|].
    rewrite Z.add_0_r. split_and!; [lia| |lia| |]; rewrite ?length_zdrop; try lia.
    replace n with (off + Z.abs (off - n)) at 2 by lia. rewrite <- length_zdrop. apply sent_slice_drop; [lia|done].
  - replace (n + (off - n)) with off by lia. split_and!; [lia|done|lia|lia|lia].
Qed.

(** One segment: what is delivered is the next bytes sent, and the offsets seen
    grow by exactly the segment's; or the window is exceeded and nothing
    changes. *)
Lemma feed_segment_inv n st off payload :
  inv n st → 0 <= off → off + zlen payload <= 2 ^ 31 → payload = sent_slice off (zlen payload) →
  match feed st (wrapping_add base off) payload with
  | (st', Ok out) => out = sent_slice n (zlen out) ∧ inv (n + zlen out) st' ∧
      ∀ k, seen (n + zlen out) st' k ↔ seen n st k ∨ off <= k < off + zlen payload
  | (st', Err e) => e = ReorderWindowExceeded ∧ st' = st
  end.
Proof.
  intros Hi Ho Hend Hp. unfold feed. case_bool_decide as Hne.
  { subst payload. cbn. rewrite Z.add_0_r. split_and!; [done..|]. intros k. split; [by left|]. intros [?|?]; [done|lia]. }
  assert (0 < zlen payload) by (destruct payload; [done|]; cbn [length]; lia).
  pose proof (trim_segment n st off payload Hi ltac:(lia) Hp Hne) as Ht.
  destruct (trim _ _ _) as [[slot rest]|].
  2: { cbn. rewrite Z.add_0_r. split_and!; [done..|]. intros k. unfold seen. split; [by left|]. intros [?|?]; [done|left; lia]. }
  destruct Ht as (Hs & Hr & Hmax & Hlast & Hpos). unfold checked_add.
  pose proof (inv_n _ _ Hi) as Hn0. rewrite (proj2 (Z.leb_le _ _)) by zlia. destruct (Z.ltb_spec TLS_REORDER_WINDOW_BYTES (slot + zlen rest)) as [Hw|Hw].
  - destruct (Z.eqb_spec slot 0) as [->|]; [|done]. case_bool_decide as Hh; [|done]. cbn [andb].
    destruct Hi as [Hn Hseq [Hlen Hok] Hhead He]. rewrite Z.add_0_r in *.
    assert (Hpe : vlist (present st) = []) by (apply length_zero_iff_nil; by rewrite <- Hlen, Hh).
    assert (Hnone : ∀ i, ¬ marked (vlist (present st)) i).
    { intros i (x & Hx & _). by rewrite Hpe, lookup_nil in Hx. }
    split_and!; [done| |].
    + split; cbn; [lia| | |done|by intros i []%Hnone].
      * rewrite wrap_u32_id by zlia. by rewrite Hseq, wrapping_add_assoc.
      * split; [done|]. intros i x Hx Hx0. destruct (Hnone i). by exists x.
    + intros k. unfold seen. cbn [present]. split.
      * intros [Hk|[_ []%Hnone]]. destruct (decide (k < n)); [by left; left|]. right. lia.
      * intros [[Hk|[_ []%Hnone]]|Hk]; left; lia.
  - destruct Hi as [Hn Hseq Hok Hhead He].
    destruct (grow_window n (held st) (present st) (slot + zlen rest) Hok) as (Hok' & Hlen' & Hmark).
    set (h := if zlen (vlist (held st)) <? slot + zlen rest then vec_resize (held st) (slot + zlen rest) 0 else held st) in *.
    set (p := if zlen (vlist (held st)) <? slot + zlen rest then vec_resize (present st) (slot + zlen rest) 0 else present st) in *.
    clearbody h p.
    destruct (write_slots_sent n slot rest h p Hs Hok' Hlen' Hr) as (h' & p' & -> & Hok2 & _ & Hm2).
    pose proof (deliver_inv n (st <| held := h' |> <| present := p' |>)) as Hd.
    destruct (deliver _) as [st' out]. cbn in Hd. destruct Hd as (Hout & Hinv & Hseen); [done..| |].
    { intros i [Hi|Hi]%Hm2; [apply He; by apply Hmark|]. lia. }
    split_and!; [done..|]. intros k. rewrite Hseen. unfold seen. cbn [present]. rewrite Hm2, Hmark. split.
    + intros [?|[? [?|?]]]; [by left; left|left; right; done|]. right. lia.
    + intros [[?|[? ?]]|Hk]; [by left|right; auto|]. destruct (decide (k < n)); [by left|]. right. split; [lia|].
      right. lia.
Qed.

(** Segments in the order they are captured. *)
Definition covers (segs : list (Z * bytes)) (k : Z) : Prop :=
  ∃ seg, seg ∈ segs ∧ seg.1 <= k < seg.1 + zlen seg.2.
Definition segment_ok (seg : Z * bytes) : Prop :=
  0 <= seg.1 ∧ seg.1 + zlen seg.2 <= 2 ^ 31 ∧ seg.2 = sent_slice seg.1 (zlen seg.2).

Fixpoint feed_all (st : t) (segs : list (Z * bytes)) : result TlsStreamError (list bytes) :=
  match segs with
  | [] => Ok []
  | (off, payload) :: segs' =>
      match feed st (wrapping_add base off) payload with
      | (_, Err e) => Err e
      | (st, Ok out) => let? outs := feed_all st segs' in Ok (out :: outs)
      end
  end.

Lemma seen_next n st : inv n st → ¬ seen n st n.
Proof. intros Hi [?|[_ Hm]]; [lia|]. rewrite Z.sub_diag in Hm. by apply (inv_head _ _ Hi). Qed.

Lemma feed_all_inv n st segs :
  inv n st → Forall segment_ok segs →
  match feed_all st segs with
  | Ok outs => ∃ n', n' = n + zlen (concat outs) ∧ concat outs = sent_slice n (zlen (concat outs)) ∧
      ¬ (seen n st n' ∨ covers segs n') ∧ ∀ k, n <= k < n' → seen n st k ∨ covers segs k
  | Err e => e = ReorderWindowExceeded
  end.
Proof.
  intros Hi Hs. revert n st Hi. induction Hs as [|[off payload] segs (Ho & He & Hp) _ IH]; intros n st Hi; cbn [feed_all].
  { exists n. cbn. split_and!; [lia|done| |lia]. intros [?|(? & []%not_elem_of_nil & _)]. by eapply seen_next. }
  pose proof (feed_segment_inv n st off payload Hi Ho He Hp) as Hf.
  destruct (feed _ _ _) as [st' [out|e]]; [|by destruct Hf]. destruct Hf as (Hout & Hi' & Hseen).
  specialize (IH _ _ Hi'). destruct (feed_all st' segs) as [outs|e]; [|done]. cbn [result_bind concat].
  destruct IH as (n' & -> & Hcat & Hn & Hk). exists (n + zlen (out ++ concat outs)).
  rewrite length_app. replace (n + Z.of_nat (length out + length (concat outs))) with (n + zlen out + zlen (concat outs)) in * by lia.
  split_and!; [done| | |].
  - rewrite Hout at 1. rewrite Hcat at 1. rewrite sent_slice_app by lia. f_equal. lia.
  - intros Hc. apply Hn. rewrite Hseen. destruct Hc as [?|(seg & [->|Hin]%elem_of_cons & Hc)]; [by left; left|by left; right|].
    right. by exists seg.
  - intros k Hk'. assert (Hlift : seen (n + zlen out) st' k ∨ covers segs k).
    { destruct (decide (k < n + zlen out)); [left; left; lia|]. apply Hk. lia. }
    destruct Hlift as [[?|?]%Hseen|(seg & Hin & Hc)]; [by left| |].
    + right. exists (off, payload). split; [left|done].
    + right. exists seg. split; [by right|done].
Qed.

Lemma inv_new_at : is_u32 base → inv 0 (new base).
Proof. intros Hb. pose proof inv_new as Hi. by rewrite (wrap_u32_id base Hb) in Hi. Qed.

Lemma not_seen_new k : 0 <= k → ¬ seen 0 (new base) k.
Proof. intros Hk [?|[_ (x & Hx & _)]]; [lia|]. cbn in Hx. by rewrite lookup_nil in Hx. Qed.

(** The TLS consumer puts one direction of a connection in order.  For
    segments cut anywhere from the bytes sent, in any order, retransmitted and
    overlapping, with sequence numbers wrapping past 2^32, as long as the
    reorder window is not exceeded (the only error possible): what is delivered
    in all is exactly the bytes sent from the first on, each once, up to the
    first byte no segment has carried. *)
Theorem tls_stream_in_order segs :
  is_u32 base → Forall segment_ok segs →
  match feed_all (new base) segs with
  | Ok outs => let n := zlen (concat outs) in
      concat outs = sent_slice 0 n ∧ ¬ covers segs n ∧ ∀ k, 0 <= k < n → covers segs k
  | Err e => e = ReorderWindowExceeded
  end.
Proof.
  intros Hb Hs. pose proof (feed_all_inv 0 _ segs (inv_new_at Hb) Hs) as Hf.
  destruct (feed_all _ _) as [outs|e]; [|done].
  destruct Hf as (n' & -> & Hcat & Hn & Hk). rewrite Z.add_0_l in *. split_and!; [done|tauto|].
  intros k Hk'. destruct (Hk k Hk') as [Hse|?]; [|done]. by destruct (not_seen_new k ltac:(lia)).
Qed.

(** *** Records of a direction *)

(** The records that come out of the segments. *)
Fixpoint feed_segments (st : TlsDirectionStream.t) (segs : list (Z * bytes)) : result TlsStreamError (list bytes) :=
  match segs with
  | [] => Ok []
  | (off, payload) :: segs' =>
      match TlsDirectionStream.feed_segment st (wrapping_add base off) payload with
      | (_, Err e) => Err e
      | (st, Ok out) => let? outs := feed_segments st segs' in Ok ((vlist <$> out) ++ outs)
      end
  end.

Lemma records_prefix rs recs held tl :
  Forall Framing.record rs → Forall Framing.record recs → Framing.partial held → concat rs = (concat recs ++ held) ++ tl →
  recs `prefix_of` rs ∧ (tl = [] → recs = rs).
Proof.
  intros Hrs Hrecs Hp. revert rs Hrs.
  induction Hrecs as [|r recs Hr _ IH]; intros rs Hrs E; cbn in E.
  - split; [apply prefix_nil|]. intros ->. rewrite app_nil_r in E. subst held.
    destruct Hrs as [|r rs Hr _]; [done|]. by destruct (Framing.record_not_partial r (concat rs)).
  - rewrite <- !app_assoc in E. destruct Hrs as [|r' rs Hr' Hrs]; cbn in E.
    { destruct Hr as [Hl Hb]. apply (f_equal length) in E. rewrite length_app in E. cbn in E. lia. }
    apply Framing.record_prefix_eq in E as [-> E]; [|done..].
    rewrite app_assoc in E. destruct (IH rs Hrs E) as [Hpre Hall].
    split; [by apply prefix_cons|]. intros Ht. by rewrite Hall.
Qed.
Section stream.
(** The side sends the whole records [rs] and nothing else. *)
Context (rs : list bytes).
Hypothesis rs_ok : Forall Framing.record rs.
Hypothesis rs_u8 : Forall is_u8 (concat rs).
Hypothesis rs_sent : concat rs = sent_slice 0 (zlen (concat rs)).

(** After [n] bytes: [recs] returned, the beginning of one more held. *)
Record dinv (n : Z) (recs : list bytes) (st : TlsDirectionStream.t) : Prop := {
  dinv_tcp : inv n (TlsDirectionStream.tcp st);
  dinv_seen : ∀ k, seen n (TlsDirectionStream.tcp st) k → k < zlen (concat rs);
  dinv_recs : Forall Framing.record recs;
  dinv_part : Framing.partial (vlist (TlsRecordFramer.buffer (TlsDirectionStream.records st)));
  dinv_cut : sent_slice 0 n = concat recs ++ vlist (TlsRecordFramer.buffer (TlsDirectionStream.records st))
}.

Lemma sent_prefix n : 0 <= n <= zlen (concat rs) → ∃ tl, concat rs = sent_slice 0 n ++ tl.
Proof.
  intros Hn. exists (sent_slice (0 + n) (zlen (concat rs) - n)). rewrite sent_slice_app by lia.
  rewrite rs_sent at 1. f_equal. lia.
Qed.

Lemma seen_limit n st : inv n st → (∀ k, seen n st k → k < zlen (concat rs)) → 0 <= n <= zlen (concat rs).
Proof.
  intros Hi Hs. pose proof (inv_n _ _ Hi). destruct (decide (n = 0)); [lia|].
  assert (n - 1 < zlen (concat rs)) by (apply Hs; left; lia). lia.
Qed.

Lemma dinv_new : is_u32 base → dinv 0 [] (TlsDirectionStream.new base).
Proof.
  intros Hb. split; cbn; [by apply inv_new_at| |constructor|apply Framing.partial_nil|done].
  intros k Hk. destruct (decide (0 <= k)); [by destruct (not_seen_new k)|lia].
Qed.

Lemma direction_step n recs st off payload :
  dinv n recs st → segment_ok (off, payload) → off + zlen payload <= zlen (concat rs) →
  match TlsDirectionStream.feed_segment st (wrapping_add base off) payload with
  | (st', Ok out) => ∃ n', dinv n' (recs ++ (vlist <$> out)) st' ∧
      ∀ k, seen n' (TlsDirectionStream.tcp st') k ↔
           seen n (TlsDirectionStream.tcp st) k ∨ off <= k < off + zlen payload
  | (st', Err e) => e = ReorderWindowExceeded ∧ st' = st
  end.
Proof.
  intros [Hi Hlim Hrec Hpt Hg] (Ho & He & Hp) Hin. cbn [fst snd] in *.
  pose proof (feed_segment_inv n _ off payload Hi Ho He Hp) as Hf.
  unfold TlsDirectionStream.feed_segment. destruct (feed _ _ _) as [tcp [out|e]].
  2: { destruct Hf as [-> ->]. by destruct st. }
  destruct Hf as (Hout & Hi' & Hseen). pose proof (inv_n _ _ Hi) as Hn0.
  assert (Hlim' : ∀ k, seen (n + zlen out) tcp k → k < zlen (concat rs)).
  { intros k [Hk|Hk]%Hseen; [auto|lia]. }
  destruct (sent_prefix _ (seen_limit _ _ Hi' Hlim')) as [tl Htl].
  assert (Hcut : sent_slice 0 (n + zlen out)
    = concat recs ++ vlist (TlsRecordFramer.buffer (TlsDirectionStream.records st)) ++ out).
  { rewrite <- sent_slice_app by lia. rewrite Z.add_0_l, <- Hout, Hg. by rewrite app_assoc. }
  assert (Hu : Forall is_u8 (vlist (TlsRecordFramer.buffer (TlsDirectionStream.records st)) ++ out)).
  { rewrite Htl, Hcut in rs_u8. apply Forall_app in rs_u8 as [Hu _]. by apply Forall_app in Hu as [_ Hu]. }
  destruct (Framing.feed_frames _ out Hpt Hu) as (buf & r & -> & Hfr). destruct r as [out'|e]; cbn in Hfr; cbn [map_err].
  - destruct Hfr as (new_ & -> & Hnew & Hrec' & Hpt'). exists (n + zlen out).
    split; [|done]. split; cbn; [done..|by apply Forall_app|done|].
    rewrite Hcut, Hnew, concat_app. by rewrite <- !app_assoc.
  - destruct Hfr as (_ & _ & new_ & h & tl' & Hg' & Hrec' & Hov). exfalso.
    apply (Framing.no_oversized rs [] (recs ++ new_) h (tl' ++ tl)); [done|apply Framing.partial_nil|by apply Forall_app|done|].
    rewrite app_nil_r, Htl, Hcut, Hg', concat_app, <- !app_assoc. done.
Qed.

Lemma feed_segments_inv n recs st segs :
  dinv n recs st → Forall (λ seg, segment_ok seg ∧ seg.1 + zlen seg.2 <= zlen (concat rs)) segs →
  match feed_segments st segs with
  | Ok out => ∃ n' st', dinv n' (recs ++ out) st' ∧
      ∀ k, seen n' (TlsDirectionStream.tcp st') k ↔ seen n (TlsDirectionStream.tcp st) k ∨ covers segs k
  | Err e => e = ReorderWindowExceeded
  end.
Proof.
  intros Hi Hs. revert n recs st Hi. induction Hs as [|[off payload] segs [Hok Hin] _ IH]; intros n recs st Hi;
    cbn [feed_segments].
  { exists n, st. rewrite app_nil_r. split; [done|]. intros k. split; [by left|].
    intros [?|(? & []%not_elem_of_nil & _)]; done. }
  pose proof (direction_step n recs st off payload Hi Hok Hin) as Hd.
  destruct (TlsDirectionStream.feed_segment _ _ _) as [st' [out|e]]; [|by destruct Hd].
  destruct Hd as (n' & Hi' & Hseen). specialize (IH _ _ _ Hi').
  destruct (feed_segments st' segs) as [outs|e]; [|done]. cbn [result_bind].
  destruct IH as (n2 & st2 & Hi2 & Hseen2). exists n2, st2. rewrite app_assoc. split; [done|].
  intros k. rewrite Hseen2, Hseen. unfold covers. setoid_rewrite elem_of_cons. split.
  - intros [[?|?]|(seg & ? & ?)]; [by left|right; exists (off, payload)|right; exists seg]; auto.
  - intros [?|(seg & [->|?] & ?)]; [by left; left|by left; right|right; by exists seg].
Qed.

End stream.

(** C4: From captured segments to TLS records.  One side sends a sequence of
    whole records; segments cut anywhere from its bytes arrive in any order,
    duplicated and overlapping.  The reorder window aside (the only error
    possible), [feed_segment] returns records of that sequence in their order,
    each at most once and none invented; and all of them as soon as the
    segments together carry every byte. *)
Theorem tls_direction_records rs segs :
  is_u32 base → Forall Framing.record rs → Forall is_u8 (concat rs) →
  concat rs = sent_slice 0 (zlen (concat rs)) →
  Forall (λ seg, segment_ok seg ∧ seg.1 + zlen seg.2 <= zlen (concat rs)) segs →
  match feed_segments (TlsDirectionStream.new base) segs with
  | Ok recs => recs `prefix_of` rs ∧ ((∀ k, 0 <= k < zlen (concat rs) → covers segs k) → recs = rs)
  | Err e => e = ReorderWindowExceeded
  end.
Proof.
  intros Hb Hrs Hu Hsent Hs.
  pose proof (feed_segments_inv rs Hrs Hu Hsent 0 [] _ segs (dinv_new rs Hb) Hs) as Hf.
  destruct (feed_segments _ _) as [recs|e]; [|done].
  destruct Hf as (n & st & [Hi Hlim Hrec Hpt Hcut] & Hseen). cbn [app] in *.
  destruct (sent_prefix rs Hsent n (seen_limit rs n _ Hi Hlim)) as [tl Htl].
  pose proof (f_equal length Htl) as Hlen. rewrite length_app, length_sent_slice in Hlen.
  rewrite Hcut in Htl. destruct (records_prefix rs recs _ tl Hrs Hrec Hpt Htl) as [Hpre Hall].
  split; [done|]. intros Hcov. apply Hall, length_zero_iff_nil.
  destruct (decide (n < zlen (concat rs))); [|lia]. exfalso. apply (seen_next _ _ Hi), Hseen. right.
  apply Hcov. pose proof (inv_n _ _ Hi). lia.
Qed.
End ordering.
End Ordering.

(** Three records cut into four overlapping segments, out of order, over the
    wrap of the sequence numbers. *)
Definition sample_sent (k : Z) : Z := default 0 (nth_z (concat sample_records) k).
Definition sample_segments : list (Z * bytes) :=
  [(7, Ordering.sent_slice sample_sent 7 6); (0, Ordering.sent_slice sample_sent 0 3);
   (12, Ordering.sent_slice sample_sent 12 6); (2, Ordering.sent_slice sample_sent 2 6)].

Lemma sample_segments_ok :
  Forall (λ seg, Ordering.segment_ok sample_sent seg ∧ seg.1 + zlen seg.2 <= zlen (concat sample_records)) sample_segments.
Proof. repeat constructor; vm_compute; congruence. Qed.

Lemma sample_segments_cover k :
  0 <= k < zlen (concat sample_records) → Ordering.covers sample_segments k.
Proof.
  intros Hk. change (zlen (concat sample_records)) with 18 in Hk. unfold Ordering.covers, sample_segments.
  destruct (decide (k < 3)); [|destruct (decide (k < 8)); [|destruct (decide (k < 13))]];
    [exists (0, Ordering.sent_slice sample_sent 0 3)|exists (2, Ordering.sent_slice sample_sent 2 6)
    |exists (7, Ordering.sent_slice sample_sent 7 6)|exists (12, Ordering.sent_slice sample_sent 12 6)];
    (split; [repeat (first [apply list_elem_of_here|apply list_elem_of_further])|]); cbn [fst snd];
    rewrite Ordering.length_sent_slice; lia.
Qed.

Lemma tls_stream_in_order_witness :
  match Ordering.feed_all 4294967290 (TlsTcpStream.new 4294967290) sample_segments with
  | Ok outs => concat outs = concat sample_records
  | Err e => False
  end ∧
  match Ordering.feed_all 4294967290 (TlsTcpStream.new 4294967290) sample_segments with
  | Ok outs => let n := zlen (concat outs) in
      concat outs = Ordering.sent_slice sample_sent 0 n ∧ ¬ Ordering.covers sample_segments n ∧
      ∀ k, 0 <= k < n → Ordering.covers sample_segments k
  | Err e => e = ReorderWindowExceeded
  end.
Proof.
  split; [vm_compute; reflexivity|].
  apply (Ordering.tls_stream_in_order sample_sent 4294967290 sample_segments); [width; lia|].
  eapply Forall_impl; [exact sample_segments_ok|]. intros ? [Hok _]. exact Hok.
Defined.

Lemma tls_direction_records_witness :
  Ordering.feed_segments 4294967290 (TlsDirectionStream.new 4294967290) sample_segments = Ok sample_records ∧
  match Ordering.feed_segments 4294967290 (TlsDirectionStream.new 4294967290) sample_segments with
  | Ok recs => recs `prefix_of` sample_records ∧
      ((∀ k, 0 <= k < zlen (concat sample_records) → Ordering.covers sample_segments k) → recs = sample_records)
  | Err e => e = ReorderWindowExceeded
  end.
Proof.
  split; [vm_compute; reflexivity|].
  apply (Ordering.tls_direction_records sample_sent 4294967290 sample_records sample_segments);
    [width; lia| |u8s|reflexivity|exact sample_segments_ok].
  repeat constructor; vm_compute; congruence.
Defined.

(** A retransmission that disagrees with a byte still held is refused, not
    resolved in favour of the first copy. *)
Example conflicting_overlap_refused :
  let st := (TlsTcpStream.feed (TlsTcpStream.new 100) 102 [7; 8]).1 in
  (TlsTcpStream.feed st 101 [1; 9]).2 = Err ConflictingOverlap.
Proof. reflexivity. Qed.
