(* ===== verification/Frames.v ===== *)
(** * Length-prefixed frames

    What the incremental parsers of handshake messages and of HTTP/2 frames
    share: a stream of whole frames followed by the beginning of one more, cut
    anywhere, splits into the frames that are complete and a beginning. *)

From S2P Require Import Prelude.

Section frames.
(** The size of the frame some bytes begin with, once they show it; a frame on
    the wire; the largest frame accepted. *)
Context {M : Type} (frame_len : bytes → option Z) (wire : M → bytes) (cap : Z).

(** Bytes that hold no whole frame yet. *)
Definition incomplete (p : bytes) : Prop :=
  frame_len p = None ∨ ∃ len, frame_len p = Some len ∧ len <= cap ∧ zlen p < len.

Hypothesis frame_len_wire : ∀ m k, frame_len (wire m ++ k) = Some (zlen (wire m)).
Hypothesis frame_len_prefix : ∀ p k len, frame_len p = Some len → frame_len (p ++ k) = Some len.

Lemma incomplete_prefix p k : incomplete (p ++ k) → incomplete p.
Proof.
  intros Hi. destruct (frame_len p) as [len|] eqn:E; [|by left]. right. exists len.
  destruct Hi as [Hi|(len' & Hl & Hm & Hz)]; rewrite (frame_len_prefix _ _ _ E) in *; [done|].
  simplify_eq. rewrite length_app in Hz. split_and!; [done|done|lia].
Qed.

Lemma wire_prefix_incomplete p k m : wire m = p ++ k → k ≠ [] → zlen (wire m) <= cap → incomplete p.
Proof.
  intros E Hk Hm. destruct (frame_len p) as [len|] eqn:El; [|by left]. right. exists len.
  pose proof (frame_len_prefix _ k _ El) as Hl. rewrite <- E in Hl.
  pose proof (frame_len_wire m []) as Hl'. rewrite app_nil_r in Hl'. rewrite Hl in Hl'. simplify_eq.
  split_and!; [done|done|]. rewrite E, length_app. destruct k; [done|]. cbn [length]. lia.
Qed.

Lemma wire_complete m k : ¬ incomplete (wire m ++ k).
Proof.
  intros [Hi|(len & Hi & _ & Hl)]; rewrite frame_len_wire in Hi; [done|]. simplify_eq. rewrite length_app in Hl. lia.
Qed.

(** What a beginning of the stream holds. *)
Lemma prefix_split L ms rest b k :
  Forall (λ m, zlen (wire m) <= L) ms → L <= cap → zlen rest <= L → incomplete rest →
  concat (wire <$> ms) ++ rest = b ++ k →
  ∃ ms1 ms2 p, ms = ms1 ++ ms2 ∧ b = concat (wire <$> ms1) ++ p ∧ incomplete p ∧ zlen p <= L ∧
    concat (wire <$> ms2) ++ rest = p ++ k.
Proof.
  intros Hm. revert b. induction Hm as [|m ms Hm1 Hm IH]; intros b HL Hr Hi E.
  - exists [], [], b. cbn in E. subst rest. rewrite length_app in Hr.
    split_and!; try done; [by eapply incomplete_prefix|lia].
  - cbn [fmap list_fmap concat] in E. rewrite <- app_assoc in E.
    destruct (decide (zlen b < zlen (wire m))) as [Hlt|Hge].
    + exists [], (m :: ms), b. cbn [fmap list_fmap concat app].
      assert (∃ k', wire m = b ++ k' ∧ k' ≠ []) as (k' & Hk & Hne).
      { exists (drop (length b) (wire m)). split.
        - rewrite <- (take_drop (length b) (wire m)) at 1. f_equal.
          apply (f_equal (take (length b))) in E. rewrite (take_app_le (wire m)), take_app_length in E by lia. done.
        - intros Hn. apply (f_equal length) in Hn. rewrite length_drop in Hn. change (length []) with 0%nat in Hn. lia. }
      split_and!; try done; [eapply wire_prefix_incomplete; [done..|lia]|lia|by rewrite <- app_assoc].
    + assert (∃ b', b = wire m ++ b') as [b' ->].
      { exists (drop (length (wire m)) b). rewrite <- (take_drop (length (wire m)) b) at 1. f_equal.
        apply (f_equal (take (length (wire m)))) in E. rewrite take_app_length, (take_app_le b) in E by lia. done. }
      rewrite <- app_assoc in E. apply app_inv_head in E.
      destruct (IH b' HL Hr Hi E) as (ms1 & ms2 & p & -> & -> & H3 & H4 & H5).
      exists (m :: ms1), ms2, p. cbn [fmap list_fmap concat app]. rewrite <- app_assoc. by split_and!.
Qed.
End frames.
