(* ===== verification/TlsHandshake.v ===== *)
(** * TLS handshake messages

    [capture-agent/src/tls_handshake.rs]: the parser that cuts a direction's
    handshake bytes into messages and reads the few facts the decryption needs
    from them. *)

From S2P Require Import Prelude Frames.

Definition MAX_HANDSHAKE_BUFFER : Z := 64 * 1024.

Definition HRR_RANDOM : bytes :=
  [207; 33; 173; 116; 229; 154; 97; 17; 190; 29; 140; 2; 30; 101; 184; 145;
   194; 162; 17; 22; 122; 187; 140; 94; 7; 158; 9; 226; 200; 168; 51; 156].

Inductive HandshakeEvent :=
| ClientHello (early_data : bool)
| ServerHello (cipher_suite : Z) (hello_retry_request tls13 : bool)
| Finished
| KeyUpdate (request_update : bool)
| OtherMessage.

Inductive HandshakeParseError := BufferTooLarge | MalformedMessage.

Abbreviation parsed := (result HandshakeParseError).

Definition read_u16 (b : bytes) (pos : Z) : parsed Z :=
  match slice b pos (pos + 2) with
  | Some [hi; lo] => Ok (be16 hi lo)
  | _ => Err MalformedMessage
  end.

Definition get (b : bytes) (pos : Z) : parsed Z := ok_or (nth_z b pos) MalformedMessage.

(** The extension walk both hellos share: [step] reads one extension into the
    flag.  Every turn takes four bytes or more. *)
Section extensions.
Context (step : bool → Z → bytes → parsed bool).

Fixpoint walk_extensions (fuel : nat) (extensions : bytes) (cursor : Z) (flag : bool) : parsed bool :=
  match fuel with
  | O => Err MalformedMessage
  | S fuel' =>
      if cursor <? zlen extensions then
        match slice extensions cursor (cursor + 4) with
        | Some [k1; k2; l1; l2] =>
            let len := be16 l1 l2 in
            let cursor := cursor + 4 in
            let? value := ok_or (slice extensions cursor (cursor + len)) MalformedMessage in
            let? flag := step flag (be16 k1 k2) value in
            walk_extensions fuel' extensions (cursor + len) flag
        | _ => Err MalformedMessage
        end
      else Ok flag
  end.
End extensions.

Definition early_data_step (early_data : bool) (kind : Z) (value : bytes) : parsed bool :=
  if kind =? 42 then (if zlen value =? 0 then Ok true else Err MalformedMessage) else Ok early_data.

Definition tls13_step (tls13 : bool) (kind : Z) (value : bytes) : parsed bool :=
  if kind =? 43 then Ok (bool_decide (value = [3; 4])) else Ok tls13.

Definition parse_client_hello (body : bytes) : parsed HandshakeEvent :=
  if zlen body <? 34 then Err MalformedMessage
  else
    let pos := 34 in
    let? session_len := get body pos in
    let pos := pos + (1 + session_len) in
    let? cipher_len := read_u16 body pos in
    let pos := pos + (2 + cipher_len) in
    let? compression_len := get body pos in
    let pos := pos + (1 + compression_len) in
    let? ext_len := read_u16 body pos in
    let pos := pos + 2 in
    let? extensions := ok_or (slice body pos (pos + ext_len)) MalformedMessage in
    if negb (pos + ext_len =? zlen body) then Err MalformedMessage
    else
      let? early_data := walk_extensions early_data_step (S (length extensions)) extensions 0 false in
      Ok (ClientHello early_data).

Definition parse_server_hello (body : bytes) : parsed HandshakeEvent :=
  if zlen body <? 38 then Err MalformedMessage
  else
    let hrr := bool_decide (slice body 2 34 = Some HRR_RANDOM) in
    let pos := 34 in
    let? session_len := get body pos in
    let pos := pos + (1 + session_len) in
    let? cipher_suite := read_u16 body pos in
    let pos := pos + 2 in
    let? _compression := get body pos in
    let pos := pos + 1 in
    let? tls13 :=
      if pos <? zlen body then
        let? ext_len := read_u16 body pos in
        let pos := pos + 2 in
        let end_ := pos + ext_len in
        let? extensions := ok_or (slice body pos end_) MalformedMessage in
        if negb (end_ =? zlen body) then Err MalformedMessage
        else walk_extensions tls13_step (S (length extensions)) extensions 0 false
      else Ok false in
    Ok (ServerHello cipher_suite hrr tls13).

Definition parse_message (kind : Z) (body : bytes) : parsed HandshakeEvent :=
  if kind =? 1 then parse_client_hello body
  else if kind =? 2 then parse_server_hello body
  else if kind =? 20 then Ok Finished
  else if kind =? 24 then
    match body with
    | [b] => if b <=? 1 then Ok (KeyUpdate (b =? 1)) else Err MalformedMessage
    | _ => Err MalformedMessage
    end
  else Ok OtherMessage.

Module TlsHandshakeParser.
Record t := mk { buffer : vec Z }.
Definition new : t := mk vec_new.
Definition bytes_held (st : t) : Z := vcap (buffer st).

(** The length of the message the bytes begin with, once its header is there. *)
Definition message_len (b : bytes) : option Z :=
  match b with _ :: b1 :: b2 :: b3 :: _ => Some (4 + ((b1 * 256 + b2) * 256 + b3)) | _ => None end.

(** The loop, on what is left of the buffer; every turn takes a message.  The
    outer option is the fuel. *)
Fixpoint feed_loop (fuel : nat) (rest : bytes) (events : list HandshakeEvent)
    : option (parsed (bytes * list HandshakeEvent)) :=
  match fuel with
  | O => None
  | S fuel' =>
      match message_len rest with
      | None => Some (Ok (rest, events))
      | Some len =>
          if MAX_HANDSHAKE_BUFFER <? len then Some (Err BufferTooLarge)
          else if zlen rest <? len then Some (Ok (rest, events))
          else
            match parse_message (default 0 (nth_z rest 0)) (ztake (len - 4) (zdrop 4 rest)) with
            | Ok event => feed_loop fuel' (zdrop len rest) (events ++ [event])
            | Err error => Some (Err error)
            end
      end
  end.

Definition feed `{VecPolicy} (st : t) (input : bytes) : t * parsed (list HandshakeEvent) :=
  if MAX_HANDSHAKE_BUFFER <? sat_add (zlen (vlist (buffer st))) (zlen input) then
    (mk vec_new, Err BufferTooLarge)
  else
    let buf := vec_extend (buffer st) input in
    match feed_loop (S (length (vlist buf))) (vlist buf) [] with
    | Some (Ok (rest, events)) => (mk (mkVec rest (vcap buf)), Ok events)
    | Some (Err e) => (mk vec_new, Err e)
    | None => (mk buf, Ok [])
    end.
End TlsHandshakeParser.

(** ** Messages and chunks *)

Module Chunking.
Import TlsHandshakeParser.

(** A handshake message on the wire: its type, a 24-bit length, its body. *)
Definition message (m : Z * bytes) : bytes :=
  m.1 :: zlen m.2 / 65536 :: (zlen m.2 / 256) mod 256 :: zlen m.2 mod 256 :: m.2.

Abbreviation incomplete := (incomplete message_len MAX_HANDSHAKE_BUFFER).

Lemma length_message m : zlen (message m) = 4 + zlen m.2.
Proof. cbn [message length]. lia. Qed.

Lemma message_len_message m k : message_len (message m ++ k) = Some (zlen (message m)).
Proof.
  rewrite length_message. unfold message. cbn [app message_len]. do 2 f_equal.
  set (n := zlen m.2). pose proof (Z.div_mod n 256 ltac:(lia)). pose proof (Z.div_mod (n / 256) 256 ltac:(lia)) as Hd.
  rewrite Z.div_div in Hd by lia. change (256 * 256) with 65536 in Hd. lia.
Qed.

Lemma message_len_prefix p k len : message_len p = Some len → message_len (p ++ k) = Some len.
Proof. by destruct p as [|? [|? [|? [|? ?]]]]. Qed.

(** Whole messages, then an incomplete one. *)
Lemma feed_loop_messages fuel ms es p evs :
  Forall2 (λ m e, parse_message m.1 m.2 = Ok e) ms es →
  Forall (λ m, zlen (message m) <= MAX_HANDSHAKE_BUFFER) ms → incomplete p →
  (length (concat (message <$> ms) ++ p) < fuel)%nat →
  feed_loop fuel (concat (message <$> ms) ++ p) evs = Some (Ok (p, evs ++ es)).
Proof.
  intros Hf. revert fuel evs. induction Hf as [|m e ms es He _ IH]; intros fuel evs Hm Hp Hl.
  - destruct fuel as [|fuel]; [lia|]. cbn [fmap list_fmap concat app feed_loop]. rewrite app_nil_r.
    destruct Hp as [->|(len & -> & Hmax & Hlt)]; [done|].
    rewrite (proj2 (Z.ltb_ge _ _)), (proj2 (Z.ltb_lt _ _)) by lia. done.
  - apply Forall_cons in Hm as [Hm1 Hm]. cbn [fmap list_fmap concat] in *. rewrite <- app_assoc in *.
    destruct fuel as [|fuel]; [lia|]. cbn [feed_loop]. rewrite message_len_message.
    set (tl := concat (message <$> ms) ++ p) in *. rewrite length_app in Hl.
    rewrite !(proj2 (Z.ltb_ge _ _)) by (rewrite ?length_app; lia).
    change (default 0 (nth_z (message m ++ tl) 0)) with m.1.
    replace (ztake (zlen (message m) - 4) (zdrop 4 (message m ++ tl))) with m.2.
    2: { rewrite length_message. replace (4 + zlen m.2 - 4) with (zlen m.2) by lia.
         change (zdrop 4 (message m ++ tl)) with (m.2 ++ tl). by rewrite ztake_app. }
    rewrite He, zdrop_app. rewrite IH; [by rewrite <- app_assoc|done|done|].
    pose proof (length_message m). lia.
Qed.

Section feed.
Context `{VecPolicy}.

Fixpoint feed_chunks (st : t) (chunks : list bytes) : t * parsed (list HandshakeEvent) :=
  match chunks with
  | [] => (st, Ok [])
  | c :: chunks' =>
      match feed st c with
      | (st, Err e) => (st, Err e)
      | (st, Ok es) => let '(st, r) := feed_chunks st chunks' in (st, let? es' := r in Ok (es ++ es'))
      end
  end.

(** One chunk of the stream. *)
Lemma feed_prefix L ms es rest st c k :
  Forall2 (λ m e, parse_message m.1 m.2 = Ok e) ms es →
  Forall (λ m, zlen (message m) <= L) ms → L + zlen c <= MAX_HANDSHAKE_BUFFER → zlen rest <= L → incomplete rest →
  zlen (vlist (buffer st)) <= L →
  concat (message <$> ms) ++ rest = vlist (buffer st) ++ c ++ k →
  ∃ st' ms2 es1 es2, feed st c = (st', Ok es1) ∧ es = es1 ++ es2 ∧
    Forall2 (λ m e, parse_message m.1 m.2 = Ok e) ms2 es2 ∧ Forall (λ m, zlen (message m) <= L) ms2 ∧
    incomplete (vlist (buffer st')) ∧ zlen (vlist (buffer st')) <= L ∧
    concat (message <$> ms2) ++ rest = vlist (buffer st') ++ k.
Proof.
  intros Hf Hm HL Hr Hi Hb E. rewrite app_assoc in E.
  destruct (prefix_split message_len message MAX_HANDSHAKE_BUFFER message_len_message message_len_prefix L ms rest _ k Hm ltac:(lia) Hr Hi E)
    as (ms1 & ms2 & p & -> & Hbuf & H3 & H4 & H5).
  apply Forall2_app_inv_l in Hf as (es1 & es2 & H1 & H2 & ->). apply Forall_app in Hm as [Hm1 Hm2]. unfold feed.
  rewrite (proj2 (Z.ltb_ge _ _)) by (unfold MAX_HANDSHAKE_BUFFER in *; zlia).
  cbn [vec_extend vlist]. rewrite Hbuf.
  rewrite (feed_loop_messages _ ms1 es1 p []); [| done| |done|lia].
  2: { eapply Forall_impl; [exact Hm1|]. intros m Hml. cbn in *. lia. }
  by eexists _, ms2, es1, es2.
Qed.

(** The handshake parser does not depend on how its bytes arrive.  A
    sequence of handshake messages the parser accepts one by one, followed by
    the beginning of another, cut into chunks anywhere (as long as a message
    and a chunk fit the buffer together), gives exactly the messages' events in
    order, and keeps exactly that beginning. *)
Theorem handshake_chunking L ms es rest chunks :
  Forall2 (λ m e, parse_message m.1 m.2 = Ok e) ms es →
  Forall (λ m, zlen (message m) <= L) ms → zlen rest <= L → incomplete rest →
  Forall (λ c, L + zlen c <= MAX_HANDSHAKE_BUFFER) chunks →
  concat chunks = concat (message <$> ms) ++ rest →
  ∃ st, feed_chunks new chunks = (st, Ok es) ∧ vlist (buffer st) = rest.
Proof.
  intros Hf Hm Hr Hi Hc E.
  assert (Hgo : ∀ ms es st, Forall2 (λ m e, parse_message m.1 m.2 = Ok e) ms es →
    Forall (λ m, zlen (message m) <= L) ms → incomplete (vlist (buffer st)) → zlen (vlist (buffer st)) <= L →
    concat (message <$> ms) ++ rest = vlist (buffer st) ++ concat chunks →
    ∃ st', feed_chunks st chunks = (st', Ok es) ∧ vlist (buffer st') = rest).
  { clear E Hf Hm ms es. induction Hc as [|c chunks Hc _ IH]; intros ms es st Hf Hm Hb Hbl E; cbn [concat] in E.
    - rewrite app_nil_r in E. destruct Hf as [|m e ms es _ _]; [by exists st|]. exfalso.
      apply Forall_cons in Hm as [Hm _]. cbn [fmap list_fmap concat] in E. rewrite <- app_assoc in E.
      rewrite <- E in Hb. by apply wire_complete in Hb; [|exact message_len_message].
    - destruct (feed_prefix L ms es rest st c (concat chunks) Hf Hm Hc Hr Hi Hbl E)
        as (st' & ms2 & es1 & es2 & Hfeed & -> & H2 & Hm2 & Hp & Hpl & E').
      destruct (IH ms2 es2 st' H2 Hm2 Hp Hpl E') as (st2 & Hrest & Hbuf).
      exists st2. cbn [feed_chunks]. by rewrite Hfeed, Hrest. }
  apply (Hgo ms es new Hf Hm); [by left|cbn; lia|by rewrite E].
Qed.
End feed.
End Chunking.

(** ** Hellos *)

Module Hello.

Lemma slice_at (a b c : bytes) i j : i = zlen a → j = i + zlen b → slice (a ++ b ++ c) i j = Some b.
Proof.
  intros -> ->. unfold slice. rewrite !length_app.
  rewrite (proj2 (Z.leb_le _ _)), (proj2 (Z.leb_le _ _)) by lia. cbn [andb].
  rewrite zdrop_app. replace (zlen a + zlen b - zlen a) with (zlen b) by lia. by rewrite ztake_app.
Qed.

Lemma slice_at_end (a b : bytes) i j : i = zlen a → j = i + zlen b → slice (a ++ b) i j = Some b.
Proof. intros Hi Hj. pose proof (slice_at a b [] i j Hi Hj) as Hs. by rewrite app_nil_r in Hs. Qed.

Lemma get_at (a c : bytes) x i : i = zlen a → get (a ++ x :: c) i = Ok x.
Proof.
  intros ->. unfold get, nth_z. rewrite Nat2Z.id, lookup_app_r, Nat.sub_diag by lia. done.
Qed.

Definition u16 (n : Z) : bytes := [n / 256; n mod 256].

Lemma be16_u16 n : be16 (n / 256) (n mod 256) = n.
Proof. unfold be16. pose proof (Z.div_mod n 256 ltac:(lia)). lia. Qed.

Lemma read_u16_at (a c : bytes) n i : i = zlen a → read_u16 (a ++ u16 n ++ c) i = Ok n.
Proof. intros ->. unfold read_u16. rewrite (slice_at a (u16 n) c) by done. cbn. by rewrite be16_u16. Qed.

Definition extension (e : Z * bytes) : bytes := u16 e.1 ++ u16 (zlen e.2) ++ e.2.
Definition extensions (es : list (Z * bytes)) : bytes := concat (extension <$> es).

(** The extensions in order, the reference for the walk. *)
Fixpoint fold_extensions (step : bool → Z → bytes → parsed bool) (flag : bool) (es : list (Z * bytes)) : parsed bool :=
  match es with
  | [] => Ok flag
  | e :: es' => let? flag := step flag e.1 e.2 in fold_extensions step flag es'
  end.

Lemma length_extension e : zlen (extension e) = 4 + zlen e.2.
Proof. unfold extension. rewrite !length_app. cbn [u16 length]. lia. Qed.

Lemma walk_extensions_fold step es pre fuel flag :
  (length (extensions es) < fuel)%nat →
  walk_extensions step fuel (pre ++ extensions es) (zlen pre) flag = fold_extensions step flag es.
Proof.
  revert pre fuel flag. induction es as [|e es IH]; intros pre fuel flag Hf; (destruct fuel as [|fuel]; [lia|]);
    cbn [walk_extensions fold_extensions].
  { unfold extensions. cbn. rewrite app_nil_r, Z.ltb_irrefl. done. }
  unfold extensions in *. cbn [fmap list_fmap concat] in *. rewrite length_app in Hf. pose proof (length_extension e) as Hl.
  rewrite (proj2 (Z.ltb_lt _ _)) by (rewrite !length_app; lia).
  set (tl := concat (extension <$> es)) in *. unfold extension in Hl |- *.
  rewrite <- !app_assoc, (app_assoc (u16 e.1) (u16 (zlen e.2))).
  rewrite (slice_at pre (u16 e.1 ++ u16 (zlen e.2))) by (cbn; lia). cbn [u16 app].
  rewrite !be16_u16.
  change (e.1 / 256 :: e.1 mod 256 :: zlen e.2 / 256 :: zlen e.2 mod 256 :: e.2 ++ tl)
    with ((u16 e.1 ++ u16 (zlen e.2)) ++ e.2 ++ tl). rewrite app_assoc.
  rewrite (slice_at (pre ++ u16 e.1 ++ u16 (zlen e.2)) e.2 tl) by (rewrite ?length_app; cbn [u16 length]; lia).
  cbn [ok_or result_bind]. destruct (step _ _ _) as [flag'|]; [|done]. cbn [result_bind].
  rewrite app_assoc.
  replace (zlen pre + 4 + zlen e.2) with (zlen ((pre ++ u16 e.1 ++ u16 (zlen e.2)) ++ e.2))
    by (rewrite !length_app; cbn [u16 length]; lia).
  apply IH. change (extension e) with (u16 e.1 ++ u16 (zlen e.2) ++ e.2) in Hf. lia.
Qed.

(** A hello as the protocol lays it out. *)
Record client := mkClient {
  c_version_random : bytes; c_session : bytes; c_ciphers : bytes; c_compression : bytes; c_exts : list (Z * bytes)
}.
Definition client_body (c : client) : bytes :=
  c_version_random c ++ zlen (c_session c) :: c_session c ++ u16 (zlen (c_ciphers c)) ++ c_ciphers c
    ++ zlen (c_compression c) :: c_compression c ++ u16 (zlen (extensions (c_exts c))) ++ extensions (c_exts c).

Record server := mkServer {
  s_version : bytes; s_random : bytes; s_session : bytes; s_cipher : Z; s_compression : Z; s_exts : list (Z * bytes)
}.
Definition server_body (s : server) : bytes :=
  s_version s ++ s_random s ++ zlen (s_session s) :: s_session s ++ u16 (s_cipher s) ++ s_compression s
    :: u16 (zlen (extensions (s_exts s))) ++ extensions (s_exts s).

Lemma fold_early_data flag es :
  Forall (λ e, e.1 = 42 → e.2 = []) es →
  fold_extensions early_data_step flag es = Ok (flag || bool_decide (42 ∈ es.*1)).
Proof.
  intros Hes. revert flag. induction Hes as [|[k v] es He _ IH]; intros flag; cbn [fold_extensions].
  { rewrite bool_decide_false by apply not_elem_of_nil. by rewrite orb_false_r. }
  unfold early_data_step. cbn [fst snd fmap list_fmap] in *. destruct (Z.eqb_spec k 42) as [->|Hk].
  - rewrite He by done. change (zlen ([] : bytes) =? 0) with true; cbn [result_bind]. rewrite IH.
    rewrite (bool_decide_true (42 ∈ 42 :: _)) by left. by rewrite orb_true_r.
  - cbn [result_bind]. rewrite IH. do 2 f_equal. apply bool_decide_ext. rewrite elem_of_cons. intuition congruence.
Qed.

(** Reading a client hello back: for every hello laid out as the protocol
    says, the parser accepts it and reports early data exactly when the
    early_data extension (42, empty) is among its extensions. *)
Theorem client_hello_roundtrip c :
  zlen (c_version_random c) = 34 → Forall (λ e, e.1 = 42 → e.2 = []) (c_exts c) →
  parse_message 1 (client_body c) = Ok (ClientHello (bool_decide (42 ∈ (c_exts c).*1))).
Proof.
  intros Hv He. cbn [parse_message Z.eqb Pos.eqb]. unfold parse_client_hello, client_body.
  set (E := extensions (c_exts c)). set (T := u16 (zlen E) ++ E).
  rewrite (proj2 (Z.ltb_ge _ _)) by (rewrite length_app; lia).
  rewrite get_at by done. cbn [result_bind].
  rewrite (app_comm_cons (c_session c)), (app_assoc (c_version_random c)).
  rewrite read_u16_at by (rewrite length_app; cbn [length]; lia). cbn [result_bind].
  rewrite (app_assoc (u16 (zlen (c_ciphers c)))), (app_assoc (c_version_random c ++ _)).
  rewrite get_at by (rewrite !length_app; cbn [length u16]; lia). cbn [result_bind].
  rewrite (app_comm_cons (c_compression c)), (app_assoc ((c_version_random c ++ _) ++ _)). unfold T.
  rewrite read_u16_at by (rewrite !length_app; cbn [length u16]; lia). cbn [result_bind].
  rewrite (app_assoc _ (u16 (zlen E))).
  rewrite slice_at_end by (rewrite ?length_app; cbn [length u16]; lia). cbn [ok_or result_bind].
  rewrite (proj2 (Z.eqb_eq _ _)) by (rewrite !length_app; cbn [length u16]; lia). cbn [negb].
  rewrite (walk_extensions_fold _ (c_exts c) [] (S (length E)) false) by (subst E; lia).
  by rewrite fold_early_data.
Qed.

Lemma fold_tls13 flag es :
  fold_extensions tls13_step flag es
  = Ok (match last (filter (λ e, e.1 = 43) es) with Some e => bool_decide (e.2 = [3; 4]) | None => flag end).
Proof.
  revert flag. induction es as [|[k v] es IH]; intros flag; [done|]. cbn [fold_extensions fst snd]. unfold tls13_step.
  rewrite filter_cons. destruct (Z.eqb_spec k 43) as [->|Hk]; cbn [result_bind]; rewrite IH.
  - rewrite decide_True by done. rewrite last_cons. by destruct (last _).
  - by rewrite decide_False.
Qed.

(** Reading a server hello back: for every hello laid out as the protocol
    says, the parser reports its cipher suite, takes it for a
    HelloRetryRequest exactly when its random is the reserved one, and for
    TLS 1.3 exactly when its last supported_versions extension (43) selects
    0x0304. *)
Theorem server_hello_roundtrip s :
  zlen (s_version s) = 2 → zlen (s_random s) = 32 →
  parse_message 2 (server_body s)
  = Ok (ServerHello (s_cipher s) (bool_decide (s_random s = HRR_RANDOM))
          (match last (filter (λ e, e.1 = 43) (s_exts s)) with Some e => bool_decide (e.2 = [3; 4]) | None => false end)).
Proof.
  intros Hv Hr. cbn [parse_message Z.eqb Pos.eqb]. unfold parse_server_hello, server_body.
  set (E := extensions (s_exts s)).
  rewrite (proj2 (Z.ltb_ge _ _)) by (repeat progress (rewrite ?length_app; cbn [length u16]); lia).
  rewrite (slice_at (s_version s) (s_random s)) by lia.
  rewrite (bool_decide_ext (Some (s_random s) = Some HRR_RANDOM) (s_random s = HRR_RANDOM)) by (split; [apply (inj Some)|by intros ->]).
  rewrite (app_assoc (s_version s)).
  rewrite get_at by (rewrite length_app; lia). cbn [result_bind].
  rewrite (app_comm_cons (s_session s)), (app_assoc (s_version s ++ s_random s)).
  rewrite read_u16_at by (rewrite !length_app; cbn [length]; lia). cbn [result_bind].
  rewrite (app_assoc _ (u16 (s_cipher s))).
  rewrite get_at by (rewrite !length_app; cbn [length u16]; lia). cbn [result_bind].
  rewrite (proj2 (Z.ltb_lt _ _)) by (rewrite !length_app; cbn [length u16 app]; lia).
  rewrite (cons_middle (s_compression s)), (app_assoc _ [s_compression s]).
  rewrite read_u16_at by (rewrite !length_app; cbn [length u16]; lia). cbn [result_bind].
  rewrite (app_assoc _ (u16 (zlen E))).
  rewrite slice_at_end by (rewrite ?length_app; cbn [length u16]; lia). cbn [ok_or result_bind].
  rewrite (proj2 (Z.eqb_eq _ _)) by (rewrite !length_app; cbn [length u16]; lia). cbn [negb].
  rewrite (walk_extensions_fold _ (s_exts s) [] (S (length E)) false) by (subst E; lia).
  by rewrite fold_tls13.
Qed.
End Hello.

Definition sample_client : Hello.client :=
  Hello.mkClient (3 :: 3 :: zreplicate 32 9) [1; 2] [19; 1] [0] [(0, [7; 7]); (42, []); (43, [2; 3; 4])].
Definition sample_server : Hello.server :=
  Hello.mkServer [3; 3] (zreplicate 32 5) [1; 2] 4865 0 [(51, [0; 29]); (43, [3; 4])].

Lemma client_hello_roundtrip_witness :
  parse_message 1 (Hello.client_body sample_client) = Ok (ClientHello true).
Proof.
  apply (Hello.client_hello_roundtrip sample_client); [reflexivity|].
  repeat constructor; cbn; intros; (discriminate || reflexivity).
Defined.

Lemma server_hello_roundtrip_witness :
  parse_message 2 (Hello.server_body sample_server) = Ok (ServerHello 4865 false true).
Proof. apply (Hello.server_hello_roundtrip sample_server); reflexivity. Defined.

(** A server hello, a KeyUpdate and half a header, one byte at a time. *)
Lemma handshake_chunking_witness :
  ∃ st, Chunking.feed_chunks TlsHandshakeParser.new
          ((λ b, [b]) <$> Chunking.message (2, Hello.server_body sample_server) ++ Chunking.message (24, [1]) ++ [20; 0])
        = (st, Ok [ServerHello 4865 false true; KeyUpdate true]) ∧
        vlist (TlsHandshakeParser.buffer st) = [20; 0].
Proof.
  apply (Chunking.handshake_chunking 200 [(2, Hello.server_body sample_server); (24, [1])]).
  - repeat constructor; vm_compute; reflexivity.
  - repeat constructor; vm_compute; congruence.
  - vm_compute. congruence.
  - left. reflexivity.
  - match goal with |- Forall _ ?l => let l' := eval vm_compute in l in change l with l' end.
    repeat constructor; vm_compute; congruence.
  - vm_compute. reflexivity.
Defined.
