(* ===== verification/TlsDecrypt.v ===== *)
(** * TLS 1.3 record decryption

    [capture-agent/src/tls_decrypt.rs]: nonces, the key schedule's labels, and
    the decryption of one record.  HKDF-SHA256 and AES-128-GCM are the [ring]
    crate's: operations of a class, with what a cipher promises. *)

From S2P Require Import Prelude Keylog.

(** The [ring] crate: HKDF-Expand of a secret, the AEAD's opening of a
    ciphertext and tag under a key, a nonce and additional data. *)
Class TlsCrypto := {
  hkdf_expand : bytes → bytes → Z → option bytes;
  aead_open : bytes → bytes → bytes → bytes → option bytes;
  hkdf_length : ∀ prk info n out, hkdf_expand prk info n = Some out → zlen out = n
}.

(** The sending side's sealing, which opening inverts. *)
Class TlsSealing `{TlsCrypto} := {
  aead_seal : bytes → bytes → bytes → bytes → bytes;
  open_seal : ∀ key nonce aad plaintext, aead_open key nonce aad (aead_seal key nonce aad plaintext) = Some plaintext;
  seal_length : ∀ key nonce aad plaintext, zlen (aead_seal key nonce aad plaintext) = zlen plaintext + 16
}.

Definition TAG_LEN : Z := 16.

(** [aead::AES_128_GCM.key_len()]: [UnboundKey::new] refuses any other length. *)
Definition KEY_LEN : Z := 16.

Inductive Reason :=
| NotApplicationData | TooShortForTag | KeyDerivationFailed | InvalidKeyMaterial | AuthenticationFailed | EmptyPlaintext
| InvalidContentType.

Inductive DecryptOutcome := Plaintext (content_type : Z) (data : bytes) | Undecryptable (reason : Reason).

(** [u64::to_be_bytes]. *)
Fixpoint be_bytes (w : nat) (n : Z) : bytes :=
  match w with O => [] | S w' => be_bytes w' (n / 256) ++ [n mod 256] end.

Definition nonce_for_sequence (iv : bytes) (sequence : Z) : bytes :=
  ztake 4 iv ++ zip_with Z.lxor (zdrop 4 iv) (be_bytes 8 sequence).

Section decrypt.
Context `{TlsCrypto}.

Definition hkdf_expand_label (traffic_secret name : bytes) (out_len : Z) : option bytes :=
  let full_label := lit "tls13 " ++ name in
  let hkdf_label := be_bytes 2 out_len ++ [zlen full_label mod 256] ++ full_label ++ [0] in
  hkdf_expand traffic_secret hkdf_label out_len.

Definition derive_key_and_iv (traffic_secret : bytes) : option (bytes * bytes) :=
  key ← hkdf_expand_label traffic_secret (lit "key") 16;
  iv ← hkdf_expand_label traffic_secret (lit "iv") 12;
  Some (key, iv).

Definition next_traffic_secret (sess : SessionSecret) : option bytes :=
  hkdf_expand_label (secret sess) (lit "traffic upd") (zlen (secret sess)).

(** The plaintext without its trailing zeros. *)
Fixpoint strip_zeros_rev (r : bytes) : bytes :=
  match r with b :: r' => if b =? 0 then strip_zeros_rev r' else r | [] => [] end.
Definition strip_zeros (plaintext : bytes) : bytes := reverse (strip_zeros_rev (reverse plaintext)).

Definition inner_plaintext (plaintext : bytes) : DecryptOutcome :=
  match last (strip_zeros plaintext) with
  | None => Undecryptable EmptyPlaintext
  | Some content_type =>
      if (20 <=? content_type) && (content_type <=? 23)
      then Plaintext content_type (removelast (strip_zeros plaintext))
      else Undecryptable InvalidContentType
  end.

Definition decrypt_record (record : bytes) (sess : SessionSecret) (sequence : Z) : DecryptOutcome :=
  if (zlen record <? 5) || negb (bool_decide (nth_z record 0 = Some 23)) then Undecryptable NotApplicationData
  else
    let body := zdrop 5 record in
    if zlen body <? TAG_LEN then Undecryptable TooShortForTag
    else
      match derive_key_and_iv (secret sess) with
      | None => Undecryptable KeyDerivationFailed
      | Some (key, iv) =>
          if negb (zlen key =? KEY_LEN) then Undecryptable InvalidKeyMaterial
          else
            match aead_open key (nonce_for_sequence iv sequence) (ztake 5 record) body with
            | Some plaintext => inner_plaintext plaintext
            | None => Undecryptable AuthenticationFailed
            end
      end.
End decrypt.

(** ** Nonces *)

Lemma length_be_bytes w n : length (be_bytes w n) = w.
Proof. revert n. induction w as [|w IH]; intros n; [done|]. cbn. rewrite length_app, IH. cbn. lia. Qed.

Lemma be_bytes_inj w n m :
  0 <= n < 256 ^ Z.of_nat w → 0 <= m < 256 ^ Z.of_nat w → be_bytes w n = be_bytes w m → n = m.
Proof.
  revert n m. induction w as [|w IH]; intros n m Hn Hm E; [cbn in *; lia|].
  cbn [be_bytes] in E. apply app_inj_2 in E as [E1 E2]; [|done]. injection E2 as E2.
  assert (n / 256 = m / 256) as E3.
  { apply IH; [| |done]; rewrite Nat2Z.inj_succ, Z.pow_succ_r in * by lia;
      (split; [apply Z.div_pos; lia|apply Z.div_lt_upper_bound; lia]). }
  rewrite (Z.div_mod n 256), (Z.div_mod m 256) by lia. congruence.
Qed.

Lemma lxor_cancel a b c : Z.lxor a b = Z.lxor a c → b = c.
Proof.
  intros E. apply (f_equal (Z.lxor a)) in E. by rewrite <- !Z.lxor_assoc, Z.lxor_nilpotent, !Z.lxor_0_l in E.
Qed.

Lemma xor_inj (k a b : bytes) :
  length a = length k → length b = length k → zip_with Z.lxor k a = zip_with Z.lxor k b → a = b.
Proof.
  revert a b. induction k as [|x k IH]; intros [|y a] [|z b] Ha Hb E; try done.
  cbn in E. injection E as E1 E2. f_equal; [by eapply lxor_cancel|]. apply IH; [cbn in *; lia..|done].
Qed.

(** Under one traffic secret no two records share a nonce: for a fixed
    12-byte IV, different 64-bit record sequence numbers give different
    nonces, all of them 12 bytes long. *)
Theorem nonce_unique iv n m :
  zlen iv = 12 → is_u64 n → is_u64 m →
  zlen (nonce_for_sequence iv n) = 12 ∧ (nonce_for_sequence iv n = nonce_for_sequence iv m → n = m).
Proof.
  intros Hiv Hn Hm. unfold nonce_for_sequence.
  assert (Hd : length (zdrop 4 iv) = 8%nat) by (rewrite length_zdrop; lia). split.
  - rewrite length_app, length_ztake, length_zip_with, Hd, length_be_bytes. lia.
  - intros E%app_inv_head. apply xor_inj in E; [|by rewrite Hd, length_be_bytes..].
    apply be_bytes_inj in E; [done|change (256 ^ Z.of_nat 8) with (U64_MAX + 1); zlia..].
Qed.

Lemma nonce_unique_witness :
  zlen (nonce_for_sequence (zreplicate 12 171) 7) = 12 ∧
  (nonce_for_sequence (zreplicate 12 171) 7 = nonce_for_sequence (zreplicate 12 171) 263 → 7 = 263).
Proof. apply (nonce_unique (zreplicate 12 171) 7 263); [reflexivity|width; lia..]. Defined.

(** ** Records *)

Lemma strip_zeros_rev_spec r : ∃ k, r = replicate k 0 ++ strip_zeros_rev r.
Proof.
  induction r as [|b r [k IH]]; [by exists 0%nat|]. cbn. case_zb; [|by exists 0%nat]. subst b.
  exists (S k). cbn. by f_equal.
Qed.

Lemma strip_zeros_spec p : ∃ k, p = strip_zeros p ++ replicate k 0.
Proof.
  destruct (strip_zeros_rev_spec (reverse p)) as [k E]. exists k. unfold strip_zeros.
  rewrite <- (reverse_involutive p) at 1. rewrite E at 1. rewrite reverse_app. f_equal. apply reverse_replicate.
Qed.

Lemma strip_zeros_padded content t k : t ≠ 0 → strip_zeros (content ++ [t] ++ replicate k 0) = content ++ [t].
Proof.
  intros Ht. unfold strip_zeros. rewrite !reverse_app, reverse_replicate.
  replace (strip_zeros_rev ((replicate k 0 ++ reverse [t]) ++ reverse content))
    with (reverse (content ++ [t])); [apply reverse_involutive|].
  rewrite reverse_app, <- app_assoc. induction k as [|k IH]; [|exact IH].
  cbn. by rewrite (proj2 (Z.eqb_neq _ _)).
Qed.

Section records.
Context `{TlsCrypto}.

Lemma derive_key_and_iv_length secret key iv :
  derive_key_and_iv secret = Some (key, iv) → zlen key = 16 ∧ zlen iv = 12.
Proof.
  unfold derive_key_and_iv. intros Ek.
  apply bind_Some in Ek as (key' & E1 & Ek). apply bind_Some in Ek as (iv' & E2 & [= -> ->]).
  by apply hkdf_length in E1, E2.
Qed.

(** C21: Decryption fails closed.  Bytes are only ever returned as plaintext
    when the record is an application-data record whose body the AEAD
    authenticated under the key and IV of the given secret, the nonce of the
    given sequence number and the record's own header; and then they are the
    authenticated plaintext, less its zero padding and its content-type byte,
    which is one of the four of TLS. *)
Theorem decrypt_fails_closed record sess sequence t data :
  decrypt_record record sess sequence = Plaintext t data →
  ∃ key iv pad, derive_key_and_iv (secret sess) = Some (key, iv) ∧ zlen key = 16 ∧ zlen iv = 12 ∧
    nth_z record 0 = Some 23 ∧ 5 + TAG_LEN <= zlen record ∧ 20 <= t <= 23 ∧
    aead_open key (nonce_for_sequence iv sequence) (ztake 5 record) (zdrop 5 record)
    = Some (data ++ [t] ++ replicate pad 0).
Proof.
  unfold decrypt_record. destruct (Z.ltb_spec (zlen record) 5); [done|]. case_bool_decide as Hr; [|done]. cbn [orb negb].
  destruct (Z.ltb_spec (zlen (zdrop 5 record)) TAG_LEN) as [|Hl]; [done|].
  destruct (derive_key_and_iv _) as [[key iv]|] eqn:Ek; [|done].
  destruct (derive_key_and_iv_length _ _ _ Ek) as [Hkey Hiv]. unfold KEY_LEN. rewrite Hkey. cbn [Z.eqb Pos.eqb negb].
  destruct (aead_open _ _ _ _) as [p|] eqn:Eo; [|done]. unfold inner_plaintext.
  destruct (last (strip_zeros p)) as [t'|] eqn:El; [|done].
  destruct ((20 <=? t') && (t' <=? 23)) eqn:Et; [|done]. intros [= -> <-].
  destruct (strip_zeros_spec p) as [k Hk]. exists key, iv, k.
  apply last_Some in El as [l El]. rewrite El, removelast_last, app_assoc, <- El, <- Hk, Eo.
  rewrite length_zdrop in Hl. unfold TAG_LEN in *. split_and!; try done; lia.
Qed.

(** C38: A record the peer sealed decrypts to what it sent: with a sealing that
    the AEAD's opening inverts, content of any of TLS's four types, padded with
    any number of zeros, sealed under the secret's key, the record's sequence
    number and its header, comes back as that type and that content. *)
Theorem decrypt_roundtrip `{!TlsSealing} sess sequence key iv header content t pad :
  derive_key_and_iv (secret sess) = Some (key, iv) → zlen header = 5 → nth_z header 0 = Some 23 → 20 <= t <= 23 →
  decrypt_record
    (header ++ aead_seal key (nonce_for_sequence iv sequence) header (content ++ [t] ++ replicate pad 0))
    sess sequence
  = Plaintext t content.
Proof.
  intros Hk Hh Hfirst Ht. unfold decrypt_record. set (ct := aead_seal _ _ _ _).
  assert (Hct : 16 <= zlen ct) by (unfold ct; rewrite seal_length; lia).
  rewrite (proj2 (Z.ltb_ge _ 5)) by (rewrite length_app; lia).
  rewrite bool_decide_true by (unfold nth_z in *; by apply lookup_app_l_Some).
  rewrite <- Hh, zdrop_app, ztake_app. cbn [orb negb].
  rewrite (proj2 (Z.ltb_ge _ _)), Hk by (unfold TAG_LEN; lia).
  unfold KEY_LEN. rewrite (proj1 (derive_key_and_iv_length _ _ _ Hk)). cbn [Z.eqb Pos.eqb negb]. unfold ct. rewrite open_seal.
  unfold inner_plaintext. rewrite strip_zeros_padded by lia. rewrite last_snoc, removelast_last.
  by rewrite (proj2 (Z.leb_le _ _)), (proj2 (Z.leb_le _ _)) by lia.
Qed.
End records.

(** A toy cipher to run the definitions on: the tag repeats the key. *)
#[local] Instance toy_crypto : TlsCrypto.
Proof.
  refine {| hkdf_expand prk info n := if 0 <=? n then Some (ztake n (prk ++ info ++ zreplicate n 1)) else None;
            aead_open key nonce aad ct :=
              if bool_decide (zdrop (zlen ct - 16) ct = ztake 16 (key ++ zreplicate 16 0)) then Some (ztake (zlen ct - 16) ct) else None |}.
  intros prk info n out. case_zb; [|done]. intros [= <-].
  rewrite length_ztake, !length_app, length_zreplicate. lia.
Defined.

#[local] Instance toy_sealing : TlsSealing.
Proof.
  refine {| aead_seal key nonce aad plaintext := plaintext ++ ztake 16 (key ++ zreplicate 16 0) |}.
  - intros key nonce aad p. assert (Hl : zlen (ztake 16 (key ++ zreplicate 16 0)) = 16).
    { rewrite length_ztake, length_app, length_zreplicate. lia. }
    cbn. rewrite length_app, Nat2Z.inj_add, Hl. replace (zlen p + 16 - 16) with (zlen p) by lia.
    by rewrite zdrop_app, ztake_app, bool_decide_true.
  - intros key nonce aad p. rewrite length_app, length_ztake, length_app, length_zreplicate. lia.
Defined.

Definition toy_secret : SessionSecret := mkSessionSecret [] [] (zreplicate 32 3).
Definition toy_key : bytes := zreplicate 16 3.
Definition toy_iv : bytes := zreplicate 12 3.
Definition toy_record : bytes := [23; 3; 3; 0; 21] ++ aead_seal toy_key (nonce_for_sequence toy_iv 9) [23; 3; 3; 0; 21] ([104; 105] ++ [23] ++ replicate 2 0).

Lemma decrypt_roundtrip_witness : decrypt_record toy_record toy_secret 9 = Plaintext 23 [104; 105].
Proof.
  apply (decrypt_roundtrip toy_secret 9 toy_key toy_iv [23; 3; 3; 0; 21] [104; 105] 23 2); [vm_compute; reflexivity..|lia].
Defined.

Lemma decrypt_fails_closed_witness :
  ∃ key iv pad, derive_key_and_iv (secret toy_secret) = Some (key, iv) ∧ zlen key = 16 ∧ zlen iv = 12 ∧
    nth_z toy_record 0 = Some 23 ∧ 5 + TAG_LEN <= zlen toy_record ∧ 20 <= 23 <= 23 ∧
    aead_open key (nonce_for_sequence iv 9) (ztake 5 toy_record) (zdrop 5 toy_record)
    = Some ([104; 105] ++ [23] ++ replicate pad 0).
Proof. apply (decrypt_fails_closed toy_record toy_secret 9 23 [104; 105]). vm_compute. reflexivity. Defined.
