(* ===== verification/Http2.v ===== *)
(** * HTTP/2 frames

    [capture-agent/src/http2.rs]: frames are cut from one direction's decrypted
    bytes, header blocks decoded, redacted and handed on; anything that puts the
    header compression state in doubt ends the direction's decoding for good.
    The HPACK decoder is the [fluke-hpack] crate's: a state machine of a class,
    a decode error and a caught panic both being [None]. *)

From S2P Require Import Prelude Text Redact Frames.

Class Hpack := {
  hpack_state : Type;
  hpack_new : hpack_state;
  hpack_decode : hpack_state → bytes → option (hpack_state * list (bytes * bytes));
  hpack_bytes_held : hpack_state → Z
}.

Definition MAX_FRAME_LEN : Z := 1024 * 1024.

Inductive DesyncReason := AlreadyDesynced | SequenceGap | FrameTooLong | HpackFailed.

Inductive FrameOutcome :=
| Frame (stream_id : Z) (headers : list (bytes * bytes)) (body : bytes)
| DesyncFallback (reason : DesyncReason)
| NeedMoreData.

(** The size of the frame the bytes begin with, once its header is there. *)
Definition frame_len (b : bytes) : option Z :=
  match b with
  | b0 :: b1 :: b2 :: _ :: _ :: _ :: _ :: _ :: _ :: _ => Some (9 + be32 0 b0 b1 b2)
  | _ => None
  end.

Definition frame_type (b : bytes) : Z := default 0 (nth_z b 3).
Definition frame_stream_id (b : bytes) : Z :=
  let at_ i := default 0 (nth_z b i) in Z.land (be32 (at_ 5) (at_ 6) (at_ 7) (at_ 8)) 2147483647.

Module Http2Reassembler.
Section reassembler.
Context `{Hpack} `{VecPolicy}.

Record t := mk { buffer : vec Z; next_expected_seq : option Z; hpack : hpack_state; desynced : bool }.

Definition new : t := mk vec_new None hpack_new false.

Definition bytes_held (st : t) : Z := sat_add (vcap (buffer st)) (hpack_bytes_held (hpack st)).

Definition desync (st : t) : t := mk vec_new (next_expected_seq st) hpack_new true.

(** One complete frame: the decoder after it, and what it yields. *)
Definition frame_step (hp : hpack_state) (kind stream_id : Z) (payload : bytes) : option (hpack_state * list FrameOutcome) :=
  if kind =? 1 then
    '(hp, pairs) ← hpack_decode hp payload;
    let headers := (λ '(n, v), (from_utf8_lossy n, from_utf8_lossy v)) <$> pairs in
    Some (hp, [Frame stream_id (redact_headers headers) []])
  else if kind =? 0 then Some (hp, [Frame stream_id [] payload])
  else Some (hp, []).

(** The loop; every turn takes a frame.  [Err]: the connection is desynced.
    The outer option is the fuel. *)
Fixpoint feed_loop (fuel : nat) (buf : bytes) (hp : hpack_state) (outcomes : list FrameOutcome)
    : option (result (list FrameOutcome) (bytes * hpack_state * list FrameOutcome)) :=
  match fuel with
  | O => None
  | S fuel' =>
      match frame_len buf with
      | None => Some (Ok (buf, hp, outcomes ++ [NeedMoreData]))
      | Some total =>
          if MAX_FRAME_LEN <? total - 9 then Some (Err (outcomes ++ [DesyncFallback FrameTooLong]))
          else if zlen buf <? total then Some (Ok (buf, hp, outcomes ++ [NeedMoreData]))
          else
            match frame_step hp (frame_type buf) (frame_stream_id buf) (ztake (total - 9) (zdrop 9 buf)) with
            | Some (hp, out) => feed_loop fuel' (zdrop total buf) hp (outcomes ++ out)
            | None => Some (Err (outcomes ++ [DesyncFallback HpackFailed]))
            end
      end
  end.

Definition feed (st : t) (seq : Z) (chunk : bytes) : t * list FrameOutcome :=
  if desynced st then (st, [DesyncFallback AlreadyDesynced])
  else if match next_expected_seq st with Some expected => negb (seq =? expected) | None => false end then
    (desync st, [DesyncFallback SequenceGap])
  else
    let next := Some (seq + zlen chunk) in
    let buf := vec_extend (buffer st) chunk in
    match feed_loop (S (length (vlist buf))) (vlist buf) (hpack st) [] with
    | Some (Ok (rest, hp, outcomes)) => (mk (mkVec rest (vcap buf)) next hp false, outcomes)
    | Some (Err outcomes) => (desync (mk buf next (hpack st) false), outcomes)
    | None => (st, [])
    end.
End reassembler.
End Http2Reassembler.

(** ** Frames and chunks *)

Module H2.
Import Http2Reassembler.
Section h2.
Context `{Hpack} `{VecPolicy}.

(** A frame as the protocol lays it out. *)
Record frame := mkFrame { f_type : Z; f_flags : Z; f_stream : Z; f_payload : bytes }.

Definition be24 (n : Z) : bytes := [n / 65536; (n / 256) mod 256; n mod 256].
Definition be32_bytes (n : Z) : bytes := [n / 16777216; (n / 65536) mod 256; (n / 256) mod 256; n mod 256].
Definition wire (f : frame) : bytes :=
  be24 (zlen (f_payload f)) ++ [f_type f; f_flags f] ++ be32_bytes (f_stream f) ++ f_payload f.

Definition frame_ok (f : frame) : Prop := zlen (f_payload f) <= MAX_FRAME_LEN ∧ 0 <= f_stream f < 2 ^ 31.

Abbreviation cap := (9 + MAX_FRAME_LEN).

Lemma length_wire f : zlen (wire f) = 9 + zlen (f_payload f).
Proof. unfold wire. rewrite !length_app. cbn [be24 be32_bytes length]. lia. Qed.

Lemma be24_value n : be32 0 (n / 65536) ((n / 256) mod 256) (n mod 256) = n.
Proof.
  unfold be32. pose proof (Z.div_mod n 256 ltac:(lia)). pose proof (Z.div_mod (n / 256) 256 ltac:(lia)) as Hd.
  rewrite Z.div_div in Hd by lia. change (256 * 256) with 65536 in Hd. lia.
Qed.

Lemma be32_value n : be32 (n / 16777216) ((n / 65536) mod 256) ((n / 256) mod 256) (n mod 256) = n.
Proof.
  unfold be32. pose proof (Z.div_mod n 256 ltac:(lia)). pose proof (Z.div_mod (n / 256) 256 ltac:(lia)) as Hd.
  pose proof (Z.div_mod (n / 65536) 256 ltac:(lia)) as He.
  rewrite Z.div_div in Hd, He by lia. change (256 * 256) with 65536 in Hd. change (65536 * 256) with 16777216 in He. lia.
Qed.

Lemma frame_len_wire f k : frame_len (wire f ++ k) = Some (zlen (wire f)).
Proof. rewrite length_wire. unfold wire. cbn [be24 be32_bytes app frame_len]. by rewrite be24_value. Qed.

Lemma frame_len_prefix p k len : frame_len p = Some len → frame_len (p ++ k) = Some len.
Proof. by do 9 (destruct p as [|? p]; [done|]). Qed.

Lemma wire_fields f k :
  frame_ok f →
  frame_type (wire f ++ k) = f_type f ∧ frame_stream_id (wire f ++ k) = f_stream f ∧
  ztake (zlen (wire f) - 9) (zdrop 9 (wire f ++ k)) = f_payload f ∧ zdrop (zlen (wire f)) (wire f ++ k) = k.
Proof.
  intros [Hl Hs]. split_and!; [done| | |apply zdrop_app].
  - unfold frame_stream_id, wire. cbn [be24 be32_bytes app nth_z].
    change (Z.land (be32 (f_stream f / 16777216) ((f_stream f / 65536) mod 256) ((f_stream f / 256) mod 256)
              (f_stream f mod 256)) (Z.ones 31) = f_stream f).
    rewrite be32_value, Z.land_ones, Z.mod_small by lia. done.
  - rewrite length_wire. replace (9 + zlen (f_payload f) - 9) with (zlen (f_payload f)) by lia.
    change (zdrop 9 (wire f ++ k)) with (f_payload f ++ k). apply ztake_app.
Qed.

(** The reference: the frames one after the other, whole. *)
Fixpoint decode_frames (hp : hpack_state) (fs : list frame) : option (hpack_state * list FrameOutcome) :=
  match fs with
  | [] => Some (hp, [])
  | f :: fs' =>
      '(hp, out) ← frame_step hp (f_type f) (f_stream f) (f_payload f);
      '(hp, outs) ← decode_frames hp fs';
      Some (hp, out ++ outs)
  end.

Lemma decode_frames_app hp fs gs r :
  decode_frames hp (fs ++ gs) = Some r →
  ∃ hp1 o1 o2, decode_frames hp fs = Some (hp1, o1) ∧ decode_frames hp1 gs = Some (r.1, o2) ∧ r.2 = o1 ++ o2.
Proof.
  revert hp r. induction fs as [|f fs IH]; intros hp [hp' o] E; cbn [app decode_frames] in *.
  { by exists hp, [], o. }
  apply bind_Some in E as ([hp1 out] & Hf & E). rewrite Hf. apply bind_Some in E as ([hp2 outs] & Hr & [= -> <-]).
  apply IH in Hr as (hp3 & o1 & o2 & H1 & H2 & H3). cbn in *. rewrite H1. subst outs.
  exists hp3, (out ++ o1), o2. by rewrite app_assoc.
Qed.

(** Whole frames, then an incomplete one. *)
Lemma h2_feed_loop_frames fuel fs p hp hp' out outs :
  decode_frames hp fs = Some (hp', out) → Forall frame_ok fs → incomplete frame_len cap p →
  (length (concat (wire <$> fs) ++ p) < fuel)%nat →
  feed_loop fuel (concat (wire <$> fs) ++ p) hp outs = Some (Ok (p, hp', outs ++ out ++ [NeedMoreData])).
Proof.
  intros Hd Hok. revert fuel hp out outs Hd. induction Hok as [|f fs Hf _ IH]; intros fuel hp out outs Hd Hp Hl;
    (destruct fuel as [|fuel]; [lia|]); cbn [fmap list_fmap concat decode_frames feed_loop] in *.
  - injection Hd as <- <-. cbn [app]. destruct Hp as [->|(len & -> & Hc & Hlt)]; [done|].
    rewrite (proj2 (Z.ltb_ge _ _)), (proj2 (Z.ltb_lt _ _)) by lia. done.
  - apply bind_Some in Hd as ([hp1 o1] & Hf1 & Hd). apply bind_Some in Hd as ([hp2 o2] & Hd & [= <- <-]).
    rewrite <- app_assoc in *. rewrite frame_len_wire. rewrite length_app in Hl.
    destruct (wire_fields f (concat (wire <$> fs) ++ p) Hf) as (Ht & Hs & Hpl & Hr). pose proof (length_wire f).
    destruct Hf as [Hfl _]. rewrite !(proj2 (Z.ltb_ge _ _)) by (rewrite ?length_app; lia).
    rewrite Ht, Hs, Hpl, Hf1, Hr, (IH _ hp1 o2); [|done|done|lia]. by rewrite <- !app_assoc.
Qed.

(** Consecutive chunks, and the outcomes that are not [NeedMoreData]. *)
Fixpoint feed_chunks (st : t) (seq : Z) (chunks : list bytes) : t * list FrameOutcome :=
  match chunks with
  | [] => (st, [])
  | c :: chunks' =>
      let '(st, out) := feed st seq c in
      let '(st, outs) := feed_chunks st (seq + zlen c) chunks' in (st, out ++ outs)
  end.

Definition delivered (outs : list FrameOutcome) : list FrameOutcome :=
  List.filter (λ o, match o with NeedMoreData => false | _ => true end) outs.

Lemma delivered_app a b : delivered (a ++ b) = delivered a ++ delivered b.
Proof. unfold delivered. apply List.filter_app. Qed.

Lemma decode_frames_delivered hp fs hp' out : decode_frames hp fs = Some (hp', out) → delivered out = out.
Proof.
  revert hp out. induction fs as [|f fs IH]; intros hp out E; cbn in E; [by simplify_eq|].
  apply bind_Some in E as ([hp1 o1] & Hf & E). apply bind_Some in E as ([hp2 o2] & Hr & [= <- <-]).
  rewrite delivered_app, (IH _ _ Hr). f_equal. unfold frame_step in Hf.
  destruct (_ =? 1); [apply bind_Some in Hf as ([? ?] & _ & [= <- <-]); done|].
  destruct (_ =? 0); by injection Hf as <- <-.
Qed.

(** C23: HTTP/2 decoding does not depend on how the plaintext is cut.  For
    frames within the length cap whose header blocks the decoder accepts in
    their order, followed by the beginning of another, delivered in
    consecutive chunks of any sizes: the outcomes are exactly those of the
    frames one after the other through one decoder state, with no desync, and
    the beginning is kept. *)
Theorem http2_chunking fs rest hp out seq chunks :
  decode_frames hpack_new fs = Some (hp, out) → Forall frame_ok fs → incomplete frame_len cap rest → zlen rest <= cap →
  concat chunks = concat (wire <$> fs) ++ rest →
  let '(st, outs) := feed_chunks new seq chunks in
  delivered outs = out ∧ vlist (buffer st) = rest ∧ desynced st = false ∧ hpack st = hp.
Proof.
  intros Hd Hok Hi Hr E.
  assert (Hgo : ∀ fs out st seq, decode_frames (hpack st) fs = Some (hp, out) → Forall frame_ok fs →
    incomplete frame_len cap (vlist (buffer st)) → desynced st = false →
    (next_expected_seq st = None ∨ next_expected_seq st = Some seq) →
    concat (wire <$> fs) ++ rest = vlist (buffer st) ++ concat chunks →
    let '(st', outs) := feed_chunks st seq chunks in
    delivered outs = out ∧ vlist (buffer st') = rest ∧ desynced st' = false ∧ hpack st' = hp).
  { clear E Hd Hok fs out seq. induction chunks as [|c chunks IH]; intros fs out st seq Hd Hok Hb Hds Hseq E;
      cbn [feed_chunks concat] in *.
    - rewrite app_nil_r in E. destruct Hok as [|f fs Hf _]; [by simplify_eq/=|]. exfalso.
      cbn [fmap list_fmap concat] in E. rewrite <- app_assoc in E. rewrite <- E in Hb.
      by apply wire_complete in Hb; [|exact frame_len_wire].
    - rewrite app_assoc in E.
      destruct (prefix_split frame_len wire cap frame_len_wire frame_len_prefix cap fs rest (vlist (buffer st) ++ c) (concat chunks))
        as (fs1 & fs2 & p & -> & Hbuf & Hp & Hpl & E'); [|lia|done|done|exact E|].
      { eapply Forall_impl; [exact Hok|]. intros f [Hf _]. rewrite length_wire. lia. }
      apply Forall_app in Hok as [Hok1 Hok2]. apply decode_frames_app in Hd as (hp1 & o1 & o2 & H1 & H2 & Hout). cbn [fst snd] in *. subst out.
      unfold feed. rewrite Hds. replace (match next_expected_seq st with Some expected => _ | None => false end) with false
        by (destruct Hseq as [->| ->]; [done|by rewrite Z.eqb_refl]).
      cbn [vec_extend vlist]. rewrite Hbuf, (h2_feed_loop_frames _ fs1 p _ hp1 o1 [] H1 Hok1 Hp) by lia. cbn [app].
      specialize (IH fs2 o2 (mk (mkVec p (vec_reserve (buffer st) (zlen c))) (Some (seq + zlen c)) hp1 false) (seq + zlen c)).
      cbn [hpack buffer vlist desynced next_expected_seq] in IH.
      destruct (feed_chunks _ _ chunks) as [st' outs]. destruct IH as (Hdel & Hrest & Hno & Hhp); [done..|by right|done|].
      split_and!; [|done..]. rewrite !delivered_app, Hdel. cbn. by rewrite app_nil_r, (decode_frames_delivered _ _ _ _ H1). }
  apply (Hgo fs out new seq); [done|done|by left|done|by left|by rewrite E].
Qed.

(** *** Any stream *)

(** Chunks at any sequence numbers. *)
Fixpoint feed_any (st : t) (feeds : list (Z * bytes)) : t * list FrameOutcome :=
  match feeds with
  | [] => (st, [])
  | (seq, c) :: feeds' =>
      let '(st, out) := feed st seq c in let '(st, outs) := feed_any st feeds' in (st, out ++ outs)
  end.

Definition outcome_ok (o : FrameOutcome) : Prop :=
  match o with Frame _ headers _ => Forall clean headers | _ => True end.

Lemma frame_step_ok hp kind stream_id payload hp' out :
  frame_step hp kind stream_id payload = Some (hp', out) → Forall outcome_ok out.
Proof.
  unfold frame_step. destruct (kind =? 1).
  { intros ([hp1 pairs] & _ & [= <- <-])%bind_Some. repeat constructor. cbn. unfold redact_headers.
    apply Forall_fmap, Forall_true. intros h. apply redact_header_clean. }
  destruct (kind =? 0); intros [= <- <-]; repeat constructor.
Qed.

Lemma frame_len_ge b len : Forall is_u8 b → frame_len b = Some len → 9 <= len ∧ 9 <= zlen b.
Proof.
  intros Hu E. do 9 (destruct b as [|? b]; [done|]). cbn in E. injection E as <-.
  repeat match goal with Hf : Forall is_u8 (_ :: _) |- _ => apply Forall_cons in Hf as [? Hf] end.
  unfold be32. width. split; [lia|]. cbn [length]. lia.
Qed.

Lemma frame_len_None b : frame_len b = None → zlen b < 9.
Proof. intros E. do 9 (destruct b as [|? b]; [cbn; lia|]). done. Qed.

(** The loop ends, with less than a frame, and only redacted headers. *)
Lemma feed_loop_total fuel buf hp outs :
  Forall is_u8 buf → (length buf < fuel)%nat → Forall outcome_ok outs →
  match feed_loop fuel buf hp outs with
  | Some (Ok (rest, _, outs')) => incomplete frame_len cap rest ∧ Forall is_u8 rest ∧ Forall outcome_ok outs'
  | Some (Err outs') => Forall outcome_ok outs'
  | None => False
  end.
Proof.
  revert buf hp outs. induction fuel as [|fuel IH]; intros buf hp outs Hu Hl Ho; [lia|]. cbn [feed_loop].
  assert (Hsnoc : ∀ o, outcome_ok o → Forall outcome_ok (outs ++ [o])) by (intros; apply Forall_app; auto).
  destruct (frame_len buf) as [len|] eqn:El; [|split_and!; [by left|done|by apply Hsnoc]].
  destruct (Z.ltb_spec MAX_FRAME_LEN (len - 9)); [by apply Hsnoc|].
  destruct (Z.ltb_spec (zlen buf) len).
  { split_and!; [right; exists len; split_and!; [done|lia|done]|done|by apply Hsnoc]. }
  destruct (frame_len_ge _ _ Hu El). destruct (frame_step _ _ _ _) as [[hp' out]|] eqn:Ef; [|by apply Hsnoc].
  apply IH; [unfold zdrop; by apply Forall_drop|rewrite length_zdrop; lia|].
  apply Forall_app. split; [done|by eapply frame_step_ok].
Qed.

(** A reassembler holds less than a frame, or is desynced and holds nothing. *)
Definition reasm_inv (st : t) : Prop :=
  if desynced st then vlist (buffer st) = [] ∧ hpack st = hpack_new
  else incomplete frame_len cap (vlist (buffer st)) ∧ Forall is_u8 (vlist (buffer st)).

Lemma h2_feed_inv st seq c :
  reasm_inv st → Forall is_u8 c →
  let '(st', out) := feed st seq c in reasm_inv st' ∧ Forall outcome_ok out.
Proof.
  intros Hi Hc. unfold feed. destruct (desynced st) eqn:Ed; [split; [done|repeat constructor]|].
  unfold reasm_inv in Hi. rewrite Ed in Hi. destruct Hi as [Hi Hu].
  destruct (match next_expected_seq st with Some expected => _ | None => false end); [split; [done|repeat constructor]|].
  pose proof (feed_loop_total (S (length (vlist (buffer st) ++ c))) (vlist (buffer st) ++ c) (hpack st) []
    ltac:(by apply Forall_app) ltac:(lia) ltac:(constructor)) as Hf.
  cbn [vec_extend vlist]. destruct (feed_loop _ _ _ _) as [[[[rest hp] outs]|outs]|]; [|by split|done].
  destruct Hf as (H1 & H2 & H3). by split.
Qed.

Lemma feed_any_inv st feeds :
  reasm_inv st → Forall (λ f, Forall is_u8 f.2) feeds →
  let '(st', outs) := feed_any st feeds in reasm_inv st' ∧ Forall outcome_ok outs.
Proof.
  intros Hi Hf. revert st Hi. induction Hf as [|[seq c] feeds Hc _ IH]; intros st Hi; cbn [feed_any].
  { split; [done|constructor]. }
  pose proof (h2_feed_inv st seq c Hi Hc) as Hs. destruct (feed st seq c) as [st1 out]. destruct Hs as [Hi1 Ho].
  specialize (IH st1 Hi1). destruct (feed_any st1 feeds) as [st2 outs]. destruct IH as [Hi2 Ho2].
  split; [done|]. by apply Forall_app.
Qed.

(** Whatever bytes a direction carries, at whatever sequence numbers, the
    HTTP/2 decoder holds at most one frame within the cap, and every header
    list it ever hands on is redacted: no sensitive header and no bearer token
    keeps its value. *)
Theorem http2_any_stream feeds :
  Forall (λ f, Forall is_u8 f.2) feeds →
  let '(st, outs) := feed_any new feeds in
  zlen (vlist (buffer st)) < cap ∧ ∀ stream_id headers body, Frame stream_id headers body ∈ outs → Forall clean headers.
Proof.
  intros Hf. pose proof (feed_any_inv new feeds) as Hi. destruct (feed_any new feeds) as [st outs].
  destruct Hi as [Hi Ho]; [split; [by left|constructor]|done|]. split.
  - unfold reasm_inv in Hi. destruct (desynced st); [by destruct Hi as [-> _]|]. destruct Hi as [[Hi|(len & _ & ? & ?)] _]; [|lia].
    apply frame_len_None in Hi. unfold MAX_FRAME_LEN. lia.
  - intros s h b Hin. rewrite Forall_forall in Ho. exact (Ho _ Hin).
Qed.

(** A gap ends a direction's decoding for good.  A chunk that does not
    continue the last one desyncs the reassembler: it drops what it held and
    its compression state, and whatever is fed from then on, even at the right
    sequence numbers, yields the fallback and no frame. *)
Theorem http2_gap_is_final st expected seq c later :
  desynced st = false → next_expected_seq st = Some expected → seq ≠ expected →
  let '(st', out) := feed st seq c in
  out = [DesyncFallback SequenceGap] ∧ vlist (buffer st') = [] ∧ hpack st' = hpack_new ∧
  (feed_any st' later).2 = replicate (length later) (DesyncFallback AlreadyDesynced).
Proof.
  intros Hd He Hs. unfold feed. rewrite Hd, He, (proj2 (Z.eqb_neq _ _)) by done. cbn [negb].
  split_and!; [done..|]. set (st' := desync st). assert (Hd' : desynced st' = true) by done. clearbody st'.
  induction later as [|[s l] later IH]; [done|]. cbn [feed_any length replicate]. unfold feed. rewrite Hd'.
  destruct (feed_any st' later) as [st2 outs]. cbn in *. by rewrite IH.
Qed.
End h2.
End H2.

(** A decoder that takes a block for one header, to run the definitions on. *)
#[local] Instance toy_hpack : Hpack :=
  {| hpack_state := Z; hpack_new := 0;
     hpack_decode n block := if zlen block <? 2 then None else Some (n + 1, [(ztake 1 block, zdrop 1 block)]);
     hpack_bytes_held _ := 0 |}.

Definition sample_frames : list H2.frame :=
  [H2.mkFrame 4 0 0 [0; 0]; H2.mkFrame 1 4 1 [97; 98; 99]; H2.mkFrame 0 0 1 [1; 2; 3; 4]].

Lemma http2_chunking_witness :
  let '(st, outs) := H2.feed_chunks Http2Reassembler.new 7 ((λ b, [b]) <$> concat (H2.wire <$> sample_frames) ++ [0; 0]) in
  H2.delivered outs = [Frame 1 [([97], [98; 99])] []; Frame 1 [] [1; 2; 3; 4]] ∧
  vlist (Http2Reassembler.buffer st) = [0; 0] ∧ Http2Reassembler.desynced st = false ∧ Http2Reassembler.hpack st = 1.
Proof.
  apply (H2.http2_chunking sample_frames [0; 0] (1 : @hpack_state toy_hpack)).
  - vm_compute. reflexivity.
  - repeat constructor; vm_compute; congruence.
  - left. reflexivity.
  - vm_compute. congruence.
  - vm_compute. reflexivity.
Defined.

Lemma http2_any_stream_witness :
  let '(st, outs) := H2.feed_any Http2Reassembler.new [(0, [0; 0; 2; 1; 0; 0; 0; 0; 1; 65; 66]); (11, [9])] in
  zlen (vlist (Http2Reassembler.buffer st)) < 9 + MAX_FRAME_LEN ∧
  ∀ stream_id headers body, Frame stream_id headers body ∈ outs → Forall clean headers.
Proof.
  apply (H2.http2_any_stream [(0, [0; 0; 2; 1; 0; 0; 0; 0; 1; 65; 66]); (11, [9])]).
  repeat (apply Forall_cons; split; [cbn; repeat (apply Forall_cons; split; [width; lia|]); apply Forall_nil; done|]).
  apply Forall_nil. done.
Defined.

Lemma http2_gap_is_final_witness :
  let st := (Http2Reassembler.feed Http2Reassembler.new 0 [0; 0]).1 in
  let '(st', out) := Http2Reassembler.feed st 5 [1] in
  out = [DesyncFallback SequenceGap] ∧ vlist (Http2Reassembler.buffer st') = [] ∧
  Http2Reassembler.hpack st' = hpack_new ∧
  (H2.feed_any st' [(2, [0; 0]); (6, [0])]).2 = replicate 2 (DesyncFallback AlreadyDesynced).
Proof.
  apply (H2.http2_gap_is_final (Http2Reassembler.feed Http2Reassembler.new 0 [0; 0]).1 2 5 [1] [(2, [0; 0]); (6, [0])]);
    [reflexivity|reflexivity|lia].
Defined.
