(* ===== verification/Decrypt.v ===== *)
(** * Decryption of captured TLS connections

    The decryption state of [capture-agent/src/main.rs]: per connection and
    direction, the ordered record stream, the secrets and sequence numbers of
    the two epochs, the HTTP/2 decoder, the records waiting for a key, and how
    a direction ends.  What is sent to the clients is the list of events each
    operation returns. *)

From S2P Require Import Prelude Text Packet RateLimit RingBuffer Flow Keylog TlsStream TlsHandshake TlsDecrypt Http2.

Definition MAX_TLS_BUFFER_BYTES : Z := 4 * 1024 * 1024.
Definition MAX_TLS_ACTIVE_DIRECTIONS : Z := 1024.
Definition MAX_TLS_DIRECTIONS_PER_PID : Z := 64.
Definition MAX_TLS_KEY_WAIT_BYTES : Z := 64 * 1024.
Definition TLS_KEY_WAIT_MS : Z := 2000.
Definition TLS_GAP_HOLD_MS : Z := 2000.
Definition MAX_EARLY_DATA_RECORDS : Z := 32.
Definition MAX_EARLY_DATA_BYTES : Z := 256 * 1024.
Definition DECRYPT_RING_CAP_BYTES : Z := 256 * 1024.

Inductive DecryptionAvailability := Unavailable | Desynchronized.
Inductive DecryptionReason :=
| NoKey | HandshakeNotObserved | UnsupportedCipher | EarlyDataUnresolved | TcpGap | OverlapConflict | RecordOverflow
| RecordInvalid | CaptureTruncated | EvictedBudget.

Inductive AgentEvent :=
| DecryptionStatus (connection_id : bytes) (direction : DecryptionDirection) (status : DecryptionAvailability)
    (reason : DecryptionReason)
| DecryptedPayload (connection_id : bytes) (direction : DecryptionDirection) (stream_id : option Z)
    (redacted : bool) (data : bytes).

Section decrypt.
Context `{Hpack} `{VecPolicy} `{TlsCrypto} `{Zeroizer} `{IterOrder} `{HexDecoder}.

Record Direction := mkDirection {
  stream : option TlsDirectionStream.t;
  handshake_secret : option SessionSecret;
  handshake_sequence : Z;
  handshake_parser : TlsHandshakeParser.t;
  handshake_epoch_started : bool;
  handshake_epoch_complete : bool;
  cipher_suite : option Z;
  early_data_advertised : bool;
  early_data_records : Z;
  early_data_bytes : Z;
  app_secret : option SessionSecret;
  app_sequence : Z;
  plaintext_sequence : Z;
  http2 : Http2Reassembler.t;
  key_wait_records : list (vec Z);
  key_wait_bytes : Z;
  key_wait_since_ms : option Z;
  gap_since_ms : option Z;
  last_activity_ms : Z;
  terminal : option (DecryptionAvailability * DecryptionReason);
  terminal_status_emitted : bool;
  clean_closed : bool
}.
#[global] Instance eta_Direction : RecordEta Direction := λ r,
  mkDirection (stream r) (handshake_secret r) (handshake_sequence r) (handshake_parser r) (handshake_epoch_started r)
    (handshake_epoch_complete r) (cipher_suite r) (early_data_advertised r) (early_data_records r) (early_data_bytes r)
    (app_secret r) (app_sequence r) (plaintext_sequence r) (http2 r) (key_wait_records r) (key_wait_bytes r)
    (key_wait_since_ms r) (gap_since_ms r) (last_activity_ms r) (terminal r) (terminal_status_emitted r) (clean_closed r).

Definition new_direction : Direction :=
  mkDirection None None 0 TlsHandshakeParser.new false false None false 0 0 None 0 0 Http2Reassembler.new [] 0
    None None 0 None false false.

Definition feed_plaintext_to_http2 (d : Direction) (data : bytes) : Direction * list FrameOutcome :=
  let '(h, outcomes) := Http2Reassembler.feed (http2 d) (plaintext_sequence d) data in
  (d <| http2 := h |> <| plaintext_sequence ::= λ s, sat_add s (zlen data) |>, outcomes).

(** [name: value] lines, without a newline after the last. *)
Definition format_decrypted_headers (headers : list (bytes * bytes)) : bytes :=
  join [10] ((λ h : bytes * bytes, h.1 ++ lit ": " ++ h.2) <$> headers).

Definition record_caps (l : list (vec Z)) : Z := foldr (λ v acc, vcap v + acc) 0 l.

Definition direction_held_bytes (d : Direction) : Z :=
  sat_add (sat_add (sat_add (match stream d with Some s => TlsDirectionStream.bytes_held s | None => 0 end)
                            (record_caps (key_wait_records d)))
             (TlsHandshakeParser.bytes_held (handshake_parser d)))
    (Http2Reassembler.bytes_held (http2 d)).

Record Connection := mkConnection {
  c_pid : Z;
  c_client_random : option bytes;
  c_client_is_outbound : option bool;
  c_outbound : Direction;
  c_inbound : Direction;
  c_ring : DecryptedRingBuffer.t
}.
#[global] Instance eta_Connection : RecordEta Connection := λ r,
  mkConnection (c_pid r) (c_client_random r) (c_client_is_outbound r) (c_outbound r) (c_inbound r) (c_ring r).

(** [mlock_ok]: whether the ring's memory could be locked. *)
Definition new_connection (pid : Z) (mlock_ok : bool) : Connection :=
  mkConnection pid None None new_direction new_direction (DecryptedRingBuffer.new DECRYPT_RING_CAP_BYTES mlock_ok).

Definition held_bytes (c : Connection) : Z :=
  sat_add (sat_add (direction_held_bytes (c_outbound c)) (direction_held_bytes (c_inbound c)))
    (DecryptedRingBuffer.bytes_held (c_ring c)).

Abbreviation DecryptState := (gmap bytes Connection).

Definition is_active (d : Direction) : bool := bool_decide (is_Some (stream d)).

Definition direction_of (c : Connection) (outbound : bool) : Direction := if outbound then c_outbound c else c_inbound c.
Definition update_direction (c : Connection) (outbound : bool) (f : Direction → Direction) : Connection :=
  if outbound then c <| c_outbound ::= f |> else c <| c_inbound ::= f |>.

Definition active_count (c : Connection) : Z :=
  (if is_active (c_outbound c) then 1 else 0) + (if is_active (c_inbound c) then 1 else 0).

Definition in_scope (pid : option Z) (c : Connection) : bool :=
  match pid with None => true | Some p => c_pid c =? p end.

Definition active_tls_directions (state : DecryptState) (pid : option Z) : Z :=
  map_total (λ c, if in_scope pid c then active_count c else 0) state.

Definition direction_name (client_is_outbound : option bool) (outbound : bool) : option DecryptionDirection :=
  (λ client, if Bool.eqb outbound client then ClientToServer else ServerToClient) <$> client_is_outbound.

Definition emit_pending_decryption_status (id : bytes) (direction : option DecryptionDirection) (d : Direction)
    : Direction * list AgentEvent :=
  if terminal_status_emitted d then (d, [])
  else
    match direction, terminal d with
    | Some direction, Some (status, reason) =>
        (d <| terminal_status_emitted := true |>, [DecryptionStatus id direction status reason])
    | _, _ => (d, [])
    end.

Definition terminate_decryption_direction (id : bytes) (direction : option DecryptionDirection) (d : Direction)
    (status : DecryptionAvailability) (reason : DecryptionReason) : Direction * list AgentEvent :=
  let d :=
    match terminal d with
    | Some _ => d
    | None =>
        d <| terminal := Some (status, reason) |> <| stream := None |> <| handshake_secret := None |>
          <| app_secret := None |> <| handshake_sequence := 0 |> <| app_sequence := 0 |>
          <| key_wait_records := [] |> <| key_wait_bytes := 0 |> <| key_wait_since_ms := None |>
          <| gap_since_ms := None |> <| handshake_parser := TlsHandshakeParser.new |>
          <| http2 := Http2Reassembler.new |>
    end in
  emit_pending_decryption_status id direction d.

Definition count_early_data_trial (d : Direction) (record_bytes : Z) : Direction * bool :=
  let d := d <| early_data_records ::= λ n, Z.min (n + 1) 255 |>
             <| early_data_bytes ::= λ n, sat_add n record_bytes |> in
  (d, (early_data_records d <=? MAX_EARLY_DATA_RECORDS) && (early_data_bytes d <=? MAX_EARLY_DATA_BYTES)).

Definition since_expired (since : option Z) (now hold : Z) : bool :=
  match since with Some since => hold <=? sat_sub now since | None => false end.

Definition key_wait_expired (d : Direction) (capture_now_ms : Z) : bool :=
  since_expired (key_wait_since_ms d) capture_now_ms TLS_KEY_WAIT_MS.

Definition expire_tls_direction_timers (id : bytes) (direction : option DecryptionDirection) (d : Direction)
    (capture_now_ms : Z) : Direction * list AgentEvent :=
  match terminal d with
  | Some _ => (d, [])
  | None =>
      if key_wait_expired d capture_now_ms then
        terminate_decryption_direction id direction d Unavailable NoKey
      else if since_expired (gap_since_ms d) capture_now_ms TLS_GAP_HOLD_MS then
        terminate_decryption_direction id direction d Desynchronized TcpGap
      else (d, [])
  end.

Definition expire_connection_timers (now : Z) (id : bytes) (c : Connection) : Connection * list AgentEvent :=
  let '(o, e1) := expire_tls_direction_timers id (direction_name (c_client_is_outbound c) true) (c_outbound c) now in
  let '(i, e2) := expire_tls_direction_timers id (direction_name (c_client_is_outbound c) false) (c_inbound c) now in
  (c <| c_outbound := o |> <| c_inbound := i |>, e1 ++ e2).

Definition expire_tls_state_timers (state : DecryptState) (capture_now_ms : Z) : DecryptState * list AgentEvent :=
  foldl (λ '(state, events) '(id, c),
    let '(c, es) := expire_connection_timers capture_now_ms id c in (<[id := c]> state, events ++ es))
    (state, []) (iter state).

Definition apply_plaintext_handshake_event (d : Direction) (event : HandshakeEvent) : Direction * option Z :=
  match event with
  | ClientHello early_data => (d <| early_data_advertised ::= λ b, b || early_data |>, None)
  | ServerHello suite _ tls13 =>
      let suite := if tls13 then suite else 0 in (d <| cipher_suite := Some suite |>, Some suite)
  | Finished | KeyUpdate _ | OtherMessage => (d, None)
  end.

Definition apply_plaintext_handshake_events (d : Direction) (events : list HandshakeEvent) : Direction * option Z :=
  foldl (λ '(d, suite) event,
    let '(d, s) := apply_plaintext_handshake_event d event in (d, match s with Some _ => s | None => suite end))
    (d, None) events.

Definition mark_tls_capture_truncated (id : bytes) (direction : option DecryptionDirection) (d : Direction)
    (was_truncated : bool) : Direction * list AgentEvent * bool :=
  let '(d, es) :=
    if was_truncated then terminate_decryption_direction id direction d Desynchronized CaptureTruncated else (d, []) in
  (d, es, was_truncated).

(** ** Eviction *)

Definition mark_tls_direction_evicted (state : DecryptState) (id : bytes) (outbound : bool)
    : DecryptState * list AgentEvent :=
  match state !! id with
  | None => (state, [])
  | Some c =>
      let '(d, es) := terminate_decryption_direction id (direction_name (c_client_is_outbound c) outbound)
                        (direction_of c outbound) Unavailable EvictedBudget in
      let c := update_direction c outbound (λ _, d) in
      (<[id := c <| c_ring ::= DecryptedRingBuffer.clear |>]> state, es)
  end.

(** The two directions of a connection, as candidates for eviction: the
    connection, the direction, its last activity. *)
Definition candidates (ic : bytes * Connection) : list (bytes * bool * Z) :=
  (if is_active (c_outbound ic.2) then [(ic.1, true, last_activity_ms (c_outbound ic.2))] else []) ++
  (if is_active (c_inbound ic.2) then [(ic.1, false, last_activity_ms (c_inbound ic.2))] else []).

Definition oldest (state : DecryptState) (keep : bytes → Connection → bool) : option (bytes * bool) :=
  (λ v : bytes * bool * Z, v.1)
    <$> min_by_key (λ v : bytes * bool * Z, v.2)
          (List.filter (λ ic, keep ic.1 ic.2) (iter state) ≫= candidates).

(** The loop that makes room in one scope; [None]: the fuel ran out. *)
Fixpoint make_room_loop (fuel : nat) (state : DecryptState) (scope : option Z) (limit : Z) (current_id : bytes)
    (events : list AgentEvent) : option (DecryptState * list AgentEvent) :=
  match fuel with
  | O => None
  | S fuel' =>
      if limit <=? active_tls_directions state scope then
        match oldest state (λ id c, negb (bool_decide (id = current_id)) && in_scope scope c) with
        | None => Some (state, events)
        | Some (id, outbound) =>
            let '(state, es) := mark_tls_direction_evicted state id outbound in
            make_room_loop fuel' state scope limit current_id (events ++ es)
        end
      else Some (state, events)
  end.

Definition make_tls_direction_room (fuel : nat) (state : DecryptState) (pid : Z) (current_id : bytes)
    : option (DecryptState * list AgentEvent) :=
  '(state, es) ← make_room_loop fuel state (Some pid) MAX_TLS_DIRECTIONS_PER_PID current_id [];
  make_room_loop fuel state None MAX_TLS_ACTIVE_DIRECTIONS current_id es.

Definition total_held (state : DecryptState) : Z := map_total held_bytes state.

(** The loop that keeps the budget; [None]: the fuel ran out. *)
Fixpoint enforce_tls_buffer_budget (fuel : nat) (state : DecryptState) (events : list AgentEvent)
    : option (DecryptState * list AgentEvent) :=
  match fuel with
  | O => None
  | S fuel' =>
      if MAX_TLS_BUFFER_BYTES <? total_held state then
        match oldest state (λ _ _, true) with
        | Some (id, outbound) =>
            let '(state, es) := mark_tls_direction_evicted state id outbound in
            enforce_tls_buffer_budget fuel' state (events ++ es)
        | None =>
            match min_by_key (λ ic : bytes * Connection,
                    Z.max (last_activity_ms (c_outbound ic.2)) (last_activity_ms (c_inbound ic.2)))
                    (List.filter (λ ic, 0 <? DecryptedRingBuffer.bytes_held (c_ring ic.2)) (iter state)) with
            | None => Some (state, events)
            | Some (id, _) =>
                enforce_tls_buffer_budget fuel'
                  (alter (λ c, c <| c_ring ::= DecryptedRingBuffer.clear |>) id state) events
            end
        end
      else Some (state, events)
  end.

Definition remove_decrypt_connection (state : DecryptState) (watcher : KeyLogWatcher.t) (id : bytes)
    : DecryptState * KeyLogWatcher.t :=
  let identity := c ← state !! id; random ← c_client_random c; Some (c_pid c, random) in
  (delete id state,
   match identity with
   | Some (pid, random) => KeyLogWatcher.remove_flow_secrets watcher pid random
   | None => watcher
   end).

(** ** Records *)

(** What a run over records knows and what it changes. *)
Record Ctx := mkCtx {
  x_id : bytes;
  x_outbound : bool;
  x_client_is_outbound : option bool;
  x_name : option DecryptionDirection;
  x_event_now_ms : Z;
  x_capture_now_ms : Z
}.

Record Run := mkRun {
  r_dir : Direction;
  r_suite : option Z;
  r_ring : DecryptedRingBuffer.t;
  r_limiter : PacketEventLimiter.t;
  r_deferred : list (vec Z);
  r_events : list AgentEvent
}.
#[global] Instance eta_Run : RecordEta Run := λ r,
  mkRun (r_dir r) (r_suite r) (r_ring r) (r_limiter r) (r_deferred r) (r_events r).

Definition run_terminate (x : Ctx) (r : Run) (status : DecryptionAvailability) (reason : DecryptionReason) : Run :=
  let '(d, es) := terminate_decryption_direction (x_id x) (x_name x) (r_dir r) status reason in
  r <| r_dir := d |> <| r_events ::= λ l, l ++ es |>.

Definition defer_tls_record (x : Ctx) (r : Run) (record : vec Z) : Run :=
  let d := r_dir r in
  let d := match key_wait_since_ms d with None => d <| key_wait_since_ms := Some (x_capture_now_ms x) |> | Some _ => d end in
  let r := r <| r_dir := d |> in
  if MAX_TLS_KEY_WAIT_BYTES <? sat_add (key_wait_bytes d) (zlen (vlist record)) then
    run_terminate x r Unavailable NoKey
  else
    r <| r_dir ::= λ d, d <| key_wait_bytes ::= Z.add (zlen (vlist record)) |> |>
      <| r_deferred ::= λ l, l ++ [record] |>.

(** [label.rsplit('_').next()]. *)
Fixpoint after_last_underscore (l : bytes) : bytes :=
  match l with
  | [] => []
  | b :: l' =>
      if bool_decide (95 ∈ l') then after_last_underscore l'
      else if b =? 95 then l' else b :: l'
  end.

Definition next_generation (x : Ctx) (s : SessionSecret) (next : bytes) : SessionSecret :=
  let generation := sat_add (default 0 (parse_u64 (after_last_underscore (label s)))) 1 in
  let side := if bool_decide (x_client_is_outbound x = Some (x_outbound x)) then lit "CLIENT" else lit "SERVER" in
  mkSessionSecret (client_random s) (side ++ lit "_TRAFFIC_SECRET_" ++ dec generation) next.

(** An event of the encrypted handshake. *)
Definition encrypted_handshake_event (x : Ctx) (handshake_epoch : bool) (d : Direction) (event : HandshakeEvent) : Direction :=
  match event with
  | Finished =>
      if handshake_epoch then
        d <| handshake_epoch_complete := true |> <| handshake_secret := None |> <| handshake_sequence := 0 |>
      else d
  | KeyUpdate _ =>
      if handshake_epoch then d
      else
        match app_secret d with
        | None => d
        | Some s =>
            match next_traffic_secret s with
            | None => d
            | Some next => d <| app_secret := Some (next_generation x s next) |> <| app_sequence := 0 |>
            end
        end
  | _ => d
  end.

Definition advance_sequence (handshake_epoch : bool) (d : Direction) : Direction :=
  if handshake_epoch then d <| handshake_sequence ::= λ n, sat_add n 1 |>
  else d <| app_sequence ::= λ n, sat_add n 1 |>.

(** A copy of some bytes, as allocated. *)
Definition to_vec (l : bytes) : vec Z := mkVec l (vp_from_elem (zlen l)).

Definition emit_decrypted (x : Ctx) (name : DecryptionDirection) (stream_id : Z) (r : Run) (data : bytes) : Run :=
  let '(limiter, allowed) := PacketEventLimiter.allow (r_limiter r) (x_event_now_ms x) in
  let r := r <| r_limiter := limiter |> in
  if allowed then r <| r_events ::= λ l, l ++ [DecryptedPayload (x_id x) name (Some stream_id) false data] |> else r.

(** Content is kept in the ring and, as the limiter allows, sent. *)
Definition show_content (x : Ctx) (name : DecryptionDirection) (stream_id : Z) (r : Run) (data : bytes) : Run :=
  if bool_decide (data = []) then r
  else emit_decrypted x name stream_id (r <| r_ring ::= λ g, DecryptedRingBuffer.push_for_direction g name (to_vec data) |>) data.

Definition show_outcome (x : Ctx) (name : DecryptionDirection) (r : Run) (outcome : FrameOutcome) : Run :=
  match outcome with
  | Frame stream_id headers body =>
      let r :=
        if bool_decide (headers = []) then r
        else
          let text := format_decrypted_headers headers in
          emit_decrypted x name stream_id
            (r <| r_ring ::= λ g, DecryptedRingBuffer.push_for_direction g name (to_vec text) |>) text in
      show_content x name stream_id r body
  | _ => r
  end.

(** A record that decrypted: the run, and whether the loop goes on. *)
Definition plaintext_record (x : Ctx) (r : Run) (handshake_epoch : bool) (content_type : Z) (data : bytes) : Run * bool :=
  let d := r_dir r in
  if content_type =? 21 then
    (r <| r_dir := d <| clean_closed := true |> <| app_secret := None |> <| handshake_secret := None |>
                     <| key_wait_records := [] |> <| key_wait_bytes := 0 |> |>, false)
  else if content_type =? 22 then
    let d := advance_sequence handshake_epoch d in
    let d := if handshake_epoch then d <| handshake_epoch_started := true |> else d in
    let d := d <| key_wait_since_ms := None |> in
    match TlsHandshakeParser.feed (handshake_parser d) data with
    | (parser, Ok events) =>
        let d := foldl (encrypted_handshake_event x handshake_epoch) (d <| handshake_parser := parser |>) events in
        (r <| r_dir := d |>, true)
    | (parser, Err _) =>
        (run_terminate x (r <| r_dir := d <| handshake_parser := parser |> |>) Desynchronized RecordInvalid, false)
    end
  else if content_type =? 23 then
    let d := advance_sequence handshake_epoch d in
    let d := d <| key_wait_since_ms := None |> in
    if handshake_epoch then (r <| r_dir := d <| handshake_epoch_started := true |> |>, true)
    else
      let '(d, outcomes) := feed_plaintext_to_http2 d data in
      let r := r <| r_dir := d |> in
      match x_name x with
      | None => (run_terminate x r Unavailable HandshakeNotObserved, true)
      | Some name => (foldl (show_outcome x name) r outcomes, true)
      end
  else
    (r <| r_dir := (advance_sequence handshake_epoch d) <| key_wait_since_ms := None |> |>, true).

Definition TLS_AES_128_GCM_SHA256 : Z := 4865.

(** The key and sequence number of the current epoch. *)
Definition current_key (d : Direction) : option SessionSecret * Z * bool :=
  if handshake_epoch_complete d then (app_secret d, app_sequence d, false)
  else (handshake_secret d, handshake_sequence d, true).

(** An encrypted record. *)
Definition encrypted_record (x : Ctx) (r : Run) (record : vec Z) : Run * bool :=
  let defer := let r := defer_tls_record x r record in (r, bool_decide (terminal (r_dir r) = None)) in
  match r_suite r with
  | None => defer
  | Some suite =>
      if negb (suite =? TLS_AES_128_GCM_SHA256) then (run_terminate x r Unavailable UnsupportedCipher, false)
      else
        match current_key (r_dir r) with
        | (None, _, _) => defer
        | (Some s, sequence, handshake_epoch) =>
            match decrypt_record (vlist record) s sequence with
            | Plaintext content_type data => plaintext_record x r handshake_epoch content_type data
            | Undecryptable _ =>
                if handshake_epoch && negb (handshake_epoch_started (r_dir r))
                   && bool_decide (x_client_is_outbound x = Some (x_outbound x)) && early_data_advertised (r_dir r) then
                  let '(d, ok) := count_early_data_trial (r_dir r) (zlen (vlist record)) in
                  let r := r <| r_dir := d |> in
                  if ok then (r, true) else (run_terminate x r Unavailable EarlyDataUnresolved, false)
                else (run_terminate x r Desynchronized RecordInvalid, false)
            end
        end
  end.

Definition process_record (x : Ctx) (r : Run) (record : vec Z) : Run * bool :=
  let invalid := (run_terminate x r Desynchronized RecordInvalid, false) in
  match vlist record with
  | [] => invalid
  | first :: _ =>
      if first =? 20 then (r, true)
      else if zlen (vlist record) <? 5 then invalid
      else if first =? 22 then
        match TlsHandshakeParser.feed (handshake_parser (r_dir r)) (zdrop 5 (vlist record)) with
        | (parser, Err _) =>
            (run_terminate x (r <| r_dir := r_dir r <| handshake_parser := parser |> |>) Desynchronized RecordInvalid, false)
        | (parser, Ok events) =>
            let '(d, suite) := apply_plaintext_handshake_events (r_dir r <| handshake_parser := parser |>) events in
            let r := r <| r_dir := d |> in
            (match suite with Some _ => r <| r_suite := suite |> | None => r end, true)
        end
      else if first =? 23 then encrypted_record x r record
      else invalid
  end.

Fixpoint process_loop (x : Ctx) (r : Run) (records : list (vec Z)) : Run :=
  match records with
  | [] => r
  | record :: records' =>
      let '(r, go_on) := process_record x r record in if go_on then process_loop x r records' else r
  end.

Definition process_tls_records (x : Ctx) (r : Run) (records : list (vec Z)) : Run :=
  let r := process_loop x (r <| r_deferred := [] |>) records in
  match terminal (r_dir r) with
  | None => r <| r_dir ::= λ d, d <| key_wait_records := r_deferred r |> |>
  | Some _ => r
  end.

(** ** Packets *)

Definition local_port_of (packet : ParsedPacket) (local_addrs : list bytes) : option Z :=
  if bool_decide (src_ip packet ∈ local_addrs) then src_port packet
  else if bool_decide (dst_ip packet ∈ local_addrs) then dst_port packet
  else None.

Definition build_flow_key (packet : ParsedPacket) (local_addrs : list bytes) : option FlowKey :=
  if bool_decide (src_ip packet ∈ local_addrs) then
    sp ← src_port packet; dp ← dst_port packet;
    Some (mkFlowKey (protocol packet) (src_ip packet) sp (dst_ip packet) dp)
  else if bool_decide (dst_ip packet ∈ local_addrs) then
    dp ← dst_port packet; sp ← src_port packet;
    Some (mkFlowKey (protocol packet) (dst_ip packet) dp (src_ip packet) sp)
  else None.

(** What the threads share: the decryption state, the key logs, the limiter. *)
Record World := mkWorld {
  w_state : DecryptState;
  w_watcher : KeyLogWatcher.t;
  w_limiter : PacketEventLimiter.t
}.
#[global] Instance eta_World : RecordEta World := λ r, mkWorld (w_state r) (w_watcher r) (w_limiter r).

(** What the flow table says of the packet's flow. *)
Record FlowView := mkFlowView {
  v_client_random : option bytes;
  v_client_is_outbound : option bool;
  v_outbound_syn : option Z;
  v_inbound_syn : option Z
}.

Definition flow_view (flows : FlowTable.t) (key : FlowKey) : FlowView :=
  mkFlowView (FlowTable.client_random_for flows key) (FlowTable.client_is_outbound_for flows key)
    (FlowTable.tcp_syn_sequence_for flows key true) (FlowTable.tcp_syn_sequence_for flows key false).

(** The secrets of a direction, taken from the key logs. *)
Definition take_secrets (watcher : KeyLogWatcher.t) (pid : Z) (v : FlowView) (outbound : bool)
    : KeyLogWatcher.t * option SessionSecret * option SessionSecret :=
  match v_client_random v, v_client_is_outbound v with
  | Some random, Some client =>
      let watcher := KeyLogWatcher.mark_flow_seen watcher pid random in
      let '(watcher, app) := KeyLogWatcher.take_secret watcher pid random (secret_label_for_direction client outbound false) in
      let '(watcher, hs) := KeyLogWatcher.take_secret watcher pid random (secret_label_for_direction client outbound true) in
      (watcher, app, hs)
  | _, _ => (watcher, None, None)
  end.

(** A direction without a stream starts one where its SYN was seen. *)
Definition open_stream (syn_seq : option Z) (d : Direction) : Direction :=
  match stream d, syn_seq with
  | None, Some seq => d <| stream := Some (TlsDirectionStream.new (first_data_sequence seq true)) |>
  | _, _ => d
  end.

(** The connection with what the flow table knows by now. *)
Definition open_connection (c : Connection) (v : FlowView) : Connection :=
  let c := match c_client_random c with None => c <| c_client_random := v_client_random v |> | Some _ => c end in
  let c := match c_client_is_outbound c with None => c <| c_client_is_outbound := v_client_is_outbound v |> | Some _ => c end in
  c <| c_outbound ::= open_stream (v_outbound_syn v) |> <| c_inbound ::= open_stream (v_inbound_syn v) |>.

Definition stream_reason (e : TlsStreamError) : DecryptionReason :=
  match e with
  | ConflictingOverlap => OverlapConflict
  | RecordTooLarge => RecordOverflow
  | ReorderWindowExceeded => TcpGap
  end.

Definition or_secret (have candidate : option SessionSecret) : option SessionSecret :=
  match have with Some _ => have | None => candidate end.

(** The packet's segment through the direction's stream: the direction, the
    records to process (none once it ended), the events. *)
Definition feed_direction (x : Ctx) (d : Direction) (capture_truncated : bool)
    (app hs : option SessionSecret) (data_seq : Z) (segment : bytes)
    : Direction * option (list (vec Z)) * list AgentEvent :=
  let d := d <| last_activity_ms := x_capture_now_ms x |> in
  let '(d, e1) := emit_pending_decryption_status (x_id x) (x_name x) d in
  let '(d, e2, cut) := mark_tls_capture_truncated (x_id x) (x_name x) d capture_truncated in
  if cut then (d, None, e1 ++ e2)
  else
    let '(d, e3) := expire_tls_direction_timers (x_id x) (x_name x) d (x_capture_now_ms x) in
    let events := e1 ++ e2 ++ e3 in
    match terminal d with
    | Some _ => (d, None, events)
    | None =>
        let d := d <| app_secret ::= λ s, or_secret s app |> <| handshake_secret ::= λ s, or_secret s hs |> in
        match stream d with
        | None =>
            if bool_decide (segment = []) then (d, None, events)
            else
              let '(d, e4) := terminate_decryption_direction (x_id x) (x_name x) d Unavailable HandshakeNotObserved in
              (d, None, events ++ e4)
        | Some s =>
            if clean_closed d then (d, None, events)
            else
              let '(s, framed) := TlsDirectionStream.feed_segment s data_seq segment in
              let d := d <| stream := Some s |> in
              match framed with
              | Err e =>
                  let '(d, e4) := terminate_decryption_direction (x_id x) (x_name x) d Desynchronized (stream_reason e) in
                  (d, None, events ++ e4)
              | Ok framed =>
                  let d := d <| gap_since_ms := if TlsDirectionStream.has_pending_gap s
                                                then Some (default (x_capture_now_ms x) (gap_since_ms d)) else None |> in
                  if since_expired (gap_since_ms d) (x_capture_now_ms x) TLS_GAP_HOLD_MS then
                    let '(d, e4) := terminate_decryption_direction (x_id x) (x_name x) d Desynchronized TcpGap in
                    (d, None, events ++ e4)
                  else
                    (d <| key_wait_records := [] |> <| key_wait_bytes := 0 |>,
                     Some (key_wait_records d ++ framed), events)
              end
        end
    end.

(** [flags.syn] of a packet. *)
Definition packet_syn (packet : ParsedPacket) : bool := match tcp_flags packet with Some f => syn f | None => false end.

Definition orelse {A} (a b : option A) : option A := match a with Some _ => a | None => b end.

(** One direction's records, in its connection. *)
Definition process_connection (x : Ctx) (c : Connection) (limiter : PacketEventLimiter.t) (d : Direction)
    (suite : option Z) (records : list (vec Z)) (events : list AgentEvent)
    : Connection * PacketEventLimiter.t * list AgentEvent :=
  let r := process_tls_records x (mkRun d suite (c_ring c) limiter [] events) records in
  ((update_direction c (x_outbound x) (λ _, r_dir r)) <| c_ring := r_ring r |>, r_limiter r, r_events r).

(** Whether the packet may have to start a stream. *)
Definition needs_stream_slot (state : DecryptState) (id : bytes) (v : FlowView) : bool :=
  (bool_decide (is_Some (v_outbound_syn v)) || bool_decide (is_Some (v_inbound_syn v))) &&
  match state !! id with
  | None => true
  | Some c =>
      (bool_decide (is_Some (v_outbound_syn v)) && negb (is_active (c_outbound c))) ||
      (bool_decide (is_Some (v_inbound_syn v)) && negb (is_active (c_inbound c)))
  end.

(** An eligible process's packet; [None]: a loop does not end within the fuel. *)
Definition decrypt_packet (fuel : nat) (w : World) (pid : Z) (id : bytes) (v : FlowView) (outbound : bool)
    (data_seq : Z) (segment : bytes) (capture_truncated mlock_ok : bool) (event_now_ms capture_now_ms : Z)
    : option (World * list AgentEvent) :=
  let '(watcher, app, hs) := take_secrets (w_watcher w) pid v outbound in
  let w := w <| w_watcher := watcher |> in
  '(state, e0) ← (if needs_stream_slot (w_state w) id v then make_tls_direction_room fuel (w_state w) pid id
                  else Some (w_state w, []));
  let c := default (new_connection pid mlock_ok) (state !! id) in
  if negb (c_pid c =? pid) then Some (w <| w_state := state |>, e0)
  else
    let c := open_connection c v in
    let x := mkCtx id outbound (v_client_is_outbound v) (direction_name (c_client_is_outbound c) outbound)
               event_now_ms capture_now_ms in
    let suite := orelse (cipher_suite (c_outbound c)) (cipher_suite (c_inbound c)) in
    let '(d, records, e1) := feed_direction x (direction_of c outbound) capture_truncated app hs data_seq segment in
    let c := update_direction c outbound (λ _, d) in
    match records with
    | None => Some (w <| w_state := <[id := c]> state |>, e0 ++ e1)
    | Some records =>
        let '(c, limiter, es) := process_connection x c (w_limiter w) d suite records (e0 ++ e1) in
        '(state, es) ← enforce_tls_buffer_budget fuel (<[id := c]> state) es;
        Some (w <| w_state := state |> <| w_limiter := limiter |>, es)
    end.

(** [fs] and [now]: the key-log files and the clock their poll sees. *)
Definition try_decrypt_and_emit (fuel : nat) (w : World) (packet : ParsedPacket) (capture_truncated mlock_ok : bool)
    (event_now_ms capture_now_ms : Z) (local_addrs : list bytes) (process_map : gmap Z Z) (flows : FlowTable.t)
    (fs : bytes → FileState) (now : Z) : option (World * list AgentEvent) :=
  if negb (bool_decide (protocol packet = Tcp)) then Some (w, [])
  else
    match local_port_of packet local_addrs ≫= λ port, process_map !! port, build_flow_key packet local_addrs, tcp_seq packet with
    | Some pid, Some key, Some seq =>
        let outbound := bool_decide (src_ip packet ∈ local_addrs) in
        let w := w <| w_watcher ::= λ k, KeyLogWatcher.poll_at k fs now |> in
        if negb (KeyLogWatcher.is_eligible (w_watcher w) pid) then Some (w, [])
        else
          decrypt_packet fuel w pid (connection_id key) (flow_view flows key) outbound
            (first_data_sequence seq (packet_syn packet)) (payload packet) capture_truncated mlock_ok
            event_now_ms capture_now_ms
    | _, _, _ => Some (w, [])
    end.

(** ** Keys that arrive late *)

Definition replay_direction (id : bytes) (random : bytes) (client outbound : bool) (event_now_ms capture_now_ms : Z)
    (st : Connection * KeyLogWatcher.t * PacketEventLimiter.t * option Z * list AgentEvent)
    : Connection * KeyLogWatcher.t * PacketEventLimiter.t * option Z * list AgentEvent :=
  let '(c, watcher, limiter, suite, events) := st in
  let d := direction_of c outbound in
  match terminal d, clean_closed d with
  | None, false =>
      let '(watcher, d) :=
        match app_secret d with
        | Some _ => (watcher, d)
        | None =>
            let '(watcher, s) := KeyLogWatcher.take_secret watcher (c_pid c) random (secret_label_for_direction client outbound false) in
            (watcher, d <| app_secret := s |>)
        end in
      let '(watcher, d) :=
        match handshake_epoch_complete d, handshake_secret d with
        | false, None =>
            let '(watcher, s) := KeyLogWatcher.take_secret watcher (c_pid c) random (secret_label_for_direction client outbound true) in
            (watcher, d <| handshake_secret := s |>)
        | _, _ => (watcher, d)
        end in
      if bool_decide (key_wait_records d = []) || (bool_decide (app_secret d = None) && bool_decide (handshake_secret d = None))
      then (update_direction c outbound (λ _, d), watcher, limiter, suite, events)
      else
        let records := key_wait_records d in
        let d := d <| last_activity_ms := capture_now_ms |> <| key_wait_records := [] |> <| key_wait_bytes := 0 |> in
        let x := mkCtx id outbound (Some client) (direction_name (Some client) outbound) event_now_ms capture_now_ms in
        let r := process_tls_records x (mkRun d suite (c_ring c) limiter [] events) records in
        ((update_direction c outbound (λ _, r_dir r)) <| c_ring := r_ring r |>, watcher, r_limiter r, r_suite r, r_events r)
  | _, _ => st
  end.

Definition replay_connection (event_now_ms capture_now_ms : Z) (w : World * list AgentEvent) (ic : bytes * Connection)
    : World * list AgentEvent :=
  let '(w, events) := w in
  let '(id, c) := ic in
  match c_client_random c, c_client_is_outbound c with
  | Some random, Some client =>
      if negb (KeyLogWatcher.is_eligible (w_watcher w) (c_pid c)) then (w, events)
      else
        let watcher := KeyLogWatcher.mark_flow_seen (w_watcher w) (c_pid c) random in
        let suite := orelse (cipher_suite (c_outbound c)) (cipher_suite (c_inbound c)) in
        let st := (c, watcher, w_limiter w, suite, events) in
        let st := replay_direction id random client true event_now_ms capture_now_ms st in
        let '(c, watcher, limiter, _, events) := replay_direction id random client false event_now_ms capture_now_ms st in
        (mkWorld (<[id := c]> (w_state w)) watcher limiter, events)
  | _, _ => (w, events)
  end.

Definition replay_pending_tls_keys (w : World) (event_now_ms capture_now_ms : Z) : World * list AgentEvent :=
  foldl (replay_connection event_now_ms capture_now_ms) (w, []) (iter (w_state w)).
End decrypt.
