(* ===== verification/DecryptEviction.v ===== *)
(** * Making room for TLS streams

    What [make_tls_direction_room] and [enforce_tls_buffer_budget] guarantee
    while no ended direction holds a stream, and what becomes of them when one
    does. *)

From S2P Require Import Prelude Text Packet RateLimit RingBuffer Flow Keylog TlsStream TlsHandshake TlsDecrypt Http2 Decrypt.

Section eviction.
Context {HP : Hpack} {VP : VecPolicy} {ZE : Zeroizer} {IO : IterOrder}.

Abbreviation DecryptState := (gmap bytes Connection).
Implicit Types (state : DecryptState) (c : Connection) (d : Direction).

(** ** The victim *)

Lemma elem_iter state id c : (id, c) ∈ iter state ↔ state !! id = Some c.
Proof. rewrite iter_perm. apply elem_of_map_to_list. Qed.

Lemma elem_candidates ic id o last_ :
  (id, o, last_) ∈ candidates ic ↔
  id = ic.1 ∧ is_active (direction_of ic.2 o) = true ∧ last_ = last_activity_ms (direction_of ic.2 o).
Proof.
  unfold candidates, direction_of. rewrite elem_of_app. destruct ic as [i c]. cbn [fst snd].
  split.
  - intros [Hin|Hin]; [destruct (is_active (c_outbound c)) eqn:E|destruct (is_active (c_inbound c)) eqn:E];
      try (by apply not_elem_of_nil in Hin); apply list_elem_of_singleton in Hin as [= -> -> ->]; done.
  - intros (-> & Ha & ->). destruct o; cbn in Ha; rewrite Ha; [left|right]; by apply list_elem_of_singleton.
Qed.

Lemma elem_oldest state keep id o last_ :
  (id, o, last_) ∈ (List.filter (λ ic, keep ic.1 ic.2) (iter state) ≫= candidates) ↔
  ∃ c, state !! id = Some c ∧ keep id c = true ∧ is_active (direction_of c o) = true ∧
       last_ = last_activity_ms (direction_of c o).
Proof.
  rewrite list_elem_of_bind. split.
  - intros ([i c] & (-> & Ha & ->)%elem_candidates & Hin). apply list_elem_of_In, filter_In in Hin as [Hin Hk].
    apply list_elem_of_In, elem_iter in Hin. by exists c.
  - intros (c & Hc & Hk & Ha & ->). exists (id, c). split; [by apply elem_candidates|].
    apply list_elem_of_In, filter_In. split; [by apply list_elem_of_In, elem_iter|done].
Qed.

(** The victim is a kept, active direction, and none of them was idle longer. *)
Lemma oldest_Some state keep id o :
  oldest state keep = Some (id, o) →
  ∃ c, state !! id = Some c ∧ keep id c = true ∧ is_active (direction_of c o) = true ∧
    ∀ id' c' o', state !! id' = Some c' → keep id' c' = true → is_active (direction_of c' o') = true →
      last_activity_ms (direction_of c o) <= last_activity_ms (direction_of c' o').
Proof.
  unfold oldest. intros ([[id0 o0] last_] & Hm & [= -> ->])%fmap_Some.
  apply min_by_key_spec in Hm as [Hin Hall]. apply elem_oldest in Hin as (c & Hc & Hk & Ha & ->).
  exists c. split_and!; [done..|]. intros id' c' o' Hc' Hk' Ha'. apply (Hall (id', o', _)), elem_oldest. eauto.
Qed.

Lemma oldest_None state keep id c o :
  oldest state keep = None → state !! id = Some c → keep id c = true → is_active (direction_of c o) = false.
Proof.
  unfold oldest. intros Hn%fmap_None%min_by_key_None Hc Hk. destruct (is_active _) eqn:Ha; [|done].
  exfalso. eapply not_elem_of_nil. rewrite <- Hn. apply elem_oldest. eauto.
Qed.

(** ** Ending a direction *)

(** A direction that ended and yet holds a stream. *)
Definition stuck d : Prop := is_Some (terminal d) ∧ is_active d = true.

Lemma emit_pending_keeps id name d :
  let d' := (emit_pending_decryption_status id name d).1 in
  stream d' = stream d ∧ terminal d' = terminal d ∧ last_activity_ms d' = last_activity_ms d.
Proof.
  unfold emit_pending_decryption_status. destruct (terminal_status_emitted d); [done|].
  destruct name; [|done]. destruct (terminal d) as [[]|] eqn:E; cbn; rewrite ?E; done.
Qed.

Lemma terminate_terminal id name d status reason :
  is_Some (terminal (terminate_decryption_direction id name d status reason).1).
Proof.
  unfold terminate_decryption_direction. rewrite (proj1 (proj2 (emit_pending_keeps _ _ _))).
  by destruct (terminal d) as [t|] eqn:E; [rewrite E|].
Qed.

Lemma terminate_active id name d status reason :
  is_active (terminate_decryption_direction id name d status reason).1
  = match terminal d with Some _ => is_active d | None => false end.
Proof.
  unfold terminate_decryption_direction, is_active. rewrite (proj1 (emit_pending_keeps _ _ _)).
  by destruct (terminal d).
Qed.

Lemma direction_of_update c o o' f :
  direction_of (update_direction c o f) o' = if Bool.eqb o o' then f (direction_of c o) else direction_of c o'.
Proof. by destruct o, o'. Qed.

(** Evicting a direction: its connection's process and other direction stay. *)
Lemma evict_spec state id o c :
  state !! id = Some c →
  ∃ c', (mark_tls_direction_evicted state id o).1 = <[id := c']> state ∧ c_pid c' = c_pid c ∧
    is_Some (terminal (direction_of c' o)) ∧
    is_active (direction_of c' o) = match terminal (direction_of c o) with Some _ => is_active (direction_of c o) | None => false end ∧
    direction_of c' (negb o) = direction_of c (negb o) ∧
    c_ring c' = DecryptedRingBuffer.clear (c_ring c).
Proof.
  intros Hc. unfold mark_tls_direction_evicted. rewrite Hc.
  pose proof (terminate_terminal id (direction_name (c_client_is_outbound c) o) (direction_of c o) Unavailable EvictedBudget) as Ht.
  pose proof (terminate_active id (direction_name (c_client_is_outbound c) o) (direction_of c o) Unavailable EvictedBudget) as Ha.
  destruct (terminate_decryption_direction _ _ _ _ _) as [d es]. cbn [fst] in *.
  eexists. split; [done|]. destruct o; split_and!; try done.
Qed.

Lemma active_count_nonneg c : 0 <= active_count c.
Proof. unfold active_count. destruct (is_active _), (is_active _); lia. Qed.

Lemma active_count_split c o :
  active_count c = (if is_active (direction_of c o) then 1 else 0) + (if is_active (direction_of c (negb o)) then 1 else 0).
Proof. unfold active_count. destruct o; cbn; lia. Qed.

Lemma scoped_nonneg scope c : 0 <= (if in_scope scope c then active_count c else 0).
Proof. pose proof (active_count_nonneg c). destruct (in_scope scope c); lia. Qed.

(** How the count of active directions moves with one connection. *)
Lemma active_replace state scope id c c' :
  state !! id = Some c → c_pid c' = c_pid c →
  active_tls_directions (<[id := c']> state) scope
  = active_tls_directions state scope + (if in_scope scope c then active_count c' - active_count c else 0).
Proof.
  intros Hc Hp. unfold active_tls_directions. rewrite (map_total_replace _ state id c) by done.
  assert (Hs : in_scope scope c' = in_scope scope c) by (unfold in_scope; by rewrite Hp).
  rewrite Hs. destruct (in_scope scope c); lia.
Qed.

(** The directions a scope may evict. *)
Definition evictable (scope : option Z) (current_id id : bytes) c : bool :=
  negb (bool_decide (id = current_id)) && in_scope scope c.

Definition evictable_directions (P : Direction → Prop) (scope : option Z) (current_id : bytes) state : Prop :=
  ∀ id c o, state !! id = Some c → evictable scope current_id id c = true → is_active (direction_of c o) = true →
    P (direction_of c o).

Lemma evictable_pid scope cur id c c' : c_pid c' = c_pid c → evictable scope cur id c' = evictable scope cur id c.
Proof. intros Hp. unfold evictable, in_scope. by rewrite Hp. Qed.

(** ** Directions that cannot be evicted *)

(** Making room never ends once the directions it may evict have already
    ended.  An ended direction that holds a stream is counted as active and
    chosen as a victim, but ending it again changes nothing: if the limit is
    reached and every evictable active direction is of that kind, the loop runs
    for ever, whatever the fuel. *)
Lemma make_room_diverges scope limit current_id state fuel events :
  limit <= active_tls_directions state scope →
  evictable_directions (λ d, is_Some (terminal d)) scope current_id state →
  (∃ id c o, state !! id = Some c ∧ evictable scope current_id id c = true ∧ is_active (direction_of c o) = true) →
  make_room_loop fuel state scope limit current_id events = None.
Proof.
  revert state events. induction fuel as [|fuel IH]; intros state events Hl Hall (id0 & c0 & o0 & Hc0 & He0 & Ha0); [done|].
  cbn [make_room_loop]. rewrite (proj2 (Z.leb_le _ _)) by done.
  destruct (oldest _ _) as [[id o]|] eqn:Eo.
  2: { pose proof (oldest_None _ _ _ _ o0 Eo Hc0 He0). congruence. }
  apply oldest_Some in Eo as (c & Hc & He & Ha & _). pose proof (Hall _ _ _ Hc He Ha) as Ht.
  destruct (evict_spec state id o c Hc) as (c' & Hs & Hp & Ht' & Ha' & Hn & _).
  destruct (mark_tls_direction_evicted state id o) as [state' es]. cbn [fst] in Hs. subst state'.
  destruct Ht as [t Ht]. rewrite Ht, Ha in Ha'.
  apply IH.
  - rewrite (active_replace _ _ _ c), !(active_count_split _ o), Ha, Ha', Hn by done. destruct (in_scope _ _); lia.
  - intros i ci oi Hi Hei Hai. destruct (decide (i = id)) as [->|Hne].
    + rewrite lookup_insert_eq in Hi. injection Hi as <-. rewrite (evictable_pid _ _ _ c) in Hei by done.
      destruct (Bool.eqb_spec oi o) as [->|Hoi]; [done|].
      replace oi with (negb o) in * by (by destruct o, oi). rewrite Hn in *. eauto.
    + rewrite lookup_insert_ne in Hi by done. eauto.
  - exists id, c', o. rewrite lookup_insert_eq, (evictable_pid _ _ _ c) by done. done.
Qed.

(** ** Making room *)

(** No direction but the current connection's is both ended and active. *)
Definition none_stuck (current_id : bytes) state : Prop :=
  evictable_directions (λ d, terminal d = None) None current_id state.

Lemma evictable_other scope cur id c : evictable scope cur id c = true → evictable None cur id c = true ∧ in_scope scope c = true.
Proof. unfold evictable. intros [Hne Hs]%andb_true_iff. by rewrite Hne. Qed.

(** Evicting a live direction: one active direction less, none stuck. *)
Lemma evict_live scope cur state id o c :
  none_stuck cur state → state !! id = Some c → evictable scope cur id c = true → is_active (direction_of c o) = true →
  let state' := (mark_tls_direction_evicted state id o).1 in
  none_stuck cur state' ∧
  (∀ sc, active_tls_directions state' sc = active_tls_directions state sc - (if in_scope sc c then 1 else 0)) ∧
  (∀ i ci, evictable scope cur i ci = false → state' !! i = Some ci ↔ state !! i = Some ci).
Proof.
  intros Hall Hc He Ha. destruct (evictable_other _ _ _ _ He) as [He0 Hsc].
  pose proof (Hall _ _ _ Hc He0 Ha) as Ht. destruct (evict_spec state id o c Hc) as (c' & -> & Hp & Ht' & Ha' & Hn & _).
  rewrite Ht in Ha'. split_and!.
  - intros i ci oi Hi Hei Hai. destruct (decide (i = id)) as [->|Hne].
    + rewrite lookup_insert_eq in Hi. injection Hi as <-.
      destruct (Bool.eqb_spec oi o) as [->|Hoi]; [congruence|].
      replace oi with (negb o) in * by (by destruct o, oi). rewrite Hn in *. eauto.
    + rewrite lookup_insert_ne in Hi by done. eauto.
  - intros sc. rewrite (active_replace _ _ _ c), !(active_count_split _ o), Ha, Ha', Hn by done.
    destruct (in_scope sc c), (is_active (direction_of c (negb o))); lia.
  - intros i ci Hei. destruct (decide (i = id)) as [->|Hne]; [|by rewrite lookup_insert_ne].
    rewrite lookup_insert_eq, Hc. split; intros [= <-]; [rewrite (evictable_pid _ _ _ c) in Hei by done|];
      unfold evictable in *; congruence.
Qed.

Lemma active_count_le c : active_count c <= 2.
Proof. unfold active_count. destruct (is_active _), (is_active _); lia. Qed.

Lemma map_total_zero (cost : Connection → Z) state :
  (∀ k v, state !! k = Some v → cost v = 0) → map_total cost state = 0.
Proof.
  induction state as [|k v m Hk IH] using map_ind; intros Hc; [apply map_total_empty|].
  rewrite map_total_insert, (Hc k v) by (done || apply lookup_insert_eq). rewrite IH; [done|].
  intros j w Hj. apply (Hc j). rewrite lookup_insert_ne; [done|]. intros <-. congruence.
Qed.

(** With nothing left to evict only the current connection is active. *)
Lemma active_only_current scope cur state :
  (∀ id c o, state !! id = Some c → evictable scope cur id c = true → is_active (direction_of c o) = false) →
  active_tls_directions state scope <= 2.
Proof.
  intros Hno.
  assert (Hz : ∀ m : DecryptState, (∀ id c, m !! id = Some c → state !! id = Some c ∧ id ≠ cur) → active_tls_directions m scope = 0).
  { intros m Hm. apply map_total_zero. intros id c Hc. destruct (Hm _ _ Hc) as [Hs Hne].
    destruct (in_scope scope c) eqn:Es; [|done]. rewrite (active_count_split c true).
    rewrite (Hno id c true), (Hno id c (negb true)); try done; unfold evictable; by rewrite bool_decide_false, Es. }
  destruct (state !! cur) as [c|] eqn:Ec.
  - unfold active_tls_directions. rewrite (map_total_delete _ _ cur c Ec).
    pose proof (active_count_le c). pose proof (active_count_nonneg c).
    pose proof (Hz (delete cur state)) as Hd. unfold active_tls_directions in Hd. rewrite Hd; [destruct (in_scope _ _); lia|].
    intros id ci [Hne Hi]%lookup_delete_Some. done.
  - rewrite Hz; [lia|]. intros id ci Hi. split; [done|]. intros ->. congruence.
Qed.

(** One pass, for a limit above what one connection can hold. *)
Lemma make_room_loop_spec fuel scope limit cur state events :
  2 < limit → none_stuck cur state → active_tls_directions state scope < Z.of_nat fuel →
  ∃ state' events', make_room_loop fuel state scope limit cur events = Some (state', events') ∧
    none_stuck cur state' ∧
    (∀ sc, active_tls_directions state' sc <= active_tls_directions state sc) ∧
    active_tls_directions state' scope < limit ∧
    (∀ id c, evictable scope cur id c = false → state' !! id = Some c ↔ state !! id = Some c) ∧
    (active_tls_directions state scope < limit → state' = state).
Proof.
  intros Hlim. revert state events. induction fuel as [|fuel IH]; intros state events Hall Hf.
  { assert (0 <= active_tls_directions state scope) by (apply map_total_nonneg; intros; apply scoped_nonneg). lia. }
  cbn [make_room_loop]. destruct (Z.leb_spec limit (active_tls_directions state scope)) as [Hl|Hl].
  2: { exists state, events. by split_and!. }
  destruct (oldest _ _) as [[id o]|] eqn:Eo.
  2: { exfalso. enough (active_tls_directions state scope <= 2) by lia. apply (active_only_current _ cur).
       intros id c o Hc He. eapply oldest_None; [exact Eo|done|done]. }
  apply oldest_Some in Eo as (c & Hc & He & Ha & _).
  destruct (evict_live scope cur state id o c Hall Hc He Ha) as (Hall' & Hdec & Hkeep').
  destruct (mark_tls_direction_evicted state id o) as [state1 es]. cbn [fst] in *.
  pose proof (Hdec scope) as Hd. rewrite (proj2 (evictable_other _ _ _ _ He)) in Hd.
  destruct (IH state1 (events ++ es) Hall') as (state' & events' & Hr & Hst & Hle & Hend & Hkeep & _); [lia|].
  exists state', events'. split_and!; [done|done| |done| |lia].
  - intros sc. etrans; [apply Hle|]. rewrite Hdec. destruct (in_scope sc c); lia.
  - intros i ci Hei. rewrite Hkeep by done. by apply Hkeep'.
Qed.

(** C29: Making room works while no ended direction holds a stream: it returns,
    afterwards the process has fewer than 64 active directions and all
    processes together fewer than 1024; the current connection is untouched,
    and below the overall limit no connection of another process is touched. *)
Theorem make_room_sound fuel state pid cur :
  none_stuck cur state → active_tls_directions state None < Z.of_nat fuel →
  active_tls_directions state (Some pid) < Z.of_nat fuel →
  ∃ state' events, make_tls_direction_room fuel state pid cur = Some (state', events) ∧
    active_tls_directions state' (Some pid) < MAX_TLS_DIRECTIONS_PER_PID ∧
    active_tls_directions state' None < MAX_TLS_ACTIVE_DIRECTIONS ∧
    state' !! cur = state !! cur ∧
    (active_tls_directions state None < MAX_TLS_ACTIVE_DIRECTIONS →
     ∀ id c, c_pid c ≠ pid → state' !! id = Some c ↔ state !! id = Some c).
Proof.
  intros Hall Hf Hfp. unfold make_tls_direction_room.
  destruct (make_room_loop_spec fuel (Some pid) MAX_TLS_DIRECTIONS_PER_PID cur state [] ltac:(done) Hall Hfp)
    as (s1 & e1 & -> & Hall1 & Hle1 & Hend1 & Hk1 & _). cbn [mbind option_bind].
  destruct (make_room_loop_spec fuel None MAX_TLS_ACTIVE_DIRECTIONS cur s1 e1 ltac:(done) Hall1)
    as (s2 & e2 & -> & Hall2 & Hle2 & Hend2 & Hk2 & Hsame).
  { specialize (Hle1 None). lia. }
  exists s2, e2. split_and!; [done| |done| |].
  - specialize (Hle2 (Some pid)). lia.
  - assert (Hcur : ∀ sc c, evictable sc cur cur c = false) by (intros; unfold evictable; by rewrite bool_decide_true).
    apply option_eq. intros c. by rewrite Hk2, Hk1.
  - intros Hlt id c Hp. specialize (Hle1 None). rewrite Hsame by lia. apply Hk1. unfold evictable, in_scope.
    rewrite (proj2 (Z.eqb_neq _ _)) by done. apply andb_false_r.
Qed.

(** ** The byte budget *)

(** A ring that counts what it holds. *)
Definition ring_ok (r : DecryptedRingBuffer.t) : Prop :=
  Forall entry_ok (DecryptedRingBuffer.entries r) ∧
  DecryptedRingBuffer.used_bytes r = ring_cost (DecryptedRingBuffer.entries r).

Lemma clear_ok r : ring_ok r → ring_ok (DecryptedRingBuffer.clear r) ∧ DecryptedRingBuffer.bytes_held (DecryptedRingBuffer.clear r) = 0.
Proof. intros [Ho Hu]. rewrite clear_empties by done. split; [|done]. split; [constructor|done]. Qed.

(** No direction is both ended and active, and every ring counts right. *)
Definition sound_state state : Prop :=
  ∀ id c, state !! id = Some c →
    (∀ o, is_active (direction_of c o) = true → terminal (direction_of c o) = None) ∧ ring_ok (c_ring c).

(** What the loop can still release: an active direction, or a ring's bytes. *)
Definition releasable c : Z :=
  active_count c + (if 0 <? DecryptedRingBuffer.bytes_held (c_ring c) then 1 else 0).

Lemma releasable_nonneg c : 0 <= releasable c.
Proof. unfold releasable. pose proof (active_count_nonneg c). destruct (0 <? _); lia. Qed.

Lemma evict_sound state id o c :
  sound_state state → state !! id = Some c → is_active (direction_of c o) = true →
  let state' := (mark_tls_direction_evicted state id o).1 in
  sound_state state' ∧ map_total releasable state' < map_total releasable state.
Proof.
  intros Hs Hc Ha. destruct (Hs _ _ Hc) as [Hd Hr]. destruct (clear_ok _ Hr) as [Hr' Hz].
  destruct (evict_spec state id o c Hc) as (c' & -> & Hp & Ht' & Ha' & Hn & Hring). rewrite (Hd _ Ha) in Ha'. split.
  - intros i ci Hi. destruct (decide (i = id)) as [->|Hne]; [|rewrite lookup_insert_ne in Hi by done; eauto].
    rewrite lookup_insert_eq in Hi. injection Hi as <-. rewrite Hring. split; [|done]. intros oi Hai.
    destruct (Bool.eqb_spec oi o) as [->|Hoi]; [congruence|].
    replace oi with (negb o) in * by (by destruct o, oi). rewrite Hn in *. auto.
  - cbn zeta. rewrite (map_total_replace _ state id c) by done. unfold releasable at 2 3.
    rewrite !(active_count_split _ o), Ha, Ha', Hn, Hring, Hz. cbn [Z.ltb Z.compare].
    destruct (is_active (direction_of c (negb o))), (0 <? _); lia.
Qed.

Lemma clear_sound state id c :
  sound_state state → state !! id = Some c → 0 < DecryptedRingBuffer.bytes_held (c_ring c) →
  let state' := alter (λ c, c <| c_ring ::= DecryptedRingBuffer.clear |>) id state in
  sound_state state' ∧ map_total releasable state' < map_total releasable state.
Proof.
  intros Hs Hc Hb. destruct (Hs _ _ Hc) as [Hd Hr]. destruct (clear_ok _ Hr) as [Hr' Hz]. cbn zeta.
  assert (alter (λ c : Connection, c <| c_ring ::= DecryptedRingBuffer.clear |>) id state
          = <[id := c <| c_ring ::= DecryptedRingBuffer.clear |>]> state) as ->.
  { apply map_eq. intros i. destruct (decide (i = id)) as [->|Hne].
    - by rewrite lookup_alter_eq, lookup_insert_eq, Hc.
    - by rewrite lookup_alter_ne, lookup_insert_ne. }
  split.
  - intros i ci Hi. destruct (decide (i = id)) as [->|Hne]; [|rewrite lookup_insert_ne in Hi by done; eauto].
    rewrite lookup_insert_eq in Hi. injection Hi as <-. split; [|done]. intros oi Hai. by apply (Hd oi).
  - rewrite (map_total_replace _ state id c) by done. unfold releasable at 2 3.
    change (active_count (c <| c_ring ::= DecryptedRingBuffer.clear |>)) with (active_count c).
    change (c_ring (c <| c_ring ::= DecryptedRingBuffer.clear |>)) with (DecryptedRingBuffer.clear (c_ring c)).
    rewrite Hz, (proj2 (Z.ltb_lt _ _)) by done. cbn. lia.
Qed.

(** C30: The byte budget is enforced while no ended direction holds a stream:
    the loop returns, with what is held within 4 MiB, or with no active
    direction and no ring byte left to release. *)
Theorem budget_enforced fuel state events :
  sound_state state → map_total releasable state < Z.of_nat fuel →
  ∃ state' events', enforce_tls_buffer_budget fuel state events = Some (state', events') ∧
    sound_state state' ∧
    (total_held state' <= MAX_TLS_BUFFER_BYTES ∨
     ∀ id c, state' !! id = Some c → active_count c = 0 ∧ DecryptedRingBuffer.bytes_held (c_ring c) <= 0).
Proof.
  revert state events. induction fuel as [|fuel IH]; intros state events Hs Hf.
  { assert (0 <= map_total releasable state) by (apply map_total_nonneg; intros; apply releasable_nonneg). lia. }
  cbn [enforce_tls_buffer_budget]. destruct (Z.ltb_spec MAX_TLS_BUFFER_BYTES (total_held state)) as [Hl|Hl].
  2: { exists state, events. split_and!; [done|done|by left]. }
  destruct (oldest _ _) as [[id o]|] eqn:Eo.
  { apply oldest_Some in Eo as (c & Hc & _ & Ha & _). destruct (evict_sound state id o c Hs Hc Ha) as [Hs' Hd].
    destruct (mark_tls_direction_evicted state id o) as [state1 es]. cbn [fst] in *. apply IH; [done|lia]. }
  assert (Hidle : ∀ id c, state !! id = Some c → active_count c = 0).
  { intros id c Hc. rewrite (active_count_split c true).
    by rewrite (oldest_None _ _ id c true Eo Hc), (oldest_None _ _ id c (negb true) Eo Hc). }
  destruct (min_by_key _ _) as [[id c]|] eqn:Em.
  - apply min_by_key_spec in Em as [Hin _]. apply list_elem_of_In, filter_In in Hin as [Hin Hb].
    apply list_elem_of_In, elem_iter in Hin. apply Z.ltb_lt in Hb.
    destruct (clear_sound state id c Hs Hin Hb) as [Hs' Hd]. apply IH; [done|lia].
  - exists state, events. split_and!; [done|done|]. right. intros id c Hc. split; [eauto|].
    apply min_by_key_None in Em. destruct (Z.ltb_spec 0 (DecryptedRingBuffer.bytes_held (c_ring c))) as [Hb|]; [|lia].
    exfalso. eapply not_elem_of_nil. rewrite <- Em. apply list_elem_of_In, filter_In.
    split; [by apply list_elem_of_In, elem_iter|by apply Z.ltb_lt].
Qed.
End eviction.

(** ** A hang from an ordinary start *)

Section hang.
Context {HP : Hpack} {VP : VecPolicy} {TC : TlsCrypto} {ZE : Zeroizer}.

(** Both SYNs of a flow were seen, its hello was not. *)
Definition syn_view : FlowView := mkFlowView None None (Some 100) (Some 200).

(** A packet of process 7: its connection, its direction, and whether the
    capture cut it short. *)
Definition see (w : option World) (p : bytes * bool * bool) : option World :=
  w ← w; let '(id, outbound, truncated) := p in
  '(w, _) ← decrypt_packet 100 w 7 id syn_view outbound 101 [] truncated true 0 0; Some w.

(** Thirty-two connections, each with a truncated packet in either direction
    and one more packet. *)
Definition hang_packets : list (bytes * bool * bool) :=
  seq 0 32 ≫= λ n, let id := lit "c" ++ dec (Z.of_nat n) in [(id, true, true); (id, false, true); (id, true, false)].

Definition start_world : World := mkWorld ∅ KeyLogWatcher.new (PacketEventLimiter.new 100 1000).

Definition ended_connection (ic : bytes * Connection) : bool :=
  negb (bool_decide (ic.1 = lit "new")) && (c_pid ic.2 =? 7) &&
  forallb (λ o, negb (is_active (direction_of ic.2 o)) || bool_decide (is_Some (terminal (direction_of ic.2 o)))) [true; false].

Definition all_ended (w : World) : bool :=
  (MAX_TLS_DIRECTIONS_PER_PID <=? active_tls_directions (w_state w) (Some 7)) &&
  forallb ended_connection (map_to_list (w_state w)) &&
  existsb (λ ic, is_active (c_outbound ic.2)) (map_to_list (w_state w)).

Lemma all_ended_hangs w fuel :
  all_ended w = true → decrypt_packet fuel w 7 (lit "new") syn_view true 101 [] false true 0 0 = None.
Proof.
  unfold all_ended. intros [[Hl Hall]%andb_true_iff Hex]%andb_true_iff. apply Z.leb_le in Hl.
  assert (Hc : ∀ id c, w_state w !! id = Some c → ended_connection (id, c) = true).
  { intros id c Hc. apply (proj1 (forallb_forall _ _) Hall), list_elem_of_In. by apply elem_of_map_to_list. }
  assert (Hcon : ∀ id c, w_state w !! id = Some c → id ≠ lit "new" ∧ c_pid c = 7 ∧
    ∀ o, is_active (direction_of c o) = true → is_Some (terminal (direction_of c o))).
  { intros id c Hi. pose proof (Hc _ _ Hi) as He. unfold ended_connection in He. cbn [fst snd] in He.
    apply andb_true_iff in He as [[He1 He2]%andb_true_iff He3]. apply negb_true_iff, bool_decide_eq_false in He1.
    apply Z.eqb_eq in He2. split_and!; [done..|]. intros o Ha. cbn [forallb] in He3.
    apply andb_true_iff in He3 as [Ho He3]. apply andb_true_iff in He3 as [Hi3 _].
    destruct o; [rewrite Ha in Ho; by apply bool_decide_eq_true in Ho|rewrite Ha in Hi3; by apply bool_decide_eq_true in Hi3]. }
  assert (Hev : ∀ id c, w_state w !! id = Some c → evictable (Some 7) (lit "new") id c = true).
  { intros id c Hi. destruct (Hcon _ _ Hi) as (Hne & Hp & _). unfold evictable, in_scope.
    by rewrite bool_decide_false, Hp. }
  assert (Hslot : needs_stream_slot (w_state w) (lit "new") syn_view = true).
  { unfold needs_stream_slot. destruct (w_state w !! lit "new") as [c|] eqn:En; [|done].
    by destruct (Hcon _ _ En) as [? _]. }
  unfold decrypt_packet. cbn [take_secrets syn_view v_client_random v_client_is_outbound w_state].
  change (w_state (w <| w_watcher := w_watcher w |>)) with (w_state w). fold syn_view. rewrite Hslot.
  unfold make_tls_direction_room. rewrite make_room_diverges; [done|done| |].
  - intros id c o Hi _ Ha. by apply (Hcon _ _ Hi).
  - apply existsb_exists in Hex as ([id c] & Hin%list_elem_of_In%elem_of_map_to_list & Ha). exists id, c, true. eauto.
Qed.

Definition check_all_ended (w : option World) : bool := match w with Some w => all_ended w | None => false end.

Lemma hangs_if_all_ended (ow : option World) :
  check_all_ended ow = true →
  ∃ w, ow = Some w ∧ ∀ fuel, decrypt_packet fuel w 7 (lit "new") syn_view true 101 [] false true 0 0 = None.
Proof. destruct ow as [w|]; [|discriminate]. intros Hw. exists w. split; [done|]. intros fuel. by apply all_ended_hangs. Qed.
End hang.

(** C31: The capture thread can hang.  A direction that ended gets a new stream
    with the next packet of its connection, yet nothing ends it again.  After
    thirty-two connections of one watched process, each with a truncated packet
    in either direction and one packet more (all processed normally), the first
    packet of the next connection never returns: for every bound on the number
    of loop turns, the bound is not enough. *)
Theorem capture_thread_can_hang `{Hpack} `{TlsCrypto} `{Zeroizer} :
  ∃ w, foldl see (Some start_world) hang_packets = Some w ∧
    ∀ fuel, decrypt_packet fuel w 7 (lit "new") syn_view true 101 [] false true 0 0 = None.
Proof. apply hangs_if_all_ended. vm_compute. reflexivity. Qed.

(** A state with one live direction, to apply the guarantees to. *)
Section sample.
#[local] Instance no_hpack : Hpack :=
  {| hpack_state := unit; hpack_new := tt; hpack_decode _ _ := None; hpack_bytes_held _ := 0 |}.
#[local] Instance zeros : Zeroizer.
Proof. refine {| zeroize v := mkVec [] 0 |}. constructor. Defined.

Definition live_connection : Connection :=
  (new_connection 7 true) <| c_outbound ::= open_stream (Some 100) |>.
Definition live_state : gmap bytes Connection := {[lit "a" := live_connection]}.

Lemma live_state_only id c : live_state !! id = Some c → id = lit "a" ∧ c = live_connection.
Proof. unfold live_state. rewrite lookup_singleton_Some. intros [<- <-]. done. Qed.

Lemma make_room_sound_witness :
  ∃ state' events, make_tls_direction_room 5 live_state 7 (lit "b") = Some (state', events) ∧
    active_tls_directions state' (Some 7) < MAX_TLS_DIRECTIONS_PER_PID ∧
    active_tls_directions state' None < MAX_TLS_ACTIVE_DIRECTIONS ∧
    state' !! lit "b" = live_state !! lit "b" ∧
    (active_tls_directions live_state None < MAX_TLS_ACTIVE_DIRECTIONS →
     ∀ id c, c_pid c ≠ 7 → state' !! id = Some c ↔ live_state !! id = Some c).
Proof.
  apply (make_room_sound 5 live_state 7 (lit "b")); [|vm_compute; reflexivity..].
  intros id c o Hc _ _. destruct (live_state_only id c Hc) as [-> ->]. by destruct o.
Defined.

Lemma budget_enforced_witness :
  ∃ state' events', enforce_tls_buffer_budget 5 live_state [] = Some (state', events') ∧
    sound_state state' ∧
    (total_held state' <= MAX_TLS_BUFFER_BYTES ∨
     ∀ id c, state' !! id = Some c → active_count c = 0 ∧ DecryptedRingBuffer.bytes_held (c_ring c) <= 0).
Proof.
  apply (budget_enforced 5 live_state []); [|vm_compute; reflexivity].
  intros id c Hc. destruct (live_state_only id c Hc) as [-> ->].
  split; [by intros [|]|]. split; [constructor|reflexivity].
Defined.
End sample.
