(* ===== verification/DecryptDirections.v ===== *)
(** * How a direction ends

    A direction that ended stays ended and silent, its end is reported once,
    and the records that wait for a key are bounded and kept in order. *)

From S2P Require Import Prelude Text Packet RateLimit RingBuffer Flow Keylog TlsStream TlsHandshake TlsDecrypt Http2 Decrypt.

(** A branch that hands on no records. *)
Ltac none_case := cbn beta iota zeta; split; [try done|by intros [? [=]]].

(** A branch that ends the direction. *)
Ltac end_case Hend :=
  match goal with |- context [terminate_decryption_direction ?a ?b ?c ?st ?re] =>
    specialize (Hend c st re eq_refl eq_refl); destruct (terminate_decryption_direction a b c st re); none_case
  end.

Section directions.
Context {HP : Hpack} {VP : VecPolicy} {TC : TlsCrypto} {ZE : Zeroizer} {IO : IterOrder}.
Implicit Types (d : Direction) (x : Ctx) (r : Run) (es : list AgentEvent).

(** ** The end is final and reported once *)

Definition is_status (e : AgentEvent) : bool := match e with DecryptionStatus _ _ _ _ => true | _ => false end.
Definition statuses es : Z := zlen (List.filter is_status es).
Definition reported d : Z := if terminal_status_emitted d then 1 else 0.

(** From [d] to [d'] with the events [es]: an end stays, and every status event
    is accounted for by the mark that it was sent. *)
Definition moves d d' es : Prop :=
  (∀ t, terminal d = Some t → terminal d' = Some t) ∧ reported d' = reported d + statuses es.

Lemma statuses_app es es' : statuses (es ++ es') = statuses es + statuses es'.
Proof. unfold statuses. rewrite List.filter_app, length_app. lia. Qed.

Lemma moves_refl d : moves d d [].
Proof. split; [done|]. unfold statuses. cbn. lia. Qed.

Lemma moves_trans d1 d2 d3 es es' : moves d1 d2 es → moves d2 d3 es' → moves d1 d3 (es ++ es').
Proof. intros [Ht Hr] [Ht' Hr']. split; [auto|]. rewrite statuses_app. lia. Qed.

(** A change to other fields only. *)
Lemma moves_same d d' : terminal d' = terminal d → terminal_status_emitted d' = terminal_status_emitted d → moves d d' [].
Proof. intros Ht Hr. split; [by rewrite Ht|]. unfold reported, statuses. rewrite Hr. cbn. lia. Qed.

Lemma moves_same_l d d1 d2 es :
  moves d1 d2 es → terminal d1 = terminal d → terminal_status_emitted d1 = terminal_status_emitted d → moves d d2 es.
Proof. intros Hm Ht Hr. by apply (moves_trans d d1 d2 []), Hm; apply moves_same. Qed.

Lemma moves_same_r d d1 d2 es :
  moves d d1 es → terminal d2 = terminal d1 → terminal_status_emitted d2 = terminal_status_emitted d1 → moves d d2 es.
Proof. intros Hm Ht Hr. rewrite <- (app_nil_r es). by eapply moves_trans; [exact Hm|apply moves_same]. Qed.

Lemma emit_moves id name d : let '(d', es) := emit_pending_decryption_status id name d in moves d d' es.
Proof.
  unfold emit_pending_decryption_status. destruct (terminal_status_emitted d) eqn:Ee; [apply moves_refl|].
  destruct name as [n|]; [|apply moves_refl]. destruct (terminal d) as [[st re]|] eqn:Et; [|apply moves_refl].
  split; [cbn; by rewrite Et|]. unfold reported, statuses. cbn. by rewrite Ee.
Qed.

Lemma terminate_moves id name d status reason :
  let '(d', es) := terminate_decryption_direction id name d status reason in moves d d' es.
Proof.
  unfold terminate_decryption_direction. set (d1 := match terminal d with Some _ => d | None => _ end).
  assert (Hm : moves d d1 []).
  { subst d1. destruct (terminal d) as [t|] eqn:Et; [apply moves_refl|]. split; [by rewrite Et|].
    unfold reported, statuses. cbn. lia. }
  pose proof (emit_moves id name d1) as He. destruct (emit_pending_decryption_status id name d1) as [d2 es].
  exact (moves_trans _ _ _ _ _ Hm He).
Qed.

Lemma expire_moves id name d now : let '(d', es) := expire_tls_direction_timers id name d now in moves d d' es.
Proof.
  unfold expire_tls_direction_timers. destruct (terminal d); [apply moves_refl|].
  destruct (key_wait_expired d now); [apply terminate_moves|].
  destruct (since_expired _ _ _); [apply terminate_moves|apply moves_refl].
Qed.

Lemma truncated_moves id name d b : let '(d', es, _) := mark_tls_capture_truncated id name d b in moves d d' es.
Proof.
  unfold mark_tls_capture_truncated. destruct b; [|apply moves_refl].
  pose proof (terminate_moves id name d Desynchronized CaptureTruncated) as Hm.
  by destruct (terminate_decryption_direction _ _ _ _ _).
Qed.

Lemma feed_direction_moves x d cut app hs seq seg :
  let '(d', recs, es) := feed_direction x d cut app hs seq seg in
  moves d d' es ∧ (is_Some recs → terminal d = None ∧ terminal d' = None).
Proof.
  unfold feed_direction. set (d0 := d <| last_activity_ms := _ |>).
  pose proof (emit_moves (x_id x) (x_name x) d0) as H1. destruct (emit_pending_decryption_status _ _ d0) as [d1 e1].
  apply (moves_same_l d) in H1; [|done..].
  pose proof (truncated_moves (x_id x) (x_name x) d1 cut) as H2.
  destruct (mark_tls_capture_truncated _ _ d1 cut) as [[d2 e2] b].
  pose proof (moves_trans _ _ _ _ _ H1 H2) as H12. destruct b; [none_case|].
  pose proof (expire_moves (x_id x) (x_name x) d2 (x_capture_now_ms x)) as H3.
  destruct (expire_tls_direction_timers _ _ d2 _) as [d3 e3].
  pose proof (moves_trans _ _ _ _ _ H12 H3) as H123. rewrite <- app_assoc in H123.
  destruct (terminal d3) as [t|] eqn:Et; [none_case|].
  assert (Hn : terminal d = None).
  { destruct (terminal d) as [t|] eqn:E; [|done]. destruct H123 as [Hk _]. rewrite (Hk t E) in Et. done. }
  set (d4 := d3 <| app_secret ::= _ |> <| handshake_secret ::= _ |>).
  apply (moves_same_r d d3 d4) in H123; [|done..].
  assert (Et4 : terminal d4 = None) by done. clearbody d4.
  assert (Hend : ∀ d5 st re, terminal d5 = terminal d4 → terminal_status_emitted d5 = terminal_status_emitted d4 →
    let '(d6, e4) := terminate_decryption_direction (x_id x) (x_name x) d5 st re in moves d d6 ((e1 ++ e2 ++ e3) ++ e4)).
  { intros d5 st re H5 H6. pose proof (terminate_moves (x_id x) (x_name x) d5 st re) as H7.
    destruct (terminate_decryption_direction _ _ _ _ _) as [d6 e4]. eapply moves_trans; [exact H123|].
    by apply (moves_same_l d4) in H7. }
  destruct (stream d4) as [s|].
  - destruct (clean_closed d4); [none_case|].
    destruct (TlsDirectionStream.feed_segment s seq seg) as [s' [framed|e]].
    + set (d5 := d4 <| stream := _ |> <| gap_since_ms := _ |>). destruct (since_expired _ _ _).
      * end_case Hend.
      * split; [|done]. eapply moves_same_r; [exact H123|done..].
    + end_case Hend.
  - case_bool_decide; [none_case|].
    end_case Hend.
Qed.

(** *** A run over records *)

Definition run_moves r r' : Prop := ∃ es, r_events r' = r_events r ++ es ∧ moves (r_dir r) (r_dir r') es.

Lemma run_moves_refl r : run_moves r r.
Proof. exists []. split; [by rewrite app_nil_r|apply moves_refl]. Qed.

Lemma run_moves_trans r1 r2 r3 : run_moves r1 r2 → run_moves r2 r3 → run_moves r1 r3.
Proof.
  intros (es & He & Hm) (es' & He' & Hm'). exists (es ++ es'). split; [by rewrite He', He, app_assoc|].
  by eapply moves_trans.
Qed.

Lemma run_moves_same r r' :
  r_events r' = r_events r → terminal (r_dir r') = terminal (r_dir r) →
  terminal_status_emitted (r_dir r') = terminal_status_emitted (r_dir r) → run_moves r r'.
Proof. intros He Ht Hs. exists []. split; [by rewrite app_nil_r|by apply moves_same]. Qed.

Lemma run_terminate_moves x r status reason : run_moves r (run_terminate x r status reason).
Proof.
  unfold run_terminate. pose proof (terminate_moves (x_id x) (x_name x) (r_dir r) status reason) as Hm.
  destruct (terminate_decryption_direction _ _ _ _ _) as [d es]. by exists es.
Qed.

(** A change of other fields before ending the direction. *)
Lemma run_terminate_after x r d status reason :
  terminal d = terminal (r_dir r) → terminal_status_emitted d = terminal_status_emitted (r_dir r) →
  run_moves r (run_terminate x (r <| r_dir := d |>) status reason).
Proof. intros. eapply run_moves_trans; [|apply run_terminate_moves]. by apply run_moves_same. Qed.

Lemma defer_moves x r record : run_moves r (defer_tls_record x r record).
Proof.
  unfold defer_tls_record. destruct (key_wait_since_ms (r_dir r)); cbn zeta; case_zb;
    first [apply run_terminate_after; done | by apply run_moves_same].
Qed.

Lemma emit_decrypted_moves x name sid r data : run_moves r (emit_decrypted x name sid r data).
Proof.
  unfold emit_decrypted. destruct (PacketEventLimiter.allow _ _) as [l [|]]; [|by apply run_moves_same].
  eexists. split; [done|]. split; [done|]. unfold statuses. cbn. lia.
Qed.

Lemma show_content_moves x name sid r data : run_moves r (show_content x name sid r data).
Proof.
  unfold show_content. case_bool_decide; [apply run_moves_refl|].
  eapply run_moves_trans; [|apply emit_decrypted_moves]. by apply run_moves_same.
Qed.

Lemma show_outcome_moves x name r o : run_moves r (show_outcome x name r o).
Proof.
  destruct o as [sid headers body| |]; cbn [show_outcome]; [|apply run_moves_refl..].
  eapply run_moves_trans; [|apply show_content_moves]. case_bool_decide; [apply run_moves_refl|].
  eapply run_moves_trans; [|apply emit_decrypted_moves]. by apply run_moves_same.
Qed.

Lemma show_outcomes_moves x name r os : run_moves r (foldl (show_outcome x name) r os).
Proof.
  revert r. induction os as [|o os IH]; intros r; [apply run_moves_refl|]. cbn [foldl].
  eapply run_moves_trans; [apply show_outcome_moves|apply IH].
Qed.

Lemma handshake_event_keeps x epoch d e :
  terminal (encrypted_handshake_event x epoch d e) = terminal d ∧
  terminal_status_emitted (encrypted_handshake_event x epoch d e) = terminal_status_emitted d.
Proof.
  destruct e; cbn [encrypted_handshake_event]; try done; destruct epoch; try done.
  destruct (app_secret d); [|done]. by destruct (next_traffic_secret _).
Qed.

Lemma handshake_events_keep x epoch d events :
  terminal (foldl (encrypted_handshake_event x epoch) d events) = terminal d ∧
  terminal_status_emitted (foldl (encrypted_handshake_event x epoch) d events) = terminal_status_emitted d.
Proof.
  revert d. induction events as [|e events IH]; intros d; [done|]. cbn [foldl].
  destruct (IH (encrypted_handshake_event x epoch d e)) as [-> ->]. apply handshake_event_keeps.
Qed.

Lemma plaintext_events_keep d suite events :
  let '(d', _) := foldl (λ '(d, suite) event, let '(d, s) := apply_plaintext_handshake_event d event in
                          (d, match s with Some _ => s | None => suite end)) (d, suite) events in
  terminal d' = terminal d ∧ terminal_status_emitted d' = terminal_status_emitted d.
Proof.
  revert d suite. induction events as [|e events IH]; intros d suite; [done|]. cbn [foldl].
  destruct (apply_plaintext_handshake_event d e) as [d1 s1] eqn:E.
  specialize (IH d1 (match s1 with Some _ => s1 | None => suite end)).
  destruct (foldl _ _ events) as [d' s']. destruct IH as [-> ->]. by destruct e; cbn in E; simplify_eq.
Qed.

Lemma plaintext_record_moves x r epoch t data : run_moves r (plaintext_record x r epoch t data).1.
Proof.
  unfold plaintext_record.
  assert (Hadv : ∀ d, terminal (advance_sequence epoch d) = terminal d ∧
    terminal_status_emitted (advance_sequence epoch d) = terminal_status_emitted d) by (intros; by destruct epoch).
  destruct (Hadv (r_dir r)) as [Ha1 Ha2]. destruct (t =? 21); [by apply run_moves_same|].
  destruct (t =? 22).
  { cbn zeta. set (d1 := (if epoch then _ else _) <| key_wait_since_ms := None |>).
    assert (Hd1 : terminal d1 = terminal (r_dir r) ∧ terminal_status_emitted d1 = terminal_status_emitted (r_dir r))
      by (subst d1; by destruct epoch). clearbody d1. destruct Hd1.
    destruct (TlsHandshakeParser.feed _ _) as [parser [events|e]]; cbn [fst]; [|by apply run_terminate_after].
    destruct (handshake_events_keep x epoch (d1 <| handshake_parser := parser |>) events) as [He1 He2].
    apply run_moves_same; cbn [r_dir]; [done|..]; cbn in *; congruence. }
  destruct (t =? 23); [|by apply run_moves_same].
  cbn zeta. set (d1 := (advance_sequence epoch (r_dir r)) <| key_wait_since_ms := None |>).
  destruct epoch; [by apply run_moves_same|].
  destruct (feed_plaintext_to_http2 d1 data) as [d2 outcomes] eqn:Ef.
  assert (Hd2 : terminal d2 = terminal (r_dir r) ∧ terminal_status_emitted d2 = terminal_status_emitted (r_dir r)).
  { unfold feed_plaintext_to_http2 in Ef. destruct (Http2Reassembler.feed _ _ _). by simplify_eq. }
  destruct Hd2. destruct (x_name x); cbn [fst]; [|by apply run_terminate_after].
  eapply run_moves_trans; [|apply show_outcomes_moves]. by apply run_moves_same.
Qed.

Lemma encrypted_record_moves x r record : run_moves r (encrypted_record x r record).1.
Proof.
  unfold encrypted_record. destruct (r_suite r) as [suite|]; [|apply defer_moves].
  destruct (negb _); [apply run_terminate_moves|].
  destruct (current_key (r_dir r)) as [[[sess|] sequence] epoch]; [|apply defer_moves].
  destruct (decrypt_record _ _ _) as [t data|reason]; [apply plaintext_record_moves|].
  destruct (_ && _); [|apply run_terminate_moves].
  destruct (count_early_data_trial _ _) as [d ok] eqn:Ec. unfold count_early_data_trial in Ec. simplify_eq.
  destruct (_ && _); cbn [fst]; [by apply run_moves_same|by apply run_terminate_after].
Qed.

Lemma process_record_moves x r record : run_moves r (process_record x r record).1.
Proof.
  unfold process_record. cbn zeta.
  assert (Hinv : run_moves r (run_terminate x r Desynchronized RecordInvalid)) by apply run_terminate_moves.
  destruct (vlist record) as [|b rest]; [done|]. destruct (b =? 20); [apply run_moves_refl|].
  destruct (_ <? 5); [done|]. destruct (b =? 22).
  { destruct (TlsHandshakeParser.feed _ _) as [parser [events|e]]; cbn [fst]; [|by apply run_terminate_after].
    unfold apply_plaintext_handshake_events.
    pose proof (plaintext_events_keep (r_dir r <| handshake_parser := parser |>) None events) as Hk.
    destruct (foldl _ _ events) as [d suite]. destruct Hk as [Hk1 Hk2]. destruct suite; by apply run_moves_same. }
  destruct (b =? 23); [apply encrypted_record_moves|done].
Qed.

Lemma process_loop_moves x r records : run_moves r (process_loop x r records).
Proof.
  revert r. induction records as [|record records IH]; intros r; [apply run_moves_refl|]. cbn [process_loop].
  pose proof (process_record_moves x r record) as Hm. destruct (process_record x r record) as [r' [|]]; [|done].
  eapply run_moves_trans; [exact Hm|apply IH].
Qed.

Lemma process_moves x r records : run_moves r (process_tls_records x r records).
Proof.
  unfold process_tls_records. pose proof (process_loop_moves x (r <| r_deferred := [] |>) records) as Hm.
  assert (Hm' : run_moves r (process_loop x (r <| r_deferred := [] |>) records)) by exact Hm.
  destruct (terminal _); [done|]. eapply run_moves_trans; [exact Hm'|]. by apply run_moves_same.
Qed.

(** *** Every way a direction changes *)

Inductive direction_step : Direction → Direction → list AgentEvent → Prop :=
| step_packet x d cut app hs seq seg d' recs es :
    feed_direction x d cut app hs seq seg = (d', recs, es) → direction_step d d' es
| step_records x r records es :
    r_events (process_tls_records x r records) = r_events r ++ es →
    direction_step (r_dir r) (r_dir (process_tls_records x r records)) es
(** the records that waited, once their key came *)
| step_late_keys x r d now es :
    r_dir r = d <| last_activity_ms := now |> <| key_wait_records := [] |> <| key_wait_bytes := 0 |> →
    r_events (process_tls_records x r (key_wait_records d)) = r_events r ++ es →
    direction_step d (r_dir (process_tls_records x r (key_wait_records d))) es
| step_timers id name d now d' es : expire_tls_direction_timers id name d now = (d', es) → direction_step d d' es
| step_evict id name d d' es :
    terminate_decryption_direction id name d Unavailable EvictedBudget = (d', es) → direction_step d d' es
| step_open syn_seq d : direction_step d (open_stream syn_seq d) []
| step_secrets d app hs :
    direction_step d (d <| app_secret := app |> <| handshake_secret := hs |>) [].

Inductive direction_steps : Direction → Direction → list AgentEvent → Prop :=
| steps_refl d : direction_steps d d []
| steps_then d1 d2 d3 es es' : direction_steps d1 d2 es → direction_step d2 d3 es' → direction_steps d1 d3 (es ++ es').

Lemma step_moves d d' es : direction_step d d' es → moves d d' es.
Proof.
  destruct 1 as [x d cut app hs seq seg d' recs es E|x r records es E|x r d now es Hr E|id name d now d' es E|id name d d' es E|syn_seq d|].
  - pose proof (feed_direction_moves x d cut app hs seq seg) as Hm. rewrite E in Hm. by destruct Hm.
  - destruct (process_moves x r records) as (es' & E' & Hm). rewrite E in E'. by apply app_inv_head in E' as ->.
  - destruct (process_moves x r (key_wait_records d)) as (es' & E' & Hm).
    rewrite E in E'. apply app_inv_head in E' as ->. apply (moves_same_l d) in Hm; by rewrite ?Hr.
  - pose proof (expire_moves id name d now) as Hm. by rewrite E in Hm.
  - pose proof (terminate_moves id name d Unavailable EvictedBudget) as Hm. by rewrite E in Hm.
  - unfold open_stream. destruct (stream d), syn_seq; by apply moves_same.
  - by apply moves_same.
Qed.

Lemma direction_step_steps d d' es : direction_step d d' es → direction_steps d d' es.
Proof. intros Hs. exact (steps_then d d d' [] es (steps_refl d) Hs). Qed.

Lemma direction_steps_trans d1 d2 d3 es es' :
  direction_steps d1 d2 es → direction_steps d2 d3 es' → direction_steps d1 d3 (es ++ es').
Proof.
  intros H1 H2. induction H2 as [d|d2 d3 d4 es' es'' _ IH Hs]; [by rewrite app_nil_r|].
  rewrite app_assoc. by eapply steps_then; [apply IH|].
Qed.

Lemma direction_of_written c o d : direction_of (update_direction c o (λ _, d)) o = d.
Proof. by destruct o. Qed.

Lemma direction_of_other c o f : direction_of (update_direction c o f) (negb o) = direction_of c (negb o).
Proof. by destruct o. Qed.

Lemma open_connection_of c v o : ∃ syn_seq, direction_of (open_connection c v) o = open_stream syn_seq (direction_of c o).
Proof.
  unfold open_connection. destruct (c_client_random c);
    [|change (c_client_is_outbound (c <| c_client_random := _ |>)) with (c_client_is_outbound c)];
    destruct (c_client_is_outbound c), o; by eexists.
Qed.

(** The records of a run end in the run's events. *)
Lemma process_extends x r records :
  ∃ es, r_events (process_tls_records x r records) = r_events r ++ es.
Proof. destruct (process_moves x r records) as (es & He & _). by exists es. Qed.

(** Replaying the records of a direction whose keys came late is a sequence of
    these steps, and leaves the other direction alone. *)
Lemma replay_direction_steps id random client o event_now capture_now c watcher limiter suite events :
  let '(c', _, _, _, events') := replay_direction id random client o event_now capture_now (c, watcher, limiter, suite, events) in
  ∃ es, events' = events ++ es ∧ direction_steps (direction_of c o) (direction_of c' o) es ∧
    direction_of c' (negb o) = direction_of c (negb o).
Proof.
  unfold replay_direction. set (d := direction_of c o).
  destruct (terminal d); [exists []; split; [by rewrite app_nil_r|split; [constructor|done]]|].
  destruct (clean_closed d); [exists []; split; [by rewrite app_nil_r|split; [constructor|done]]|].
  destruct (match app_secret d with Some _ => (watcher, d) | None => _ end) as [w1 d1] eqn:E1.
  assert (H1 : ∃ app, d1 = d <| app_secret := app |> <| handshake_secret := handshake_secret d |>).
  { destruct (app_secret d) as [a|] eqn:Ea; [|destruct (KeyLogWatcher.take_secret _ _ _ _) as [w s]]; injection E1 as <- <-.
    - exists (Some a). rewrite <- Ea. by destruct d.
    - exists s. by destruct d. }
  destruct (match handshake_epoch_complete d1, handshake_secret d1 with false, None => _ | _, _ => (w1, d1) end)
    as [w2 d2] eqn:E2.
  assert (H2 : ∃ app hs, d2 = d <| app_secret := app |> <| handshake_secret := hs |>).
  { destruct H1 as [app ->]. exists app. destruct (handshake_epoch_complete _), (handshake_secret _);
      try (destruct (KeyLogWatcher.take_secret _ _ _ _) as [w s]); injection E2 as <- <-; by eexists. }
  destruct H2 as (app & hs & H2).
  assert (Hd2 : direction_steps d d2 []) by (rewrite H2; apply direction_step_steps, step_secrets).
  destruct (_ || _).
  - exists []. rewrite app_nil_r, direction_of_written, direction_of_other. done.
  - set (r := mkRun _ _ _ _ _ _). set (x := mkCtx _ _ _ _ _ _).
    destruct (process_extends x r (key_wait_records d2)) as [es He]. exists es. split; [exact He|]. split.
    + rewrite <- (app_nil_l es).
      change (direction_of (_ <| c_ring := _ |>) o)
        with (direction_of (update_direction c o (λ _, r_dir (process_tls_records x r (key_wait_records d2)))) o).
      rewrite direction_of_written. eapply steps_then; [exact Hd2|]. by eapply step_late_keys.
    + by destruct o.
Qed.

(** A packet of a direction: opened where its SYN was seen, fed, and its
    complete records processed. *)
Lemma packet_steps x c v cut app hs seq seg suite limiter events :
  let o := x_outbound x in
  let c1 := open_connection c v in
  let '(d, records, e1) := feed_direction x (direction_of c1 o) cut app hs seq seg in
  direction_steps (direction_of c o) d e1 ∧
  ∀ recs, records = Some recs →
    let '(c', _, es) := process_connection x (update_direction c1 o (λ _, d)) limiter d suite recs events in
    ∃ e2, es = events ++ e2 ∧ direction_steps (direction_of c o) (direction_of c' o) (e1 ++ e2).
Proof.
  intros o c1. destruct (feed_direction x (direction_of c1 o) cut app hs seq seg) as [[d records] e1] eqn:Ef.
  assert (Hd : direction_steps (direction_of c o) d e1).
  { rewrite <- (app_nil_l e1). eapply steps_then; [|by eapply step_packet].
    apply direction_step_steps. destruct (open_connection_of c v o) as [syn_seq E]. unfold c1. rewrite E. apply step_open. }
  split; [exact Hd|]. intros recs _. unfold process_connection.
  set (r := mkRun d suite _ limiter [] events). destruct (process_extends x r recs) as [e2 He]. exists e2.
  split; [exact He|]. eapply steps_then; [exact Hd|]. fold o.
  change (direction_of (_ <| c_ring := _ |>) o)
    with (direction_of (update_direction (update_direction c1 o (λ _, d)) o (λ _, r_dir (process_tls_records x r recs))) o).
  rewrite direction_of_written. exact (step_records x r recs e2 He).
Qed.

(** C20: A direction ends once.  From a new direction, through any sequence of
    packets, records, timers, evictions, reopened streams, late secrets and
    records replayed when they come: once it has ended, with a status and a
    reason, it keeps them whatever follows; and in all at most one decryption
    status is sent for it. *)
Theorem direction_ends_once d1 d2 es1 es2 :
  direction_steps new_direction d1 es1 → direction_steps d1 d2 es2 →
  (∀ t, terminal d1 = Some t → terminal d2 = Some t) ∧ statuses (es1 ++ es2) <= 1.
Proof.
  assert (Hm : ∀ d d' es, direction_steps d d' es → moves d d' es).
  { induction 1; [apply moves_refl|]. eapply moves_trans; [done|]. by apply step_moves. }
  intros H1%Hm H2%Hm. split; [apply H2|]. pose proof (proj2 (moves_trans _ _ _ _ _ H1 H2)) as Hr.
  unfold reported in Hr. cbn in Hr. destruct (terminal_status_emitted d2); lia.
Qed.

(** *** A packet of a direction that ended *)

Definition is_payload (e : AgentEvent) : bool := match e with DecryptedPayload _ _ _ _ _ => true | _ => false end.
Definition no_payload es : Prop := Forall (λ e, is_payload e = false) es.

Lemma emit_no_payload id name d : no_payload (emit_pending_decryption_status id name d).2.
Proof.
  unfold emit_pending_decryption_status. destruct (terminal_status_emitted d); [constructor|].
  destruct name, (terminal d) as [[]|]; repeat constructor.
Qed.

Lemma terminate_no_payload id name d status reason : no_payload (terminate_decryption_direction id name d status reason).2.
Proof. apply emit_no_payload. Qed.

Lemma evict_no_payload (state : gmap bytes Connection) id o : no_payload (mark_tls_direction_evicted state id o).2.
Proof.
  unfold mark_tls_direction_evicted. destruct (state !! id) as [c|]; [|constructor].
  pose proof (terminate_no_payload id (direction_name (c_client_is_outbound c) o) (direction_of c o) Unavailable EvictedBudget) as Hn.
  by destruct (terminate_decryption_direction _ _ _ _ _).
Qed.

Lemma evict_elsewhere (state : gmap bytes Connection) id o cur :
  id ≠ cur → (mark_tls_direction_evicted state id o).1 !! cur = state !! cur.
Proof.
  intros Hne. unfold mark_tls_direction_evicted. destruct (state !! id) as [c|]; [|done].
  destruct (terminate_decryption_direction _ _ _ _ _) as [d es]. cbn. by rewrite lookup_insert_ne.
Qed.

Lemma oldest_keep (state : gmap bytes Connection) keep id o :
  oldest state keep = Some (id, o) → ∃ c, keep id c = true.
Proof.
  unfold oldest. intros ([[id0 o0] last_] & Hm & [= -> ->])%fmap_Some. apply min_by_key_spec in Hm as [Hin _].
  apply list_elem_of_bind in Hin as ([i c] & Hc & Hin). apply list_elem_of_In, filter_In in Hin as [_ Hk].
  exists c. unfold candidates in Hc. cbn [fst snd] in *.
  apply elem_of_app in Hc as [Hc|Hc]; destruct (is_active _); try (by apply not_elem_of_nil in Hc);
    apply list_elem_of_singleton in Hc; by simplify_eq.
Qed.

(** Making room leaves the current connection and sends no content. *)
Lemma make_room_loop_current (fuel : nat) (state state' : gmap bytes Connection) (scope : option Z) (limit : Z)
    (cur : bytes) es es' :
  make_room_loop fuel state scope limit cur es = Some (state', es') → no_payload es →
  state' !! cur = state !! cur ∧ no_payload es'.
Proof.
  revert state es. induction fuel as [|fuel IH]; intros state es E Hn; [done|]. cbn [make_room_loop] in E.
  case_zb; [|by simplify_eq]. destruct (oldest _ _) as [[id o]|] eqn:Eo; [|by simplify_eq].
  apply oldest_keep in Eo as (c & [Hne%negb_true_iff%bool_decide_eq_false _]%andb_true_iff).
  pose proof (evict_elsewhere state id o cur Hne) as Hc. pose proof (evict_no_payload state id o) as Hp.
  destruct (mark_tls_direction_evicted state id o) as [state1 es1]. cbn [fst snd] in *.
  apply IH in E as [-> ?]; [done|]. by apply Forall_app.
Qed.

Lemma expire_no_payload id name d now : no_payload (expire_tls_direction_timers id name d now).2.
Proof.
  unfold expire_tls_direction_timers. destruct (terminal d); [constructor|].
  destruct (key_wait_expired _ _); [apply terminate_no_payload|].
  destruct (since_expired _ _ _); [apply terminate_no_payload|constructor].
Qed.

(** A direction that ended hands on nothing. *)
Lemma feed_ended x d cut app hs seq seg t :
  terminal d = Some t →
  let '(d', recs, es) := feed_direction x d cut app hs seq seg in terminal d' = Some t ∧ recs = None ∧ no_payload es.
Proof.
  intros Ht. pose proof (feed_direction_moves x d cut app hs seq seg) as Hm.
  destruct (feed_direction x d cut app hs seq seg) as [[d' recs] es] eqn:E. destruct Hm as [[Hk _] Hr].
  split_and!; [by apply Hk| |].
  - destruct recs as [l|]; [|done]. destruct (Hr ltac:(eauto)) as [Hn _]. congruence.
  - revert E. unfold feed_direction. set (d0 := d <| last_activity_ms := _ |>).
    pose proof (emit_no_payload (x_id x) (x_name x) d0) as N1. pose proof (emit_moves (x_id x) (x_name x) d0) as M1.
    destruct (emit_pending_decryption_status _ _ d0) as [d1 e1].
    unfold mark_tls_capture_truncated. destruct cut.
    + pose proof (terminate_no_payload (x_id x) (x_name x) d1 Desynchronized CaptureTruncated) as N2.
      destruct (terminate_decryption_direction _ _ d1 _ _) as [d2 e2]. intros [= <- <- <-]. by apply Forall_app.
    + pose proof (proj1 M1 t Ht) as Ht1. unfold expire_tls_direction_timers. rewrite Ht1. cbn.
      rewrite Ht1. intros [= <- <- <-]. by rewrite app_nil_r.
Qed.

Lemma open_stream_terminal syn_seq d : terminal (open_stream syn_seq d) = terminal d.
Proof. unfold open_stream. by destruct (stream d), syn_seq. Qed.

Lemma open_connection_terminal c v o : terminal (direction_of (open_connection c v) o) = terminal (direction_of c o).
Proof.
  destruct c as [pid random client out inb ring]. unfold open_connection. cbn.
  destruct random, client, o; apply open_stream_terminal.
Qed.

(** A direction that ended is silent for good: a further packet of it, cut
    short or not, with or without keys, changes neither its status nor its
    reason, and sends no decrypted content. *)
Theorem ended_direction_is_silent fuel (w : World) pid id v outbound seq seg cut mlock_ok now1 now2 c t w' es :
  w_state w !! id = Some c → c_pid c = pid → terminal (direction_of c outbound) = Some t →
  decrypt_packet fuel w pid id v outbound seq seg cut mlock_ok now1 now2 = Some (w', es) →
  no_payload es ∧ ∃ c', w_state w' !! id = Some c' ∧ terminal (direction_of c' outbound) = Some t.
Proof.
  intros Hc Hp Ht. unfold decrypt_packet. destruct (take_secrets _ _ _ _) as [[watcher app] hs].
  set (w1 := w <| w_watcher := watcher |>). intros E.
  apply bind_Some in E as ([state e0] & Hroom & E).
  assert (Hstate : state !! id = Some c ∧ no_payload e0).
  { destruct (needs_stream_slot _ _ _); [|simplify_eq; by split; [|constructor]].
    unfold make_tls_direction_room in Hroom. apply bind_Some in Hroom as ([s1 e1] & H1 & H2).
    apply make_room_loop_current in H1 as [H1 N1]; [|constructor]. apply make_room_loop_current in H2 as [H2 N2]; [|done].
    by rewrite H2, H1. }
  destruct Hstate as [Hs N0]. rewrite Hs in E. cbn [default from_option Datatypes.id] in E.
  rewrite (proj2 (Z.eqb_eq _ _)) in E by done. cbn [negb] in E.
  set (c1 := open_connection c v) in *.
  assert (Ht1 : terminal (direction_of c1 outbound) = Some t).
  { subst c1. by rewrite open_connection_terminal. }
  clearbody c1. set (x := mkCtx _ _ _ _ _ _) in *.
  match type of E with context [feed_direction ?a ?b ?c ?d ?e ?f ?g] =>
    pose proof (feed_ended a b c d e f g t Ht1) as Hf; destruct (feed_direction a b c d e f g) as [[d' recs] e1] end.
  destruct Hf as (Hd & -> & N1).
  injection E as <- <-. split; [by apply Forall_app|].
  exists (update_direction c1 outbound (λ _, d')). cbn. rewrite lookup_insert_eq. split; [done|]. by destruct outbound.
Qed.

(** ** Records that wait for a key *)

Fixpoint wait_total (records : list (vec Z)) : Z :=
  match records with [] => 0 | v :: records' => zlen (vlist v) + wait_total records' end.

Lemma wait_total_app a b : wait_total (a ++ b) = wait_total a + wait_total b.
Proof. induction a as [|v a IH]; cbn; [done|]. rewrite IH. lia. Qed.

Lemma wait_total_nonneg a : 0 <= wait_total a.
Proof. induction a; cbn; lia. Qed.

(** What of a run concerns waiting. *)
Definition waiting r : list (vec Z) * list (vec Z) * Z :=
  (r_deferred r, key_wait_records (r_dir r), key_wait_bytes (r_dir r)).

(** The deferred records fit the bound while the direction is alive, and none
    is kept in the direction during the run. *)
Definition wait_inv r : Prop :=
  key_wait_records (r_dir r) = [] ∧
  (terminal (r_dir r) = None → wait_total (r_deferred r) <= key_wait_bytes (r_dir r) <= MAX_TLS_KEY_WAIT_BYTES).

(** After a record: the invariant, or, when the run stops, the bound. *)
Definition wait_after (rb : Run * bool) : Prop :=
  if rb.2 then wait_inv rb.1
  else key_wait_records (r_dir rb.1) = [] ∧
       (terminal (r_dir rb.1) = None → wait_total (r_deferred rb.1) <= MAX_TLS_KEY_WAIT_BYTES).

Lemma wait_inv_after r b : wait_inv r → wait_after (r, b).
Proof. intros [Hr Hb]. destruct b; [done|]. split; [done|]. intros Ht. specialize (Hb Ht). cbn. lia. Qed.

Lemma wait_inv_same r r' : waiting r' = waiting r → terminal (r_dir r') = terminal (r_dir r) → wait_inv r → wait_inv r'.
Proof. unfold waiting, wait_inv. intros [= -> -> ->] ->. done. Qed.

Lemma terminate_spec id name d status reason :
  let d' := (terminate_decryption_direction id name d status reason).1 in
  is_Some (terminal d') ∧ (key_wait_records d = [] → key_wait_records d' = []).
Proof.
  unfold terminate_decryption_direction. set (d1 := match terminal d with Some _ => d | None => _ end).
  assert (Hd1 : is_Some (terminal d1) ∧ (key_wait_records d = [] → key_wait_records d1 = [])).
  { subst d1. destruct (terminal d) eqn:Et; [by rewrite Et|done]. }
  clearbody d1. destruct Hd1 as [[t Ht] Hk]. unfold emit_pending_decryption_status.
  destruct (terminal_status_emitted d1); [cbn; eauto|].
  destruct name; [|cbn; eauto]. destruct (terminal d1) as [[]|] eqn:E; [|done]. cbn. rewrite E. eauto.
Qed.

Lemma run_terminate_wait x r status reason : wait_inv r → wait_inv (run_terminate x r status reason).
Proof.
  intros [Hr _]. unfold run_terminate. pose proof (terminate_spec (x_id x) (x_name x) (r_dir r) status reason) as Hs.
  destruct (terminate_decryption_direction _ _ _ _ _) as [d es]. destruct Hs as [[t Ht] Hk].
  split; cbn in *; [by apply Hk|]. intros Hn. congruence.
Qed.

Lemma run_terminate_dir_wait x r d status reason :
  key_wait_records d = [] → wait_inv (run_terminate x (r <| r_dir := d |>) status reason).
Proof.
  intros Hd. unfold run_terminate. pose proof (terminate_spec (x_id x) (x_name x) d status reason) as Hs.
  cbn [r_dir]. change (r_dir (r <| r_dir := d |>)) with d.
  destruct (terminate_decryption_direction _ _ d _ _) as [d' es]. destruct Hs as [[t Ht] Hk].
  split; cbn in *; [by apply Hk|]. intros Hn. congruence.
Qed.

Lemma defer_wait x r record :
  wait_inv r → let r' := defer_tls_record x r record in wait_after (r', bool_decide (terminal (r_dir r') = None)).
Proof.
  intros Hi. apply wait_inv_after. unfold defer_tls_record.
  set (d := match key_wait_since_ms (r_dir r) with None => _ | Some _ => _ end).
  assert (Hd : key_wait_records d = key_wait_records (r_dir r) ∧ key_wait_bytes d = key_wait_bytes (r_dir r) ∧
    terminal d = terminal (r_dir r)) by (subst d; by destruct (key_wait_since_ms (r_dir r))).
  clearbody d. destruct Hd as (H1 & H2 & H3), Hi as [Hr Hb]. cbn zeta.
  destruct (Z.ltb_spec MAX_TLS_KEY_WAIT_BYTES (sat_add (key_wait_bytes d) (zlen (vlist record)))) as [Hl|Hl].
  - apply run_terminate_dir_wait. congruence.
  - apply sat_add_le in Hl; [|done]. split; cbn; [congruence|]. rewrite H3, H2 in *. intros Ht. specialize (Hb Ht).
    rewrite wait_total_app. cbn [wait_total]. lia.
Qed.

Lemma show_outcomes_wait x name r os : waiting (foldl (show_outcome x name) r os) = waiting r ∧
  r_dir (foldl (show_outcome x name) r os) = r_dir r.
Proof.
  assert (He : ∀ sid r data, waiting (emit_decrypted x name sid r data) = waiting r ∧ r_dir (emit_decrypted x name sid r data) = r_dir r).
  { intros sid r0 data. unfold emit_decrypted. by destruct (PacketEventLimiter.allow _ _) as [l [|]]. }
  assert (Hs : ∀ r o, waiting (show_outcome x name r o) = waiting r ∧ r_dir (show_outcome x name r o) = r_dir r).
  { intros r0 [sid headers body| |]; cbn [show_outcome]; [|done..]. unfold show_content.
    set (r1 := if bool_decide (headers = []) then r0 else _).
    assert (H1 : waiting r1 = waiting r0 ∧ r_dir r1 = r_dir r0) 
      by (subst r1; case_bool_decide; [done|];
          match goal with |- context [emit_decrypted x name ?s ?q ?t] => by destruct (He s q t) as [-> ->] end).
    clearbody r1. destruct H1 as [H1 H2]. case_bool_decide; [done|].
    destruct (He sid (r1 <| r_ring ::= λ g, DecryptedRingBuffer.push_for_direction g name (to_vec body) |>) body) as [-> ->]. done. }
  revert r. induction os as [|o os IH]; intros r; [done|]. cbn [foldl]. destruct (IH (show_outcome x name r o)) as [-> ->]. apply Hs.
Qed.

Lemma handshake_events_wait x epoch d events :
  let d' := foldl (encrypted_handshake_event x epoch) d events in
  key_wait_records d' = key_wait_records d ∧ key_wait_bytes d' = key_wait_bytes d.
Proof.
  cbn zeta. revert d. induction events as [|e events IH]; intros d; [done|]. cbn [foldl].
  destruct (IH (encrypted_handshake_event x epoch d e)) as [-> ->].
  destruct e; cbn [encrypted_handshake_event]; try done; destruct epoch; try done.
  destruct (app_secret d); [|done]. by destruct (next_traffic_secret _).
Qed.

Lemma plaintext_events_wait d suite events :
  let '(d', _) := foldl (λ '(d, suite) event, let '(d, s) := apply_plaintext_handshake_event d event in
                          (d, match s with Some _ => s | None => suite end)) (d, suite) events in
  key_wait_records d' = key_wait_records d ∧ key_wait_bytes d' = key_wait_bytes d.
Proof.
  revert d suite. induction events as [|e events IH]; intros d suite; [done|]. cbn [foldl].
  destruct (apply_plaintext_handshake_event d e) as [d1 s1] eqn:E.
  specialize (IH d1 (match s1 with Some _ => s1 | None => suite end)).
  destruct (foldl _ _ events) as [d' s']. destruct IH as [-> ->]. by destruct e; cbn in E; simplify_eq.
Qed.

Lemma wait_inv_dir r d :
  key_wait_records d = key_wait_records (r_dir r) → key_wait_bytes d = key_wait_bytes (r_dir r) →
  terminal d = terminal (r_dir r) → wait_inv r → wait_inv (r <| r_dir := d |>).
Proof. intros H1 H2 H3. apply wait_inv_same; [|done]. unfold waiting. cbn. by rewrite H1, H2. Qed.

Lemma plaintext_record_wait x r epoch t data : wait_inv r → wait_after (plaintext_record x r epoch t data).
Proof.
  intros Hi. pose proof Hi as [Hr Hb]. unfold plaintext_record.
  set (d0 := advance_sequence epoch (r_dir r)).
  assert (H0 : key_wait_records d0 = key_wait_records (r_dir r) ∧ key_wait_bytes d0 = key_wait_bytes (r_dir r) ∧
    terminal d0 = terminal (r_dir r)) by (subst d0; by destruct epoch).
  destruct H0 as (H1 & H2 & H3). clearbody d0. cbn zeta. destruct (t =? 21).
  { split; [done|]. cbn. intros Ht. specialize (Hb Ht). lia. }
  destruct (t =? 22).
  { set (d1 := (if epoch then _ else _) <| key_wait_since_ms := None |>).
    assert (Hd1 : key_wait_records d1 = key_wait_records (r_dir r) ∧ key_wait_bytes d1 = key_wait_bytes (r_dir r) ∧
      terminal d1 = terminal (r_dir r)) by (subst d1; by destruct epoch). clearbody d1. destruct Hd1 as (H4 & H5 & H6).
    destruct (TlsHandshakeParser.feed _ _) as [parser [events|e]]; apply wait_inv_after.
    - destruct (handshake_events_wait x epoch (d1 <| handshake_parser := parser |>) events) as [H7 H8].
      destruct (handshake_events_keep x epoch (d1 <| handshake_parser := parser |>) events) as [H9 _].
      apply wait_inv_dir; [cbn in *; congruence..|done].
    - apply run_terminate_dir_wait. cbn. congruence. }
  destruct (t =? 23); [|apply wait_inv_after, wait_inv_dir; done].
  destruct epoch; [apply wait_inv_after, wait_inv_dir; done|].
  destruct (feed_plaintext_to_http2 _ data) as [d2 outcomes] eqn:Ef.
  assert (Hd2 : key_wait_records d2 = key_wait_records (r_dir r) ∧ key_wait_bytes d2 = key_wait_bytes (r_dir r) ∧
    terminal d2 = terminal (r_dir r)).
  { unfold feed_plaintext_to_http2 in Ef. destruct (Http2Reassembler.feed _ _ _). by simplify_eq. }
  destruct Hd2 as (H4 & H5 & H6). destruct (x_name x) as [name|]; apply wait_inv_after.
  - destruct (show_outcomes_wait x name (r <| r_dir := d2 |>) outcomes) as [Hw Hd].
    eapply wait_inv_same; [exact Hw|by rewrite Hd|]. by apply wait_inv_dir.
  - apply run_terminate_dir_wait. congruence.
Qed.

Lemma process_record_wait x r record : wait_inv r → wait_after (process_record x r record).
Proof.
  intros Hi. unfold process_record. cbn zeta.
  assert (Hinv : wait_after (run_terminate x r Desynchronized RecordInvalid, false)) by (apply wait_inv_after, run_terminate_wait; done).
  destruct (vlist record) as [|b rest]; [done|]. destruct (b =? 20); [by apply wait_inv_after|].
  destruct (_ <? 5); [done|]. destruct (b =? 22).
  { destruct (TlsHandshakeParser.feed _ _) as [parser [events|e]].
    - unfold apply_plaintext_handshake_events.
      pose proof (plaintext_events_keep (r_dir r <| handshake_parser := parser |>) None events) as Hk.
      pose proof (plaintext_events_wait (r_dir r <| handshake_parser := parser |>) None events) as Hw.
      destruct (foldl _ _ events) as [d suite]. destruct Hk as [Hk _], Hw as [Hw1 Hw2]. apply wait_inv_after.
      destruct suite; (eapply wait_inv_same; [| |apply (wait_inv_dir r d); done]); done.
    - apply wait_inv_after, run_terminate_dir_wait. apply Hi. }
  destruct (b =? 23); [|done]. unfold encrypted_record. cbn zeta.
  destruct (r_suite r) as [suite|]; [|by apply defer_wait].
  destruct (negb _); [by apply wait_inv_after, run_terminate_wait|].
  destruct (current_key (r_dir r)) as [[[sess|] sequence] epoch]; [|by apply defer_wait].
  destruct (decrypt_record _ _ _) as [t data|reason]; [by apply plaintext_record_wait|].
  destruct (_ && _); [|by apply wait_inv_after, run_terminate_wait].
  destruct (count_early_data_trial _ _) as [d ok] eqn:Ec. unfold count_early_data_trial in Ec. simplify_eq.
  destruct (_ && _); apply wait_inv_after; [by apply wait_inv_dir|]. apply run_terminate_dir_wait. apply Hi.
Qed.

Lemma process_loop_wait x r records : wait_inv r → wait_after (process_loop x r records, false).
Proof.
  revert r. induction records as [|record records IH]; intros r Hi; [by apply wait_inv_after|]. cbn [process_loop].
  pose proof (process_record_wait x r record Hi) as Hw. destruct (process_record x r record) as [r' [|]]; [by apply IH|done].
Qed.

(** What waits for a key is bounded.  Whatever records a direction gets, in
    whatever state of its handshake, the records it keeps for later hold at
    most 64 KiB in all; a direction that would need more ends instead. *)
Theorem key_wait_bounded x r records :
  key_wait_records (r_dir r) = [] → 0 <= key_wait_bytes (r_dir r) <= MAX_TLS_KEY_WAIT_BYTES →
  wait_total (key_wait_records (r_dir (process_tls_records x r records))) <= MAX_TLS_KEY_WAIT_BYTES.
Proof.
  intros Hr Hb. unfold process_tls_records.
  pose proof (process_loop_wait x (r <| r_deferred := [] |>) records) as Hw.
  destruct Hw as [Hk Ht]; [by split|]. cbn [fst] in *.
  destruct (terminal _); [rewrite Hk; cbn; done|]. by apply Ht.
Qed.

(** *** Nothing is lost while waiting *)

(** An encrypted record, and a run that has no key for it. *)
Definition encrypted (v : vec Z) : Prop := head (vlist v) = Some 23 ∧ 5 <= zlen (vlist v).
Definition keyless r : Prop := r_suite r = None ∨ r_suite r = Some TLS_AES_128_GCM_SHA256 ∧ (current_key (r_dir r)).1.1 = None.

Definition wait_for x d (records : list (vec Z)) : Direction :=
  match records with
  | [] => d
  | _ :: _ => d <| key_wait_since_ms := Some (default (x_capture_now_ms x) (key_wait_since_ms d)) |>
                <| key_wait_bytes ::= λ n, wait_total records + n |>
  end.

Lemma keyless_defers x r v :
  keyless r → encrypted v → terminal (r_dir r) = None → 0 <= key_wait_bytes (r_dir r) →
  key_wait_bytes (r_dir r) + zlen (vlist v) <= MAX_TLS_KEY_WAIT_BYTES →
  process_record x r v
  = (r <| r_dir := wait_for x (r_dir r) [v] |> <| r_deferred ::= λ l, l ++ [v] |>, true).
Proof.
  intros Hk [Hh Hl] Ht H0 Hb. unfold process_record. destruct (vlist v) as [|b rest] eqn:Ev; [done|].
  cbn in Hh. injection Hh as ->. cbn [Z.eqb Pos.eqb]. rewrite (proj2 (Z.ltb_ge _ _)) by done.
  assert (Hd : defer_tls_record x r v = r <| r_dir := wait_for x (r_dir r) [v] |> <| r_deferred ::= λ l, l ++ [v] |>).
  { unfold defer_tls_record, wait_for. cbn [wait_total]. rewrite Ev.
    assert (Hs : sat_add (key_wait_bytes (r_dir r)) (zlen (23 :: rest)) <= MAX_TLS_KEY_WAIT_BYTES) by (unfold sat_add; lia).
    destruct r as [[? ? ? ? ? ? ? ? ? ? ? ? ? ? ? ? since ? ? ? ? ?] suite ring lim def ev]. cbn in *. destruct since as [since|];
      cbn; rewrite (proj2 (Z.ltb_ge _ _)) by done; cbn; by rewrite Z.add_0_r. }
  unfold encrypted_record. cbn zeta. rewrite Hd.
  replace (bool_decide (terminal (r_dir (r <| r_dir := wait_for x (r_dir r) [v] |> <| r_deferred ::= λ l, l ++ [v] |>)) = None))
    with true by (symmetry; apply bool_decide_eq_true; exact Ht).
  destruct Hk as [->|[-> Hk]]; [done|]. cbn [Z.eqb Pos.eqb TLS_AES_128_GCM_SHA256 negb].
  destruct (current_key (r_dir r)) as [[sess sequence] epoch]. cbn in Hk. by subst sess.
Qed.

Lemma wait_for_cons x d v records : wait_for x (wait_for x d [v]) records = wait_for x d (v :: records).
Proof.
  destruct d as [? ? ? ? ? ? ? ? ? ? ? ? ? ? ? ? since ? ? ? ? ?]. destruct records as [|v' records]; [done|].
  unfold wait_for, modify_field. cbn. destruct since; cbn; f_equal; lia.
Qed.

Lemma wait_for_keeps x d records :
  terminal (wait_for x d records) = terminal d ∧ current_key (wait_for x d records) = current_key d ∧
  key_wait_bytes (wait_for x d records) = wait_total records + key_wait_bytes d.
Proof. by destruct records. Qed.

Lemma keyless_loop x r records :
  keyless r → Forall encrypted records → terminal (r_dir r) = None → 0 <= key_wait_bytes (r_dir r) →
  key_wait_bytes (r_dir r) + wait_total records <= MAX_TLS_KEY_WAIT_BYTES →
  process_loop x r records
  = r <| r_dir := wait_for x (r_dir r) records |> <| r_deferred ::= λ l, l ++ records |>.
Proof.
  intros Hk He. revert r Hk. induction He as [|v records Hv _ IH]; intros r Hk Ht H0 Hb.
  { destruct r. unfold modify_field. cbn. by rewrite app_nil_r. }
  cbn [process_loop wait_total] in *. pose proof (wait_total_nonneg records).
  rewrite keyless_defers by (done || lia). destruct (wait_for_keeps x (r_dir r) [v]) as (K1 & K2 & K3).
  rewrite IH.
  - destruct r as [d suite ring lim def ev]. unfold modify_field. cbn -[wait_for]. rewrite wait_for_cons. f_equal. by rewrite <- app_assoc.
  - destruct Hk as [Hk|[Hk1 Hk2]]; [by left|right]. split; [done|].
    change (r_dir _) with (wait_for x (r_dir r) [v]). by rewrite K2.
  - change (r_dir _) with (wait_for x (r_dir r) [v]). by rewrite K1.
  - change (r_dir _) with (wait_for x (r_dir r) [v]). rewrite K3. cbn [wait_total]. lia.
  - change (r_dir _) with (wait_for x (r_dir r) [v]). rewrite K3. cbn [wait_total]. lia.
Qed.

(** No record is lost while its key is missing.  Encrypted records that
    arrive before the cipher suite or the epoch's secret is known, up to the
    64 KiB bound, are all kept, in order, with nothing else of the direction
    changed but the time it has been waiting, and nothing is sent: they are the
    records the direction processes when the key comes. *)
Theorem waiting_records_kept x r records :
  keyless r → Forall encrypted records → terminal (r_dir r) = None → key_wait_bytes (r_dir r) = 0 →
  wait_total records <= MAX_TLS_KEY_WAIT_BYTES →
  let r' := process_tls_records x r records in
  r_dir r' = (wait_for x (r_dir r) records) <| key_wait_records := records |> ∧
  r_events r' = r_events r ∧ r_ring r' = r_ring r ∧ r_suite r' = r_suite r ∧ r_limiter r' = r_limiter r.
Proof.
  intros Hk He Ht H0 Hb r'. subst r'. unfold process_tls_records.
  rewrite keyless_loop; [|done|done|done|cbn; lia|cbn; lia].
  unfold modify_field. cbn -[wait_for]. rewrite (proj1 (wait_for_keeps x (r_dir r) records)), Ht. done.
Qed.
End directions.

(** ** Samples *)

Section sample.
#[local] Instance no_hpack : Hpack :=
  {| hpack_state := unit; hpack_new := tt; hpack_decode _ _ := None; hpack_bytes_held _ := 0 |}.
#[local] Instance no_crypto : TlsCrypto.
Proof. refine {| hkdf_expand _ _ _ := None; aead_open _ _ _ _ := None |}. done. Defined.
#[local] Instance zeros : Zeroizer.
Proof. refine {| zeroize v := mkVec [] 0 |}. constructor. Defined.

Definition sample_ctx : Ctx := mkCtx (lit "c") true (Some true) (Some ClientToServer) 0 5.
Definition sample_run : Run :=
  mkRun new_direction None (DecryptedRingBuffer.new 1000 true) (PacketEventLimiter.new 100 1000) [] [].
Definition sample_waiting : list (vec Z) := [mkVec [23; 3; 3; 0; 1; 7] 6; mkVec [23; 3; 3; 0; 1; 8] 6].

Lemma waiting_records_kept_witness :
  let r' := process_tls_records sample_ctx sample_run sample_waiting in
  r_dir r' = (wait_for sample_ctx new_direction sample_waiting) <| key_wait_records := sample_waiting |> ∧
  r_events r' = [] ∧ r_ring r' = r_ring sample_run ∧ r_suite r' = None ∧ r_limiter r' = r_limiter sample_run.
Proof.
  apply (waiting_records_kept sample_ctx sample_run sample_waiting); [by left| |reflexivity|reflexivity|vm_compute; congruence].
  repeat constructor; vm_compute; congruence.
Defined.

Lemma key_wait_bounded_witness :
  wait_total (key_wait_records (r_dir (process_tls_records sample_ctx sample_run sample_waiting))) <= MAX_TLS_KEY_WAIT_BYTES.
Proof. apply (key_wait_bounded sample_ctx sample_run sample_waiting); [reflexivity|split; vm_compute; congruence]. Defined.

(** Evicted, then a timer, then a packet. *)
Definition evicted_direction : Direction :=
  (terminate_decryption_direction (lit "c") (Some ClientToServer) new_direction Unavailable EvictedBudget).1.

(** A stream opened by its SYN, evicted, then a packet on it and a timer. *)
Definition reopened_direction : Direction := open_stream (Some 1) new_direction.
Definition ended_direction : Direction :=
  (terminate_decryption_direction (lit "c") (Some ClientToServer) reopened_direction Unavailable EvictedBudget).1.
Definition fed_direction : Direction := (feed_direction sample_ctx ended_direction false None None 2 [22; 3; 3]).1.1.

Lemma direction_ends_once_witness :
  let status := DecryptionStatus (lit "c") ClientToServer Unavailable EvictedBudget in
  terminal ended_direction = Some (Unavailable, EvictedBudget) ∧ last_activity_ms fed_direction = 5 ∧
  direction_steps new_direction ended_direction [status] ∧ direction_steps ended_direction fed_direction [] ∧
  terminal fed_direction = Some (Unavailable, EvictedBudget) ∧ statuses [status] = 1.
Proof.
  cbn zeta. split; [reflexivity|]. split; [reflexivity|].
  assert (H1 : direction_steps new_direction ended_direction
    [DecryptionStatus (lit "c") ClientToServer Unavailable EvictedBudget]).
  { apply (steps_then new_direction reopened_direction ended_direction []).
    - apply direction_step_steps, step_open.
    - apply (step_evict (lit "c") (Some ClientToServer)). vm_compute. reflexivity. }
  assert (H2 : direction_steps ended_direction fed_direction []).
  { apply direction_step_steps, (step_packet sample_ctx ended_direction false None None 2 [22; 3; 3] fed_direction None).
    vm_compute. reflexivity. }
  split; [exact H1|]. split; [exact H2|].
  destruct (direction_ends_once ended_direction fed_direction _ _ H1 H2) as [Hkeep Honce]. split.
  - apply Hkeep. reflexivity.
  - apply Z.le_antisymm; [exact Honce|]. vm_compute. congruence.
Defined.

Definition ended_world : World :=
  mkWorld {[lit "c" := (new_connection 7 true) <| c_outbound := evicted_direction |>]} KeyLogWatcher.new
    (PacketEventLimiter.new 100 1000).

Lemma ended_direction_is_silent_witness :
  match decrypt_packet 10 ended_world 7 (lit "c") (mkFlowView None (Some true) (Some 1) None) true 2 [22; 3; 3] false true 0 0 with
  | Some (w', es) => no_payload es ∧
      ∃ c', w_state w' !! lit "c" = Some c' ∧ terminal (direction_of c' true) = Some (Unavailable, EvictedBudget)
  | None => False
  end.
Proof.
  destruct (decrypt_packet 10 ended_world 7 (lit "c") (mkFlowView None (Some true) (Some 1) None) true 2 [22; 3; 3] false true 0 0)
    as [[w' es]|] eqn:E; [|vm_compute in E; discriminate E].
  refine (ended_direction_is_silent 10 ended_world 7 (lit "c") _ true 2 [22; 3; 3] false true 0 0 _ _ w' es _ _ _ E).
  - apply lookup_singleton_eq.
  - reflexivity.
  - reflexivity.
Defined.
End sample.
