(* ===== verification/Fields.v ===== *)
(** * Packet fields

    [capture-agent/src/fields.rs]: the flat list of fields shown for one packet,
    each with a path, the path of the group it belongs to, a value and the bytes
    it covers; and the packet event of [main.rs] that carries it. *)

From S2P Require Import Prelude Packet Text Paths Parse L7Http L7Dns L7Tls L7 Transaction.

Definition ETH_HEADER_LEN : Z := 14.
Definition VLAN_TAG_LEN : Z := 4.
Definition UDP_HEADER_LEN : Z := 8.

Module FieldType.
Inductive t := Group | Bool | Uint | Str | Addr | Bytes.
End FieldType.

Inductive ByteRegion := Header | Payload.

Definition MAX_EXACT_JSON_UINT : Z := Z.shiftl 1 53 - 1.

Module FieldValue.
Inductive t := Bool (b : bool) | Uint (n : Z) | Str (s : bytes) | Bytes (b : bytes).
End FieldValue.

Module Field.
Record t := mk {
  path : bytes;
  label : bytes;
  group : option bytes;
  field_type : FieldType.t;
  value : option FieldValue.t;
  region : ByteRegion;
  offset : Z;
  len : Z
}.
#[global] Instance eta : RecordEta t := λ r,
  mk (path r) (label r) (group r) (field_type r) (value r) (region r) (offset r) (len r).
End Field.

(** [Field::group] and [Field::leaf]. *)
Definition field_group (path label : bytes) (group : option bytes) (region : ByteRegion) (offset len : Z) : Field.t :=
  Field.mk path label group FieldType.Group None region offset len.

Definition leaf (path label group : bytes) (type : FieldType.t) (value : FieldValue.t) (region : ByteRegion)
    (offset len : Z) : Field.t :=
  Field.mk path label (Some group) type (Some value) region offset len.

Definition protocol_num (protocol : TransportProtocol) : Z :=
  match protocol with Tcp => 6 | Udp => 17 | Icmp => 1 | Other => 0 end.

(** ** Headers *)

Definition eth_fields (p : ParsedPacket) : list Field.t * Z :=
  let vlan_tagged := bool_decide (is_Some (vlan_tag p)) in
  let eth_len := ETH_HEADER_LEN + (if vlan_tagged then VLAN_TAG_LEN else 0) in
  let ethertype_offset := if vlan_tagged then 16 else 12 in
  let ethertype_label :=
    if ip_version p =? 4 then lit "IPv4" else if ip_version p =? 6 then lit "IPv6" else lit "Unknown" in
  ([field_group (lit "eth") (lit "Ethernet II") None Header 0 eth_len;
    leaf (lit "eth.dst") (lit "Destination MAC") (lit "eth") FieldType.Addr (FieldValue.Str (dst_mac p)) Header 0 6;
    leaf (lit "eth.src") (lit "Source MAC") (lit "eth") FieldType.Addr (FieldValue.Str (src_mac p)) Header 6 6] ++
   match vlan_tag p with
   | Some tag =>
       [field_group (lit "eth.vlan") (lit "802.1Q VLAN Tag") (Some (lit "eth")) Header 12 VLAN_TAG_LEN;
        leaf (lit "eth.vlan.id") (lit "VLAN ID") (lit "eth.vlan") FieldType.Uint
          (FieldValue.Uint (default 0 (parse_u64 tag))) Header 14 2]
   | None => []
   end ++
   [leaf (lit "eth.type") (lit "EtherType") (lit "eth") FieldType.Str (FieldValue.Str ethertype_label) Header
      ethertype_offset 2],
   eth_len).

(** The byte of the header at an offset, or what the decoder made of it. *)
Definition header_byte (p : ParsedPacket) (offset : Z) : Z :=
  default (protocol_num (protocol p)) (nth_z (header_bytes p) offset).

(** [format!("0x{checksum:04x}")]. *)
Definition hex4 (n : Z) : bytes := lit "0x" ++ hex2 (n / 256) ++ hex2 (n mod 256).

Definition ip6_fields (p : ParsedPacket) (ip_start : Z) : list Field.t :=
  [field_group (lit "ip6") (lit "Internet Protocol Version 6") None Header ip_start (ip_header_len p);
   leaf (lit "ip6.src") (lit "Source Address") (lit "ip6") FieldType.Addr (FieldValue.Str (src_ip p)) Header
     (ip_start + 8) 16;
   leaf (lit "ip6.dst") (lit "Destination Address") (lit "ip6") FieldType.Addr (FieldValue.Str (dst_ip p)) Header
     (ip_start + 24) 16;
   leaf (lit "ip6.hop_limit") (lit "Hop Limit") (lit "ip6") FieldType.Uint (FieldValue.Uint (ttl p)) Header
     (ip_start + 7) 1;
   leaf (lit "ip6.next_header") (lit "Next Header") (lit "ip6") FieldType.Uint
     (FieldValue.Uint (header_byte p (ip_start + 6))) Header (ip_start + 6) 1].

Definition ip4_fields (p : ParsedPacket) (ip_start : Z) : list Field.t :=
  [field_group (lit "ip") (lit "Internet Protocol Version 4") None Header ip_start (ip_header_len p);
   leaf (lit "ip.src") (lit "Source Address") (lit "ip") FieldType.Addr (FieldValue.Str (src_ip p)) Header
     (ip_start + 12) 4;
   leaf (lit "ip.dst") (lit "Destination Address") (lit "ip") FieldType.Addr (FieldValue.Str (dst_ip p)) Header
     (ip_start + 16) 4;
   leaf (lit "ip.ttl") (lit "Time to Live") (lit "ip") FieldType.Uint (FieldValue.Uint (ttl p)) Header (ip_start + 8) 1;
   leaf (lit "ip.protocol_num") (lit "Protocol") (lit "ip") FieldType.Uint
     (FieldValue.Uint (header_byte p (ip_start + 9))) Header (ip_start + 9) 1] ++
  match ip_checksum p with
  | Some checksum =>
      [leaf (lit "ip.checksum") (lit "Header Checksum") (lit "ip") FieldType.Str (FieldValue.Str (hex4 checksum)) Header
         (ip_start + 10) 2]
  | None => []
  end.

Definition ip_fields (p : ParsedPacket) (ip_start : Z) : list Field.t * Z :=
  (if ip_version p =? 6 then ip6_fields p ip_start else ip4_fields p ip_start, ip_start + ip_header_len p).

Definition default_flags : TcpFlags := mkTcpFlags false false false false 0 0.

Definition transport_fields (p : ParsedPacket) (start : Z) : list Field.t :=
  let port (o : option Z) := FieldValue.Uint (default 0 o) in
  match protocol p with
  | Tcp =>
      let flags := default default_flags (tcp_flags p) in
      let flag path label b := leaf path label (lit "tcp.flags") FieldType.Bool (FieldValue.Bool b) Header (start + 13) 1 in
      [field_group (lit "tcp") (lit "Transmission Control Protocol") None Header start (transport_header_len p);
       leaf (lit "tcp.src_port") (lit "Source Port") (lit "tcp") FieldType.Uint (port (src_port p)) Header start 2;
       leaf (lit "tcp.dst_port") (lit "Destination Port") (lit "tcp") FieldType.Uint (port (dst_port p)) Header (start + 2) 2;
       leaf (lit "tcp.seq") (lit "Sequence Number") (lit "tcp") FieldType.Uint (port (tcp_seq p)) Header (start + 4) 4;
       leaf (lit "tcp.ack_number") (lit "Acknowledgment Number") (lit "tcp") FieldType.Uint
         (FieldValue.Uint (ack_number flags)) Header (start + 8) 4;
       field_group (lit "tcp.flags") (lit "Flags") (Some (lit "tcp")) Header (start + 13) 1;
       flag (lit "tcp.flags.syn") (lit "SYN") (syn flags);
       flag (lit "tcp.flags.ack") (lit "ACK") (ack flags);
       flag (lit "tcp.flags.fin") (lit "FIN") (fin flags);
       flag (lit "tcp.flags.rst") (lit "RST") (rst flags);
       leaf (lit "tcp.window_size") (lit "Window Size") (lit "tcp") FieldType.Uint
         (FieldValue.Uint (window_size flags)) Header (start + 14) 2]
  | Udp =>
      [field_group (lit "udp") (lit "User Datagram Protocol") None Header start UDP_HEADER_LEN;
       leaf (lit "udp.src_port") (lit "Source Port") (lit "udp") FieldType.Uint (port (src_port p)) Header start 2;
       leaf (lit "udp.dst_port") (lit "Destination Port") (lit "udp") FieldType.Uint (port (dst_port p)) Header (start + 2) 2]
  | Icmp | Other => []
  end.

(** ** The application layer *)

(** A leaf that covers the whole payload. *)
Definition whole (payload_len : Z) (path label group : bytes) (type : FieldType.t) (value : FieldValue.t) : Field.t :=
  leaf path label group type value Payload 0 payload_len.

Definition opt_field {A} (f : A → Field.t) (o : option A) : list Field.t := match o with Some a => [f a] | None => [] end.

Definition answer_fields (payload_len : Z) (i : Z) (a : DnsAnswer) : list Field.t :=
  let base := lit "dns.answer." ++ dec i in
  let type_name := dns_type_name (ans_rtype a) in
  let at_base name label type value := whole payload_len (base ++ name) label base type value in
  [field_group base (ans_name a ++ lit " " ++ type_name) (Some (lit "dns.answers")) Payload 0 payload_len;
   at_base (lit ".name") (lit "Name") FieldType.Str (FieldValue.Str (ans_name a));
   at_base (lit ".type") (lit "Type") FieldType.Str (FieldValue.Str type_name);
   at_base (lit ".ttl") (lit "Time to Live (s)") FieldType.Uint (FieldValue.Uint (ans_ttl a))] ++
  (if bool_decide (ans_data a = []) then []
   else
     let data_type := if (ans_rtype a =? 1) || (ans_rtype a =? 28) then FieldType.Addr else FieldType.Str in
     [at_base (lit ".data") (lit "Data") data_type (FieldValue.Str (ans_data a))]) ++
  (if ans_data_truncated a then [at_base (lit ".truncated") (lit "Data Truncated") FieldType.Bool (FieldValue.Bool true)]
   else []).

Fixpoint answers_fields (payload_len : Z) (i : Z) (answers : list DnsAnswer) : list Field.t :=
  match answers with
  | [] => []
  | a :: answers' => answer_fields payload_len i a ++ answers_fields payload_len (i + 1) answers'
  end.

Definition content_length_value (content_length : Z) : FieldValue.t :=
  if MAX_EXACT_JSON_UINT <? content_length then FieldValue.Str (dec content_length) else FieldValue.Uint content_length.

Definition app_fields (l7 : L7Info) (payload_len dns_offset : Z) : list Field.t :=
  let http_leaf path label := whole payload_len path label (lit "http") in
  let dns_leaf path label := whole payload_len path label (lit "dns") in
  let http := field_group (lit "http") (lit "Hypertext Transfer Protocol") None Payload 0 payload_len in
  let dns := field_group (lit "dns") (lit "Domain Name System") None Payload 0 payload_len in
  let dns_id id := leaf (lit "dns.id") (lit "Transaction ID") (lit "dns") FieldType.Uint (FieldValue.Uint id) Payload dns_offset 2 in
  let dns_response b := leaf (lit "dns.flags.response") (lit "Response") (lit "dns") FieldType.Bool (FieldValue.Bool b) Payload
                          (dns_offset + 2) 1 in
  match l7 with
  | L7Http method path =>
      [http;
       http_leaf (lit "http.request.method") (lit "Request Method") FieldType.Str (FieldValue.Str method);
       http_leaf (lit "http.request.uri") (lit "Request URI") FieldType.Str (FieldValue.Str path)]
  | L7HttpResponse status reason content_type content_length =>
      [http;
       http_leaf (lit "http.response.code") (lit "Status Code") FieldType.Uint (FieldValue.Uint (default 0 (parse_u64 status)))] ++
      opt_field (λ r, http_leaf (lit "http.response.phrase") (lit "Response Phrase") FieldType.Str (FieldValue.Str r)) reason ++
      opt_field (λ c, http_leaf (lit "http.content_type") (lit "Content-Type") FieldType.Str (FieldValue.Str c)) content_type ++
      opt_field (λ n, http_leaf (lit "http.content_length") (lit "Content-Length") FieldType.Uint (content_length_value n))
        content_length
  | L7Dns query_name id qtype =>
      [dns; dns_id id; dns_response false;
       dns_leaf (lit "dns.qry.name") (lit "Query Name") FieldType.Str (FieldValue.Str query_name);
       dns_leaf (lit "dns.qry.type") (lit "Query Type") FieldType.Str (FieldValue.Str (dns_type_name qtype))]
  | L7DnsResponse query_name id qtype rcode answer_count answers =>
      [dns; dns_id id; dns_response true;
       leaf (lit "dns.flags.rcode") (lit "Response Code") (lit "dns") FieldType.Str (FieldValue.Str (dns_rcode_name rcode))
         Payload (dns_offset + 3) 1;
       dns_leaf (lit "dns.qry.name") (lit "Query Name") FieldType.Str (FieldValue.Str query_name);
       dns_leaf (lit "dns.qry.type") (lit "Query Type") FieldType.Str (FieldValue.Str (dns_type_name qtype));
       leaf (lit "dns.count.answers") (lit "Answer RRs") (lit "dns") FieldType.Uint (FieldValue.Uint answer_count) Payload
         (dns_offset + 6) 2] ++
      (if bool_decide (answers = []) then []
       else [field_group (lit "dns.answers") (lit "Answers") (Some (lit "dns")) Payload 0 payload_len]) ++
      answers_fields payload_len 0 answers
  | L7TlsClientHello sni ja3 ja3_label _ sni_offset sni_len =>
      [field_group (lit "tls") (lit "Transport Layer Security") None Payload 0 payload_len;
       leaf (lit "tls.handshake.sni") (lit "Server Name") (lit "tls") FieldType.Str (FieldValue.Str sni) Payload
         (wrap_u32 sni_offset) (wrap_u32 sni_len)] ++
      opt_field (λ h, whole payload_len (lit "tls.ja3") (lit "JA3 Fingerprint") (lit "tls") FieldType.Str (FieldValue.Str h)) ja3 ++
      opt_field (λ l, whole payload_len (lit "tls.ja3_label") (lit "JA3 Label") (lit "tls") FieldType.Str (FieldValue.Str l)) ja3_label
  | L7None => []
  end.

(** ** The whole list *)

Definition transaction_fields (event : TxnEvent) : list Field.t :=
  match event with
  | TxnAnswered protocol service_time_us request_frame_id =>
      let group := match protocol with TxnDns => lit "dns" | TxnHttp => lit "http" end in
      leaf (group ++ lit ".time_us") (lit "Service Time (µs)") group FieldType.Uint (FieldValue.Uint service_time_us) Payload 0 0
      :: opt_field (λ id, leaf (group ++ lit ".response_to") (lit "Response To") group FieldType.Str (FieldValue.Str id) Payload 0 0)
           request_frame_id
  | TxnDuplicateResponse =>
      [leaf (lit "dns.response.duplicate") (lit "Duplicate Response") (lit "dns") FieldType.Bool (FieldValue.Bool true) Payload 0 0]
  | _ => []
  end.

Definition build_fields (p : ParsedPacket) (l7 : L7Info) (link_type : LinkType) : list Field.t :=
  let '(eth, ip_start) := if bool_decide (link_type = Ethernet) then eth_fields p else ([], 0) in
  let '(ip, transport_start) := ip_fields p ip_start in
  let dns_offset := if is_dns_over_tcp (protocol p) (src_port p) (dst_port p) then 2 else 0 in
  eth ++ ip ++ transport_fields p transport_start ++ app_fields l7 (wrap_u32 (zlen (payload p))) dns_offset.

(** A field that covers no byte. *)
Definition without_range (f : Field.t) : Field.t := f <| Field.offset := 0 |> <| Field.len := 0 |>.

Definition dns_info (l7 : L7Info) : bool :=
  match l7 with L7Dns _ _ _ | L7DnsResponse _ _ _ _ _ _ => true | _ => false end.

Definition build_packet_fields (p : ParsedPacket) (l7 : L7Info) (link_type : LinkType) (l7_from_reassembly : bool)
    : list Field.t :=
  if l7_from_reassembly then
    build_fields p L7None link_type ++
    (if bool_decide (protocol p = Tcp) && dns_info l7 then without_range <$> app_fields l7 0 0 else [])
  else build_fields p l7 link_type.

(** ** The packet event *)

Definition packet_osi_layer (protocol : TransportProtocol) (l7 : L7Info) : Z :=
  match protocol with
  | Tcp | Udp => match l7 with L7None => 4 | _ => 7 end
  | Icmp | Other => 3
  end.

(** Two digits a byte, with a space between. *)
Definition hex_dump (b : bytes) : bytes := join (lit " ") (hex2 <$> b).

Record PacketEventMetadata := mkPacketEventMetadata { pm_id : bytes; epoch_ms : Z; relative_time_ms : Z }.

Record PacketJson := mkPacketJson {
  pj_id : bytes;
  pj_timestamp : bytes;
  pj_relative_time_ms : Z;
  pj_layer : Z;
  pj_protocol : bytes;
  pj_src : bytes;
  pj_dst : bytes;
  pj_length : Z;
  pj_summary : bytes;
  pj_hex_dump : bytes;
  pj_header_hex_dump : bytes;
  pj_fields : list Field.t
}.

(** [format!("{:?}", protocol)], and in upper case. *)
Definition protocol_debug (protocol : TransportProtocol) : bytes :=
  match protocol with Tcp => lit "Tcp" | Udp => lit "Udp" | Icmp => lit "Icmp" | Other => lit "Other" end.
Definition protocol_upper (protocol : TransportProtocol) : bytes :=
  match protocol with Tcp => lit "TCP" | Udp => lit "UDP" | Icmp => lit "ICMP" | Other => lit "OTHER" end.

Definition build_packet_json (metadata : PacketEventMetadata) (p : ParsedPacket) (l7 : L7Info) (link_type : LinkType)
    (l7_from_reassembly : bool) (txn_event : TxnEvent) : PacketJson :=
  let endpoint ip port := ip ++ lit ":" ++ dec (default 0 port) in
  mkPacketJson (pm_id metadata) (dec (epoch_ms metadata)) (relative_time_ms metadata) (packet_osi_layer (protocol p) l7)
    (protocol_upper (protocol p)) (endpoint (src_ip p) (src_port p)) (endpoint (dst_ip p) (dst_port p)) (total_len p)
    (protocol_debug (protocol p) ++ lit " " ++ src_ip p ++ lit " -> " ++ dst_ip p)
    (hex_dump (ztake 64 (payload p))) (hex_dump (header_bytes p))
    (build_packet_fields p l7 link_type l7_from_reassembly ++ transaction_fields txn_event).

(** ** Paths and groups *)

Abbreviation paths fs := (Field.path <$> fs).

(** Every group a field names is a group of the list. *)
Definition is_group_at (g : bytes) (f : Field.t) : bool :=
  bool_decide (Field.path f = g) && match Field.field_type f with FieldType.Group => true | _ => false end.

Definition grouped (fs : list Field.t) (f : Field.t) : bool :=
  match Field.group f with None => true | Some g => existsb (is_group_at g) fs end.

Definition closed (fs : list Field.t) : bool := forallb (grouped fs) fs.

Lemma grouped_app_l a b f : grouped a f = true → grouped (a ++ b) f = true.
Proof. unfold grouped. destruct (Field.group f); [|done]. rewrite existsb_app. by intros ->. Qed.

Lemma grouped_app_r a b f : grouped b f = true → grouped (a ++ b) f = true.
Proof. unfold grouped. destruct (Field.group f); [|done]. rewrite existsb_app. intros ->. apply orb_true_r. Qed.

Lemma closed_app a b : closed a = true → closed b = true → closed (a ++ b) = true.
Proof.
  unfold closed. rewrite !forallb_forall. intros Ha Hb f [Hf|Hf]%in_app_or.
  - by apply grouped_app_l, Ha.
  - by apply grouped_app_r, Hb.
Qed.

Lemma closed_extend a b : closed a = true → forallb (grouped (a ++ b)) b = true → closed (a ++ b) = true.
Proof.
  unfold closed. rewrite forallb_app. intros Ha ->. rewrite andb_true_r, forallb_forall in *.
  intros f Hf. by apply grouped_app_l, Ha.
Qed.

(** The paths that do not depend on the packet, in a fixed order. *)
Definition ETH_PATHS : list bytes := lit <$> ["eth"; "eth.dst"; "eth.src"; "eth.vlan"; "eth.vlan.id"; "eth.type"].
Definition IP_PATHS : list bytes :=
  lit <$> ["ip6"; "ip6.src"; "ip6.dst"; "ip6.hop_limit"; "ip6.next_header";
           "ip"; "ip.src"; "ip.dst"; "ip.ttl"; "ip.protocol_num"; "ip.checksum"].
Definition TRANSPORT_PATHS : list bytes :=
  lit <$> ["tcp"; "tcp.src_port"; "tcp.dst_port"; "tcp.seq"; "tcp.ack_number"; "tcp.flags"; "tcp.flags.syn";
           "tcp.flags.ack"; "tcp.flags.fin"; "tcp.flags.rst"; "tcp.window_size"; "udp"; "udp.src_port"; "udp.dst_port"].
Definition APP_PATHS : list bytes :=
  lit <$> ["http"; "http.request.method"; "http.request.uri"; "http.response.code"; "http.response.phrase";
           "http.content_type"; "http.content_length"; "dns"; "dns.id"; "dns.flags.response"; "dns.flags.rcode";
           "dns.qry.name"; "dns.qry.type"; "dns.count.answers"; "dns.answers"; "tls"; "tls.handshake.sni"; "tls.ja3";
           "tls.ja3_label"].
Definition TXN_PATHS : list bytes :=
  lit <$> ["dns.time_us"; "dns.response_to"; "http.time_us"; "http.response_to"; "dns.response.duplicate"].
Definition FIXED_PATHS : list bytes := ETH_PATHS ++ IP_PATHS ++ TRANSPORT_PATHS ++ APP_PATHS ++ TXN_PATHS.

Lemma submseteq_NoDup {A} (l k : list A) : l ⊆+ k → NoDup k → NoDup l.
Proof. intros (r & ->)%submseteq_Permutation. rewrite NoDup_app. tauto. Qed.

Ltac decide_paths := apply (bool_decide_unpack _); vm_compute; exact I.

Lemma eth_paths p : paths (eth_fields p).1 ⊆+ ETH_PATHS ∧ closed (eth_fields p).1 = true.
Proof. unfold eth_fields. destruct (vlan_tag p); cbn [fst]; (split; [decide_paths|by vm_compute]). Qed.

Lemma ip_paths p start : paths (ip_fields p start).1 ⊆+ IP_PATHS ∧ closed (ip_fields p start).1 = true.
Proof.
  unfold ip_fields. destruct (_ =? _); cbn [fst]; [split; [decide_paths|by vm_compute]|].
  unfold ip4_fields. destruct (ip_checksum p); (split; [decide_paths|by vm_compute]).
Qed.

Lemma transport_paths p start :
  paths (transport_fields p start) ⊆+ TRANSPORT_PATHS ∧ closed (transport_fields p start) = true.
Proof. unfold transport_fields. destruct (protocol p); (split; [decide_paths|by vm_compute]). Qed.

Lemma transaction_paths event : paths (transaction_fields event) ⊆+ TXN_PATHS.
Proof. destruct event as [| | | |[] ? []| | |]; decide_paths. Qed.

(** The answers a verdict carries. *)
Definition answers_of (l7 : L7Info) : list DnsAnswer := match l7 with L7DnsResponse _ _ _ _ _ a => a | _ => [] end.

Lemma app_paths l7 payload_len dns_offset :
  ∃ fixed, app_fields l7 payload_len dns_offset = fixed ++ answers_fields payload_len 0 (answers_of l7) ∧
    paths fixed ⊆+ APP_PATHS ∧ closed fixed = true ∧
    (answers_of l7 ≠ [] → existsb (is_group_at (lit "dns.answers")) fixed = true).
Proof.
  destruct l7 as [m u|status reason ct cl|q id qt|q id qt rc n answers|sni ja3 label cr off len|];
    cbn [app_fields answers_of answers_fields]; try rewrite app_assoc;
    (eexists; split; [try reflexivity; by rewrite app_nil_r|]).
  - split_and!; [decide_paths|by vm_compute|done].
  - destruct reason, ct, cl; (split_and!; [decide_paths|by vm_compute|done]).
  - split_and!; [decide_paths|by vm_compute|done].
  - case_bool_decide; (split_and!; [decide_paths|by vm_compute|]); [done|]. intros _. by vm_compute.
  - destruct ja3, label; (split_and!; [decide_paths|by vm_compute|done]).
  - split_and!; [decide_paths|by vm_compute|done].
Qed.

(** *** Answers *)

(** A path below an answer: the answer's number, and what follows it. *)
Lemma answer_path_inj i j s t :
  is_u64 i → is_u64 j → (s = [] ∨ head s = Some 46) → (t = [] ∨ head t = Some 46) →
  (lit "dns.answer." ++ dec i) ++ s = (lit "dns.answer." ++ dec j) ++ t → i = j ∧ s = t.
Proof.
  intros Hi Hj Hs Ht E. rewrite <- !app_assoc in E. apply app_inv_head in E.
  destruct (dec_spec i Hi) as [Hv1 Hd1], (dec_spec j Hj) as [Hv2 Hd2].
  destruct (digits_prefix_unique _ _ _ _ Hd1 Hd2 Hs Ht E) as [E1 E2]. split; congruence.
Qed.

Definition ANSWER_SUFFIXES : list bytes := lit <$> [EmptyString; ".name"; ".type"; ".ttl"; ".data"; ".truncated"].

Lemma answer_suffix s : s ∈ ANSWER_SUFFIXES → s = [] ∨ head s = Some 46.
Proof.
  unfold ANSWER_SUFFIXES. rewrite list_elem_of_fmap. intros (x & -> & Hx).
  repeat (apply elem_of_cons in Hx as [->|Hx]; [by (left; reflexivity) || by (right; reflexivity)|]).
  by apply not_elem_of_nil in Hx.
Qed.

(** The paths of an answer are its number followed by different suffixes. *)
Lemma answer_paths payload_len i a :
  ∃ suffixes, paths (answer_fields payload_len i a) = app (lit "dns.answer." ++ dec i) <$> suffixes ∧
    suffixes ⊆+ ANSWER_SUFFIXES.
Proof.
  unfold answer_fields. set (base := lit "dns.answer." ++ dec i).
  exists ((lit <$> [EmptyString; ".name"; ".type"; ".ttl"]) ++ (if bool_decide (ans_data a = []) then [] else [lit ".data"]) ++
          (if ans_data_truncated a then [lit ".truncated"] else [])).
  case_bool_decide; destruct (ans_data_truncated a); (split; [cbn; by rewrite ?app_nil_r|decide_paths]).
Qed.

Lemma answer_paths_NoDup payload_len i a : NoDup (paths (answer_fields payload_len i a)).
Proof.
  destruct (answer_paths payload_len i a) as (ss & -> & Hs). apply NoDup_fmap_2; [intros x y; apply app_inv_head|].
  eapply submseteq_NoDup; [exact Hs|]. decide_paths.
Qed.

Lemma answers_paths_elem payload_len i answers q :
  q ∈ paths (answers_fields payload_len i answers) →
  ∃ j s, i <= j < i + zlen answers ∧ s ∈ ANSWER_SUFFIXES ∧ q = (lit "dns.answer." ++ dec j) ++ s.
Proof.
  revert i. induction answers as [|a answers IH]; intros i; cbn [answers_fields]; [by intros ?%not_elem_of_nil|].
  rewrite fmap_app, elem_of_app. cbn [length]. intros [Hq|Hq].
  - destruct (answer_paths payload_len i a) as (ss & E & Hs). rewrite E in Hq.
    apply list_elem_of_fmap in Hq as (s & -> & Hin). exists i, s. split_and!; [lia|lia| |done].
    by eapply elem_of_submseteq.
  - apply IH in Hq as (j & s & Hj & Hs & ->). exists j, s. split_and!; [lia|lia|done|done].
Qed.

Lemma answers_paths_NoDup payload_len i answers :
  0 <= i → i + zlen answers <= U64_MAX → NoDup (paths (answers_fields payload_len i answers)).
Proof.
  revert i. induction answers as [|a answers IH]; intros i Hi Hn; cbn [answers_fields length] in *; [constructor|].
  rewrite fmap_app. apply NoDup_app. split_and!; [apply answer_paths_NoDup| |apply IH; lia].
  intros q Hq (j & t & Hj & Ht & E)%answers_paths_elem.
  destruct (answer_paths payload_len i a) as (ss & Es & Hs). rewrite Es in Hq.
  apply list_elem_of_fmap in Hq as (s & -> & Hin).
  apply answer_path_inj in E as [-> _]; [lia|width; lia|width; lia|apply answer_suffix|by apply answer_suffix].
  by eapply elem_of_submseteq.
Qed.

Lemma answer_groups payload_len i a :
  let base := lit "dns.answer." ++ dec i in
  existsb (is_group_at base) (answer_fields payload_len i a) = true ∧
  Forall (λ f, Field.group f = Some (lit "dns.answers") ∨ Field.group f = Some base) (answer_fields payload_len i a).
Proof.
  intros base. split.
  - unfold answer_fields. cbn [app existsb]. apply orb_true_iff. left. unfold is_group_at. cbn [Field.path field_group].
    by rewrite bool_decide_true.
  - unfold answer_fields. fold base. constructor; [by left|].
    apply Forall_cons. split; [by right|]. apply Forall_cons. split; [by right|]. apply Forall_cons. split; [by right|].
    apply Forall_app. split; [destruct (bool_decide _)|destruct (ans_data_truncated a)]; repeat constructor; by right.
Qed.

Lemma answers_grouped payload_len i answers fs :
  (answers ≠ [] → existsb (is_group_at (lit "dns.answers")) fs = true) →
  forallb (grouped (fs ++ answers_fields payload_len i answers)) (answers_fields payload_len i answers) = true.
Proof.
  revert i fs. induction answers as [|a answers IH]; intros i fs Hg; cbn [answers_fields]; [done|].
  destruct (answer_groups payload_len i a) as [Hb Ha]. rewrite Forall_forall in Ha.
  rewrite forallb_app. apply andb_true_iff. split; rewrite app_assoc.
  - rewrite forallb_forall. intros f Hf. apply grouped_app_l. unfold grouped.
    destruct (Ha f) as [->| ->]; [by apply list_elem_of_In|..]; rewrite existsb_app.
    + by rewrite Hg.
    + by rewrite Hb, orb_true_r.
  - apply IH. intros _. by rewrite existsb_app, Hg.
Qed.

(** *** The whole list *)

Definition header_fields (p : ParsedPacket) (link_type : LinkType) : list Field.t :=
  let '(eth, ip_start) := if bool_decide (link_type = Ethernet) then eth_fields p else ([], 0) in
  let '(ip, transport_start) := ip_fields p ip_start in
  eth ++ ip ++ transport_fields p transport_start.

Lemma build_fields_split p l7 link_type :
  build_fields p l7 link_type
  = header_fields p link_type ++
    app_fields l7 (wrap_u32 (zlen (payload p))) (if is_dns_over_tcp (protocol p) (src_port p) (dst_port p) then 2 else 0).
Proof.
  unfold build_fields, header_fields. destruct (if bool_decide _ then _ else _) as [eth s].
  destruct (ip_fields p s) as [ip t]. by rewrite <- !app_assoc.
Qed.

Lemma header_paths p link_type :
  paths (header_fields p link_type) ⊆+ ETH_PATHS ++ IP_PATHS ++ TRANSPORT_PATHS ∧
  closed (header_fields p link_type) = true.
Proof.
  unfold header_fields. set (es := if bool_decide _ then _ else _).
  assert (He : paths es.1 ⊆+ ETH_PATHS ∧ closed es.1 = true).
  { unfold es. case_bool_decide; [apply eth_paths|]. split; [apply submseteq_nil_l|done]. }
  destruct es as [eth s]. destruct (ip_paths p s) as [Hi1 Hi2]. destruct (ip_fields p s) as [ip t].
  destruct (transport_paths p t) as [Ht1 Ht2], He as [He1 He2]. cbn [fst] in *. rewrite !fmap_app.
  split; [by repeat apply submseteq_app|]. by repeat apply closed_app.
Qed.

Lemma paths_without_range (fs : list Field.t) : paths (without_range <$> fs) = paths fs.
Proof. rewrite <- list_fmap_compose. done. Qed.

(** The fields of an event: those of the headers, perhaps those of the
    application layer, and those of the transaction. *)
Lemma event_fields p l7 link_type re event :
  ∃ a, build_packet_fields p l7 link_type re ++ transaction_fields event
       = header_fields p link_type ++ a ++ transaction_fields event ∧
    (re = false → ∃ n off, a = app_fields l7 n off) ∧ (paths a = [] ∨ ∃ n off, paths a = paths (app_fields l7 n off)).
Proof.
  unfold build_packet_fields. destruct re.
  - rewrite build_fields_split. cbn [app_fields]. rewrite app_nil_r, <- app_assoc. eexists. split; [done|].
    split; [done|]. destruct (_ && _); [right|by left]. rewrite paths_without_range. eauto.
  - rewrite build_fields_split, <- app_assoc. eexists. split; [done|]. split; [intros _|right]; by do 2 eexists.
Qed.

Lemma fixed_not_answer q j s : q ∈ FIXED_PATHS → q ≠ (lit "dns.answer." ++ dec j) ++ s.
Proof.
  assert (Hf : forallb (λ q, negb (starts_with (lit "dns.answer.") q)) FIXED_PATHS = true) by (by vm_compute).
  rewrite forallb_forall in Hf. intros Hq%list_elem_of_In%Hf ->. apply negb_true_iff in Hq.
  assert (starts_with (lit "dns.answer.") ((lit "dns.answer." ++ dec j) ++ s) = true); [|congruence].
  apply starts_with_true. eexists. by rewrite <- app_assoc.
Qed.

Lemma event_paths_NoDup h a t answers payload_len :
  h ⊆+ ETH_PATHS ++ IP_PATHS ++ TRANSPORT_PATHS → a ⊆+ APP_PATHS → t ⊆+ TXN_PATHS → zlen answers <= U64_MAX →
  NoDup (h ++ (a ++ paths (answers_fields payload_len 0 answers)) ++ t).
Proof.
  intros Hh Ha Ht Hn. set (r := paths _).
  assert (Hp : h ++ (a ++ r) ++ t ≡ₚ (h ++ a ++ t) ++ r) by solve_Permutation. rewrite Hp.
  assert (Hsub : h ++ a ++ t ⊆+ FIXED_PATHS).
  { unfold FIXED_PATHS. rewrite !(app_assoc ETH_PATHS), (app_assoc (ETH_PATHS ++ IP_PATHS)).
    rewrite <- (app_assoc ETH_PATHS). by repeat apply submseteq_app. }
  apply NoDup_app. split_and!; [eapply submseteq_NoDup; [exact Hsub|decide_paths]| |apply answers_paths_NoDup; lia].
  intros q Hq Hr. apply (elem_of_submseteq _ FIXED_PATHS) in Hq; [|done].
  apply answers_paths_elem in Hr as (j & x & _ & _ & ->). by eapply fixed_not_answer.
Qed.

(** Only a response is answered, or a duplicate. *)
Definition event_of (l7 : L7Info) (event : TxnEvent) : Prop :=
  match event with
  | TxnAnswered TxnDns _ _ | TxnDuplicateResponse => ∃ q id qt rc k a, l7 = L7DnsResponse q id qt rc k a
  | TxnAnswered TxnHttp _ _ => ∃ status reason ct cl, l7 = L7HttpResponse status reason ct cl
  | _ => True
  end.

Lemma observe_frame_event st flow l7 ts retransmit :
  event_of l7 (TransactionTracker.observe_frame st flow l7 ts retransmit).2.
Proof.
  unfold TransactionTracker.observe_frame. destruct retransmit; [done|]. destruct flow as [[key out]|]; [|done].
  destruct l7; try done.
  - unfold TransactionTracker.http_request, TransactionTracker.untracked. by case_match.
  - unfold TransactionTracker.http_response, TransactionTracker.answered. repeat case_match; cbn; eauto.
  - unfold TransactionTracker.dns_query, TransactionTracker.untracked. by repeat case_match.
  - unfold TransactionTracker.dns_response, TransactionTracker.answered. repeat case_match; cbn; eauto 10.
Qed.

(** The group a transaction's fields name is among the fields of its verdict. *)
Lemma transaction_grouped l7 event n off :
  event_of l7 event → forallb (grouped (app_fields l7 n off)) (transaction_fields event) = true.
Proof.
  destruct event as [| | | |[] t fid| | |]; try done; cbn [event_of].
  - intros (q & id & qt & rc & k & a & ->). by destruct fid.
  - intros (status & reason & ct & cl & ->). by destruct fid.
  - by intros (q & id & qt & rc & k & a & ->).
Qed.

(** C40: The fields of a packet form a tree.  For any packet, verdict, link type,
    origin of the verdict and transaction event, no two fields of the packet's
    event have the same path, which the user interface keys them by; and when
    the verdict is the packet's own and the transaction event is the tracker's
    for it, every group a field names is a group of the list. *)
Theorem packet_fields_tree metadata p l7 link_type re event :
  zlen (answers_of l7) <= U64_MAX →
  let fs := pj_fields (build_packet_json metadata p l7 link_type re event) in
  NoDup (paths fs) ∧
  (re = false → ∀ st flow ts retransmit,
     event = (TransactionTracker.observe_frame st flow l7 ts retransmit).2 → closed fs = true).
Proof.
  intros Hn. cbn [pj_fields build_packet_json]. destruct (event_fields p l7 link_type re event) as (a & -> & Ha & Hpa).
  destruct (header_paths p link_type) as [Hh1 Hh2]. split.
  - rewrite !fmap_app. destruct Hpa as [->|(n & off & ->)].
    + apply (event_paths_NoDup _ [] _ [] 0); [done|apply submseteq_nil_l|apply transaction_paths|done].
    + destruct (app_paths l7 n off) as (fixed & -> & Hf & _ & _). rewrite fmap_app.
      by apply event_paths_NoDup; [| |apply transaction_paths|].
  - intros Hre st flow ts retransmit ->. destruct (Ha Hre) as (n & off & ->). apply closed_app; [done|].
    apply closed_extend.
    + destruct (app_paths l7 n off) as (fixed & -> & _ & Hc & Hg). apply closed_extend; [done|]. by apply answers_grouped.
    + pose proof (transaction_grouped l7 _ n off (observe_frame_event st flow l7 ts retransmit)) as Ht.
      rewrite forallb_forall in *. intros f Hf. by apply grouped_app_l, Ht.
Qed.

(** ** Byte ranges *)

(** Documented behaviour of [etherparse]: the headers follow one another before
    the payload, each at least as long as its protocol requires. *)
Definition header_minima (s : SlicedPacket) : Prop :=
  match net s with
  | Some (NetIpv4 v4) => 20 <= zlen (v4_header v4) ∧ 0 <= v4_auth_len v4
  | Some (NetIpv6 v6) => 40 <= v6_header_len v6 ∧ 0 <= v6_extensions_len v6
  | _ => True
  end ∧
  match transport s with
  | Some (TransportTcp tcp) => 20 <= tcp_header_len tcp
  | Some (TransportUdp udp) => 8 <= udp_header_len udp
  | _ => True
  end.

Definition laid_out (link_len : Z) (data : bytes) (s : SlicedPacket) : Prop :=
  header_minima s ∧
  ∀ n, net_fields (net s) = Some n →
    link_len + nf_header_len n + tf_header_len (Parse.transport_fields (transport s)) + zlen (sliced_payload s) <= zlen data.

Definition link_len_of (tag : option bytes) : Z := ETH_HEADER_LEN + (if bool_decide (is_Some tag) then VLAN_TAG_LEN else 0).

Class SlicerLayout `{Slicer} : Prop := {
  ethernet_layout data s : from_ethernet data = Some s → laid_out (link_len_of (outer_vlan (link_exts s))) data s;
  ip_layout data s : from_ip data = Some s → laid_out 0 data s
}.

Definition ip_start (p : ParsedPacket) (link_type : LinkType) : Z :=
  if bool_decide (link_type = Ethernet) then link_len_of (vlan_tag p) else 0.

(** What the headers of a decoded packet leave room for. *)
Record layout (p : ParsedPacket) (link_type : LinkType) : Prop := {
  lay_fit : ip_start p link_type + ip_header_len p + transport_header_len p <= zlen (header_bytes p);
  lay_ip : if ip_version p =? 6 then 40 <= ip_header_len p else 20 <= ip_header_len p;
  lay_transport : 0 <= transport_header_len p;
  lay_tcp : protocol p = Tcp → 20 <= transport_header_len p;
  lay_udp : protocol p = Udp → 8 <= transport_header_len p
}.

Lemma built_layout link_type s src dst tag data p :
  laid_out (if bool_decide (link_type = Ethernet) then link_len_of tag else 0) data s →
  build_parsed_packet s src dst tag data = Some p → layout p link_type.
Proof.
  intros [[Hn Ht] Hfit]. unfold build_parsed_packet. destruct (net_fields (net s)) as [n|] eqn:En; [|done].
  specialize (Hfit n eq_refl). unfold sliced_payload in Hfit. intros [= <-].
  assert (Hip : (nf_version n = 4 ∧ 20 <= nf_header_len n) ∨ (nf_version n = 6 ∧ 40 <= nf_header_len n)).
  { destruct (net s) as [[v4|v6|arp]|]; cbn in En; simplify_eq; cbn; [left|right]; (split; [done|lia]). }
  split; cbn; unfold ip_start; cbn.
  - rewrite length_ztake. case_bool_decide; unfold link_len_of in *; lia.
  - by destruct Hip as [[-> ?]|[-> ?]].
  - destruct (transport s) as [[tcp|udp| |]|]; cbn; lia.
  - destruct (transport s) as [[tcp|udp| |]|]; cbn; done.
  - destruct (transport s) as [[tcp|udp| |]|]; cbn; done.
Qed.

Lemma parse_packet_layout `{SlicerLayout} data link_type p : parse_packet data link_type = Some p → layout p link_type.
Proof.
  unfold parse_packet, parse_packet_result. destruct link_type.
  - destruct (from_ethernet data) as [s|] eqn:Hs; [|done]. cbn. destruct (negb _); [done|].
    destruct (link s) as [[src dst]|]; [|done]. destruct (build_parsed_packet _ _ _ _ _) as [q|] eqn:Hb; [|done].
    intros [= <-]. eapply built_layout; [|exact Hb]. by apply ethernet_layout.
  - destruct (slice data _ _) as [d|]; [|done]. cbn. destruct (from_ip d) as [s|] eqn:Hs; [|done]. cbn.
    destruct (build_parsed_packet _ _ _ _ _) as [q|] eqn:Hb; [|done]. intros [= <-].
    eapply built_layout; [|exact Hb]. by apply ip_layout.
  - destruct (from_ip data) as [s|] eqn:Hs; [|done]. cbn.
    destruct (build_parsed_packet _ _ _ _ _) as [q|] eqn:Hb; [|done]. intros [= <-].
    eapply built_layout; [|exact Hb]. by apply ip_layout.
Qed.

(** The bytes a field covers are bytes of its pane. *)
Definition in_pane (header_len payload_len : Z) (f : Field.t) : Prop :=
  0 <= Field.offset f ∧ 0 <= Field.len f ∧
  Field.offset f + Field.len f <= match Field.region f with Header => header_len | Payload => payload_len end.

Ltac in_panes := repeat (apply Forall_cons; split; [unfold in_pane; cbn; lia|]); apply Forall_nil; done.

Lemma header_in_pane p link_type k :
  layout p link_type → Forall (in_pane (zlen (header_bytes p)) k) (header_fields p link_type).
Proof.
  intros [Hfit Hip Htr Htcp Hudp]. unfold header_fields, ip_start in *.
  set (es := if bool_decide _ then eth_fields p else _).
  assert (He : es.2 = (if bool_decide (link_type = Ethernet) then link_len_of (vlan_tag p) else 0) ∧ 0 <= es.2 ∧
               (es.2 <= zlen (header_bytes p) → Forall (in_pane (zlen (header_bytes p)) k) es.1)).
  { unfold es. case_bool_decide; [|done]. unfold eth_fields, link_len_of, ETH_HEADER_LEN, VLAN_TAG_LEN in *.
    destruct (vlan_tag p); cbn; (split_and!; [done|lia|]); intros; in_panes. }
  destruct es as [eth s]. cbn [fst snd] in He. destruct He as (Hs & Hs0 & He). rewrite <- Hs in Hfit. clear Hs.
  unfold ip_fields. apply Forall_app. split; [apply He; destruct (_ =? 6); lia|]. apply Forall_app. split.
  - destruct (_ =? 6); [unfold ip6_fields; in_panes|]. unfold ip4_fields. destruct (ip_checksum p); cbn [app]; in_panes.
  - unfold transport_fields, UDP_HEADER_LEN. assert (0 <= ip_header_len p) by (destruct (_ =? 6); lia).
    destruct (protocol p); [specialize (Htcp eq_refl)|specialize (Hudp eq_refl)|done|done]; in_panes.
Qed.

(** What a verdict says of the payload it was read from. *)
Definition verdict_fits (l7 : L7Info) (payload_len dns_offset : Z) : Prop :=
  match l7 with
  | L7Dns _ _ _ | L7DnsResponse _ _ _ _ _ _ => dns_offset + 12 <= payload_len
  | L7TlsClientHello _ _ _ _ off len => 0 <= off ∧ 0 <= len ∧ off + len <= payload_len
  | _ => True
  end.

Lemma sniff_dns_length b info : sniff_dns b = Some info → 12 <= zlen b.
Proof. unfold sniff_dns. destruct (Z.ltb_spec (zlen b) 12); [done|]. lia. Qed.

Lemma sniff_dns_fits b info off : sniff_dns b = Some info → off = 0 → verdict_fits info (zlen b) off.
Proof.
  intros Hs ->. pose proof (sniff_dns_length b info Hs). apply sniff_dns_kind in Hs.
  by destruct info; cbn in *; try lia.
Qed.

Lemma sniff_dns_tcp_fits b info : sniff_dns_tcp b = Decided info → verdict_fits info (zlen b) 2.
Proof.
  intros Hs. pose proof (sniff_dns_tcp_kind b info Hs) as Hk.
  assert (Hl : 14 <= zlen b); [|by destruct info; cbn in *; try lia].
  unfold sniff_dns_tcp in Hs. destruct b as [|hi [|lo b]]; [done..|]. destruct (negb _) eqn:Hd; [done|].
  apply negb_false_iff, andb_true_iff in Hd as [Hd _]. apply Z.leb_le in Hd.
  destruct (slice _ _ _) as [m|] eqn:Em; [|done]. apply slice_Some in Em as (_ & Hle & _). lia.
Qed.

Lemma sniff_tls_fits `{Md5} b info off :
  Forall is_u8 b → sniff_tls_client_hello b = Some info → verdict_fits info (zlen b) off.
Proof.
  intros Hb Hs. pose proof (sniff_tls_kind b info Hs). destruct info as [| | | |sni ja3 label random o n|]; try done.
  destruct (sniff_tls_range _ _ _ _ _ _ _ Hb Hs) as (Ho & Hsl & _). apply slice_Some in Hsl as (? & ? & _).
  cbn. split_and!; lia.
Qed.

Lemma http_fits info n off : is_http info → verdict_fits info n off.
Proof. by destruct info. Qed.

Lemma sniff_fits `{Md5} b protocol sp dp info :
  Forall is_u8 b → sniff_for_transport b protocol sp dp = Decided info →
  verdict_fits info (zlen b) (if is_dns_over_tcp protocol sp dp then 2 else 0).
Proof.
  intros Hb. unfold sniff_for_transport, sniff_l7_desegmenting.
  destruct (is_dns_over_tcp protocol sp dp); cbn [negb].
  - case_bool_decide; [apply sniff_dns_tcp_fits|].
    destruct (or_else _ _) as [i|] eqn:Ho.
    + intros [= <-]. unfold or_else in Ho. destruct (sniff_http b) eqn:E1; simplify_eq.
      { eapply http_fits, sniff_http_kind; done. }
      destruct (sniff_http_response b) eqn:E2; simplify_eq; [eapply http_fits, sniff_http_response_kind; done|].
      by apply sniff_tls_fits.
    + destruct (sniff_dns_tcp b) as [i|k|] eqn:Ed; [|done|by destruct (missing_byte_count b)].
      intros [= <-]. by apply sniff_dns_tcp_fits.
  - destruct (if bool_decide _ then _ else _) as [i|] eqn:Hi; [|by destruct (missing_byte_count b)]. intros [= <-]. revert Hi.
    case_bool_decide; [intros ?; by apply sniff_dns_fits|]. case_bool_decide; [by apply sniff_tls_fits|].
    unfold or_else. destruct (sniff_http b) eqn:E1; [intros [= <-]; eapply http_fits, sniff_http_kind; done|].
    destruct (sniff_http_response b) eqn:E2; [intros [= <-]; eapply http_fits, sniff_http_response_kind; done|].
    destruct (sniff_dns b) eqn:E3; [intros [= <-]; by apply sniff_dns_fits|]. by apply sniff_tls_fits.
Qed.

Lemma answers_in_pane h n i answers : 0 <= n → Forall (in_pane h n) (answers_fields n i answers).
Proof.
  intros Hn. revert i. induction answers as [|a answers IH]; intros i; cbn [answers_fields]; [done|].
  apply Forall_app. split; [|done]. unfold answer_fields.
  case_bool_decide; destruct (ans_data_truncated a); cbn [app]; in_panes.
Qed.

Lemma app_in_pane h l7 n off :
  0 <= n <= U32_MAX → 0 <= off → verdict_fits l7 n off → Forall (in_pane h n) (app_fields l7 n off).
Proof.
  intros Hn Ho. destruct l7 as [m u|status reason ct cl|q id qt|q id qt rc k answers|sni ja3 label cr o len|];
    cbn [verdict_fits app_fields]; intros Hf.
  - in_panes.
  - destruct reason, ct, cl; cbn [opt_field app]; in_panes.
  - in_panes.
  - rewrite app_assoc. apply Forall_app. split; [|apply answers_in_pane; lia]. case_bool_decide; cbn [app]; in_panes.
  - rewrite !wrap_u32_id by (width; lia). destruct ja3, label; cbn [opt_field app]; in_panes.
  - done.
Qed.

Lemma in_pane_without_range h n f : 0 <= h → 0 <= n → in_pane h n (without_range f).
Proof. intros. unfold in_pane. cbn. destruct (Field.region f); lia. Qed.

(** C34: Fields point at real bytes.  For every frame that decodes, and the
    verdict read from its own payload (or one reassembled elsewhere, or none),
    the byte range of every field lies within the pane it refers to: the header
    bytes of the packet, or its payload. *)
Theorem field_ranges_in_panes `{SlicerLaws} `{!SlicerLayout} `{Md5} data link_type p l7 re :
  zlen data <= U32_MAX → Forall is_u8 data → parse_packet data link_type = Some p →
  (re = false → l7 = L7None ∨ sniff_for_transport (payload p) (protocol p) (src_port p) (dst_port p) = Decided l7) →
  Forall (in_pane (zlen (header_bytes p)) (zlen (payload p))) (build_packet_fields p l7 link_type re).
Proof.
  intros Hlen Hu8 Hp Hl7. pose proof (parse_packet_layout _ _ _ Hp) as Hlay.
  pose proof (header_in_pane p link_type (zlen (payload p)) Hlay) as Hh.
  destruct (parse_packet_widths _ _ _ Hlen Hp) as [_ Hpl].
  destruct (parse_packet_header_bytes _ _ _ Hp) as (_ & (pre & post & Hsub) & _).
  assert (Hpu : Forall is_u8 (payload p)).
  { assert (Hf : Forall is_u8 (frame_of data link_type)).
    { destruct link_type; [done| |done]. cbn. by apply Forall_drop. }
    rewrite Hsub in Hf. apply Forall_app in Hf as [_ Hf]. by apply Forall_app in Hf as [Hf _]. }
  unfold build_packet_fields. destruct re.
  - rewrite build_fields_split. cbn [app_fields]. rewrite app_nil_r. apply Forall_app. split; [done|].
    destruct (_ && _); [|done]. apply Forall_fmap, Forall_true. intros f. apply in_pane_without_range; lia.
  - rewrite build_fields_split, wrap_u32_id by (width; lia). apply Forall_app. split; [done|].
    apply app_in_pane; [width; lia|by case_match|]. destruct (Hl7 eq_refl) as [->|Hs]; [done|]. by apply sniff_fits.
Qed.

(** ** Hex dumps *)

Lemma length_hex_dump_tail l : zlen (concat (app (lit " ") <$> (hex2 <$> l))) = 3 * zlen l.
Proof.
  induction l as [|b l IH]; [done|]. cbn [fmap list_fmap concat]. rewrite length_app.
  change (length (lit " " ++ hex2 b)) with 3%nat. cbn [length]. lia.
Qed.

Lemma hex_dump_tail_at l i b :
  l !! i = Some b →
  slice (concat (app (lit " ") <$> (hex2 <$> l))) (3 * Z.of_nat i + 1) (3 * Z.of_nat i + 3) = Some (hex2 b).
Proof.
  revert i. induction l as [|a l IH]; intros i Hi; [done|]. cbn [fmap list_fmap concat].
  destruct i as [|i]; cbn in Hi.
  - injection Hi as ->. apply slice_Some. rewrite length_app. cbn [length app hex2 lit]. split_and!; [lia|cbn; lia|done].
  - apply IH in Hi. apply slice_Some in Hi as (H1 & H2 & ->). apply slice_Some. rewrite length_app.
    change (length (lit " " ++ hex2 a)) with 3%nat. split_and!; [lia|lia|].
    replace (3 * Z.of_nat (S i) + 3 - (3 * Z.of_nat (S i) + 1)) with (3 * Z.of_nat i + 3 - (3 * Z.of_nat i + 1)) by lia.
    f_equal. unfold zdrop. replace (Z.to_nat (3 * Z.of_nat (S i) + 1)) with (3 + Z.to_nat (3 * Z.of_nat i + 1))%nat by lia.
    rewrite <- drop_drop. done.
Qed.

(** Byte [i] of a dump is its characters from [3 i] on, which is how the user
    interface finds the bytes of a field. *)
Lemma hex_dump_at l i b :
  l !! i = Some b → slice (hex_dump l) (3 * Z.of_nat i) (3 * Z.of_nat i + 2) = Some (hex2 b).
Proof.
  destruct l as [|a l]; [done|]. unfold hex_dump. cbn [fmap list_fmap join]. destruct i as [|i]; cbn [lookup list_lookup].
  - intros [= ->]. apply slice_Some. rewrite length_app, Nat2Z.inj_add. cbn. split_and!; [lia|lia|done].
  - intros Hi%hex_dump_tail_at. apply slice_Some in Hi as (H1 & H2 & ->). apply slice_Some. rewrite length_app.
    change (length (hex2 a)) with 2%nat. split_and!; [lia|lia|].
    replace (3 * Z.of_nat (S i) + 2 - 3 * Z.of_nat (S i)) with (3 * Z.of_nat i + 3 - (3 * Z.of_nat i + 1)) by lia.
    f_equal. unfold zdrop. replace (Z.to_nat (3 * Z.of_nat (S i))) with (2 + Z.to_nat (3 * Z.of_nat i + 1))%nat by lia.
    rewrite <- drop_drop. done.
Qed.

(** ** Witnesses and examples *)

Lemma sample_layout : SlicerLayout (H := sample_slicer).
Proof.
  split; intros data s; cbn.
  - case_bool_decide as He; [|case_bool_decide as Hl; [|done]]; intros [= <-]; subst data.
    + split; [split; vm_compute; (split; congruence) || congruence|]. intros n [= <-]. vm_compute. congruence.
    + split; [done|]. by intros n.
  - case_bool_decide as He; [|done]. intros [= <-]; subst data.
    split; [split; vm_compute; (split; congruence) || done|]. intros n [= <-]. vm_compute. congruence.
Qed.

Lemma field_ranges_in_panes_witness :
  ∃ p, parse_packet (H := sample_slicer) sample_eth_frame Ethernet = Some p ∧
    zlen (header_bytes p) = 59 ∧
    Forall (in_pane (zlen (header_bytes p)) (zlen (payload p))) (build_packet_fields p L7None Ethernet false).
Proof.
  eexists. split; [vm_compute; reflexivity|]. split; [reflexivity|].
  eapply (field_ranges_in_panes (H := sample_slicer) (H0 := sample_slicer_laws) (H1 := sample_layout)
            (H2 := no_md5) sample_eth_frame Ethernet); [by vm_compute| |vm_compute; reflexivity|by left].
  vm_compute. repeat (apply Forall_cons; split; [split; congruence|]). by apply Forall_nil.
Defined.

(** A TCP packet with its two VLAN tags, as the decoder gives it. *)
Definition stacked_header : bytes :=
  zreplicate 12 1 ++ [129; 0; 0; 1; 129; 0; 0; 2; 8; 0] ++
  [69; 0; 0; 40; 171; 205; 64; 0; 64; 6; 0; 0; 10; 0; 0; 1; 10; 0; 0; 2] ++ zreplicate 20 0.

Definition stacked_packet : ParsedPacket :=
  mkParsedPacket (lit "01") (lit "01") (lit "10.0.0.1") (lit "10.0.0.2") Tcp (Some 5000) (Some 80) None (Some 0) 64 62
    [] stacked_header 20 20 4 (Some 0) (Some (lit "1")) 20 None.

(** With two VLAN tags the Internet header is looked for four bytes early: the
    protocol number shown for this TCP packet is a byte of its identification. *)
Example stacked_vlan_misplaces_ip :
  existsb (λ f, bool_decide (Field.path f = lit "ip.protocol_num") && bool_decide (Field.offset f = 27))
    (build_packet_fields stacked_packet L7None Ethernet false) = true ∧
  nth_z stacked_header 31 = Some 6 ∧ header_byte stacked_packet 27 = 205.
Proof. by vm_compute. Qed.

Definition sample_answers : list DnsAnswer :=
  [mkDnsAnswer (lit "a.example") 1 60 (lit "10.0.0.1") false; mkDnsAnswer (lit "a.example") 16 60 [] true].

Definition sample_dns_info : L7Info := L7DnsResponse (lit "a.example") 7 1 0 2 sample_answers.

Lemma packet_fields_tree_witness :
  let fs := pj_fields (build_packet_json (mkPacketEventMetadata (lit "p1") 1000 0) stacked_packet sample_dns_info Ethernet
                         false TxnNone) in
  NoDup (paths fs) ∧ closed fs = true ∧ zlen fs = 41.
Proof.
  destruct (packet_fields_tree (mkPacketEventMetadata (lit "p1") 1000 0) stacked_packet sample_dns_info Ethernet
              false TxnNone) as [H1 H2]; [by vm_compute|].
  split_and!; [exact H1| |by vm_compute].
  apply (H2 eq_refl (TransactionTracker.new (mkServiceTimeStats ProtocolStats.default_stats ProtocolStats.default_stats)) None 0 false). done.
Defined.

(** A reassembled HTTP response keeps no application fields, so the service time
    of its transaction is a field of a group that is not there. *)
Example reassembled_http_has_no_group :
  closed (pj_fields (build_packet_json (mkPacketEventMetadata (lit "p1") 1000 0) stacked_packet
    (L7HttpResponse (lit "200") None None None) Ethernet true (TxnAnswered TxnHttp 5 None))) = false.
Proof. by vm_compute. Qed.
