(* ===== verification/Traceroute.v ===== *)
(** * Traceroute

    [capture-agent/src/traceroute.rs]: the ICMP echo request and its checksum,
    the parsing of replies, the matching of replies to probes, and the bounded
    loop over hops.  The loop is written against the interface [Prober], as in
    the source; [ProbeSession] implements it, with what the socket answers to
    each probe as a script.  Times are nanoseconds; a round-trip time is the
    elapsed time, of which the source shows the milliseconds as a float. *)

From S2P Require Import Prelude Text.

Record HopResult := mkHopResult { hop_number : Z; hop_ip : option bytes; rtt : option Z }.

Inductive TracerouteError := ProbeSocketUnavailable (detail : bytes).

Inductive IcmpReplyType := TimeExceeded | EchoReply | OtherReply.

Record ParsedIcmpReply := mkParsedIcmpReply {
  reply_type : IcmpReplyType;
  identifier : option Z;
  sequence : option Z
}.

(** ** Messages *)

(** The sum of the big-endian words, the last byte padded. *)
Fixpoint word_sum (data : bytes) : Z :=
  match data with
  | [] => 0
  | [a] => Z.shiftl a 8
  | a :: b :: data' => Z.lor (Z.shiftl a 8) b + word_sum data'
  end.

(** [while (sum >> 16) != 0]: a 32-bit sum takes two turns at most. *)
Fixpoint fold_carries (fuel : nat) (sum : Z) : Z :=
  match fuel with
  | O => sum
  | S fuel' =>
      if Z.shiftr sum 16 =? 0 then sum
      else fold_carries fuel' (Z.land sum 65535 + Z.shiftr sum 16)
  end.

Definition icmp_checksum (data : bytes) : Z := 65535 - fold_carries 3 (word_sum data) mod 65536.

Definition build_echo_request (identifier sequence : Z) : bytes :=
  let with_checksum hi lo :=
    [8; 0; hi; lo; Z.shiftr identifier 8; Z.land identifier 255; Z.shiftr sequence 8; Z.land sequence 255] in
  let checksum := icmp_checksum (with_checksum 0 0) in
  with_checksum (Z.shiftr checksum 8) (Z.land checksum 255).

Definition strip_leading_ipv4_header (b : bytes) : option bytes :=
  first ← head b;
  if negb (Z.shiftr first 4 =? 4) then Some b
  else
    let header_len := Z.land first 15 * 4 in
    if (header_len <? 20) || (zlen b <? header_len) then None else Some (zdrop header_len b).

Definition extract_embedded_identifier_sequence (embedded : bytes) : option (Z * Z) :=
  first ← head embedded;
  if negb (Z.shiftr first 4 =? 4) then None
  else
    let header_len := Z.land first 15 * 4 in
    if (header_len <? 20) || (zlen embedded <? header_len + 8) then None
    else
      match ztake 8 (zdrop header_len embedded) with
      | [_; _; _; _; i1; i2; s1; s2] => Some (be16 i1 i2, be16 s1 s2)
      | _ => None
      end.

Definition reply_type_of (icmp_type : Z) : IcmpReplyType :=
  if icmp_type =? 11 then TimeExceeded else if icmp_type =? 0 then EchoReply else OtherReply.

Definition parse_icmp_reply (b : bytes) : option ParsedIcmpReply :=
  icmp ← strip_leading_ipv4_header b;
  match icmp with
  | icmp_type :: _ :: _ :: _ :: i1 :: i2 :: s1 :: s2 :: rest =>
      let reply_type := reply_type_of icmp_type in
      let '(identifier, sequence) :=
        match reply_type with
        | EchoReply => (Some (be16 i1 i2), Some (be16 s1 s2))
        | TimeExceeded =>
            match extract_embedded_identifier_sequence rest with
            | Some (id, seq) => (Some id, Some seq)
            | None => (None, None)
            end
        | OtherReply => (None, None)
        end in
      Some (mkParsedIcmpReply reply_type identifier sequence)
  | _ => None
  end.

(** ** One probe *)

Definition HOP_CEILING : nat := 30.
Definition PER_HOP_TIMEOUT : Z := 1000000000.
Definition PER_HOP_RETRIES : nat := 3.
Definition TOTAL_TRACE_TIMEOUT : Z := 45000000000.

(** The seam between the loop and the probes: a probe of a target at a TTL
    within a timeout gives the replying address and its round-trip time, if any,
    and takes some time. *)
Class Prober (S : Type) := probe : S → bytes → Z → Z → S * option (bytes * Z) * Z.

(** What a socket delivers while a probe waits: a datagram from an address, or
    an error, at a time after the waiting began. *)
Inductive RecvEvent := Received (at_ : Z) (datagram from : bytes) | RecvError (at_ : Z).

(** What the socket does for one probe: whether the TTL is set and the request
    sent, how long sending takes, and what is received. *)
Record ProbeAnswer := mkProbeAnswer { ttl_ok : bool; send_ok : bool; send_time : Z; recv : list RecvEvent }.

Module ProbeSession.
Record t := mk { identifier : Z; next_sequence : Z; answers : list ProbeAnswer }.
#[global] Instance eta : RecordEta t := λ r, mk (identifier r) (next_sequence r) (answers r).

(** [open], given the process id and what the socket will do. *)
Definition opened (pid : Z) (answers : list ProbeAnswer) : t := mk (Z.land pid 65535) 1 answers.

Definition next_seq (st : t) : t * Z := (st <| next_sequence ::= λ n, (n + 1) mod 65536 |>, next_sequence st).
End ProbeSession.

(** [str::parse::<Ipv4Addr>]: four decimal octets without leading zeros. *)
Fixpoint split_dots (cur : bytes) (s : bytes) : list bytes :=
  match s with
  | [] => [cur]
  | b :: s' => if b =? 46 then cur :: split_dots [] s' else split_dots (cur ++ [b]) s'
  end.

Definition parse_octet (s : bytes) : option Z :=
  if (zlen s =? 0) || (3 <? zlen s) || negb (forallb is_digit s) then None
  else if (1 <? zlen s) && bool_decide (head s = Some 48) then None
  else n ← parse_digits 0 s; if n <=? 255 then Some n else None.

Definition parse_ipv4 (s : bytes) : option (list Z) :=
  let parts := split_dots [] s in
  if zlen parts =? 4 then mapM parse_octet parts else None.

(** Whether a reply is to this probe. *)
Definition answers_probe (identifier_ sequence_ : Z) (datagram : bytes) : bool :=
  match parse_icmp_reply datagram with
  | Some parsed =>
      match reply_type parsed with
      | EchoReply | TimeExceeded =>
          bool_decide (identifier parsed = Some identifier_) && bool_decide (sequence parsed = Some sequence_)
      | OtherReply => false
      end
  | None => false
  end.

(** The receive loop under its timeout: the replying address, and when it ended. *)
Fixpoint await_reply (identifier sequence timeout : Z) (events : list RecvEvent) : option bytes * Z :=
  match events with
  | [] => (None, timeout)
  | RecvError t :: _ => (None, Z.min t timeout)
  | Received t datagram from :: events' =>
      if timeout <=? t then (None, timeout)
      else if answers_probe identifier sequence (ztake 512 datagram) then (Some from, t)
      else await_reply identifier sequence timeout events'
  end.

Definition no_answer : ProbeAnswer := mkProbeAnswer true true 0 [].

Definition send_probe_and_await_reply (session : ProbeSession.t) (target_ip : bytes) (ttl timeout : Z)
    : ProbeSession.t * option (bytes * Z) * Z :=
  match parse_ipv4 target_ip with
  | None => (session, None, 0)
  | Some _ =>
      let answer := default no_answer (head (ProbeSession.answers session)) in
      let session := session <| ProbeSession.answers ::= tail |> in
      if negb (ttl_ok answer) then (session, None, 0)
      else
        let '(session, sequence) := ProbeSession.next_seq session in
        if negb (send_ok answer) then (session, None, send_time answer)
        else
          let '(reply_ip, waited) := await_reply (ProbeSession.identifier session) sequence timeout (recv answer) in
          let elapsed := send_time answer + waited in
          (session, (λ ip, (ip, elapsed)) <$> reply_ip, elapsed)
  end.

#[export] Instance session_prober : Prober ProbeSession.t := send_probe_and_await_reply.

(** ** The loop *)

Section trace.
Context {St : Type} `{Prober St}.

(** The attempts at one hop: the hop, the prober, the time. *)
Fixpoint attempt_hop (retries : nat) (prober : St) (target_ip : bytes) (ttl per_hop_timeout deadline now : Z)
    : HopResult * St * Z :=
  let silent := mkHopResult ttl None None in
  match retries with
  | O => (silent, prober, now)
  | S retries' =>
      if deadline <=? now then (silent, prober, now)
      else
        match probe prober target_ip ttl per_hop_timeout with
        | (prober, Some (ip, t), taken) => (mkHopResult ttl (Some ip) (Some t), prober, now + taken)
        | (prober, None, taken) => attempt_hop retries' prober target_ip ttl per_hop_timeout deadline (now + taken)
        end
  end.

(** The hops from [ttl] on: the results (each also given to [on_hop] as it is
    found), the prober, the time. *)
Fixpoint trace_hops (hops : nat) (prober : St) (target_ip : bytes) (ttl per_hop_timeout deadline now : Z)
    : list HopResult * St * Z :=
  match hops with
  | O => ([], prober, now)
  | S hops' =>
      if deadline <=? now then ([], prober, now)
      else
        let '(hop, prober, now) := attempt_hop PER_HOP_RETRIES prober target_ip ttl per_hop_timeout deadline now in
        if bool_decide (hop_ip hop = Some target_ip) then ([hop], prober, now)
        else
          let '(results, prober, now) := trace_hops hops' prober target_ip (ttl + 1) per_hop_timeout deadline now in
          (hop :: results, prober, now)
  end.

Definition run_traceroute_loop (target_ip : bytes) (per_hop_timeout total_trace_timeout : Z) (prober : St) (now : Z)
    : list HopResult * St * Z :=
  trace_hops HOP_CEILING prober target_ip 1 per_hop_timeout (now + total_trace_timeout) now.
End trace.

(** [session]: the socket, or the error of opening it. *)
Definition run_traceroute_with_timeouts (target_ip : bytes) (per_hop_timeout total_trace_timeout : Z)
    (session : result bytes ProbeSession.t) (now : Z) : result TracerouteError (list HopResult) :=
  match session with
  | Err detail => Err (ProbeSocketUnavailable detail)
  | Ok session => Ok (run_traceroute_loop target_ip per_hop_timeout total_trace_timeout session now).1.1
  end.

Definition run_traceroute (target_ip : bytes) (session : result bytes ProbeSession.t) (now : Z)
    : result TracerouteError (list HopResult) :=
  run_traceroute_with_timeouts target_ip PER_HOP_TIMEOUT TOTAL_TRACE_TIMEOUT session now.

(** ** Checksums *)

Lemma word_value a b : is_u8 b → Z.lor (Z.shiftl a 8) b = a * 256 + b.
Proof.
  intros Hb. assert (Hn : Z.land (Z.shiftl a 8) b = 0).
  { replace b with (Z.land b (Z.ones 8)) by (rewrite Z.land_ones, Z.mod_small by (width; lia); done).
    apply Z.bits_inj'. intros n Hn. rewrite !Z.land_spec, Z.shiftl_spec, Z.testbit_ones_nonneg, Z.bits_0 by lia.
    destruct (Z.ltb_spec n 8); [rewrite Z.testbit_neg_r by lia; done|]. by rewrite andb_false_r, andb_false_r. }
  rewrite <- Z.lxor_lor, <- Z.add_nocarry_lxor by done. by rewrite Z.shiftl_mul_pow2.
Qed.

Lemma shiftr_16 n : Z.shiftr n 16 = n / 65536.
Proof. by rewrite Z.shiftr_div_pow2. Qed.
Lemma shiftr_8 n : Z.shiftr n 8 = n / 256.
Proof. by rewrite Z.shiftr_div_pow2. Qed.
Lemma land_16 n : Z.land n 65535 = n mod 65536.
Proof. exact (Z.land_ones n 16 ltac:(lia)). Qed.
Lemma land_8 n : Z.land n 255 = n mod 256.
Proof. exact (Z.land_ones n 8 ltac:(lia)). Qed.

(** Folding the carries of a 32-bit sum ends, on a word with the same remainder. *)
Lemma fold_carries_spec s :
  0 < s < 4294967296 → let f := fold_carries 3 s in 0 < f <= 65535 ∧ f mod 65535 = s mod 65535.
Proof.
  assert (Hstep : ∀ n, 0 < n → let m := n mod 65536 + n / 65536 in 0 < m ∧ m mod 65535 = n mod 65535).
  { intros n Hn m. pose proof (Z.div_mod n 65536 ltac:(lia)) as E. pose proof (Z.mod_pos_bound n 65536 ltac:(lia)).
    pose proof (Z.div_pos n 65536 ltac:(lia) ltac:(lia)). split; [lia|].
    replace n with (m + n / 65536 * 65535) by lia. by rewrite Z.mod_add. }
  assert (Hdone : ∀ fuel n, 0 < n <= 65535 → fold_carries fuel n = n).
  { intros [|fuel] n Hn; [done|]. cbn [fold_carries]. rewrite shiftr_16, Z.div_small by lia. done. }
  assert (Hturn : ∀ fuel n, 0 < n → 65535 < n → fold_carries (S fuel) n = fold_carries fuel (n mod 65536 + n / 65536)).
  { intros fuel n Hn Hb. cbn [fold_carries]. rewrite shiftr_16, land_16. rewrite (proj2 (Z.eqb_neq _ 0)); [done|].
    assert (1 <= n / 65536) by (apply Z.div_le_lower_bound; lia). lia. }
  intros Hs. cbn zeta. destruct (Z.le_gt_cases s 65535); [rewrite Hdone by lia; split; [lia|congruence]|].
  rewrite Hturn by lia. destruct (Hstep s ltac:(lia)) as [Hp Hm]. set (s1 := s mod 65536 + s / 65536) in *.
  assert (s1 <= 131070).
  { pose proof (Z.mod_pos_bound s 65536 ltac:(lia)). assert (s / 65536 < 65536) by (apply Z.div_lt_upper_bound; lia). lia. }
  destruct (Z.le_gt_cases s1 65535); [rewrite Hdone by lia; split; [lia|congruence]|].
  rewrite Hturn by lia. destruct (Hstep s1 ltac:(lia)) as [Hp1 Hm1]. set (s2 := s1 mod 65536 + s1 / 65536) in *.
  assert (s2 <= 65535).
  { unfold s2. replace (s1 / 65536) with 1 by (apply Z.div_unique with (s1 - 65536); lia).
    replace (s1 mod 65536) with (s1 - 65536) by (apply Z.mod_unique with 1; lia). lia. }
  rewrite Hdone by lia. split; [done|congruence].
Qed.

Lemma word_split n : is_u16 n → Z.lor (Z.shiftl (Z.shiftr n 8) 8) (Z.land n 255) = n.
Proof.
  intros Hn. pose proof (Z.mod_pos_bound n 256 ltac:(lia)). rewrite word_value, shiftr_8, land_8 by (rewrite ?land_8; width; lia).
  pose proof (Z.div_mod n 256 ltac:(lia)). lia.
Qed.

(** The echo requests carry a valid checksum: summed with its checksum as a
    receiver sums it, the message checks to zero, for every identifier and
    sequence number. *)
Theorem echo_request_checksum identifier sequence :
  is_u16 identifier → is_u16 sequence → icmp_checksum (build_echo_request identifier sequence) = 0.
Proof.
  intros Hi Hs. unfold build_echo_request.
  assert (Hsum : ∀ ck, is_u16 ck →
    word_sum [8; 0; Z.shiftr ck 8; Z.land ck 255; Z.shiftr identifier 8; Z.land identifier 255;
              Z.shiftr sequence 8; Z.land sequence 255] = 2048 + ck + identifier + sequence).
  { intros ck Hck. cbn [word_sum]. rewrite !word_split by done. change (Z.lor (Z.shiftl 8 8) 0) with 2048. lia. }
  set (ck := icmp_checksum [8; 0; 0; 0; _; _; _; _]).
  pose proof (Hsum 0 ltac:(width; lia)) as H0. change (Z.shiftr 0 8) with 0 in H0. change (Z.land 0 255) with 0 in H0.
  destruct (fold_carries_spec (2048 + 0 + identifier + sequence) ltac:(width; lia)) as [Hf Hm].
  assert (Eck : ck = 65535 - fold_carries 3 (2048 + 0 + identifier + sequence)).
  { unfold ck, icmp_checksum. rewrite H0. rewrite Z.mod_small by lia. done. }
  set (f := fold_carries 3 _) in *. clearbody ck f. assert (Hck : is_u16 ck) by (rewrite Eck; width; lia).
  unfold icmp_checksum. rewrite (Hsum ck Hck), Eck.
  destruct (fold_carries_spec (2048 + (65535 - f) + identifier + sequence) ltac:(width; lia)) as [Hg Hgm].
  set (g := fold_carries 3 _) in *. rewrite Z.mod_small by lia.
  assert (Hz : g mod 65535 = 0).
  { rewrite Hgm. replace (2048 + (65535 - f) + identifier + sequence) with ((2048 + 0 + identifier + sequence) - f + 1 * 65535) by lia.
    rewrite Z.mod_add, Zminus_mod, <- Hm, Z.sub_diag by lia. done. }
  destruct (Z.eq_dec g 65535) as [->|]; [lia|]. rewrite Z.mod_small in Hz by lia. lia.
Qed.

(** ** Replies *)

(** An IPv4 header as received before an ICMP message, or none. *)
Definition ipv4_header (h : bytes) : Prop := ∃ ihl rest, h = (64 + ihl) :: rest ∧ 5 <= ihl <= 15 ∧ zlen h = ihl * 4.

Lemma nibbles ihl : 0 <= ihl <= 15 → Z.shiftr (64 + ihl) 4 = 4 ∧ Z.land (64 + ihl) 15 = ihl.
Proof.
  intros Hi. rewrite Z.shiftr_div_pow2 by lia. change 15 with (Z.ones 4). rewrite Z.land_ones by lia. change (2 ^ 4) with 16.
  split; [symmetry; apply Z.div_unique with ihl|symmetry; apply Z.mod_unique with 4]; lia.
Qed.

Lemma strip_header h b : ipv4_header h → strip_leading_ipv4_header (h ++ b) = Some b.
Proof.
  intros (ihl & rest & -> & Hi & Hl). unfold strip_leading_ipv4_header. cbn [app head mbind option_bind].
  destruct (nibbles ihl ltac:(lia)) as [-> ->]. cbn [Z.eqb Pos.eqb negb].
  rewrite (proj2 (Z.ltb_ge (ihl * 4) 20)) by lia. rewrite (proj2 (Z.ltb_ge _ (ihl * 4))).
  - cbn [orb]. rewrite <- Hl. f_equal. change ((64 + ihl) :: rest ++ b) with (((64 + ihl) :: rest) ++ b). by rewrite zdrop_app.
  - change ((64 + ihl) :: rest ++ b) with (((64 + ihl) :: rest) ++ b). rewrite length_app. lia.
Qed.

Lemma strip_bare b t rest : b = t :: rest → 0 <= t < 64 → strip_leading_ipv4_header b = Some b.
Proof.
  intros -> Ht. unfold strip_leading_ipv4_header. cbn [head mbind option_bind].
  rewrite Z.shiftr_div_pow2 by lia. rewrite (proj2 (Z.eqb_neq _ 4)); [done|].
  assert (t / 2 ^ 4 < 4) by (apply Z.div_lt_upper_bound; lia). lia.
Qed.

Lemma request_bytes identifier sequence :
  ∃ c1 c2, build_echo_request identifier sequence
    = [8; 0; c1; c2; Z.shiftr identifier 8; Z.land identifier 255; Z.shiftr sequence 8; Z.land sequence 255].
Proof. unfold build_echo_request. eauto. Qed.

Lemma be16_word n : is_u16 n → be16 (Z.shiftr n 8) (Z.land n 255) = n.
Proof. intros Hn. unfold be16. rewrite shiftr_8, land_8. pose proof (Z.div_mod n 256 ltac:(lia)). lia. Qed.

(** The answer of a host to an echo request: its type and checksum changed. *)
Definition echo_reply (c1 c2 : Z) (request : bytes) : bytes := [0; 0; c1; c2] ++ zdrop 4 request.

(** A router's report of a request it dropped: the header of the datagram and
    the first bytes of what it carried. *)
Definition time_exceeded (c1 c2 : Z) (header request : bytes) : bytes := [11; 0; c1; c2; 0; 0; 0; 0] ++ header ++ request.

(** Replies are matched to the probe that caused them.  The answer of the
    target to a request, and the report of any router that dropped it, whatever
    the routers put around them (an Internet header before the message or not,
    options, trailing bytes), parse to their kind with the identifier and the
    sequence number of that request. *)
Theorem replies_identify_request identifier sequence outer inner c1 c2 trailing :
  is_u16 identifier → is_u16 sequence → (outer = [] ∨ ipv4_header outer) → ipv4_header inner →
  let request := build_echo_request identifier sequence in
  parse_icmp_reply (outer ++ echo_reply c1 c2 request ++ trailing)
  = Some (mkParsedIcmpReply EchoReply (Some identifier) (Some sequence)) ∧
  parse_icmp_reply (outer ++ time_exceeded c1 c2 inner request ++ trailing)
  = Some (mkParsedIcmpReply TimeExceeded (Some identifier) (Some sequence)).
Proof.
  intros Hi Hs Ho Hin. cbn zeta. destruct (request_bytes identifier sequence) as (k1 & k2 & ->).
  assert (Hstrip : ∀ t m, 0 <= t < 64 → strip_leading_ipv4_header (outer ++ (t :: m)) = Some (t :: m)).
  { intros t m Ht. destruct Ho as [->|Ho]; [by eapply strip_bare|by apply strip_header]. }
  assert (Hdrop : ∀ a b c d (l : bytes), zdrop 4 (a :: b :: c :: d :: l) = l) by done.
  assert (Htake : ∀ a b c d e f g h (l : bytes), ztake 8 (a :: b :: c :: d :: e :: f :: g :: h :: l) = [a; b; c; d; e; f; g; h]) by done.
  unfold parse_icmp_reply, echo_reply, time_exceeded. rewrite Hdrop. cbn [app]. rewrite !Hstrip by lia.
  cbn [mbind option_bind reply_type_of Z.eqb Pos.eqb].
  split; [by rewrite !be16_word|].
  assert (He : extract_embedded_identifier_sequence
    ((inner ++ [8; 0; k1; k2; Z.shiftr identifier 8; Z.land identifier 255; Z.shiftr sequence 8; Z.land sequence 255]) ++ trailing)
    = Some (identifier, sequence)); [|by rewrite He].
  destruct Hin as (ihl & rest & E & Hb & Hl). unfold extract_embedded_identifier_sequence.
  rewrite <- app_assoc. rewrite E at 1. cbn [app head mbind option_bind]. destruct (nibbles ihl ltac:(lia)) as [-> ->].
  cbn [Z.eqb Pos.eqb negb]. rewrite (proj2 (Z.ltb_ge (ihl * 4) 20)) by lia.
  rewrite (proj2 (Z.ltb_ge _ (ihl * 4 + 8))) by (rewrite length_app; cbn; lia).
  cbn [orb]. rewrite <- Hl, zdrop_app. cbn [app]. rewrite Htake. by rewrite !be16_word.
Qed.

(** ** Probes *)

Lemma await_reply_spec id seq timeout events :
  match await_reply id seq timeout events with
  | (Some ip, t) => ∃ datagram, Received t datagram ip ∈ events ∧ t < timeout ∧
      answers_probe id seq (ztake 512 datagram) = true
  | (None, t) => t <= timeout
  end.
Proof.
  induction events as [|[t datagram from|t] events IH]; cbn [await_reply]; [lia| |lia].
  destruct (Z.leb_spec timeout t); [lia|]. destruct (answers_probe _ _ _) eqn:Ha.
  - exists datagram. split_and!; [apply elem_of_cons; by left|done|done].
  - destruct (await_reply _ _ _ _) as [[ip|] t']; [|done]. destruct IH as (d & Hin & ? & ?).
    exists d. split_and!; [apply elem_of_cons; by right|done|done].
Qed.

Lemma answers_probe_sequence id seq d :
  answers_probe id seq d = true →
  ∃ parsed, parse_icmp_reply d = Some parsed ∧ reply_type parsed ≠ OtherReply ∧
    identifier parsed = Some id ∧ sequence parsed = Some seq.
Proof.
  unfold answers_probe. destruct (parse_icmp_reply d) as [parsed|]; [|done].
  destruct (reply_type parsed) eqn:Hr; [| |done]; intros [H1%bool_decide_eq_true H2%bool_decide_eq_true]%andb_true_iff;
    exists parsed; split_and!; congruence.
Qed.

(** The session after some probes: targets, TTLs and timeouts. *)
Definition session_after (s : ProbeSession.t) (probes : list (bytes * Z * Z)) : ProbeSession.t :=
  foldl (λ s '(ip, ttl, timeout), (send_probe_and_await_reply s ip ttl timeout).1.1) s probes.

(** Whether a probe got as far as taking a sequence number. *)
Definition numbered (s : ProbeSession.t) (p : bytes * Z * Z) : bool :=
  bool_decide (is_Some (parse_ipv4 p.1.1)) && ttl_ok (default no_answer (head (ProbeSession.answers s))).

Lemma probe_session s p :
  let s' := session_after s [p] in
  ProbeSession.identifier s' = ProbeSession.identifier s ∧
  ProbeSession.next_sequence s'
  = (if numbered s p then (ProbeSession.next_sequence s + 1) mod 65536 else ProbeSession.next_sequence s).
Proof.
  destruct p as [[ip ttl] timeout]. unfold session_after, numbered, send_probe_and_await_reply. cbn [foldl fst].
  destruct (parse_ipv4 ip); [|done]. cbn [bool_decide andb]. destruct (ttl_ok _); [|done]. cbn [negb ProbeSession.next_seq].
  destruct (send_ok _); [|done]. cbn [negb]. by destruct (await_reply _ _ _ _).
Qed.

Lemma session_after_sequence s probes :
  is_u16 (ProbeSession.next_sequence s) →
  ∃ k, 0 <= k <= zlen probes ∧
    ProbeSession.identifier (session_after s probes) = ProbeSession.identifier s ∧
    ProbeSession.next_sequence (session_after s probes) = (ProbeSession.next_sequence s + k) mod 65536 ∧
    (∀ p, head probes = Some p → numbered s p = true → 1 <= k).
Proof.
  revert s. induction probes as [|p probes IH]; intros s Hs.
  { exists 0. cbn. split_and!; [lia|lia|done| |done]. rewrite Z.add_0_r, Z.mod_small by (width; lia). done. }
  change (session_after s (p :: probes)) with (session_after (session_after s [p]) probes).
  destruct (probe_session s p) as [Hid Hn]. cbn [length].
  destruct (IH (session_after s [p])) as (k & Hk & Hi & Hq & _).
  { rewrite Hn. destruct (numbered s p); [|done]. pose proof (Z.mod_pos_bound (ProbeSession.next_sequence s + 1) 65536). width. lia. }
  rewrite Hi, Hid, Hq, Hn. destruct (numbered s p) eqn:Hnum.
  - exists (k + 1). split_and!; [lia|lia|done| |lia]. rewrite Zplus_mod_idemp_l. f_equal. lia.
  - exists k. split_and!; [lia|lia|done|done|]. intros q [= <-]. congruence.
Qed.

(** A hop is never attributed by a stale reply.  In a session of fewer than
    65536 probes, when a probe yields an address, that address sent, within the
    timeout, a reply or a report that carries the session's identifier and the
    number of this very probe; a message that answers an earlier probe of the
    session is not taken for it. *)
Theorem stale_replies_ignored s probes i j pi ip ttl timeout addr t taken s' :
  is_u16 (ProbeSession.next_sequence s) → zlen probes <= 65535 → (i < j)%nat →
  probes !! i = Some pi → probes !! j = Some (ip, ttl, timeout) →
  let si := session_after s (take i probes) in
  let sj := session_after s (take j probes) in
  send_probe_and_await_reply sj ip ttl timeout = (s', Some (addr, t), taken) →
  ∃ at_ datagram, Received at_ datagram addr ∈ recv (default no_answer (head (ProbeSession.answers sj))) ∧ at_ < timeout ∧
    answers_probe (ProbeSession.identifier s) (ProbeSession.next_sequence sj) (ztake 512 datagram) = true ∧
    (numbered si pi = true →
     answers_probe (ProbeSession.identifier s) (ProbeSession.next_sequence si) (ztake 512 datagram) = false).
Proof.
  intros Hs Hlen Hij Hi Hj si sj Hsend.
  assert (Hlj : (j < length probes)%nat) by (by eapply lookup_lt_Some).
  destruct (session_after_sequence s (take i probes) Hs) as (ki & _ & Hidi & Hqi & _). fold si in Hidi, Hqi.
  assert (Hsi : is_u16 (ProbeSession.next_sequence si)).
  { rewrite Hqi. pose proof (Z.mod_pos_bound (ProbeSession.next_sequence s + ki) 65536). width. lia. }
  assert (Esj : sj = session_after si (drop i (take j probes))).
  { unfold sj, si, session_after. rewrite <- foldl_app. f_equal. rewrite <- (take_drop i (take j probes)) at 1.
    by rewrite take_take, Nat.min_l by lia. }
  destruct (session_after_sequence si (drop i (take j probes)) Hsi) as (k & Hk & Hid & Hq & Hpos). rewrite <- Esj in Hid, Hq.
  rewrite length_drop, length_take in Hk.
  unfold send_probe_and_await_reply in Hsend. destruct (parse_ipv4 ip); [|done].
  set (answer := default no_answer _) in *. destruct (negb (ttl_ok answer)); [done|]. cbn [ProbeSession.next_seq] in Hsend.
  destruct (negb (send_ok answer)); [done|].
  pose proof (await_reply_spec (ProbeSession.identifier sj) (ProbeSession.next_sequence sj) timeout (recv answer)) as Hw.
  cbn in Hsend. destruct (await_reply _ _ _ _) as [[a|] w]; [|done]. cbn in Hsend. injection Hsend as _ -> _ _.
  destruct Hw as (datagram & Hin & Ht & Ha). exists w, datagram. rewrite Hid, Hidi in Ha. split_and!; [done..|].
  intros Hnum. destruct (answers_probe _ (ProbeSession.next_sequence si) _) eqn:Hold; [|done]. exfalso.
  apply answers_probe_sequence in Ha as (p1 & E1 & _ & _ & S1). apply answers_probe_sequence in Hold as (p2 & E2 & _ & _ & S2).
  assert (1 <= k). { apply (Hpos pi); [|done]. rewrite head_lookup, lookup_drop, Nat.add_0_r, lookup_take_lt by done. done. }
  assert (Hne : (ProbeSession.next_sequence si + k) mod 65536 ≠ ProbeSession.next_sequence si).
  { intros E. pose proof (Z.div_mod (ProbeSession.next_sequence si + k) 65536 ltac:(lia)). width. lia. }
  congruence.
Qed.

(** ** The loop's bounds *)

Section bounds.
Context {St : Type} `{HP : !Prober St}.

(** A prober that counts its probes. *)
#[local] Instance counting : Prober (St * Z) := λ sn ip ttl timeout,
  let '(s, n) := sn in let '(s, r, taken) := probe s ip ttl timeout in ((s, n + 1), r, taken).

(** Probes take at most [slowest]. *)
Context (slowest : Z).
Hypothesis probe_takes : ∀ (s : St) ip ttl timeout, 0 <= (probe s ip ttl timeout).2 <= slowest.

Lemma attempt_hop_spec retries sn target ttl timeout deadline now :
  now <= deadline + slowest →
  let '(hop, sn', now') := attempt_hop retries sn target ttl timeout deadline now in
  hop_number hop = ttl ∧ now <= now' <= deadline + slowest ∧ sn.2 <= sn'.2 <= sn.2 + Z.of_nat retries.
Proof.
  revert sn now. induction retries as [|retries IH]; intros [s n] now Hnow; cbn [attempt_hop]; [cbn; lia|].
  destruct (Z.leb_spec deadline now); [cbn; lia|]. unfold probe at 1, counting at 1.
  pose proof (probe_takes s target ttl timeout) as Ht. destruct (probe s target ttl timeout) as [[s1 [[ip t]|]] taken]; cbn in *.
  - lia.
  - specialize (IH (s1, n + 1) (now + taken) ltac:(lia)). destruct (attempt_hop _ _ _ _ _ _ _) as [[hop [s2 n2]] now2].
    cbn in *. lia.
Qed.

Lemma trace_hops_spec hops sn target ttl timeout deadline now :
  now <= deadline + slowest →
  let '(results, sn', now') := trace_hops hops sn target ttl timeout deadline now in
  hop_number <$> results = seqZ ttl (zlen results) ∧ zlen results <= Z.of_nat hops ∧
  now <= now' <= deadline + slowest ∧ sn'.2 <= sn.2 + Z.of_nat (PER_HOP_RETRIES * hops) ∧
  (∀ i hop, results !! i = Some hop → hop_ip hop = Some target → S i = length results) ∧
  (zlen results < Z.of_nat hops → deadline <= now' ∨ ∃ hop, last results = Some hop ∧ hop_ip hop = Some target).
Proof.
  revert sn ttl now. induction hops as [|hops IH]; intros sn ttl now Hnow; cbn [trace_hops]; [cbn; split_and!; done || lia|].
  destruct (Z.leb_spec deadline now); [cbn; split_and!; done || lia|].
  pose proof (attempt_hop_spec PER_HOP_RETRIES sn target ttl timeout deadline now Hnow) as Ha.
  destruct (attempt_hop _ _ _ _ _ _ _) as [[hop sn1] now1]. destruct Ha as (Hnum & Ht & Hc). case_bool_decide as Hdest.
  - cbn [length fmap list_fmap]. rewrite Hnum. split_and!; [done|lia|lia|lia|unfold PER_HOP_RETRIES in *; lia| |].
    + intros [|i] h Hi; [done|]. by rewrite lookup_cons, lookup_nil in Hi.
    + intros _. right. by exists hop.
  - specialize (IH sn1 (ttl + 1) now1 ltac:(lia)). destruct (trace_hops _ _ _ _ _ _ _) as [[results sn2] now2].
    destruct IH as (Hn & Hl & Ht2 & Hc2 & Hstop & Hend). cbn [length]. split_and!; [|lia|lia|lia|unfold PER_HOP_RETRIES in *; lia| |].
    + cbn [fmap list_fmap]. rewrite Hnum, Hn. rewrite (seqZ_cons ttl) by lia. do 2 f_equal; lia.
    + intros [|i] h Hi Hip; cbn in Hi; [congruence|]. f_equal. by eapply Hstop.
    + intros Hlt. destruct Hend as [?|(h & Hh & Hip)]; [lia|by left|]. right. exists h. split; [|done].
      destruct results; [done|]. by rewrite last_cons_cons.
Qed.
End bounds.

(** A trace is bounded, whatever answers.  With any prober whose probes take
    at most [slowest]: the hops reported are numbered one after the other from
    one, at most thirty; at most ninety probes are made; the trace ends no later
    than one probe after its deadline; the target ends it, so no hop follows the
    target's; and a trace of fewer hops reached the target or the deadline. *)
Theorem traceroute_bounded {St} `{Prober St} (slowest : Z) (s : St) target per_hop total now :
  (∀ (s : St) ip ttl timeout, 0 <= (probe s ip ttl timeout).2 <= slowest) → 0 <= total →
  let '(results, (_, probes), finished) := run_traceroute_loop (H := counting) target per_hop total (s, 0) now in
  hop_number <$> results = seqZ 1 (zlen results) ∧ zlen results <= 30 ∧ probes <= 90 ∧
  finished <= now + total + slowest ∧
  (∀ i hop, results !! i = Some hop → hop_ip hop = Some target → S i = length results) ∧
  (zlen results < 30 → now + total <= finished ∨ ∃ hop, last results = Some hop ∧ hop_ip hop = Some target).
Proof.
  intros Ht Htot. unfold run_traceroute_loop. assert (0 <= slowest) by (specialize (Ht s [] 0 0); lia).
  pose proof (trace_hops_spec slowest Ht HOP_CEILING (s, 0) target 1 per_hop (now + total) now ltac:(lia)) as Hs.
  destruct (trace_hops _ _ _ _ _ _ _) as [[results [s' probes]] finished]. unfold HOP_CEILING, PER_HOP_RETRIES in *.
  cbn [snd] in Hs. destruct Hs as (H1 & H2 & H3 & H4 & H5 & H6). split_and!; [done|lia|lia|lia|done|exact H6].
Qed.

(** ** Witnesses *)

(** A target two hops away behind a router, and a stale report on the way. *)
Definition sample_header : bytes := 69 :: zreplicate 19 1.
Definition sample_report (seq : Z) : bytes := time_exceeded 0 0 sample_header (build_echo_request 7 seq).
Definition sample_answer (seq : Z) : bytes := sample_header ++ echo_reply 0 0 (build_echo_request 7 seq).
Definition sample_target : bytes := lit "10.0.0.9".
Definition sample_router : bytes := lit "10.0.0.1".
Definition sample_script : list ProbeAnswer :=
  [mkProbeAnswer true true 5 [];
   mkProbeAnswer true true 5 [Received 100 (sample_report 1) sample_router; Received 900 (sample_report 2) sample_router];
   mkProbeAnswer true true 5 [Received 200 [1; 2] sample_router; Received 300 (sample_answer 3) sample_target]].

Example sample_trace :
  run_traceroute sample_target (Ok (ProbeSession.opened 7 sample_script)) 0
  = Ok [mkHopResult 1 (Some sample_router) (Some 905); mkHopResult 2 (Some sample_target) (Some 305)].
Proof. vm_compute. reflexivity. Qed.

Lemma echo_request_checksum_witness : icmp_checksum (build_echo_request 4660 22136) = 0.
Proof. apply echo_request_checksum; width; lia. Defined.

Lemma sample_header_ok : ipv4_header sample_header.
Proof. exists 5, (zreplicate 19 1). split_and!; [done|lia|lia|by vm_compute]. Qed.

Lemma replies_identify_request_witness :
  parse_icmp_reply (sample_answer 3 ++ [0; 0]) = Some (mkParsedIcmpReply EchoReply (Some 7) (Some 3)).
Proof.
  unfold sample_answer. rewrite <- app_assoc.
  apply (replies_identify_request 7 3 sample_header sample_header 0 0 [0; 0]);
    [width; lia|width; lia|right; apply sample_header_ok|apply sample_header_ok].
Defined.

Definition sample_probes : list (bytes * Z * Z) := replicate 3 (sample_target, 1, 1000).

Lemma stale_replies_ignored_witness :
  ∃ at_ datagram, Received at_ datagram sample_router ∈ recv (default no_answer (head (tail sample_script))) ∧ at_ < 1000 ∧
    answers_probe 7 2 (ztake 512 datagram) = true ∧ answers_probe 7 1 (ztake 512 datagram) = false.
Proof.
  destruct (stale_replies_ignored (ProbeSession.opened 7 sample_script) sample_probes 0 1 (sample_target, 1, 1000)
              sample_target 1 1000 sample_router 905 905 (session_after (ProbeSession.opened 7 sample_script) (take 2 sample_probes)))
    as (at_ & d & H1 & H2 & H3 & H4); [width; cbn; lia|by vm_compute|lia|reflexivity|reflexivity|vm_compute; reflexivity|].
  exists at_, d. split_and!; [exact H1|exact H2|exact H3|apply H4; vm_compute; reflexivity].
Defined.

(** A prober that never answers. *)
Definition silent_prober : Prober unit := λ _ _ _ timeout, ((), None, Z.min 1000000000 (Z.max 0 timeout)).

Lemma traceroute_bounded_witness :
  let '(results, (_, probes), finished) :=
    run_traceroute_loop (H := counting (HP := silent_prober)) sample_target PER_HOP_TIMEOUT TOTAL_TRACE_TIMEOUT ((), 0) 0 in
  zlen results = 15 ∧ probes = 45 ∧ finished <= TOTAL_TRACE_TIMEOUT + 1000000000.
Proof.
  pose proof (traceroute_bounded (H := silent_prober) 1000000000 () sample_target PER_HOP_TIMEOUT TOTAL_TRACE_TIMEOUT 0) as Hb.
  set (r := run_traceroute_loop _ _ _ _ _) in *.
  assert (Hr : zlen r.1.1 = 15 ∧ r.1.2.2 = 45) by (by vm_compute). destruct r as [[results [[] probes]] finished].
  destruct Hb as (_ & _ & _ & Hf & _); [unfold probe, silent_prober; cbn; lia|by vm_compute|].
  destruct Hr. split_and!; [done|done|lia].
Defined.
