(* ===== verification/ControlAuth.v ===== *)
(** * Control authentication

    [capture-agent/src/control_auth.rs]: the token of a launch, its publication
    in a private file, the first line a peer must send, and the two budgets of
    connections.  Hexadecimal, HMAC and the JSON of the first line are classes.
    The directory that holds the credential is a map from names to files; what
    each system call answers, and what other processes do to the directory
    before the last check, is the record [Os]. *)

From S2P Require Import Prelude Text DnsNames Paths.

(** [io::Error] by its kind, where the code looks at the kind. *)
Inductive IoError := NotFound | AlreadyExists | OtherIo (code : Z).

Inductive AuthError := Invalid | Io (e : IoError) | TimedOut | GenerationFailed.

(** ** The token *)

(** The [hex] crate. *)
Class HexCrate := {
  hex_encode : bytes → bytes;
  hex_decode_to_slice : bytes → Z → option bytes
}.

Definition lower_hex (b : Z) : bool := is_ascii_digit b || ((97 <=? b) && (b <=? 102)).

Class HexCrateLaws `{HexCrate} : Prop := {
  hex_encode_digits : ∀ b, Forall is_u8 b →
    zlen (hex_encode b) = 2 * zlen b ∧ Forall (λ c, lower_hex c = true) (hex_encode b);
  hex_decode_encode : ∀ b, Forall is_u8 b → hex_decode_to_slice (hex_encode b) (zlen b) = Some b;
  hex_encode_decode : ∀ t n b, Forall (λ c, lower_hex c = true) t → hex_decode_to_slice t n = Some b →
    zlen b = n ∧ Forall is_u8 b ∧ hex_encode b = t
}.

(** HMAC-SHA-256 of [ring]: the tag of a message under a key.  Verification
    compares with the tag the key gives. *)
Class Hmac := hmac_sign : bytes → bytes → bytes.

Definition hmac_verify `{Hmac} (key domain tag : bytes) : bool := bool_decide (hmac_sign key domain = tag).

Definition AUTH_DOMAIN : bytes := lit "network-monitor-agent-auth-v1".

Module AgentToken.
Section token.
Context `{HexCrate} `{Hmac}.

(** What the system's generator filled, if it did. *)
Definition generate (random : option bytes) : result AuthError bytes := ok_or random GenerationFailed.

Definition to_hex (token : bytes) : bytes := hex_encode token.

Definition matches_hex (token text : bytes) : bool :=
  if negb (zlen text =? 64) || negb (forallb lower_hex text) then false
  else
    match hex_decode_to_slice text 32 with
    | None => false
    | Some candidate => hmac_verify candidate AUTH_DOMAIN (hmac_sign token AUTH_DOMAIN)
    end.
End token.
End AgentToken.

(** ** Where the credential goes *)

Record CredentialPath := mkCredentialPath { cp_parent : bytes; cp_name : bytes }.

(** What the file system says of paths. *)
Record PathFs := mkPathFs {
  fs_canonicalize : bytes → result IoError bytes;
  fs_is_symlink : bytes → result IoError bool;
  fs_create_dir : bytes → result IoError unit
}.

Definition credential_path_new (fs : PathFs) (path : bytes) : result AuthError CredentialPath :=
  if negb (is_absolute path) then Err Invalid
  else
    let? dir := ok_or (parent path) Invalid in
    let? name := ok_or (file_name path) Invalid in
    let? above := ok_or (parent dir) Invalid in
    let? ancestor := map_err Io (fs_canonicalize fs above) in
    let? last := ok_or (file_name dir) Invalid in
    let dir := path_push ancestor last in
    let? link := map_err Io (fs_is_symlink fs dir) in
    if link then Err Invalid
    else if bool_decide (0 ∈ name) then Err Invalid
    else Ok (mkCredentialPath dir name).

(** [agent_token_file] and [home]: the environment variables. *)
Definition credential_path_from_env (fs : PathFs) (agent_token_file home : option bytes) : result AuthError CredentialPath :=
  match agent_token_file with
  | Some path => credential_path_new fs path
  | None =>
      let? home := ok_or home Invalid in
      if negb (is_absolute home) then Err Invalid
      else
        let dir := path_push home (lit ".network-monitor") in
        let? _ := match fs_create_dir fs dir with
                  | Ok _ | Err AlreadyExists => Ok ()
                  | Err e => Err (Io e)
                  end in
        credential_path_new fs (path_push dir (lit "agent-control-token"))
  end.

(** ** Publication *)

Record Stat := mkStat { st_dev : Z; st_ino : Z; st_uid : Z; st_mode : Z; st_nlink : Z }.

Definition S_IFMT : Z := 61440.
Definition S_IFDIR : Z := 16384.
Definition S_IFREG : Z := 32768.

Definition safe_stat (euid : Z) (stat : Stat) (dir : bool) : bool :=
  let mode := if dir then S_IFDIR else S_IFREG in
  (st_uid stat =? euid) && (Z.land (st_mode stat) S_IFMT =? mode)
    && (Z.land (st_mode stat) 4095 =? (if dir then 448 else 384)) && (dir || (st_nlink stat =? 1)).

Record Node := mkNode { n_stat : Stat; n_data : bytes }.
#[global] Instance eta_Node : RecordEta Node := λ n, mkNode (n_stat n) (n_data n).
#[global] Instance eta_Stat : RecordEta Stat := λ s, mkStat (st_dev s) (st_ino s) (st_uid s) (st_mode s) (st_nlink s).

(** The open directory. *)
Abbreviation Dir := (gmap bytes Node).

(** What the system answers to each call, in order; [None] is success.  A
    failing write says how much it wrote. *)
Record Os := mkOs {
  os_euid : Z;
  os_open : option IoError;
  os_fstat : result IoError Stat;
  os_stat : option Z;
  os_nonce : option bytes;
  os_openat : option IoError;
  os_identity : Z * Z;
  os_umask : Z;
  os_fchmod : option IoError;
  os_write_text : option (Z * IoError);
  os_write_newline : option (Z * IoError);
  os_sync : option IoError;
  os_stat_temp : option Z;
  os_meddle : Dir → Dir;
  os_restat : option Z;
  os_renameat : option IoError;
  os_unlink_ok : bool
}.

(** A failure other than the entry's absence has its code. *)
Definition stat_at (d : Dir) (fault : option Z) (name : bytes) : result IoError Stat :=
  match fault with
  | Some code => Err (OtherIo code)
  | None => match d !! name with Some n => Ok (n_stat n) | None => Err NotFound end
  end.

Definition check_destination (euid : Z) (s : result IoError Stat) : result AuthError unit :=
  match s with
  | Ok s => if safe_stat euid s false then Ok () else Err Invalid
  | Err NotFound => Ok ()
  | Err e => Err (Io e)
  end.

(** [openat] with [O_CREAT | O_EXCL] and mode 0600. *)
Definition create_temp (os : Os) (d : Dir) (temp : bytes) : result AuthError Dir :=
  match os_openat os with
  | Some e => Err (Io e)
  | None =>
      match d !! temp with
      | Some _ => Err (Io AlreadyExists)
      | None =>
          let '(dev, ino) := os_identity os in
          let mode := Z.lor S_IFREG (Z.ldiff 384 (os_umask os)) in
          Ok (<[temp := mkNode (mkStat dev ino (os_euid os) mode 1) []]> d)
      end
  end.

(** [write_all] on the open file: a failure leaves a prefix. *)
Definition write_all (d : Dir) (temp : bytes) (fault : option (Z * IoError)) (data : bytes) : Dir * result AuthError unit :=
  match fault with
  | None => (alter (λ n, n <| n_data ::= λ old, old ++ data |>) temp d, Ok ())
  | Some (k, e) => (alter (λ n, n <| n_data ::= λ old, old ++ ztake k data |>) temp d, Err (Io e))
  end.

(** [renameat]: the entry takes the new name, whatever held it. *)
Definition rename (d : Dir) (temp name : bytes) : Dir :=
  match d !! temp with Some n => <[name := n]> (delete temp d) | None => d end.

Record Published := mkPublished { p_name : bytes; p_identity : Z * Z; p_token : bytes }.

Section publish.
Context `{HexCrate}.

Definition temp_name (nonce : bytes) : bytes := lit ".agent-token-" ++ hex_encode nonce.

(** The closure of [publish], from the open file to the rename. *)
Definition fill_and_rename (os : Os) (d : Dir) (name temp token : bytes) : Dir * result AuthError (Z * Z) :=
  match os_fchmod os with
  | Some e => (d, Err (Io e))
  | None =>
      let d := alter (λ n, n <| n_stat ::= λ s, s <| st_mode := Z.lor S_IFREG 384 |> |>) temp d in
      let '(d, r) := write_all d temp (os_write_text os) (AgentToken.to_hex token) in
      match r with
      | Err e => (d, Err e)
      | Ok _ =>
          let '(d, r) := write_all d temp (os_write_newline os) [10] in
          match r, os_sync os, stat_at d (os_stat_temp os) temp with
          | Err e, _, _ => (d, Err e)
          | Ok _, Some e, _ => (d, Err (Io e))
          | Ok _, None, Err e => (d, Err (Io e))
          | Ok _, None, Ok s =>
              let d := os_meddle os d in
              match check_destination (os_euid os) (stat_at d (os_restat os) name) with
              | Err e => (d, Err e)
              | Ok _ =>
                  match os_renameat os with
                  | Some e => (d, Err (Io e))
                  | None => (rename d temp name, Ok (st_dev s, st_ino s))
                  end
              end
          end
      end
  end.

Definition publish (os : Os) (d : Dir) (name token : bytes) : Dir * result AuthError Published :=
  match os_open os, os_fstat os with
  | Some e, _ => (d, Err (Io e))
  | None, Err e => (d, Err (Io e))
  | None, Ok s =>
      if negb (safe_stat (os_euid os) s true) then (d, Err Invalid)
      else
        match check_destination (os_euid os) (stat_at d (os_stat os) name) with
        | Err e => (d, Err e)
        | Ok _ =>
            match os_nonce os with
            | None => (d, Err GenerationFailed)
            | Some nonce =>
                let temp := temp_name nonce in
                match create_temp os d temp with
                | Err e => (d, Err e)
                | Ok d =>
                    match fill_and_rename os d name temp token with
                    | (d, Ok ident) => (d, Ok (mkPublished name ident token))
                    | (d, Err e) => (if os_unlink_ok os then delete temp d else d, Err e)
                    end
                end
            end
        end
  end.
End publish.

(** [Drop]: the entry goes only while it is still the file that was published. *)
Definition drop_credential (d : Dir) (p : Published) (stat_fault : option Z) (unlink_ok : bool) : Dir :=
  match stat_at d stat_fault (p_name p) with
  | Ok s =>
      if bool_decide ((st_dev s, st_ino s) = p_identity p) && unlink_ok then delete (p_name p) d else d
  | Err _ => d
  end.

(** ** The first line *)

Definition AUTH_LINE_LIMIT : Z := 256.

(** A read of the peer's socket: bytes, an error, or the end of the stream. *)
Inductive ReadEvent := Data (chunk : bytes) | Failed (e : IoError) | Closed.

(** [tokio::io::BufReader]: what was read and not consumed, and the reads to
    come.  When no read is left the peer is silent until the deadline. *)
Record BufReader := mkBufReader { br_buffer : bytes; br_incoming : list ReadEvent }.

(** One turn of the loop on what [fill_buf] gave: the line so far, what stays
    in the buffer, and whether the line is complete. *)
Definition take_available (line available : bytes) : result AuthError (bytes * bytes * bool) :=
  let newline := position 10 available in
  let take := match newline with Some n => n + 1 | None => zlen available end in
  if AUTH_LINE_LIMIT <? zlen line + take then Err Invalid
  else Ok (line ++ ztake take available, zdrop take available, bool_decide (is_Some newline)).

(** The loop, with an empty buffer. *)
Fixpoint read_line (incoming : list ReadEvent) (line : bytes) : BufReader * result AuthError bytes :=
  match incoming with
  | [] => (mkBufReader [] [], Err TimedOut)
  | Failed e :: incoming' => (mkBufReader [] incoming', Err (Io e))
  | Closed :: _ | Data [] :: _ => (mkBufReader [] incoming, Err Invalid)
  | Data available :: incoming' =>
      match take_available line available with
      | Err e => (mkBufReader available incoming', Err e)
      | Ok (line, kept, true) => (mkBufReader kept incoming', Ok line)
      | Ok (line, _, false) => read_line incoming' line
      end
  end.

(** The loop from the start: bytes already buffered are looked at first. *)
Definition read_auth_line (r : BufReader) : BufReader * result AuthError bytes :=
  match br_buffer r with
  | [] => read_line (br_incoming r) []
  | available =>
      match take_available [] available with
      | Err e => (r, Err e)
      | Ok (line, kept, true) => (mkBufReader kept (br_incoming r), Ok line)
      | Ok (line, _, false) => read_line (br_incoming r) line
      end
  end.

(** [serde_json::from_slice::<AuthenticateMessage>]: the token it carries. *)
Class AuthJson := parse_authenticate : bytes → option bytes.

Section verify.
Context `{HexCrate} `{Hmac} `{AuthJson}.

Definition check_line (token line : bytes) : result AuthError unit :=
  match parse_authenticate line with
  | None => Err Invalid
  | Some candidate => if AgentToken.matches_hex token candidate then Ok () else Err Invalid
  end.

Definition verify_peer (token : bytes) (r : BufReader) : BufReader * result AuthError unit :=
  let '(r, line) := read_auth_line r in
  (r, let? line := line in check_line token line).
End verify.

(** What the peer's socket did with the acknowledgement; [sent] bytes went out
    before a failure or the deadline. *)
Inductive WriteOutcome := Written | WriteFailed (sent : Z) (e : IoError) | WriteDeadline (sent : Z).

Definition ACK : bytes := lit "{" ++ [34] ++ lit "type" ++ [34] ++ lit ":" ++ [34] ++ lit "authenticated" ++ [34] ++ lit "}" ++ [10].

(** The bytes sent, and the result. *)
Definition write_ack (o : WriteOutcome) : bytes * result AuthError unit :=
  match o with
  | Written => (ACK, Ok ())
  | WriteFailed sent e => (ztake sent ACK, Err (Io e))
  | WriteDeadline sent => (ztake sent ACK, Err TimedOut)
  end.

(** ** Connection budgets *)

Module Admission.
Record t := mk { pending : Z; authenticated : Z }.
#[global] Instance eta : RecordEta t := λ a, mk (pending a) (authenticated a).

(** The permits left in the two semaphores. *)
Definition new : t := mk 16 64.

Definition try_pending (a : t) : result AuthError t :=
  if 0 <? pending a then Ok (a <| pending ::= Z.pred |>) else Err Invalid.
Definition try_authenticated (a : t) : result AuthError t :=
  if 0 <? authenticated a then Ok (a <| authenticated ::= Z.pred |>) else Err Invalid.

(** Dropping an [OwnedSemaphorePermit]. *)
Definition release_pending (a : t) : t := a <| pending ::= Z.succ |>.
Definition release_authenticated (a : t) : t := a <| authenticated ::= Z.succ |>.
End Admission.

(** ** Theorems *)

(** The bytes a reader has still to give. *)
Definition event_bytes (e : ReadEvent) : bytes := match e with Data c => c | _ => [] end.
Definition unread (r : BufReader) : bytes := br_buffer r ++ concat (event_bytes <$> br_incoming r).

Section tokens.
Context `{HexCrateLaws} `{Hmac}.

(** No other key of 32 bytes gives the token's tag. *)
Definition tag_binds (token : bytes) : Prop := ∀ k, zlen k = 32 → Forall is_u8 k →
  hmac_sign k AUTH_DOMAIN = hmac_sign token AUTH_DOMAIN → k = token.

Lemma matches_hex_own token : zlen token = 32 → Forall is_u8 token →
  AgentToken.matches_hex token (AgentToken.to_hex token) = true.
Proof.
  intros Hlen Hu. unfold AgentToken.matches_hex, AgentToken.to_hex.
  destruct (hex_encode_digits token Hu) as [Hl Hd].
  rewrite Hl, Hlen. assert (forallb lower_hex (hex_encode token) = true) as ->.
  { apply forallb_forall. intros c Hc%list_elem_of_In. by eapply Forall_forall in Hd. }
  change (2 * 32 =? 64) with true. cbn [negb orb]. rewrite <- Hlen, hex_decode_encode by done.
  by apply bool_decide_eq_true.
Qed.

Lemma matches_hex_only token text : tag_binds token →
  AgentToken.matches_hex token text = true → text = AgentToken.to_hex token.
Proof.
  intros Hbind. unfold AgentToken.matches_hex, AgentToken.to_hex, hmac_verify.
  destruct (Z.eqb_spec (zlen text) 64) as [Hlen|]; [|done].
  destruct (forallb lower_hex text) eqn:Hd; [|done]. cbn [negb orb].
  destruct (hex_decode_to_slice text 32) as [k|] eqn:Hk; [|done].
  intros Htag%bool_decide_eq_true.
  assert (Forall (λ c, lower_hex c = true) text) as Ht.
  { apply Forall_forall. intros c Hc%list_elem_of_In. by eapply forallb_forall in Hd. }
  destruct (hex_encode_decode _ _ _ Ht Hk) as (Hlk & Hu & <-). by rewrite (Hbind k).
Qed.
End tokens.

(** ** Reading the line *)

Lemma ztake_snoc_line (l rest : bytes) : ztake (zlen l + 1) (l ++ 10 :: rest) = l ++ [10].
Proof.
  unfold ztake. replace (Z.to_nat (zlen l + 1)) with (length l + 1)%nat by lia.
  by rewrite take_app_add'.
Qed.

Lemma zdrop_snoc_line (l rest : bytes) : zdrop (zlen l + 1) (l ++ 10 :: rest) = rest.
Proof.
  unfold zdrop. replace (Z.to_nat (zlen l + 1)) with (length l + 1)%nat by lia.
  by rewrite drop_app_add'.
Qed.

Lemma position_line l rest : 10 ∉ l → position 10 (l ++ 10 :: rest) = Some (zlen l).
Proof.
  induction l as [|x l IH]; intros Hl; [done|]. rewrite not_elem_of_cons in Hl. destruct Hl as [Hx Hl].
  cbn [app position]. destruct (Z.eqb_spec x 10); [congruence|]. rewrite IH by done. simpl. f_equal. lia.
Qed.

(** A chunk without a newline is taken whole; one with it ends the line. *)
Lemma take_available_part line c : 10 ∉ c →
  take_available line c = if AUTH_LINE_LIMIT <? zlen line + zlen c then Err Invalid else Ok (line ++ c, [], false).
Proof.
  intros Hc. unfold take_available. apply position_None in Hc. rewrite Hc. case_zb; [done|].
  unfold ztake, zdrop. rewrite Nat2Z.id, take_ge, drop_ge by done. done.
Qed.

Lemma take_available_line line c rest : 10 ∉ c →
  take_available line (c ++ 10 :: rest)
    = if AUTH_LINE_LIMIT <? zlen line + (zlen c + 1) then Err Invalid else Ok (line ++ c ++ [10], rest, true).
Proof.
  intros Hc. unfold take_available. rewrite position_line by done. case_zb; [done|].
  by rewrite ztake_snoc_line, zdrop_snoc_line.
Qed.

(** What a read chunk is to the line. *)
Lemma chunk_cases (c : bytes) : 10 ∉ c ∨ ∃ l rest, c = l ++ 10 :: rest ∧ 10 ∉ l.
Proof.
  destruct (decide (10 ∈ c)) as [Hc|]; [right|by left].
  apply list_elem_of_split_l in Hc as (l & rest & -> & Hl). eauto.
Qed.

Lemma read_line_cons c events line : c ≠ [] →
  read_line (Data c :: events) line =
    match take_available line c with
    | Err e => (mkBufReader c events, Err e)
    | Ok (line, kept, true) => (mkBufReader kept events, Ok line)
    | Ok (line, _, false) => read_line events line
    end.
Proof. by destruct c. Qed.

(** A line that was read is the beginning of what the peer sent, within the
    limit, and nothing after it was consumed. *)
Lemma read_line_sound events line r l : read_line events line = (r, Ok l) →
  ∃ w, l = line ++ w ++ [10] ∧ (10 ∉ w) ∧ zlen l <= AUTH_LINE_LIMIT
    ∧ concat (event_bytes <$> events) = w ++ 10 :: unread r.
Proof.
  revert line. induction events as [|[c|e|] events IH]; intros line; [done| |done..].
  destruct (decide (c = [])) as [->|Hc]; [done|]. rewrite read_line_cons by done.
  destruct (chunk_cases c) as [Hn|(w & rest & -> & Hn)].
  - rewrite take_available_part by done. case_zb; [done|]. intros Hr.
    destruct (IH _ Hr) as (w & -> & Hw & Hlen & Hcat). exists (c ++ w). rewrite not_elem_of_app, fmap_cons.
    split; [by rewrite !(assoc_L (++))|]. split_and!; [done..|rewrite !length_app in *; lia|].
    cbn [concat event_bytes]. by rewrite Hcat, (assoc_L (++)).
  - rewrite take_available_line by done. case_zb; [done|]. intros [= <- <-]. exists w.
    rewrite fmap_cons. split_and!; [done..| |].
    + rewrite !length_app. cbn [length]. lia.
    + cbn [concat event_bytes unread br_buffer br_incoming]. by rewrite <- (assoc_L (++)).
Qed.

(** However the bytes are cut, the first line is read, or refused for its
    length. *)
Lemma read_line_chunks chunks tail line w rest :
  Forall (λ c, c ≠ []) chunks → concat chunks = w ++ 10 :: rest → 10 ∉ w →
  if AUTH_LINE_LIMIT <? zlen line + (zlen w + 1)
  then (read_line ((Data <$> chunks) ++ tail) line).2 = Err Invalid
  else ∃ r, read_line ((Data <$> chunks) ++ tail) line = (r, Ok (line ++ w ++ [10]))
         ∧ unread r = rest ++ concat (event_bytes <$> tail).
Proof.
  intros Hne. revert line w. induction Hne as [|c chunks Hc _ IH]; intros line w Hcat Hw; [by destruct w|].
  rewrite fmap_cons. change ((Data c :: (Data <$> chunks)) ++ tail) with (Data c :: ((Data <$> chunks) ++ tail)).
  rewrite read_line_cons by done. cbn [concat] in Hcat.
  destruct (chunk_cases c) as [Hn|(l & k & -> & Hn)].
  - assert (∃ w', w = c ++ w' ∧ concat chunks = w' ++ 10 :: rest) as (w' & -> & Hcat').
    { apply app_eq_inv in Hcat as [(k & -> & Hk)|(k & -> & Hk)]; [|by exists k].
      destruct k as [|x k]; [exists []; rewrite !app_nil_r; split; [done|by symmetry]|]. simplify_list_eq.
      exfalso. apply Hn. set_solver. }
    rewrite take_available_part, length_app by done. apply not_elem_of_app in Hw as [_ Hw].
    specialize (IH (line ++ c) w' Hcat' Hw). rewrite length_app in IH.
    repeat case_zb; try lia; [done|done|].
    destruct IH as (r & -> & Hr). exists r. split; [|done]. by rewrite !(assoc_L (++)).
  - assert (l = w ∧ k ++ concat chunks = rest) as [-> <-].
    { rewrite <- (assoc_L (++)) in Hcat. cbn [app] in Hcat.
      pose proof (position_line l (k ++ concat chunks) Hn) as P1. rewrite Hcat, (position_line w) in P1 by done.
      injection P1 as P1. apply app_inj_1 in Hcat as [-> Hcat]; [by simplify_eq|lia]. }
    rewrite take_available_line by done. case_zb; [done|]. eexists. split; [done|].
    unfold unread. cbn [br_buffer br_incoming]. rewrite fmap_app, concat_app, (assoc_L (++)). do 2 f_equal.
    rewrite <- list_fmap_compose. change (event_bytes ∘ Data) with (@id bytes). by rewrite list_fmap_id.
Qed.

(** Without a newline the line is refused once it is too long. *)
Lemma read_line_overlong chunks tail line :
  Forall (λ c, c ≠ []) chunks → 10 ∉ concat chunks → zlen line <= AUTH_LINE_LIMIT →
  AUTH_LINE_LIMIT < zlen line + zlen (concat chunks) →
  (read_line ((Data <$> chunks) ++ tail) line).2 = Err Invalid.
Proof.
  intros Hne. revert line. induction Hne as [|c chunks Hc _ IH]; intros line Hn Hl Hlen.
  { cbn [concat length] in Hlen. lia. }
  rewrite fmap_cons. change ((Data c :: (Data <$> chunks)) ++ tail) with (Data c :: ((Data <$> chunks) ++ tail)).
  rewrite read_line_cons by done. cbn [concat] in Hn, Hlen. apply not_elem_of_app in Hn as [Hn Hn'].
  rewrite take_available_part, length_app in * by done. case_zb; [done|].
  apply IH; [done|by rewrite length_app; lia|rewrite length_app in *; lia].
Qed.

(** ** The published file *)

Section published.
Context `{HexCrate}.

Definition token_node (os : Os) (token : bytes) : Node :=
  mkNode (mkStat (os_identity os).1 (os_identity os).2 (os_euid os) (Z.lor S_IFREG 384) 1) (AgentToken.to_hex token ++ [10]).

(** The directory when the destination is checked for the last time. *)
Definition at_recheck (os : Os) (d : Dir) (temp token : bytes) : Dir := os_meddle os (<[temp := token_node os token]> d).

Lemma token_node_safe os token : safe_stat (os_euid os) (n_stat (token_node os token)) false = true.
Proof. unfold safe_stat. cbn. by rewrite Z.eqb_refl. Qed.

Lemma check_destination_ok euid d code name : check_destination euid (stat_at d code name) = Ok () →
  ∀ n, d !! name = Some n → safe_stat euid (n_stat n) false = true.
Proof.
  unfold check_destination, stat_at. intros Hc n Hn. destruct code; [done|]. rewrite Hn in Hc.
  by destruct (safe_stat _ _ _).
Qed.

Lemma alter_insert_temp (f : Node → Node) (d : Dir) temp n : alter f temp (<[temp := n]> d) = <[temp := f n]> d.
Proof. by rewrite alter_insert_eq. Qed.

(** What writing the temporary file and renaming it does. *)
Lemma fill_and_rename_cases os d name temp token umask_mode :
  let created := mkNode (mkStat (os_identity os).1 (os_identity os).2 (os_euid os) umask_mode 1) [] in
  let d0 := at_recheck os d temp token in
  match fill_and_rename os (<[temp := created]> d) name temp token with
  | (d', Ok i) => d' = rename d0 temp name ∧ i = ((os_identity os).1, (os_identity os).2)
                  ∧ ∀ n, d0 !! name = Some n → safe_stat (os_euid os) (n_stat n) false = true
  | (d', Err _) => (∃ n, d' = <[temp := n]> d) ∨ d' = d0
  end.
Proof.
  cbn zeta. unfold fill_and_rename, at_recheck. destruct (os_fchmod os); [by eauto|].
  rewrite alter_insert_temp. unfold write_all.
  destruct (os_write_text os) as [[k e]|]; rewrite alter_insert_temp; [by eauto|].
  destruct (os_write_newline os) as [[k e]|]; rewrite alter_insert_temp; [by eauto|].
  destruct (os_sync os); [by eauto|]. unfold stat_at at 1. destruct (os_stat_temp os); [by eauto|].
  rewrite lookup_insert_eq.
  destruct (check_destination _ _) as [[]|e] eqn:Hc; [|by right].
  destruct (os_renameat os); [by right|]. split_and!; [done..|]. by eapply check_destination_ok.
Qed.

Lemma create_temp_ok os d temp d' : create_temp os d temp = Ok d' →
  d !! temp = None ∧ ∃ mode, d' = <[temp := mkNode (mkStat (os_identity os).1 (os_identity os).2 (os_euid os) mode 1) []]> d.
Proof.
  unfold create_temp. destruct (os_openat os); [done|]. destruct (d !! temp); [done|].
  destruct (os_identity os). intros [= <-]. split; [done|by eexists].
Qed.

(** A failed publication left the directory alone, or what others made of it
    once the temporary file is gone. *)
Lemma publish_err os d name token d' e : publish os d name token = (d', Err e) → os_unlink_ok os = true →
  d' = d ∨ ∃ nonce, os_nonce os = Some nonce ∧ d' = delete (temp_name nonce) (at_recheck os d (temp_name nonce) token).
Proof.
  unfold publish. destruct (os_open os); [intros; simplify_eq; by left|].
  destruct (os_fstat os); [|intros; simplify_eq; by left].
  destruct (safe_stat _ _ _); [|intros; simplify_eq/=; by left]. cbn [negb].
  destruct (check_destination _ _); [|intros; simplify_eq; by left].
  destruct (os_nonce os) as [nonce|]; [|intros; simplify_eq; by left].
  destruct (create_temp _ _ _) as [d1|] eqn:Hd; [|intros; simplify_eq; by left].
  apply create_temp_ok in Hd as (Hnone & mode & ->).
  pose proof (fill_and_rename_cases os d name (temp_name nonce) token mode) as Hf. cbn zeta in Hf.
  destruct (fill_and_rename _ _ _ _ _) as [d2 [i|e2]]; intros Heq Hu; simplify_eq. rewrite Hu.
  destruct Hf as [[n ->]| ->]; [left|right; by eauto]. by rewrite delete_insert_id.
Qed.

Lemma publish_ok os d name token d' p : publish os d name token = (d', Ok p) →
  (∃ s, os_fstat os = Ok s ∧ safe_stat (os_euid os) s true = true) ∧
  ∃ nonce, os_nonce os = Some nonce ∧ d !! temp_name nonce = None ∧
    let d0 := at_recheck os d (temp_name nonce) token in
    d' = rename d0 (temp_name nonce) name ∧ p = mkPublished name ((os_identity os).1, (os_identity os).2) token
    ∧ ∀ n, d0 !! name = Some n → safe_stat (os_euid os) (n_stat n) false = true.
Proof.
  unfold publish. destruct (os_open os); [done|]. destruct (os_fstat os) as [s|]; [|done].
  destruct (safe_stat _ _ _) eqn:Hs; [|done]. cbn [negb]. intros Hp. split; [by eauto|]. revert Hp.
  destruct (check_destination _ _); [|done]. destruct (os_nonce os) as [nonce|]; [|done].
  destruct (create_temp _ _ _) as [d1|] eqn:Hd; [|done]. apply create_temp_ok in Hd as (Hnone & mode & ->).
  pose proof (fill_and_rename_cases os d name (temp_name nonce) token mode) as Hf. cbn zeta in Hf.
  destruct (fill_and_rename _ _ _ _ _) as [d2 [i|e2]]; intros Heq; simplify_eq.
  destruct Hf as (-> & -> & Hsafe). exists nonce. split_and!; done.
Qed.
End published.

(** ** What authentication guarantees *)

Section guarantees.
Context `{HexCrateLaws} `{Hmac} `{AuthJson}.

Lemma check_line_ok token line : tag_binds token → check_line token line = Ok () →
  parse_authenticate line = Some (AgentToken.to_hex token).
Proof.
  unfold check_line. intros Hb. destruct (parse_authenticate line) as [c|]; [|done].
  destruct (AgentToken.matches_hex token c) eqn:Hm; [|done]. intros _. f_equal. by apply matches_hex_only.
Qed.

Lemma check_line_exact token line : zlen token = 32 → Forall is_u8 token → tag_binds token →
  check_line token line
    = if bool_decide (parse_authenticate line = Some (AgentToken.to_hex token)) then Ok () else Err Invalid.
Proof.
  intros Hl Hu Hb. unfold check_line. destruct (parse_authenticate line) as [c|]; [|done].
  destruct (AgentToken.matches_hex token c) eqn:Hm.
  - apply matches_hex_only in Hm as ->; [|done]. by rewrite bool_decide_true.
  - rewrite bool_decide_false; [done|]. intros [= ->]. by rewrite matches_hex_own in Hm.
Qed.

(** Whatever a connection does (bytes in any pieces, errors, an early end), it
    passes [verify_peer] only if the first thing it sent is one line of at most
    256 bytes that parses to a message with exactly the published token; every
    byte after that line is still there to be read. *)
Definition presents_token (token : bytes) (events : list ReadEvent) : Prop :=
  ∃ line rest, (10 ∉ line) ∧ zlen line < AUTH_LINE_LIMIT ∧
    parse_authenticate (line ++ [10]) = Some (AgentToken.to_hex token) ∧
    concat (event_bytes <$> events) = line ++ 10 :: rest.

Lemma verify_peer_presents token events r : tag_binds token →
  verify_peer token (mkBufReader [] events) = (r, Ok ()) → presents_token token events.
Proof.
  unfold verify_peer, read_auth_line. cbn [br_buffer br_incoming]. intros Hb.
  destruct (read_line events []) as [r' [l|]] eqn:Hr; [|done]. intros [= -> Hc].
  destruct (read_line_sound _ _ _ _ Hr) as (w & -> & Hw & Hlen & Hcat). cbn [app result_bind] in *.
  exists w, (unread r). rewrite length_app in Hlen. cbn [length] in Hlen. split_and!; [done|lia| |done].
  by apply check_line_ok.
Qed.

(** C26: For a peer that sends bytes, the outcome does not depend on how the
    bytes are cut into reads: it is acceptance when the first line, newline
    included, has at most 256 bytes and carries the token, and refusal
    otherwise; on a line within the limit exactly the rest stays unread.  A peer
    that sends more than 256 bytes and no newline is refused. *)
Theorem verify_peer_exact token chunks tail line rest :
  zlen token = 32 → Forall is_u8 token → tag_binds token → Forall (λ c, c ≠ []) chunks → 10 ∉ line →
  (concat chunks = line ++ 10 :: rest →
   ∃ r, verify_peer token (mkBufReader [] ((Data <$> chunks) ++ tail))
          = (r, if (zlen line <? AUTH_LINE_LIMIT)
                   && bool_decide (parse_authenticate (line ++ [10]) = Some (AgentToken.to_hex token))
                then Ok () else Err Invalid)
        ∧ (zlen line < AUTH_LINE_LIMIT → unread r = rest ++ concat (event_bytes <$> tail))) ∧
  (concat chunks = line → AUTH_LINE_LIMIT < zlen line →
   (verify_peer token (mkBufReader [] ((Data <$> chunks) ++ tail))).2 = Err Invalid).
Proof.
  intros Hl Hu Hb Hne Hn. unfold verify_peer, read_auth_line. cbn [br_buffer br_incoming]. split.
  - intros Hcat. pose proof (read_line_chunks chunks tail [] line rest Hne Hcat Hn) as Hr. cbn [length app] in Hr.
    destruct (Z.ltb_spec (zlen line) AUTH_LINE_LIMIT); case_zb; try lia.
    + destruct Hr as (r & -> & Hr). exists r. cbn [result_bind andb]. by rewrite check_line_exact.
    + destruct (read_line _ _) as [r res]. cbn [snd] in Hr. subst res. exists r. split; [done|lia].
  - intros Hcat Hlen. subst line. pose proof (read_line_overlong chunks tail [] Hne Hn) as Hr.
    destruct (read_line _ _) as [r res]. cbn [snd] in *. rewrite Hr; [done|unfold AUTH_LINE_LIMIT in *; cbn [length]; lia..].
Qed.
End guarantees.

(** C25: When publication succeeds, the credential's name holds a regular file
    with the token's hexadecimal form and a newline, owned by the agent's user,
    mode 0600, with one link; the temporary name is gone; what the name held
    before was absent or itself such a private file, never a link or another
    user's file; every other entry is untouched; and dropping the credential
    removes exactly that file. *)
Theorem credential_published `{HexCrate} os d name token d' p :
  publish os d name token = (d', Ok p) →
  (∀ nonce x, os_nonce os = Some nonce → os_meddle os x !! temp_name nonce = x !! temp_name nonce) →
  ∃ nonce st, let temp := temp_name nonce in
    let node := mkNode st (AgentToken.to_hex token ++ [10]) in
    let d0 := os_meddle os (<[temp := node]> d) in
    safe_stat (os_euid os) st false = true ∧
    (∀ n, d0 !! name = Some n → safe_stat (os_euid os) (n_stat n) false = true) ∧
    d' = <[name := node]> (delete temp d0) ∧
    drop_credential d' p None true = delete name (delete temp d0).
Proof.
  intros Hp Hm. destruct (publish_ok _ _ _ _ _ _ Hp) as (_ & nonce & Hn & Hnone & -> & -> & Hsafe).
  exists nonce, (n_stat (token_node os token)). cbn zeta. fold (token_node os token).
  assert (rename (at_recheck os d (temp_name nonce) token) (temp_name nonce) name
          = <[name := token_node os token]> (delete (temp_name nonce) (at_recheck os d (temp_name nonce) token))) as ->.
  { unfold rename. unfold at_recheck at 1. by rewrite Hm, lookup_insert_eq. }
  split_and!; [apply token_node_safe|exact Hsafe|done|].
  unfold drop_credential, stat_at. cbn [p_name p_identity]. rewrite lookup_insert_eq.
  rewrite bool_decide_true by done. cbn [andb]. by rewrite delete_insert_eq.
Qed.

(** When publication fails, and the removal of the temporary file works,
    the directory is what it was, or what other processes made of it without the
    temporary file: the credential's name is never replaced or removed. *)
Theorem credential_failure `{HexCrate} os d name token d' e :
  publish os d name token = (d', Err e) → os_unlink_ok os = true →
  d' = d ∨ ∃ nonce, os_nonce os = Some nonce ∧
    d' = delete (temp_name nonce) (os_meddle os (<[temp_name nonce := token_node os token]> d)).
Proof. apply publish_err. Qed.

(** ** Examples *)

Definition nibble (n : Z) : Z := if n <? 10 then 48 + n else 87 + n.
Definition unnibble (c : Z) : option Z :=
  if is_ascii_digit c then Some (c - 48) else if (97 <=? c) && (c <=? 102) then Some (c - 87) else None.
Fixpoint unhex (t : bytes) : option bytes :=
  match t with
  | [] => Some []
  | a :: b :: t' => x ← unnibble a; y ← unnibble b; r ← unhex t'; Some (x * 16 + y :: r)
  | _ => None
  end.

#[local] Instance sample_hex_crate : HexCrate := {
  hex_encode b := b ≫= λ x, [nibble (x / 16); nibble (x mod 16)];
  hex_decode_to_slice t n := r ← unhex t; if zlen r =? n then Some r else None
}.

Ltac case_leb := repeat match goal with |- context [?a <=? ?b] => destruct (Z.leb_spec a b); try lia end.

Lemma unnibble_nibble n : 0 <= n < 16 → unnibble (nibble n) = Some n.
Proof.
  intros Hn. unfold nibble, unnibble, is_ascii_digit.
  destruct (Z.ltb_spec n 10); case_leb; cbn [andb orb]; f_equal; lia.
Qed.

Lemma lower_nibble n : 0 <= n < 16 → lower_hex (nibble n) = true.
Proof.
  intros Hn. unfold nibble, lower_hex, is_ascii_digit. by destruct (Z.ltb_spec n 10); case_leb.
Qed.

Lemma u8_nibbles x : is_u8 x → 0 <= x / 16 < 16 ∧ 0 <= x mod 16 < 16.
Proof.
  unfold is_u8. intros Hx. split; [|apply Z.mod_pos_bound; lia].
  split; [apply Z.div_pos; lia|apply Z.div_lt_upper_bound; lia].
Qed.

Lemma nibble_unnibble c n : unnibble c = Some n → 0 <= n < 16 ∧ nibble n = c.
Proof.
  unfold nibble, unnibble, is_ascii_digit.
  case_leb; cbn [andb]; intros [= <-]; repeat case_zb; lia.
Qed.

Lemma unhex_encode b : Forall is_u8 b → unhex (hex_encode b) = Some b.
Proof.
  induction 1 as [|x b Hx _ IH]; [done|]. change (hex_encode (x :: b)) with (nibble (x / 16) :: nibble (x mod 16) :: hex_encode b).
  destruct (u8_nibbles x Hx). cbn [unhex]. rewrite !unnibble_nibble, IH by done. simpl. do 2 f_equal.
  pose proof (Z.div_mod x 16). lia.
Qed.

Lemma unhex_spec b t : unhex t = Some b → Forall is_u8 b ∧ hex_encode b = t.
Proof.
  revert t. induction b as [|x b IH]; intros t.
  - destruct t as [|c [|c' t]]; cbn [unhex]; [done..|].
    destruct (unnibble c), (unnibble c'); cbn; try done. by destruct (unhex t).
  - destruct t as [|c [|c' t]]; cbn [unhex]; [done..|].
    destruct (unnibble c) as [h|] eqn:H1; [|done]. destruct (unnibble c') as [l|] eqn:H2; [|done]. cbn.
    destruct (unhex t) as [r|] eqn:H3; [|done]. cbn. intros [= <- <-].
    destruct (IH _ H3) as [Hu <-]. apply nibble_unnibble in H1 as [Hh <-]. apply nibble_unnibble in H2 as [Hl <-].
    split; [constructor; [unfold is_u8; lia|done]|].
    change (hex_encode ((h * 16 + l) :: r)) with (nibble ((h * 16 + l) / 16) :: nibble ((h * 16 + l) mod 16) :: hex_encode r).
    rewrite Z.div_add_l, Z.div_small, Z.add_0_r, (Z.add_comm (h * 16)), Z_mod_plus_full, Z.mod_small by lia. done.
Qed.

#[local] Instance sample_hex_laws : HexCrateLaws.
Proof.
  constructor.
  - intros b. induction 1 as [|x b Hx _ [IH1 IH2]]; [split; [done|constructor]|].
    change (hex_encode (x :: b)) with (nibble (x / 16) :: nibble (x mod 16) :: hex_encode b).
    destruct (u8_nibbles x Hx). split; [cbn [length]; lia|]. by repeat (constructor; [by apply lower_nibble|]).
  - intros b Hb. cbn [hex_decode_to_slice sample_hex_crate]. rewrite unhex_encode by done. cbn. by rewrite Z.eqb_refl.
  - intros t n b _. cbn [hex_decode_to_slice sample_hex_crate]. destruct (unhex t) as [r|] eqn:Hr; [|done]. cbn.
    destruct (Z.eqb_spec (zlen r) n) as [<-|]; [|done]. intros [= <-]. split; [done|]. by apply unhex_spec.
Qed.

#[local] Instance sample_hmac : Hmac := λ key domain, key ++ domain.

Definition quoted (s : string) : bytes := [34] ++ lit s ++ [34].
Definition sample_prefix : bytes :=
  lit "{" ++ quoted "type" ++ lit ":" ++ quoted "authenticate" ++ lit "," ++ quoted "token" ++ lit ":" ++ [34].

(** Messages in the one spelling the relay uses. *)
#[local] Instance sample_auth_json : AuthJson := λ line,
  rest ← strip_prefix sample_prefix line;
  if bool_decide (zdrop 64 rest = [34] ++ lit "}" ++ [10]) then Some (ztake 64 rest) else None.

Definition sample_token : bytes := zreplicate 32 171.
Definition sample_line : bytes := sample_prefix ++ AgentToken.to_hex sample_token ++ [34] ++ lit "}".
Definition sample_chunks : list bytes := [ztake 10 sample_line; zdrop 10 sample_line ++ [10] ++ lit "{"; lit "}"].

Lemma sample_token_u8 : Forall is_u8 sample_token.
Proof. apply Forall_replicate. unfold is_u8. lia. Qed.

Lemma sample_tag_binds token : tag_binds token.
Proof. intros k _ _ Hk. by apply app_inv_tail in Hk. Qed.

Lemma verify_peer_exact_witness :
  (verify_peer sample_token (mkBufReader [] ((Data <$> sample_chunks) ++ [Closed]))).2 = Ok ()
  ∧ (verify_peer sample_token (mkBufReader [] ((Data <$> [zreplicate 200 65; zreplicate 57 65]) ++ []))).2 = Err Invalid.
Proof.
  split.
  - assert (Hn : 10 ∉ sample_line) by (apply (bool_decide_unpack _); vm_compute; exact I).
    assert (Hne : Forall (λ c, c ≠ []) sample_chunks) by (apply (bool_decide_unpack _); vm_compute; exact I).
    destruct (proj1 (verify_peer_exact sample_token sample_chunks [Closed] sample_line (lit "{}")
      eq_refl sample_token_u8 (sample_tag_binds _) Hne Hn)) as (r & -> & _); vm_compute; reflexivity.
  - assert (Hn : 10 ∉ concat [zreplicate 200 65; zreplicate 57 65]) by (apply (bool_decide_unpack _); vm_compute; exact I).
    assert (Hne : Forall (λ c, c ≠ []) [zreplicate 200 65; zreplicate 57 65]) by (apply (bool_decide_unpack _); vm_compute; exact I).
    apply (proj2 (verify_peer_exact sample_token _ [] _ [] eq_refl sample_token_u8 (sample_tag_binds _) Hne Hn)); reflexivity.
Defined.

Definition sample_nonce : bytes := zreplicate 16 1.
Definition sample_dir_stat : Stat := mkStat 1 2 501 (Z.lor S_IFDIR 448) 2.
(** Another process puts an empty private file in place while the token is being
    written. *)
Definition sample_meddle (d : Dir) : Dir := <[lit "agent-control-token" := mkNode (mkStat 1 8 501 (Z.lor S_IFREG 384) 1) []]> d.
Definition sample_os (renamed : option IoError) : Os :=
  mkOs 501 None (Ok sample_dir_stat) None (Some sample_nonce) None (1, 77) 63 None None None None None sample_meddle None renamed true.

Lemma credential_published_witness :
  (publish (sample_os None) ∅ (lit "agent-control-token") sample_token).1 !! lit "agent-control-token"
    = Some (mkNode (mkStat 1 77 501 (Z.lor S_IFREG 384) 1) (AgentToken.to_hex sample_token ++ [10]))
  ∧ ∃ nonce st, let temp := temp_name nonce in
    let node := mkNode st (AgentToken.to_hex sample_token ++ [10]) in
    let d0 := sample_meddle (<[temp := node]> ∅) in
    safe_stat 501 st false = true ∧
    (∀ n, d0 !! lit "agent-control-token" = Some n → safe_stat 501 (n_stat n) false = true) ∧
    (publish (sample_os None) ∅ (lit "agent-control-token") sample_token).1 = <[lit "agent-control-token" := node]> (delete temp d0) ∧
    drop_credential (publish (sample_os None) ∅ (lit "agent-control-token") sample_token).1
      (mkPublished (lit "agent-control-token") (1, 77) sample_token) None true = delete (lit "agent-control-token") (delete temp d0).
Proof.
  split; [vm_compute; reflexivity|].
  apply (credential_published (sample_os None) ∅ (lit "agent-control-token") sample_token).
  - vm_compute. reflexivity.
  - intros nonce x [= <-]. cbn [os_meddle sample_os]. unfold sample_meddle. rewrite lookup_insert_ne; [done|].
    vm_compute. discriminate.
Defined.

Lemma credential_failure_witness :
  (publish (sample_os (Some (OtherIo 1))) ∅ (lit "agent-control-token") sample_token).2 = Err (Io (OtherIo 1))
  ∧ ((publish (sample_os (Some (OtherIo 1))) ∅ (lit "agent-control-token") sample_token).1 = ∅ ∨
     ∃ nonce, Some sample_nonce = Some nonce ∧
       (publish (sample_os (Some (OtherIo 1))) ∅ (lit "agent-control-token") sample_token).1
         = delete (temp_name nonce) (sample_meddle (<[temp_name nonce := token_node (sample_os (Some (OtherIo 1))) sample_token]> ∅))).
Proof.
  split; [vm_compute; reflexivity|].
  apply (credential_failure (sample_os (Some (OtherIo 1))) ∅ (lit "agent-control-token") sample_token _ (Io (OtherIo 1)));
    vm_compute; reflexivity.
Defined.
