(* ===== verification/Wire.v ===== *)
(** * Messages

    [capture-agent/src/wire.rs]: the events the agent sends and the control
    messages it accepts, as data.  Rates are exact rationals, texts are UTF-8
    bytes, and a message that explains a refusal is the reason with its values.
    How serde spells an event is the class [EventJson], how it reads a control
    line the class [ControlJson]. *)

From Stdlib Require Import QArith.
From S2P Require Import Prelude Float64 Text Packet Flow Ring Transaction Keylog Decrypt Fields Traceroute.
#[local] Open Scope Z_scope.

(** ** Connections, hosts and layers *)

Record ConnectionJson := mkConnectionJson {
  cj_id : bytes;
  cj_protocol : bytes;
  cj_app_layer_protocol : bytes;
  cj_transport_protocol : bytes;
  cj_osi_stack : bytes;
  cj_local_addr : bytes;
  cj_local_port : Z;
  cj_remote_addr : bytes;
  cj_remote_port : Z;
  cj_process_name : bytes;
  cj_pid : Z;
  cj_rx_speed : Q;
  cj_tx_speed : Q;
  cj_rx_bytes_total : Z;
  cj_tx_bytes_total : Z;
  cj_latency_ms : option Z;
  cj_packet_loss : Q;
  cj_status : bytes;
  cj_encryption : bytes;
  cj_sparkline : list Z;
  cj_ja3_fingerprint : option bytes;
  cj_ja3_label : option bytes
}.

Record EndpointJson := mkEndpointJson {
  ej_host : bytes;
  ej_rx_bytes_total : Z;
  ej_tx_bytes_total : Z;
  ej_rx_packets_total : Z;
  ej_tx_packets_total : Z;
  ej_rx_speed : Q;
  ej_tx_speed : Q;
  ej_flow_count : Z;
  ej_first_seen_ms : Z;
  ej_last_seen_ms : Z;
  ej_process_name : bytes;
  ej_pid : Z;
  ej_ja3_label : option bytes;
  ej_observed_name : option bytes
}.

Record ConversationJson := mkConversationJson {
  vj_local_addr : bytes;
  vj_remote_addr : bytes;
  vj_rx_bytes_total : Z;
  vj_tx_bytes_total : Z;
  vj_rx_packets_total : Z;
  vj_tx_packets_total : Z;
  vj_rx_speed : Q;
  vj_tx_speed : Q;
  vj_flow_count : Z;
  vj_first_seen_ms : Z;
  vj_last_seen_ms : Z;
  vj_duration_ms : Z;
  vj_process_name : bytes;
  vj_pid : Z;
  vj_ja3_label : option bytes
}.

Record LayerStatsJson := mkLayerStatsJson {
  ls_layer : Z;
  ls_rx_speed : Q;
  ls_tx_speed : Q;
  ls_rx_packets_per_sec : Q;
  ls_tx_packets_per_sec : Q;
  ls_total_bytes : Z;
  ls_error_rate : Q;
  ls_active_sockets : Z;
  ls_sparkline : list Z
}.

Inductive ProtocolNodeJson := mkProtocolNodeJson (name : bytes) (pn_bytes pn_packets : Z) (pn_children : list ProtocolNodeJson).

(** ** Findings *)

Inductive Severity := SeverityError | SeverityWarning | SeverityNote | SeverityChat.

Inductive FindingCode := Retransmission | ConnectionReset | MalformedFrame | UnansweredRequest.

#[export] Instance FindingCode_eq_dec : EqDecision FindingCode.
Proof. solve_decision. Defined.

Record FindingJson := mkFindingJson {
  fj_id : bytes;
  fj_timestamp : bytes;
  fj_severity : Severity;
  fj_code : FindingCode;
  fj_summary : bytes;
  fj_frame_id : option bytes;
  fj_flow_id : option bytes
}.

(** ** Status of the agent *)

Record InterfaceJson := mkInterfaceJson { ij_name : bytes; ij_addresses : list bytes }.

Record InterfaceChangedJson := mkInterfaceChangedJson { ic_name : bytes; ic_ip_address : bytes }.

Record AgentStatusJson := mkAgentStatusJson {
  as_interface : bytes;
  as_capturing : bool;
  as_mode : bytes;
  as_replay_source : option bytes;
  as_direction_attribution_unavailable : bool
}.

Record CaptureConfigJson := mkCaptureConfigJson { cc_filter : option bytes; cc_snaplen : Z }.
#[export] Instance eta_CaptureConfigJson : RecordEta CaptureConfigJson := λ c, mkCaptureConfigJson (cc_filter c) (cc_snaplen c).

Record CaptureStatsJson := mkCaptureStatsJson {
  cs_received : Z;
  cs_dropped : Z;
  cs_if_dropped : Z;
  cs_relay_lagged_events : Z;
  cs_unparseable_frames : Z;
  cs_total_connections_observed : Z;
  cs_capacity_evictions : Z;
  cs_idle_evictions : Z;
  cs_observed_name_evictions : Z
}.

Record SystemStatsJson := mkSystemStatsJson {
  ss_hostname : bytes;
  ss_interface_name : bytes;
  ss_ip_address : bytes;
  ss_rx_total_mbps : f64;
  ss_tx_total_mbps : f64;
  ss_rx_pps_total : f64;
  ss_tx_pps_total : f64;
  ss_total_packets_captured : Z
}.

Record TracerouteHopJson := mkTracerouteHopJson { th_target_ip : bytes; th_hop : HopResult }.

(** Why a filter or a snap length was refused. *)
Inductive ConfigRefusal :=
| FilterTooLong (len : Z)
| InvalidFilter (e : bytes)
| SnaplenOutOfRange (n : Z)
| SnaplenZero
| ReopenFailed (n : Z) (e : bytes)
| FilterNotReapplied (n : Z) (e : bytes)
| NotDuringReplay.

(** Why a change of interface was refused. *)
Inductive InterfaceRefusal :=
| NameTooLong (len : Z)
| DeviceListFailed (e : bytes)
| NoSuchInterface (name : bytes)
| NoAddress (name : bytes)
| OpenFailed (name : bytes) (e : bytes)
| UnknownLinkType (name : bytes)
| NoSwitchDuringReplay.

(** Why a capture file was refused: at the request, or by the writer thread. *)
Inductive FileRefusal := Refused (e : RequestError) | NotStarted (e : StartError).

Inductive AgentEvent :=
| ConnectionUpdate (connection : ConnectionJson)
| ConnectionClosed (id : bytes)
| PacketEvent (packet : PacketJson)
| LayerUpdate (layers : list LayerStatsJson)
| AgentStatus (status : AgentStatusJson)
| Decryption (event : Decrypt.AgentEvent)   (** [DecryptedPayload] and [DecryptionStatus] *)
| TracerouteHop (hop : TracerouteHopJson)
| CaptureStats (stats : CaptureStatsJson)
| SystemStats (stats : SystemStatsJson)
| CaptureConfig (config : CaptureConfigJson)
| CaptureConfigError (message : ConfigRefusal)
| InterfaceList (interfaces : list InterfaceJson)
| InterfaceChanged (interface : InterfaceChangedJson)
| InterfaceError (message : InterfaceRefusal)
| CaptureFileStatusEvent (status : CaptureFileStatus)
| CaptureFileError (message : FileRefusal)
| Finding (finding : FindingJson)
| ProtocolHierarchyUpdate (hierarchy : ProtocolNodeJson)
| EndpointUpdate (endpoints : list EndpointJson)
| ConversationUpdate (conversations : list ConversationJson)
| ServiceTimeUpdate (summaries : list ServiceTimeSummary).

(** ** Control messages *)

Inductive ControlMessage :=
| Pause
| Resume
| RegisterDecryptEligible (pid : Z) (keylog_path : bytes)
| UnregisterDecryptEligible (pid : Z)
| TraceRoute (target_ip : bytes)
| SetCaptureFilter (filter : bytes)
| SetSnaplen (n : Z)
| ListInterfaces
| SetInterface (name : bytes)
| StartCaptureFile (path : bytes) (ring : option RingConfig) (autostop : option AutostopConfig)
| StopCaptureFile.

Inductive ControlLine :=
| Message (m : ControlMessage)
| Ignored
| NotJson.

(** [serde_json] on a control line: [None] when the text is not a JSON object,
    [Some None] for an object that is not a control message. *)
Class ControlJson := parse_object : bytes → option (option ControlMessage).

Definition classify_control_line `{ControlJson} (line : bytes) : ControlLine :=
  let trimmed := trim line in
  if bool_decide (trimmed = []) then Ignored
  else
    match parse_object trimmed with
    | Some (Some m) => Message m
    | Some None => Ignored
    | None => NotJson
    end.

(** ** Events as lines *)

(** [serde_json::to_string]: compact JSON, in which a newline of a text is
    escaped. *)
Class EventJson := event_to_json : AgentEvent → bytes.
Class EventJsonLaws `{EventJson} : Prop := event_json_one_line : ∀ e, 10 ∉ event_to_json e.

Definition encode_event `{EventJson} (event : AgentEvent) : bytes := event_to_json event ++ [10].

Lemma split_line cur line rest : 10 ∉ line →
  Kl.split_lines cur (line ++ 10 :: rest) = let '(ls, r) := Kl.split_lines [] rest in ((cur ++ line) :: ls, r).
Proof.
  revert cur. induction line as [|b line IH]; intros cur Hn; cbn [app Kl.split_lines].
  - by rewrite app_nil_r.
  - apply not_elem_of_cons in Hn as [Hb Hn]. rewrite (proj2 (Z.eqb_neq b 10)) by done. rewrite IH by done. by rewrite <- (assoc_L (++)).
Qed.

(** What a client reads line by line is what was sent, event by event, with the
    event being sent when the connection broke as the rest. *)
Theorem events_are_framed `{EventJsonLaws} (es : list AgentEvent) (e : AgentEvent) (n : nat) :
  (n <= length (event_to_json e))%nat →
  Kl.split_lines [] (concat (encode_event <$> es) ++ take n (encode_event e)) = (event_to_json <$> es, take n (event_to_json e)).
Proof.
  intros Hn. unfold encode_event at 2. rewrite take_app_le by done.
  induction es as [|e' es IH]; cbn [fmap list_fmap concat app].
  - pose proof (event_json_one_line e) as He. assert (10 ∉ take n (event_to_json e)) as Ht by (intros Hin%elem_of_take; by destruct Hin as (i & Hi & _); apply He, list_elem_of_lookup_2 with i).
    revert Ht. generalize (take n (event_to_json e)). clear. intros l.
    assert (∀ cur, 10 ∉ l → Kl.split_lines cur l = ([], cur ++ l)) as Hl; [|by apply (Hl [])].
    induction l as [|b l IH]; intros cur Hn; cbn [Kl.split_lines]; [by rewrite app_nil_r|].
    apply not_elem_of_cons in Hn as [Hb Hn]. rewrite (proj2 (Z.eqb_neq b 10)) by done. rewrite IH by done. by rewrite <- (assoc_L (++)).
  - unfold encode_event at 1. rewrite <- !(assoc_L (++)). cbn [app]. rewrite split_line by apply event_json_one_line. by rewrite IH.
Qed.

Lemma events_are_framed_witness :
  Kl.split_lines [] (concat (encode_event (H := λ _, lit "{}") <$> [ConnectionClosed (lit "a"); ConnectionClosed (lit "b")])
    ++ take 1 (encode_event (H := λ _, lit "{}") (ConnectionClosed (lit "c")))) = ([lit "{}"; lit "{}"], lit "{").
Proof.
  assert (EventJsonLaws (H := λ _, lit "{}")) as HL by (intros e; apply (bool_decide_unpack _); vm_compute; exact I).
  rewrite (events_are_framed (H := λ _, lit "{}") [ConnectionClosed (lit "a"); ConnectionClosed (lit "b")] (ConnectionClosed (lit "c")) 1); [reflexivity|cbn; lia].
Defined.
