(* ===== verification/ProcessLookup.v ===== *)
(** * Which process owns a port

    [capture-agent/src/process_lookup.rs]: the map from local ports to
    processes, read from the output of [lsof].  Running the command is the
    argument of [refresh_with]. *)

From S2P Require Import Prelude Text.

(** ** [str] methods *)

(** [str::lines]: what comes before each newline, without a carriage return at
    its end, and what follows the last one if anything does. *)
Fixpoint lines_from (cur l : bytes) : list bytes :=
  match l with
  | [] => if bool_decide (cur = []) then [] else [cur]
  | b :: l' => if b =? 10 then default cur (strip_suffix_byte 13 cur) :: lines_from [] l' else lines_from (cur ++ [b]) l'
  end.

Definition str_lines (s : bytes) : list bytes := lines_from [] s.

(** [s.split(sep).next()]: what comes before the first occurrence. *)
Fixpoint before (sep s : bytes) : bytes :=
  match s with
  | [] => []
  | b :: s' => if starts_with sep s then [] else b :: before sep s'
  end.

(** [s.rsplit(c).next()]: what comes after the last occurrence. *)
Fixpoint after_last (c : Z) (s : bytes) : bytes :=
  match s with
  | [] => []
  | b :: s' => if bool_decide (c ∈ s') then after_last c s' else if b =? c then s' else s
  end.

(** [parse::<u16>] and [parse::<u32>]. *)
Definition parse_uint (max : Z) (s : bytes) : option Z := n ← parse_u64 s; if n <=? max then Some n else None.

(** ** The table *)

Record ProcessInfo := mkProcessInfo { proc_name : bytes; proc_pid : Z }.

Definition parse_lsof_line (line : bytes) : option (Z * ProcessInfo) :=
  let fields := split_whitespace line in
  if zlen fields <? 9 then None
  else
    name ← fields !! 0%nat;
    pid ← fields !! 1%nat ≫= parse_uint U32_MAX;
    name_field ← fields !! 8%nat;
    port ← parse_uint U16_MAX (after_last 58 (before (lit "->") name_field));
    Some (port, mkProcessInfo name pid).

Definition add_line (m : gmap Z ProcessInfo) (line : bytes) : gmap Z ProcessInfo :=
  match parse_lsof_line line with Some (port, p) => <[port := p]> m | None => m end.

Definition parse_lsof_output (output : bytes) : gmap Z ProcessInfo := foldl add_line ∅ (drop 1 (str_lines output)).

(** [None]: the command could not be run. *)
Definition refresh_with (run : option bytes) : gmap Z ProcessInfo :=
  match run with Some text => parse_lsof_output text | None => ∅ end.

Definition refresh (stdout : option bytes) : gmap Z ProcessInfo := refresh_with (from_utf8_lossy <$> stdout).

(** ** Theorems *)

Lemma foldl_lsof_lookup lines m port :
  foldl add_line m lines !! port
    = match last (filter (λ e : Z * ProcessInfo, e.1 = port) (omap parse_lsof_line lines)) with
      | Some e => Some e.2
      | None => m !! port
      end.
Proof.
  revert m. induction lines as [|line lines IH]; intros m; [done|].
  cbn [foldl omap list_omap]. rewrite IH. unfold add_line. destruct (parse_lsof_line line) as [[q p]|]; [|done].
  rewrite filter_cons. cbn [fst]. destruct (decide (q = port)) as [->|Hq].
  - rewrite last_cons, lookup_insert_eq. by destruct (last _).
  - by rewrite lookup_insert_ne.
Qed.

(** The process a port is given is the one of the last line, after the
    heading, whose local port it is; lines that are too short or whose process
    id or port is not a number in range count for nothing. *)
Theorem lsof_last_line_wins output port :
  parse_lsof_output output !! port
    = snd <$> last (filter (λ e : Z * ProcessInfo, e.1 = port) (omap parse_lsof_line (drop 1 (str_lines output)))).
Proof. unfold parse_lsof_output. rewrite foldl_lsof_lookup. by destruct (last _). Qed.

Example lsof_sample :
  parse_lsof_output (lit "COMMAND PID" ++ [10] ++
    lit "Safari 1234 jamesb 45u IPv4 0x123 0t0 TCP 192.168.1.10:51000->93.184.216.34:443 (ESTABLISHED)" ++ [13; 10] ++
    lit "Slack 5678 jamesb 12u IPv4 0x456 0t0 UDP 192.168.1.10:60123->8.8.8.8:53" ++ [10])
  = <[60123 := mkProcessInfo (lit "Slack") 5678]> (<[51000 := mkProcessInfo (lit "Safari") 1234]> ∅).
Proof. vm_compute. reflexivity. Qed.
