(* ===== verification/Startup.v ===== *)
(** * Start-up: limits, devices and the packet source

    The helpers of [capture-agent/src/main.rs] that resolve, once, what the
    agent captures from (with the calls of [host_stats.rs] and [core_limits.rs]): the numbers and lists of the environment, the capture
    device, the link type, and the packet source, live or replayed.  A panic of
    the start-up is an [Err].  libpcap is the class [Pcap]; what it and the file
    system answer at start-up is the record [Host]. *)

From S2P Require Import Prelude Text Packet Flow Pcapng ProcessLookup.

(** ** Numbers and lists of the environment *)

Inductive Panic :=
| BadNumber (name raw : bytes)
| InterfaceNotUtf8
| ListFailed (e : bytes)
| NoSuchDevice (name : bytes) (available : list bytes)
| NotCapturable (name : bytes) (capturable : list bytes)
| NoDevice
| LookupFailed (e : bytes)
| BothSourcesSet
| ReplayNotOpened (path : bytes)
| ReplayMalformed (path : bytes)
| ReplayUnreadable (path e : bytes)
| LinkTypeUnknown (interface : bytes) (datalink : Z)
| DeviceNotOpened (interface e : bytes).

(** [std::env::var(..).ok()]: a value that is not UTF-8 counts as unset. *)
Definition env_var (raw : option bytes) : option bytes := raw ≫= from_utf8.

Definition is_meaningful_override (raw : bytes) : bool := negb (bool_decide (trim raw = [])).

Definition parse_positive_env (name : bytes) (raw : option bytes) (default_ : Z) : result Panic Z :=
  match raw with
  | Some raw =>
      if negb (is_meaningful_override raw) then Ok default_
      else
        match parse_u64 (trim raw) with
        | Some n => if 0 <? n then Ok n else Err (BadNumber name raw)
        | None => Err (BadNumber name raw)
        end
  | None => Ok default_
  end.

Definition parse_max_flows (raw : option bytes) : result Panic Z :=
  parse_positive_env (lit "MAX_FLOWS") raw DEFAULT_MAX_FLOWS.
Definition resolve_max_flows (env : option bytes) : result Panic Z := parse_max_flows (env_var env).

Definition parse_max_observed_dns_names (raw : option bytes) : result Panic Z :=
  parse_positive_env (lit "MAX_OBSERVED_DNS_NAMES") raw FlowTable.DEFAULT_MAX_OBSERVED_DNS_NAMES.
Definition resolve_max_observed_dns_names (env : option bytes) : result Panic Z := parse_max_observed_dns_names (env_var env).

(** [s.split(c)]. *)
Fixpoint split_from (c : Z) (cur s : bytes) : list bytes :=
  match s with
  | [] => [cur]
  | b :: s' => if b =? c then cur :: split_from c [] s' else split_from c (cur ++ [b]) s'
  end.

Definition parse_replay_local_addrs (raw : option bytes) : list bytes :=
  match raw with
  | Some v => filter (λ s, s ≠ []) (trim <$> split_from 44 [] v)
  | None => []
  end.
Definition replay_local_addrs (env : option bytes) : list bytes := parse_replay_local_addrs (env_var env).

Inductive ReplaySpeed := Fast | Realtime.

Definition parse_replay_speed (raw : option bytes) : ReplaySpeed :=
  if bool_decide (raw = Some (lit "realtime")) then Realtime else Fast.
Definition replay_speed (env : option bytes) : ReplaySpeed := parse_replay_speed (env_var env).

(** Nanoseconds since the epoch, negative before it, as microseconds. *)
Definition system_time_us (timestamp : Z) : Z :=
  match decide (timestamp < 0) with left _ => 0 | right _ => Z.min (timestamp / 1000) U64_MAX end.

(** [host_stats::hostname]: what [gethostname] returned and left in the 256-byte
    buffer; the name ends at the first zero byte. *)
Definition hostname (rc : Z) (buf : bytes) : bytes :=
  if negb (rc =? 0) then [] else from_utf8_lossy (ztake (default (zlen buf) (position 0 buf)) buf).

(** [core_limits::disable_core_dumps]: the limits of the core file and the error
    of [setrlimit], if it failed. *)
Record Rlimit := mkRlimit { rlim_cur : Z; rlim_max : Z }.
Definition disable_core_dumps (failed : option Z) (core : Rlimit) : Rlimit * result Z unit :=
  match failed with
  | Some errno => (core, Err errno)
  | None => (mkRlimit 0 0, Ok ())
  end.

(** ** Devices *)

(** [pcap::Device], its addresses as text. *)
Record Device := mkDevice { dev_name : bytes; dev_addresses : list bytes }.

(** The output of [route -n get default], if it ran. *)
Definition default_route_interface_name (stdout : option bytes) : option bytes :=
  text ← from_utf8_lossy <$> stdout;
  head (omap (λ line, strip_prefix (lit "interface: ") (trim line)) (str_lines text)).

Definition find_device_by_name (devices : list Device) (name : bytes) : option Device :=
  head (filter (λ d, dev_name d = name) devices).

Definition is_capturable (d : Device) : bool := negb (bool_decide (dev_addresses d = [])).

Definition local_addrs_for (d : Device) : list bytes := dev_addresses d.

(** Link-layer types of the [pcap] crate. *)
Definition DLT_NULL : Z := 0.
Definition DLT_ETHERNET : Z := 1.
Definition DLT_RAW : Z := 101.
Definition DLT_LOOP : Z := 108.

(** A packet of a classic capture file: [timeval] seconds and microseconds. *)
Record ClassicPacket := mkClassicPacket { cp_sec : Z; cp_usec : Z; cp_len : Z; cp_data : bytes }.

Inductive ClassicRead := ClassicFrame (p : ClassicPacket) | NoMorePackets | ClassicError (e : bytes).

(** libpcap: handles of open devices and of classic files, and the name it
    gives a link-layer type. *)
Class Pcap := {
  Handle : Type;
  Offline : Type;
  get_datalink : Handle → Z;
  offline_datalink : Offline → Z;
  datalink_name : Z → option bytes;
  offline_next : Offline → Offline * ClassicRead
}.

Section link_types.
Context `{Pcap}.

Definition datalink_to_link_type (datalink : Z) : option LinkType :=
  if datalink =? DLT_ETHERNET then Some Ethernet
  else if (datalink =? DLT_NULL) || (datalink =? DLT_LOOP) then Some NullLoopback
  else if datalink =? DLT_RAW then Some Raw
  else if bool_decide (datalink_name datalink = Some (lit "RAW")) then Some Raw
  else None.

Definition resolve_link_type (datalink : Z) (interface_name : bytes) : result Panic LinkType :=
  ok_or (datalink_to_link_type datalink) (LinkTypeUnknown interface_name datalink).
End link_types.

(** ** The packet source *)

Inductive PacketSource `{Pcap} :=
| Live (cap : Handle)
| ReplayPcapng (reader : Reader.t)
| ReplayClassic (cap : Offline).

Inductive SourceFrame :=
| FrameBytes (data : bytes) (timestamp : Z) (original_len : Z) (link_type : option LinkType)
| FrameTimeout
| FrameEof
| ReplayError.

(** What the open device answers to a read. *)
Inductive LiveRead := LiveFrame (data : bytes) (len : Z) | TimeoutExpired | LiveError.

Section source.
Context `{Pcap}.

(** [live] and [now]: the device's answer and the clock, for a live source. *)
Definition next_frame (source : PacketSource) (live : LiveRead) (now : Z) : PacketSource * SourceFrame :=
  match source with
  | Live cap =>
      (source, match live with
               | LiveFrame data len => FrameBytes data now len None
               | TimeoutExpired => FrameTimeout
               | LiveError => FrameEof
               end)
  | ReplayPcapng reader =>
      match Reader.next_packet reader with
      | Ok (reader, Some p) =>
          (ReplayPcapng reader, FrameBytes (rp_data p) (rp_timestamp p) (original_len p) (Some (rp_link_type p)))
      | Ok (reader, None) => (ReplayPcapng reader, FrameEof)
      | Err _ => (source, ReplayError)
      end
  | ReplayClassic cap =>
      let '(cap, r) := offline_next cap in
      (ReplayClassic cap,
       match r with
       | ClassicFrame p =>
           FrameBytes (cp_data p)
             (cp_sec p mod 2 ^ 64 * 1000000000 + wrap_u32 (wrap_u32 (cp_usec p) * 1000)) (cp_len p) None
       | NoMorePackets => FrameEof
       | ClassicError _ => ReplayError
       end)
  end.

Definition PCAPNG_MAGIC : bytes := [10; 13; 13; 10].

Definition DEFAULT_SNAPLEN : Z := 65535.

(** What the machine answers at start-up. *)
Record Host := mkHost {
  env_replay_file : option bytes;
  env_capture_interface : option bytes;
  env_replay_local_addrs : option bytes;
  h_file : bytes → option bytes;
  h_devices : result bytes (list Device);
  h_route : option bytes;
  h_lookup : result bytes (option Device);
  h_open_live : Device → Z → result bytes Handle;
  h_open_classic : bytes → result bytes Offline
}.

Definition looks_like_pcapng (host : Host) (path : bytes) : bool :=
  match h_file host path with Some contents => bool_decide (ztake 4 contents = PCAPNG_MAGIC) | None => false end.

(** The override of the environment: the device it names, or a panic. *)
Definition override_device (host : Host) (name : bytes) : result Panic Device :=
  match h_devices host with
  | Err e => Err (ListFailed e)
  | Ok devices =>
      match find_device_by_name devices name with
      | None => Err (NoSuchDevice name (dev_name <$> devices))
      | Some d =>
          if is_capturable d then Ok d
          else Err (NotCapturable name (dev_name <$> filter (λ d, is_capturable d = true) devices))
      end
  end.

Definition routed_device (host : Host) : option Device :=
  name ← default_route_interface_name (h_route host);
  match h_devices host with Ok devices => find_device_by_name devices name | Err _ => None end.

Definition auto_device (host : Host) : result Panic Device :=
  match routed_device host, h_lookup host with
  | Some d, _ => Ok d
  | None, Ok (Some d) => Ok d
  | None, Ok None => Err NoDevice
  | None, Err e => Err (LookupFailed e)
  end.

Definition detect_interface (host : Host) : result Panic Device :=
  match env_capture_interface host with
  | Some raw =>
      match from_utf8 raw with
      | None => Err InterfaceNotUtf8
      | Some name => if is_meaningful_override name then override_device host name else auto_device host
      end
  | None => auto_device host
  end.

Record ResolvedPacketSource := mkResolved {
  rs_source : PacketSource;
  rs_interface_name : bytes;
  rs_local_addrs : list bytes;
  rs_link_type : LinkType;
  rs_mode : bytes;
  rs_replay_source : option bytes;
  rs_device_for_reopen : option Device
}.

Definition resolve_replay (host : Host) (path : bytes) : result Panic ResolvedPacketSource :=
  let addrs := replay_local_addrs (env_replay_local_addrs host) in
  match h_file host path with
  | None => Err (ReplayNotOpened path)
  | Some contents =>
      match Reader.new contents with
      | Ok (reader, interface) =>
          Ok (mkResolved (ReplayPcapng reader)
                (default (lit "unknown (replayed pcapng, no if_name recorded)") (pi_name interface))
                addrs (pi_link_type interface) (lit "replay") (Some path) None)
      | Err _ =>
          if looks_like_pcapng host path then Err (ReplayMalformed path)
          else
            match h_open_classic host path with
            | Err e => Err (ReplayUnreadable path e)
            | Ok cap =>
                let? link_type := resolve_link_type (offline_datalink cap) path in
                Ok (mkResolved (ReplayClassic cap) (lit "unknown (replayed classic pcap)")
                      addrs link_type (lit "replay") (Some path) None)
            end
      end
  end.

Definition resolve_live (host : Host) : result Panic ResolvedPacketSource :=
  let? device := detect_interface host in
  match h_open_live host device DEFAULT_SNAPLEN with
  | Err e => Err (DeviceNotOpened (dev_name device) e)
  | Ok cap =>
      let? link_type := resolve_link_type (get_datalink cap) (dev_name device) in
      Ok (mkResolved (Live cap) (dev_name device) (local_addrs_for device) link_type (lit "live") None (Some device))
  end.

Definition resolve_packet_source (host : Host) : result Panic ResolvedPacketSource :=
  let replay_file := r ← env_var (env_replay_file host); if is_meaningful_override r then Some r else None in
  let capture_interface_set :=
    match env_capture_interface host with Some v => is_meaningful_override (from_utf8_lossy v) | None => false end in
  match replay_file with
  | Some path => if capture_interface_set then Err BothSourcesSet else resolve_replay host path
  | None => resolve_live host
  end.
End source.

(** ** Theorems *)

Lemma positive_env_ok name raw d n : 0 < d → parse_positive_env name raw d = Ok n → 0 < n.
Proof.
  intros Hd. unfold parse_positive_env. destruct raw as [raw|]; [|by intros [= <-]].
  destruct (is_meaningful_override raw); [|by intros [= <-]]. cbn [negb].
  destruct (parse_u64 _) as [m|]; [|done]. case_zb; [|done]. by intros [= <-].
Qed.

Lemma find_device_spec devices name d : find_device_by_name devices name = Some d → d ∈ devices ∧ dev_name d = name.
Proof.
  unfold find_device_by_name. intros Hd%head_Some_elem_of. by apply list_elem_of_filter in Hd as [? ?].
Qed.

Section startup.
Context `{Pcap}.

(** The device of a meaningful override. *)
Definition overridden (host : Host) (d : Device) : Prop :=
  ∀ raw, env_capture_interface host = Some raw → is_meaningful_override (default [] (from_utf8 raw)) = true →
    from_utf8 raw = Some (dev_name d) ∧ dev_addresses d ≠ [] ∧ ∃ devices, h_devices host = Ok devices ∧ d ∈ devices.

Lemma override_device_ok host name d : override_device host name = Ok d →
  dev_name d = name ∧ dev_addresses d ≠ [] ∧ ∃ devices, h_devices host = Ok devices ∧ d ∈ devices.
Proof.
  unfold override_device. destruct (h_devices host) as [devices|]; [|done].
  destruct (find_device_by_name devices name) as [d'|] eqn:Hf; [|done].
  destruct (is_capturable d') eqn:Hc; [|done]. intros [= <-]. apply find_device_spec in Hf as [Hin Hn].
  unfold is_capturable in Hc. apply negb_true_iff, bool_decide_eq_false in Hc. eauto.
Qed.

Lemma detect_interface_override host d : detect_interface host = Ok d → overridden host d.
Proof.
  unfold detect_interface, overridden. intros Hd raw Hraw Hm. rewrite Hraw in Hd.
  destruct (from_utf8 raw) as [name|]; [|done]. cbn [default] in Hm. unfold id in Hm. rewrite Hm in Hd.
  apply override_device_ok in Hd as (-> & Ha & Hin). done.
Qed.

Lemma resolve_live_ok host r : resolve_live host = Ok r →
  ∃ cap d, rs_source r = Live cap ∧ rs_device_for_reopen r = Some d ∧ overridden host d
    ∧ h_open_live host d DEFAULT_SNAPLEN = Ok cap ∧ datalink_to_link_type (get_datalink cap) = Some (rs_link_type r)
    ∧ rs_interface_name r = dev_name d ∧ rs_local_addrs r = dev_addresses d
    ∧ rs_mode r = lit "live" ∧ rs_replay_source r = None.
Proof.
  unfold resolve_live. destruct (detect_interface host) as [d|] eqn:Hd; [|done]. cbn [result_bind].
  destruct (h_open_live host d DEFAULT_SNAPLEN) as [cap|] eqn:Ho; [|done]. unfold resolve_link_type.
  destruct (datalink_to_link_type (get_datalink cap)) as [lt|] eqn:Hl; [|done]. intros [= <-].
  exists cap, d. split_and!; try done. by apply detect_interface_override.
Qed.

(** A start-up is live, or a replay without a device. *)
Lemma resolve_cases host r : resolve_packet_source host = Ok r →
  resolve_live host = Ok r ∨ rs_device_for_reopen r = None ∧ match rs_source r with Live _ => False | _ => True end.
Proof.
  unfold resolve_packet_source. destruct (env_var _ ≫= _) as [path|]; [|by left].
  destruct (match env_capture_interface host with Some _ => _ | None => _ end); [done|]. intros Hr. right.
  unfold resolve_replay in Hr. destruct (h_file host path) as [contents|]; [|done].
  destruct (Reader.new contents) as [[reader i]|]; [by injection Hr as <-|].
  destruct (looks_like_pcapng host path); [done|]. destruct (h_open_classic host path) as [cap|]; [|done].
  destruct (resolve_link_type _ _); [|done]. by injection Hr as <-.
Qed.

(** C36: A start-up that succeeds is what the environment asked for.  A live
    source is an open handle on a device whose link type is decoded, the device
    being the one [CAPTURE_INTERFACE] names, with an address, when that is set;
    the kept device, name and addresses are its own.  A replay never has a
    device, excludes [CAPTURE_INTERFACE], and hands a file to libpcap only when
    the agent's reader refused it and it does not begin like a pcapng file. *)
Theorem startup_consistent host r : resolve_packet_source host = Ok r →
  match rs_source r with
  | Live cap =>
      ∃ d, rs_device_for_reopen r = Some d ∧ overridden host d
        ∧ h_open_live host d DEFAULT_SNAPLEN = Ok cap ∧ datalink_to_link_type (get_datalink cap) = Some (rs_link_type r)
        ∧ rs_interface_name r = dev_name d ∧ rs_local_addrs r = dev_addresses d
        ∧ rs_mode r = lit "live" ∧ rs_replay_source r = None
  | source =>
      rs_device_for_reopen r = None ∧ rs_mode r = lit "replay" ∧
      (∀ raw, env_capture_interface host = Some raw → is_meaningful_override (from_utf8_lossy raw) = false) ∧
      ∃ path contents, env_var (env_replay_file host) = Some path ∧ rs_replay_source r = Some path
        ∧ h_file host path = Some contents ∧
        match source with
        | ReplayPcapng reader => ∃ i, Reader.new contents = Ok (reader, i) ∧ rs_link_type r = pi_link_type i
        | _ => (∃ e, Reader.new contents = Err e) ∧ ztake 4 contents ≠ PCAPNG_MAGIC
               ∧ ∃ cap, source = ReplayClassic cap ∧ h_open_classic host path = Ok cap
                        ∧ datalink_to_link_type (offline_datalink cap) = Some (rs_link_type r)
        end
  end.
Proof.
  unfold resolve_packet_source.
  destruct (env_var (env_replay_file host)) as [path|] eqn:Hp; cbn [mbind option_bind].
  2: { intros Hr. destruct (resolve_live_ok _ _ Hr) as (cap & d & Hs & Hd & Hrest). rewrite Hs. eauto. }
  destruct (is_meaningful_override path).
  2: { intros Hr. destruct (resolve_live_ok _ _ Hr) as (cap & d & Hs & Hd & Hrest). rewrite Hs. eauto. }
  destruct (match env_capture_interface host with Some _ => _ | None => _ end) eqn:Hc; [done|].
  assert (∀ raw, env_capture_interface host = Some raw → is_meaningful_override (from_utf8_lossy raw) = false) as Hi.
  { intros raw Hraw. by rewrite Hraw in Hc. }
  unfold resolve_replay. destruct (h_file host path) as [contents|] eqn:Hf; [|done].
  destruct (Reader.new contents) as [[reader i]|e] eqn:Hn.
  { intros [= <-]. cbn. split_and!; [done..|]. exists path, contents. eauto 10. }
  unfold looks_like_pcapng. rewrite Hf. case_bool_decide as Hm; [done|].
  destruct (h_open_classic host path) as [cap|] eqn:Ho; [|done]. unfold resolve_link_type.
  destruct (datalink_to_link_type (offline_datalink cap)) as [lt|] eqn:Hl; [|done]. intros [= <-]. cbn.
  split_and!; [done..|]. exists path, contents. split_and!; [done..|by eauto|done|]. eauto.
Qed.
End startup.

(** ** Examples *)

#[local] Instance sample_pcap : Pcap := {|
  Handle := Device * Z * option bytes;
  Offline := list ClassicPacket;
  get_datalink h := 1;
  offline_datalink _ := 1;
  datalink_name _ := None;
  offline_next ps := match ps with [] => ([], NoMorePackets) | p :: ps => (ps, ClassicFrame p) end
|}.

Definition sample_en0 : Device := mkDevice (lit "en0") [lit "10.0.0.2"].
Definition sample_utun : Device := mkDevice (lit "utun8") [].

Definition sample_host (replay interface route : option bytes) : Host :=
  mkHost replay interface None (λ p, if bool_decide (p = lit "a.pcap") then Some [161; 178; 195; 212; 0; 2] else None)
    (Ok [sample_utun; sample_en0]) route (Ok (Some sample_en0)) (λ d n, Ok (d, n, None)) (λ _, Ok []).

Lemma startup_consistent_witness :
  (∃ r, resolve_packet_source (sample_host None (Some (lit "en0")) (Some (lit " interface: utun8"))) = Ok r
        ∧ rs_source r = Live (sample_en0, 65535, None)
        ∧ overridden (sample_host None (Some (lit "en0")) (Some (lit " interface: utun8"))) sample_en0)
  ∧ (∃ r, resolve_packet_source (sample_host (Some (lit "a.pcap")) None None) = Ok r ∧ rs_device_for_reopen r = None).
Proof.
  split.
  - eexists. split; [vm_compute; reflexivity|]. split; [reflexivity|].
    destruct (startup_consistent (sample_host None (Some (lit "en0")) (Some (lit " interface: utun8"))) _
      ltac:(vm_compute; reflexivity)) as (d & Hd & Ho & _). by injection Hd as <-.
  - eexists. split; [vm_compute; reflexivity|].
    exact (proj1 (startup_consistent (sample_host (Some (lit "a.pcap")) None None) _ ltac:(vm_compute; reflexivity))).
Defined.

(** An interface found by the default route is taken even when it has no
    address; only an override is refused for that. *)
Example routed_device_without_address :
  (rs_local_addrs <$> match resolve_packet_source (sample_host None None (Some (lit " interface: utun8"))) with
                      | Ok r => Some r | Err _ => None end) = Some [] ∧
  resolve_packet_source (sample_host None (Some (lit "utun8")) None) = Err (NotCapturable (lit "utun8") [lit "en0"]).
Proof. split; vm_compute; reflexivity. Qed.
