(* ===== verification/CaptureConfig.v ===== *)
(** * Changing the capture while it runs

    The capture filter, the snap length and the interface of
    [capture-agent/src/main.rs]: requests queued by the control connection and
    applied by the capture thread between frames.  What libpcap answers to a
    request is the record [Answers]; what a handle is set to capture is observed
    through the class [PcapControl], whose laws are those of [pcap_setfilter]
    and of opening a device. *)

From S2P Require Import Prelude Text Packet DnsNames Flow Sniff Transaction Startup Wire.

Definition MAX_CAPTURE_FILTER_LEN : Z := 1024.
Definition MAX_INTERFACE_NAME_LEN : Z := 256.
Definition I32_MAX : Z := 2147483647.

Inductive CaptureConfigRequest :=
| SetFilter (filter : bytes)
| SetSnaplenTo (n : Z)
| SwitchInterface (name : bytes).

Definition validate_capture_filter_len (filter : bytes) : result ConfigRefusal unit :=
  if MAX_CAPTURE_FILTER_LEN <? zlen filter then Err (FilterTooLong (zlen filter)) else Ok ().

(** The argument is a [u32], the result an [i32]. *)
Definition validate_snaplen (n : Z) : result ConfigRefusal Z :=
  if I32_MAX <? n then Err (SnaplenOutOfRange n)
  else if n <=? 0 then Err SnaplenZero
  else Ok n.

Definition validate_interface_name_len (name : bytes) : result InterfaceRefusal unit :=
  if MAX_INTERFACE_NAME_LEN <? zlen name then Err (NameTooLong (zlen name)) else Ok ().

(** What a handle captures, and installing a filter in it. *)
Class PcapControl `{Pcap} := {
  handle_device : Handle → Device;
  handle_snaplen : Handle → Z;
  handle_filter : Handle → option bytes;
  device_datalink : Device → Z;
  install_filter : Handle → bytes → Handle
}.

Class PcapControlLaws `{PcapControl} : Prop := {
  install_device : ∀ h f, handle_device (install_filter h f) = handle_device h;
  install_snaplen : ∀ h f, handle_snaplen (install_filter h f) = handle_snaplen h;
  install_datalink : ∀ h f, get_datalink (install_filter h f) = get_datalink h;
  install_replaces : ∀ h f, handle_filter (install_filter h f) = if bool_decide (f = []) then None else Some f
}.

(** What libpcap answers while a request is applied. *)
Record Answers `{Pcap} := mkAnswers {
  a_devices : result bytes (list Device);
  a_open : Device → Z → result bytes Handle;
  a_filter : Handle → bytes → option bytes   (** [Some e]: the filter was refused *)
}.

(** An opened handle is on its device, with the device's link type, the snap
    length asked for and no filter. *)
Definition opens_as_asked `{PcapControl} (a : Answers) : Prop :=
  ∀ d n h, a_open a d n = Ok h →
    handle_device h = d ∧ handle_snaplen h = n ∧ handle_filter h = None ∧ get_datalink h = device_datalink d.

(** What a request may change: the capture thread's own variables and the state
    it shares with the other tasks. *)
Record Capture `{Pcap} := mkCapture {
  source : PacketSource;
  device_for_reopen : option Device;
  link_type : LinkType;
  local_addrs : list bytes;
  current_interface : bytes * bytes;
  current_link_type : LinkType;
  config : CaptureConfigJson;
  flow_table : FlowTable.t;
  reassembly : StreamReassembler.t;
  transactions : TransactionTracker.t
}.
#[export] Instance eta_Capture `{Pcap} : RecordEta Capture := λ c,
  mkCapture _ (source c) (device_for_reopen c) (link_type c) (local_addrs c) (current_interface c) (current_link_type c)
    (config c) (flow_table c) (reassembly c) (transactions c).

Definition DEFAULT_CONFIG : CaptureConfigJson := mkCaptureConfigJson None DEFAULT_SNAPLEN.

Section requests.
Context `{PcapControl} `{IterOrder}.

Definition set_filter (a : Answers) (filter : bytes) (cap : Handle) (st : Capture) : Capture * list AgentEvent :=
  match validate_capture_filter_len filter with
  | Err e => (st, [CaptureConfigError e])
  | Ok _ =>
      match a_filter a cap filter with
      | Some e => (st, [CaptureConfigError (InvalidFilter e)])
      | None =>
          let st := st <| source := Live (install_filter cap filter) |>
                       <| config ::= λ c, c <| cc_filter := if bool_decide (filter = []) then None else Some filter |> |> in
          (st, [CaptureConfig (config st)])
      end
  end.

(** The active filter on a reopened handle. *)
Definition reapply_filter (a : Answers) (filter : option bytes) (n : Z) (cap : Handle) : result ConfigRefusal Handle :=
  match filter with
  | Some expr => match a_filter a cap expr with
                 | Some e => Err (FilterNotReapplied n e)
                 | None => Ok (install_filter cap expr)
                 end
  | None => Ok cap
  end.

Definition set_snaplen (a : Answers) (n : Z) (device : Device) (st : Capture) : Capture * list AgentEvent :=
  let reopened :=
    let? snaplen := validate_snaplen n in
    let? cap := map_err (ReopenFailed n) (a_open a device snaplen) in
    reapply_filter a (cc_filter (config st)) n cap in
  match reopened with
  | Err e => (st, [CaptureConfigError e])
  | Ok cap =>
      let st := st <| source := Live cap |> <| config ::= λ c, c <| cc_snaplen := n |> |> in
      (st, [CaptureConfig (config st)])
  end.

(** [None] is the panic of [unreachable!]. *)
Definition apply_capture_config_request (a : Answers) (request : CaptureConfigRequest) (cap : Handle) (device : Device)
    (st : Capture) : option (Capture * list AgentEvent) :=
  match request with
  | SetFilter filter => Some (set_filter a filter cap st)
  | SetSnaplenTo n => Some (set_snaplen a n device st)
  | SwitchInterface _ => None
  end.

(** The checks of a switch: the device, its open handle and its link type. *)
Definition switch_target (a : Answers) (name : bytes) : result InterfaceRefusal (Device * Handle * LinkType) :=
  let? _ := validate_interface_name_len name in
  let? devices := map_err DeviceListFailed (a_devices a) in
  let? device := ok_or (find_device_by_name devices name) (NoSuchInterface name) in
  if negb (is_capturable device) then Err (NoAddress name)
  else
    let? cap := map_err (OpenFailed name) (a_open a device DEFAULT_SNAPLEN) in
    let? lt := ok_or (datalink_to_link_type (get_datalink cap)) (UnknownLinkType name) in
    Ok (device, cap, lt).

Definition apply_interface_switch_request (a : Answers) (name : bytes) (st : Capture) : Capture * list AgentEvent :=
  match switch_target a name with
  | Err e => (st, [InterfaceError e])
  | Ok (device, cap, lt) =>
      let addrs := local_addrs_for device in
      let ip := default [] (head addrs) in
      let '(table, closed) := FlowTable.reset (flow_table st) addrs in
      let st := st <| flow_table := table |>
                   <| reassembly ::= StreamReassembler.reset |>
                   <| transactions ::= TransactionTracker.reset |>
                   <| source := Live cap |>
                   <| device_for_reopen := Some device |>
                   <| link_type := lt |>
                   <| local_addrs := addrs |>
                   <| current_interface := (name, ip) |>
                   <| current_link_type := lt |>
                   <| config := DEFAULT_CONFIG |> in
      (st, (ConnectionClosed <$> (connection_id <$> closed)) ++ [InterfaceChanged (mkInterfaceChangedJson name ip)])
  end.

(** One request of the capture thread's drain loop. *)
Definition drain_request (a : Answers) (request : CaptureConfigRequest) (st : Capture) : option (Capture * list AgentEvent) :=
  match source st, device_for_reopen st with
  | Live cap, Some device =>
      match request with
      | SwitchInterface name => Some (apply_interface_switch_request a name st)
      | other => apply_capture_config_request a other cap device st
      end
  | _, _ =>
      Some (st, [match request with
                 | SwitchInterface _ => InterfaceError NoSwitchDuringReplay
                 | _ => CaptureConfigError NotDuringReplay
                 end])
  end.

(** The drain loop over what has queued up. *)
Fixpoint drain (requests : list (Answers * CaptureConfigRequest)) (st : Capture) : option (Capture * list AgentEvent) :=
  match requests with
  | [] => Some (st, [])
  | (a, request) :: requests =>
      '(st, es) ← drain_request a request st;
      '(st, es') ← drain requests st;
      Some (st, es ++ es')
  end.
End requests.

(** ** Theorems *)

Section coherence.
Context `{PcapControlLaws} `{IterOrder}.

(** What is reported is what is captured: the handle is on the kept device, with
    the reported snap length and filter, decoded with its link type, and flows
    are attributed with its addresses.  A replay has no device and keeps the
    defaults. *)
Definition live_coherent (cap : Handle) (d : Device) (st : Capture) : Prop :=
  handle_device cap = d ∧ handle_snaplen cap = cc_snaplen (config st) ∧ handle_filter cap = cc_filter (config st)
  ∧ get_datalink cap = device_datalink d ∧ datalink_to_link_type (device_datalink d) = Some (link_type st)
  ∧ local_addrs st = dev_addresses d ∧ current_interface st = (dev_name d, default [] (head (dev_addresses d)))
  ∧ cc_filter (config st) ≠ Some [].

Definition coherent (st : Capture) : Prop :=
  current_link_type st = link_type st ∧ FlowTable.local_addrs (flow_table st) = local_addrs st ∧
  match source st, device_for_reopen st with
  | Live cap, Some d => live_coherent cap d st
  | Live _, None => False
  | _, d => d = None ∧ config st = DEFAULT_CONFIG
  end.

Lemma reapply_filter_ok a filter n cap cap' : reapply_filter a filter n cap = Ok cap' → filter ≠ Some [] →
  handle_filter cap = None →
  handle_device cap' = handle_device cap ∧ handle_snaplen cap' = handle_snaplen cap
  ∧ get_datalink cap' = get_datalink cap ∧ handle_filter cap' = filter.
Proof.
  unfold reapply_filter. destruct filter as [expr|]; [|by intros [= <-]].
  destruct (a_filter a cap expr); [done|]. intros [= <-] Hne _.
  rewrite install_device, install_snaplen, install_datalink, install_replaces, bool_decide_false by congruence. done.
Qed.

Lemma validate_snaplen_ok n k : validate_snaplen n = Ok k → k = n ∧ 0 < n <= I32_MAX.
Proof. unfold validate_snaplen. repeat case_zb; try done. intros [= <-]. lia. Qed.

Lemma set_filter_coherent a f cap d st : source st = Live cap → device_for_reopen st = Some d →
  coherent st → coherent (set_filter a f cap st).1.
Proof.
  intros Hs Hd Hc. unfold set_filter. destruct (validate_capture_filter_len f); [|done].
  destruct (a_filter a cap f); [done|]. unfold coherent, live_coherent in *. cbn. rewrite Hs, Hd in *.
  rewrite install_device, install_snaplen, install_datalink, install_replaces.
  destruct Hc as (? & ? & ? & ? & ? & ? & ? & ? & ? & ?). split_and!; try done. case_bool_decide; congruence.
Qed.

Lemma set_snaplen_coherent a n cap d st : source st = Live cap → device_for_reopen st = Some d → opens_as_asked a →
  coherent st → coherent (set_snaplen a n d st).1.
Proof.
  intros Hs Hd Hopen Hc. unfold set_snaplen. cbn zeta.
  destruct (validate_snaplen n) as [k|] eqn:Hk; [|done]. apply validate_snaplen_ok in Hk as [-> _]. cbn [result_bind].
  destruct (a_open a d n) as [h|] eqn:Hh; [|done]. cbn [map_err result_bind].
  destruct (reapply_filter _ _ _ _) as [h'|] eqn:Hr; [|done].
  destruct (Hopen _ _ _ Hh) as (Hdev & Hsnap & Hnone & Hlink).
  unfold coherent, live_coherent in *. cbn. rewrite Hs, Hd in *.
  destruct Hc as (? & ? & ? & ? & ? & ? & ? & ? & ? & ?).
  apply reapply_filter_ok in Hr as (Hr1 & Hr2 & Hr3 & Hr4); [|done..].
  rewrite Hr1, Hr2, Hr3, Hr4. split_and!; congruence.
Qed.

Lemma switch_target_ok a name d cap lt : switch_target a name = Ok (d, cap, lt) →
  dev_name d = name ∧ dev_addresses d ≠ [] ∧ a_open a d DEFAULT_SNAPLEN = Ok cap
  ∧ datalink_to_link_type (get_datalink cap) = Some lt.
Proof.
  unfold switch_target. destruct (validate_interface_name_len name); [|done]. cbn [result_bind].
  destruct (a_devices a) as [ds|]; [|done]. cbn [map_err result_bind].
  destruct (find_device_by_name ds name) as [d'|] eqn:Hf; [|done]. cbn [ok_or result_bind].
  destruct (is_capturable d') eqn:Hcap; [|done]. cbn [negb].
  destruct (a_open a d' DEFAULT_SNAPLEN) as [h|] eqn:Ho; [|done]. cbn [map_err result_bind].
  destruct (datalink_to_link_type (get_datalink h)) as [l|] eqn:Hl; [|done]. intros [= <- <- <-].
  apply find_device_spec in Hf as [_ Hn]. apply negb_true_iff, bool_decide_eq_false in Hcap. done.
Qed.

Lemma switch_coherent a name st : opens_as_asked a → coherent st →
  coherent (apply_interface_switch_request a name st).1.
Proof.
  intros Hopen Hc. unfold apply_interface_switch_request.
  destruct (switch_target a name) as [[[d cap] lt]|] eqn:Ht; [|done].
  apply switch_target_ok in Ht as (<- & _ & Ho & Hl). destruct (Hopen _ _ _ Ho) as (Hd & Hn & Hf & Hk).
  unfold coherent, live_coherent. cbn. rewrite <- Hk. done.
Qed.

Lemma drain_request_coherent a q st : opens_as_asked a → coherent st →
  ∃ st' es, drain_request a q st = Some (st', es) ∧ coherent st'.
Proof.
  intros Hopen Hc. unfold drain_request.
  destruct (source st) as [cap| |] eqn:Hs; [|by eauto..].
  destruct (device_for_reopen st) as [d|] eqn:Hd; [|by eauto].
  destruct q as [f|n|name]; cbn [apply_capture_config_request].
  - pose proof (set_filter_coherent a f cap d st Hs Hd Hc). destruct (set_filter _ _ _ _). eauto.
  - pose proof (set_snaplen_coherent a n cap d st Hs Hd Hopen Hc). destruct (set_snaplen _ _ _ _). eauto.
  - pose proof (switch_coherent a name st Hopen Hc). destruct (apply_interface_switch_request _ _ _). eauto.
Qed.

(** The state the capture thread starts with. *)
Definition initial_capture (r : ResolvedPacketSource) (max_flows max_names : Z) (stats : ServiceTimeStats) : Capture :=
  mkCapture _ (rs_source r) (rs_device_for_reopen r) (rs_link_type r) (rs_local_addrs r)
    (rs_interface_name r, default [] (head (rs_local_addrs r))) (rs_link_type r) DEFAULT_CONFIG
    (FlowTable.with_observed_name_capacity (FlowTable.new_with_capacity (rs_local_addrs r) max_flows) max_names)
    StreamReassembler.new (TransactionTracker.new stats).

Lemma initial_coherent host r max_flows max_names stats : resolve_packet_source host = Ok r →
  opens_as_asked (mkAnswers _ (h_devices host) (h_open_live host) (λ _ _, None)) →
  coherent (initial_capture r max_flows max_names stats).
Proof.
  intros Hr Hopen. destruct (resolve_cases _ _ Hr) as [Hl|(Hn & Hs)].
  - destruct (resolve_live_ok _ _ Hl) as (cap & d & Hsrc & Hd & _ & Ho & Hlt & Hname & Haddr & _).
    destruct (Hopen _ _ _ Ho) as (Hd1 & Hd2 & Hd3 & Hd4).
    unfold coherent, live_coherent. cbn. rewrite Hsrc, Hd. rewrite <- Hd4, Hname, Haddr. done.
  - unfold coherent. cbn. rewrite Hn. by destruct (rs_source r).
Qed.

(** After any sequence of filter, snap-length and interface requests, with
    any answers of libpcap, no request panics and the agent captures what it
    reports: the open handle is on the kept device with the reported snap length
    and filter, the link type is that device's, and flows are attributed with
    its addresses; a replay keeps its source and the default configuration. *)
Theorem capture_config_coherent host r max_flows max_names stats requests :
  resolve_packet_source host = Ok r →
  opens_as_asked (mkAnswers _ (h_devices host) (h_open_live host) (λ _ _, None)) →
  Forall (λ q, opens_as_asked q.1) requests →
  ∃ st es, drain requests (initial_capture r max_flows max_names stats) = Some (st, es) ∧ coherent st.
Proof.
  intros Hr Hopen Hq. pose proof (initial_coherent host r max_flows max_names stats Hr Hopen) as Hc.
  revert Hc. generalize (initial_capture r max_flows max_names stats). clear Hr Hopen.
  induction Hq as [|[a q] requests Ha _ IH]; intros st Hc; [by exists st, []|].
  destruct (drain_request_coherent a q st Ha Hc) as (st1 & es1 & Hd & Hc1).
  destruct (IH st1 Hc1) as (st2 & es2 & Hd2 & Hc2). exists st2, (es1 ++ es2).
  cbn [drain]. rewrite Hd. cbn. by rewrite Hd2.
Qed.

(** *** What a request asks for *)

(** The handle is on that device and captures with that snap length and filter. *)
Definition captures (cap : Handle) (d : Device) (snaplen : Z) (filter : option bytes) : Prop :=
  handle_device cap = d ∧ handle_snaplen cap = snaplen ∧ handle_filter cap = filter
  ∧ get_datalink cap = device_datalink d.

(** An empty filter captures everything. *)
Definition filter_of (filter : bytes) : option bytes := if bool_decide (filter = []) then None else Some filter.

(** When a request is accepted, on a handle [cap] of the device [d]. *)
Definition request_accepted (a : Answers) (q : CaptureConfigRequest) (cap : Handle) (d : Device) (st : Capture) : Prop :=
  match q with
  | SetFilter f => zlen f <= 1024 ∧ a_filter a cap f = None
  | SetSnaplenTo n =>
      0 < n <= I32_MAX ∧
      ∃ h, a_open a d n = Ok h ∧ ∀ expr, cc_filter (config st) = Some expr → a_filter a h expr = None
  | SwitchInterface name =>
      zlen name <= 256 ∧
      ∃ devices d' h lt, a_devices a = Ok devices ∧ find_device_by_name devices name = Some d' ∧ dev_addresses d' ≠ [] ∧
        a_open a d' DEFAULT_SNAPLEN = Ok h ∧ datalink_to_link_type (device_datalink d') = Some lt
  end.

(** What an accepted request makes of the state, and what it sends: every field
    that is not named is as it was. *)
Definition request_applied (a : Answers) (q : CaptureConfigRequest) (d : Device) (st st' : Capture)
    (es : list AgentEvent) : Prop :=
  match q with
  | SetFilter f =>
      let config' := mkCaptureConfigJson (filter_of f) (cc_snaplen (config st)) in
      es = [CaptureConfig config'] ∧
      ∃ cap', st' = st <| source := Live cap' |> <| config := config' |> ∧
        captures cap' d (cc_snaplen (config st)) (filter_of f)
  | SetSnaplenTo n =>
      let config' := mkCaptureConfigJson (cc_filter (config st)) n in
      es = [CaptureConfig config'] ∧
      ∃ cap', st' = st <| source := Live cap' |> <| config := config' |> ∧
        captures cap' d n (cc_filter (config st))
  | SwitchInterface name =>
      ∃ devices d' cap' lt, a_devices a = Ok devices ∧ find_device_by_name devices name = Some d' ∧ dev_name d' = name ∧
        datalink_to_link_type (device_datalink d') = Some lt ∧ captures cap' d' DEFAULT_SNAPLEN None ∧
        let addrs := dev_addresses d' in
        let ip := default [] (head addrs) in
        st' = mkCapture _ (Live cap') (Some d') lt addrs (name, ip) lt (mkCaptureConfigJson None DEFAULT_SNAPLEN)
          (flow_table st <| FlowTable.local_addrs := addrs |> <| FlowTable.observed_names ::= ObservedDnsNames.clear |>
             <| FlowTable.flows := ∅ |>)
          (StreamReassembler.reset (reassembly st)) (TransactionTracker.reset (transactions st)) ∧
        es = ((λ k, ConnectionClosed (connection_id k)) <$> (iter (FlowTable.flows (flow_table st))).*1)
               ++ [InterfaceChanged (mkInterfaceChangedJson name ip)]
  end.

(** The refusal a request is answered with, on a live capture. *)
Definition refused_with (a : Answers) (q : CaptureConfigRequest) (es : list AgentEvent) : Prop :=
  match q with
  | SetFilter f => ∃ e, es = [CaptureConfigError e] ∧
      (e = FilterTooLong (zlen f) ∨ ∃ m, e = InvalidFilter m)
  | SetSnaplenTo n => ∃ e, es = [CaptureConfigError e] ∧
      (e = SnaplenZero ∨ e = SnaplenOutOfRange n ∨ (∃ m, e = ReopenFailed n m) ∨ ∃ m, e = FilterNotReapplied n m)
  | SwitchInterface name => ∃ e, es = [InterfaceError e] ∧
      (e = NameTooLong (zlen name) ∨ (∃ m, e = DeviceListFailed m) ∨ e = NoSuchInterface name ∨ e = NoAddress name
       ∨ (∃ m, e = OpenFailed name m) ∨ e = UnknownLinkType name)
  end.

Definition applied_or_refused (a : Answers) (q : CaptureConfigRequest) (cap : Handle) (d : Device) (st st' : Capture)
    (es : list AgentEvent) : Prop :=
  (request_accepted a q cap d st ∧ request_applied a q d st st' es)
  ∨ (¬ request_accepted a q cap d st ∧ st' = st ∧ refused_with a q es).

Lemma set_filter_atomic a f cap d st : source st = Live cap → live_coherent cap d st →
  applied_or_refused a (SetFilter f) cap d st (set_filter a f cap st).1 (set_filter a f cap st).2.
Proof.
  intros Hs Hc. unfold set_filter, validate_capture_filter_len, applied_or_refused, MAX_CAPTURE_FILTER_LEN. cbn -[zlen].
  case_zb; [right; split_and!; [lia|done|eauto]|].
  destruct (a_filter a cap f) as [m|] eqn:Hf; [right; split_and!; [by intros [_ ?]|done|eauto]|].
  left. split; [split; [lia|done]|]. cbn. split; [done|]. exists (install_filter cap f). split; [done|].
  destruct Hc as (Hd & Hn & _ & Hl & _). unfold captures.
  by rewrite install_device, install_snaplen, install_datalink, install_replaces, Hd, Hn, Hl.
Qed.

Lemma set_snaplen_atomic a n cap d st : source st = Live cap → live_coherent cap d st → opens_as_asked a →
  applied_or_refused a (SetSnaplenTo n) cap d st (set_snaplen a n d st).1 (set_snaplen a n d st).2.
Proof.
  intros Hs Hc Hopen. unfold set_snaplen, validate_snaplen, applied_or_refused. cbn zeta.
  case_zb; [right; split_and!; [intros [? _]; lia|done|cbn; eauto 6]|].
  case_zb; [right; split_and!; [intros [? _]; lia|done|cbn; eauto 6]|]. cbn [result_bind].
  destruct (a_open a d n) as [h|m] eqn:Hh; cbn [map_err result_bind];
    [|right; split_and!; [intros (_ & h & Hh' & _); congruence|done|cbn; eauto 7]].
  destruct (reapply_filter _ _ _ _) as [h'|e] eqn:Hr.
  - left. split.
    + split; [lia|]. exists h. split; [done|]. intros expr He. unfold reapply_filter in Hr. rewrite He in Hr.
      by destruct (a_filter a h expr).
    + cbn. split; [by destruct st as [? ? ? ? ? ? [] ? ? ?]|]. exists h'.
      split; [by destruct st as [? ? ? ? ? ? [] ? ? ?]|]. destruct (Hopen _ _ _ Hh) as (Hd & Hn & Hf & Hl).
      destruct Hc as (_ & _ & _ & _ & _ & _ & _ & Hne).
      apply reapply_filter_ok in Hr as (Hr1 & Hr2 & Hr3 & Hr4); [|done..].
      split_and!; congruence.
  - right. unfold reapply_filter in Hr. destruct (cc_filter (config st)) as [expr|] eqn:He; [|done].
    destruct (a_filter a h expr) as [m|] eqn:Hf; [|done]. injection Hr as <-. split_and!.
    + intros (_ & h0 & Hh' & Hall). specialize (Hall expr He). congruence.
    + done.
    + cbn. eauto 8.
Qed.

Ltac not_accepted := intros (_ & ? & ? & ? & ? & ? & ? & ? & ? & ?); simplify_eq; congruence.

Lemma switch_atomic a name cap d st : opens_as_asked a →
  applied_or_refused a (SwitchInterface name) cap d st (apply_interface_switch_request a name st).1
    (apply_interface_switch_request a name st).2.
Proof.
  intros Hopen. unfold apply_interface_switch_request, applied_or_refused.
  destruct (switch_target a name) as [[[d' cap'] lt]|e] eqn:Ht.
  - left. pose proof (switch_target_ok _ _ _ _ _ Ht) as (Hn & Ha & Ho & Hl).
    destruct (Hopen _ _ _ Ho) as (Hd & Hsn & Hf & Hk). rewrite Hk in Hl.
    unfold switch_target, validate_interface_name_len, MAX_INTERFACE_NAME_LEN in Ht. revert Ht.
    case_zb; [done|]. cbn [result_bind]. destruct (a_devices a) as [ds|] eqn:Hds; [|done]. cbn [map_err result_bind].
    destruct (find_device_by_name ds name) as [d0|] eqn:Hfd; [|done]. cbn [ok_or result_bind].
    intros Ht. assert (d0 = d') as ->.
    { destruct (is_capturable d0); [|done]. cbn [negb] in Ht. destruct (a_open a d0 _) as [h|]; [|done].
      cbn [map_err result_bind] in Ht. destruct (ok_or _ _); [|done]. by injection Ht. }
    split; [split; [lia|]; by exists ds, d', cap', lt|].
    exists ds, d', cap', lt. cbn. split_and!; try done. f_equal. by rewrite <- list_fmap_compose.
  - right. unfold switch_target, validate_interface_name_len, MAX_INTERFACE_NAME_LEN in Ht. revert Ht.
    cbn -[zlen]. case_zb; [intros [= <-]; split_and!; [intros [? _]; lia|done|eauto 8]|]. cbn [result_bind].
    destruct (a_devices a) as [ds|m] eqn:Hds; cbn [map_err result_bind];
      [|intros [= <-]; split_and!; [not_accepted|done|eauto 8]].
    destruct (find_device_by_name ds name) as [d'|] eqn:Hfd; cbn [ok_or result_bind];
      [|intros [= <-]; split_and!; [not_accepted|done|eauto 8]].
    unfold is_capturable. case_bool_decide as Haddr; cbn [negb];
      [intros [= <-]; split_and!; [not_accepted|done|eauto 8]|].
    destruct (a_open a d' DEFAULT_SNAPLEN) as [h|m] eqn:Ho; cbn [map_err result_bind];
      [|intros [= <-]; split_and!; [not_accepted|done|eauto 9]].
    destruct (Hopen _ _ _ Ho) as (_ & _ & _ & Hk). rewrite Hk.
    destruct (datalink_to_link_type (device_datalink d')) as [l|] eqn:Hl; cbn [ok_or result_bind]; [done|].
    intros [= <-]. split_and!; [not_accepted|done|eauto 9].
Qed.

(** C15: A request is applied whole or not at all, and changes exactly what it
    names.  A live capture accepts a filter of at most 1024 bytes that libpcap
    takes, a snap length between 1 and 2^31 - 1 with which the device reopens
    and takes the current filter again, and a switch to an interface by a name
    of at most 256 bytes that is listed, has an address, opens, and has a link
    type the agent decodes.  An accepted filter leaves everything but the handle
    and the reported filter, and the handle captures on the same device with the
    same snap length and the new filter; a snap length likewise, the handle
    keeping the filter.  An accepted switch puts the handle on the new device
    with the default snap length and no filter, adopts its link type, name and
    addresses, restores the default configuration, closes every flow the table
    held, each once, and empties the reassembly and the pending transactions.  A
    refused request changes nothing and sends one error of its own kind, and a
    replay refuses all of them. *)
Theorem capture_request_atomic a q st : opens_as_asked a → coherent st →
  ∃ st' es, drain_request a q st = Some (st', es) ∧
    match source st, device_for_reopen st with
    | Live cap, Some d => applied_or_refused a q cap d st st' es
    | _, _ =>
        st' = st ∧ es = [match q with
                         | SwitchInterface _ => InterfaceError NoSwitchDuringReplay
                         | _ => CaptureConfigError NotDuringReplay
                         end]
    end.
Proof.
  intros Hopen (_ & _ & Hc). unfold drain_request.
  destruct (source st) as [cap| |] eqn:Hs; [|by eauto..].
  destruct (device_for_reopen st) as [d|] eqn:Hd; [|done].
  destruct q as [f|n|name]; cbn [apply_capture_config_request].
  - pose proof (set_filter_atomic a f cap d st Hs Hc). destruct (set_filter _ _ _ _). eauto.
  - pose proof (set_snaplen_atomic a n cap d st Hs Hc Hopen). destruct (set_snaplen _ _ _ _). eauto.
  - pose proof (switch_atomic a name cap d st Hopen). destruct (apply_interface_switch_request _ _ _). eauto.
Qed.
End coherence.

(** ** Examples *)

#[local] Existing Instance Startup.sample_pcap.

#[local] Instance sample_control : PcapControl :=
  @Build_PcapControl Startup.sample_pcap (λ h : Device * Z * option bytes, h.1.1) (λ h, h.1.2) (λ h, h.2) (λ _, 1)
    (λ h f, (h.1, if bool_decide (f = []) then None else Some f)).

#[local] Instance sample_control_laws : PcapControlLaws.
Proof. by constructor. Qed.

(** libpcap refuses the filter [bad]. *)
Definition sample_answers : Answers :=
  mkAnswers _ (Ok [sample_utun; sample_en0]) (λ d n, Ok (d, n, None))
    (λ _ f, if bool_decide (f = lit "bad") then Some (lit "syntax error") else None).

Lemma sample_opens : opens_as_asked sample_answers.
Proof. intros d n h [= <-]. done. Qed.

Definition sample_requests : list (Answers * CaptureConfigRequest) :=
  [(sample_answers, SetFilter (lit "tcp")); (sample_answers, SetSnaplenTo 96); (sample_answers, SetFilter (lit "bad"));
   (sample_answers, SetSnaplenTo 4000000000); (sample_answers, SwitchInterface (lit "utun8"))].

Definition sample_resolved : ResolvedPacketSource :=
  mkResolved (Live (sample_en0, 65535, None)) (lit "en0") [lit "10.0.0.2"] Ethernet (lit "live") None (Some sample_en0).

Definition sample_capture : Capture := initial_capture sample_resolved 10 10 Txn.empty_stats.

Lemma capture_config_coherent_witness :
  ∃ st es, drain sample_requests sample_capture = Some (st, es) ∧ coherent st.
Proof.
  apply (capture_config_coherent (sample_host None (Some (lit "en0")) None) sample_resolved).
  - vm_compute. reflexivity.
  - intros d n h [= <-]. done.
  - repeat (apply Forall_cons; split; [apply sample_opens|]). apply Forall_nil. done.
Defined.

Example sample_requests_run :
  match drain sample_requests sample_capture with
  | Some (st, es) =>
      config st = mkCaptureConfigJson (Some (lit "tcp")) 96 ∧ source st = Live (sample_en0, 96, Some (lit "tcp"))
      ∧ es = [CaptureConfig (mkCaptureConfigJson (Some (lit "tcp")) 65535);
              CaptureConfig (mkCaptureConfigJson (Some (lit "tcp")) 96);
              CaptureConfigError (InvalidFilter (lit "syntax error"));
              CaptureConfigError (SnaplenOutOfRange 4000000000);
              InterfaceError (NoAddress (lit "utun8"))]
  | None => False
  end.
Proof. vm_compute. auto. Qed.

Lemma sample_capture_coherent : coherent sample_capture.
Proof. vm_compute. split_and!; try reflexivity; discriminate. Qed.

(** A snap length on a capture with a filter: the new handle has both. *)
Definition sample_filtered : Capture := (set_filter sample_answers (lit "tcp") (sample_en0, 65535, None) sample_capture).1.

Lemma sample_filtered_coherent : coherent sample_filtered.
Proof. vm_compute. split_and!; try reflexivity; discriminate. Qed.

Lemma capture_request_atomic_witness :
  match drain_request sample_answers (SetSnaplenTo 96) sample_filtered with
  | Some (st', es) =>
      source st' = Live (sample_en0, 96, Some (lit "tcp")) ∧
      request_applied sample_answers (SetSnaplenTo 96) sample_en0 sample_filtered st' es
  | None => False
  end.
Proof.
  destruct (capture_request_atomic sample_answers (SetSnaplenTo 96) sample_filtered sample_opens sample_filtered_coherent)
    as (st' & es & Hd & Hcase).
  rewrite Hd. split; [revert Hd; vm_compute; by intros [= <- <-]|].
  destruct Hcase as [[_ Happlied]|[Hnot _]]; [exact Happlied|].
  exfalso. apply Hnot. split; [split; [reflexivity|by vm_compute]|].
  exists (sample_en0, 96, None). split; [reflexivity|]. intros expr [= <-]. reflexivity.
Defined.
