(* ===== verification/ControlTraffic.v ===== *)
(** * The agent's own control channel, kept out of the capture

    [exclude_live_control_capture] of [capture-agent/src/main.rs], with the
    parsing of textual addresses it uses from [std::net]. *)

From S2P Require Import Prelude Text Packet Traceroute Startup.

(** ** [str::parse::<IpAddr>] *)

Definition hex_value (b : Z) : option Z :=
  if in_range 48 57 b then Some (b - 48)
  else if in_range 97 102 b then Some (b - 87)
  else if in_range 65 70 b then Some (b - 55)
  else None.

(** One to four hexadecimal digits. *)
Definition parse_group (s : bytes) : option Z :=
  if (zlen s =? 0) || (4 <? zlen s) then None
  else foldl (λ acc b, a ← acc; d ← hex_value b; Some (a * 16 + d)) (Some 0) s.

(** Groups between colons; the last may be an IPv4 address, where allowed. *)
Fixpoint parse_groups (v4 : bool) (pieces : list bytes) : option (list Z) :=
  match pieces with
  | [] => Some []
  | [p] =>
      match parse_group p, v4, parse_ipv4 p with
      | Some g, _, _ => Some [g]
      | None, true, Some [a; b; c; d] => Some [be16 a b; be16 c d]
      | _, _, _ => None
      end
  | p :: pieces' => g ← parse_group p; gs ← parse_groups v4 pieces'; Some (g :: gs)
  end.

Definition parse_side (v4 : bool) (s : bytes) : option (list Z) :=
  if bool_decide (s = []) then Some [] else parse_groups v4 (split_from 58 [] s).

(** What is before and after the first double colon. *)
Fixpoint split_double (cur s : bytes) : option (bytes * bytes) :=
  match s with
  | 58 :: ((58 :: s') as _) => Some (cur, s')
  | b :: s' => split_double (cur ++ [b]) s'
  | [] => None
  end.

Definition parse_ipv6 (s : bytes) : option (list Z) :=
  match split_double [] s with
  | Some (l, r) =>
      gl ← parse_side false l; gr ← parse_side true r;
      if zlen gl + zlen gr <=? 7 then Some (gl ++ zreplicate (8 - zlen gl - zlen gr) 0 ++ gr) else None
  | None => gs ← parse_side true s; if zlen gs =? 8 then Some gs else None
  end.

(** [ip.parse::<IpAddr>().is_ok_and(|addr| addr.is_loopback())]. *)
Definition is_loopback (ip : bytes) : bool :=
  match parse_ipv4 ip with
  | Some octets => bool_decide (head octets = Some 127)
  | None => bool_decide (parse_ipv6 ip = Some [0; 0; 0; 0; 0; 0; 0; 1])
  end.

(** ** The exclusion *)

Definition LISTEN_ADDR : bytes := lit "127.0.0.1".
Definition LISTEN_PORT : Z := 9990.

Definition exclude_live_control_capture (p : ParsedPacket) (live : bool) : bool :=
  if negb live then false
  else if negb (is_loopback (src_ip p)) || negb (is_loopback (dst_ip p)) then false
  else if match ip_fragment p with Some f => frag_protocol f =? 6 | None => false end then
    bool_decide (src_ip p = LISTEN_ADDR) || bool_decide (dst_ip p = LISTEN_ADDR)
  else
    bool_decide (protocol p = Tcp)
    && ((bool_decide (src_ip p = LISTEN_ADDR) && bool_decide (src_port p = Some LISTEN_PORT))
        || (bool_decide (dst_ip p = LISTEN_ADDR) && bool_decide (dst_port p = Some LISTEN_PORT))).

(** ** Theorems *)

Example loopback_texts :
  (is_loopback <$> [lit "127.0.0.1"; lit "127.8.0.1"; lit "::1"; lit "0:0:0:0:0:0:0:1"; lit "::0.0.0.1";
                    lit "::ffff:127.0.0.1"; lit "128.0.0.1"; lit "::"; lit ":::1"; lit "1.2.3.4::"])
  = [true; true; true; true; true; false; false; false; false; false].
Proof. vm_compute. reflexivity. Qed.

(** A packet of a connection to the agent's listener: TCP, one end at
    127.0.0.1:9990 and the other on the loopback network; or a TCP fragment
    between such addresses, whose ports are unknown. *)
Definition of_control_channel (p : ParsedPacket) : Prop :=
  is_loopback (src_ip p) = true ∧ is_loopback (dst_ip p) = true ∧
  match ip_fragment p with
  | Some f => frag_protocol f = 6 ∧ (src_ip p = LISTEN_ADDR ∨ dst_ip p = LISTEN_ADDR)
              ∨ frag_protocol f ≠ 6 ∧ protocol p = Tcp
                ∧ (src_ip p = LISTEN_ADDR ∧ src_port p = Some LISTEN_PORT
                   ∨ dst_ip p = LISTEN_ADDR ∧ dst_port p = Some LISTEN_PORT)
  | None => protocol p = Tcp ∧ (src_ip p = LISTEN_ADDR ∧ src_port p = Some LISTEN_PORT
                                ∨ dst_ip p = LISTEN_ADDR ∧ dst_port p = Some LISTEN_PORT)
  end.

Lemma exclude_spec p : exclude_live_control_capture p true = true ↔ of_control_channel p.
Proof.
  unfold exclude_live_control_capture, of_control_channel. cbn [negb].
  destruct (is_loopback (src_ip p)), (is_loopback (dst_ip p)); cbn [negb orb]; try naive_solver.
  destruct (ip_fragment p) as [f|]; [destruct (Z.eqb_spec (frag_protocol f) 6)|];
    rewrite ?andb_true_iff, ?orb_true_iff, ?andb_true_iff, !bool_decide_eq_true; naive_solver.
Qed.
