(* ===== verification/CaptureLoop.v ===== *)
(** * The capture thread

    The loop of [capture-agent/src/main.rs] that reads frames and runs every
    analysis on them: decoding, reassembly and detection, the flow table,
    transactions, throughput counters, the capture file, decryption, and the
    events and findings sent to the clients.  A turn of the loop takes what the
    system answers during it (clocks, libpcap, the process map, the key-log
    files) as the record [Turn].  A turn that never ends, because an eviction
    loop of the decryption does not, is [None]. *)

From S2P Require Import Prelude Text ReplayClock Packet RateLimit RingBuffer L7Tls L7 Parse Fragments Sniff DnsNames Flow Pcapng Ring Transaction Keylog TlsDecrypt Http2 Decrypt Fields Wire ProcessLookup Startup CaptureConfig ControlTraffic.

(** ** Helpers *)

(** The only responses that feed the observed names. *)
Definition learnable_dns_response (l7 : L7Info) (event : TxnEvent) : option (bytes * list DnsAnswer) :=
  match l7, event with
  | L7DnsResponse query_name _ _ rcode _ answers, TxnAnswered TxnDns _ _ =>
      if rcode =? 0 then Some (query_name, answers) else None
  | _, _ => None
  end.

Definition link_type_debug (link_type : LinkType) : bytes :=
  match link_type with Ethernet => lit "Ethernet" | NullLoopback => lit "NullLoopback" | Raw => lit "Raw" end.

Definition malformed_frame_summary (link_type : LinkType) (frame_len : Z) : bytes :=
  dec frame_len ++ lit "-byte frame did not decode as " ++ link_type_debug link_type ++ lit " framing".

(** Bytes were lost when fewer were captured than the frame had. *)
Definition note_capture_truncation (captured_len original_len now_ms : Z) (r : StreamReassembler.t)
    : StreamReassembler.t * bool :=
  if captured_len <? original_len then (StreamReassembler.note_frame_cut_at_snaplen r now_ms, true) else (r, false).

Definition reassembly_now_ms (replaying : bool) (clock : ReplayClock.t) (timestamp agent_now_ms : Z) : ReplayClock.t * Z :=
  if replaying then ReplayClock.now_ms clock timestamp else (clock, agent_now_ms).

Definition flow_aging_now_ms (replaying : bool) (replay_now_ms agent_now_ms : Z) : Z :=
  if replaying then replay_now_ms else agent_now_ms.

(** How long a realtime replay sleeps before a frame. *)
Definition replay_pause (replaying : bool) (speed : ReplaySpeed) (previous : option Z) (timestamp : Z) : Z :=
  match replaying, speed, previous with
  | true, Realtime, Some prev =>
      match duration_since timestamp prev with Ok delta => Z.min delta 5000000000 | Err _ => 0 end
  | _, _, _ => 0
  end.

Definition finding_id (epoch_ms seq : Z) : bytes := lit "finding-" ++ dec epoch_ms ++ lit "-" ++ dec seq.
Definition packet_id (epoch_ms seq : Z) : bytes := lit "pkt-" ++ dec epoch_ms ++ lit "-" ++ dec seq.

Definition make_finding (epoch_ms seq : Z) (severity : Severity) (code : FindingCode) (summary : bytes)
    (frame flow : option bytes) : AgentEvent :=
  Finding (mkFindingJson (finding_id epoch_ms seq) (dec epoch_ms) severity code summary frame flow).

(** One finding per timed-out request the limiter lets through: the limiter, the
    next number and the events. *)
Fixpoint emit_unanswered_findings (expired : list Unanswered) (now_ms expiration_time_us : Z)
    (limiter : PacketEventLimiter.t) (seq : Z) : PacketEventLimiter.t * Z * list AgentEvent :=
  match expired with
  | [] => (limiter, seq, [])
  | u :: expired' =>
      let '(limiter, ok) := PacketEventLimiter.allow limiter now_ms in
      if ok then
        let '(limiter, seq', es) := emit_unanswered_findings expired' now_ms expiration_time_us limiter (seq + 1) in
        (limiter, seq',
         make_finding (expiration_time_us / 1000) seq SeverityWarning UnansweredRequest (unanswered_summary u)
           (un_request_frame_id u) (Some (un_flow_id u)) :: es)
      else emit_unanswered_findings expired' now_ms expiration_time_us limiter seq
  end.

(** [pcap::Stat]. *)
Record PcapStat := mkPcapStat { ps_received : Z; ps_dropped : Z; ps_if_dropped : Z }.

(** ** State *)

Record Totals := mkTotals { rx_bytes : Z; tx_bytes : Z; rx_packets : Z; tx_packets : Z }.
#[export] Instance eta_Totals : RecordEta Totals := λ t, mkTotals (rx_bytes t) (tx_bytes t) (rx_packets t) (tx_packets t).

Section loop.
Context `{PcapControl} `{VecPolicy} `{IterOrder} `{Ipv4Codec} `{Md5} `{Slicer}.
Context `{Hpack} `{TlsCrypto} `{Zeroizer} `{HexDecoder}.

Record Loop := mkLoop {
  capture : Capture;
  packet_event_limiter : PacketEventLimiter.t;
  finding_event_limiter : PacketEventLimiter.t;
  replay_clock : ReplayClock.t;
  previous_frame_timestamp : option Z;
  snaplen_truncation_warned : bool;
  last_stats_poll : Z;
  replay_flow_clock : Z;
  packet_seq : Z;
  finding_seq : Z;
  unparseable_frames : Z;
  totals : Totals;
  decryption : World;
  capture_stats : option PcapStat;
  writer : WriterThread.t
}.
#[export] Instance eta_Loop : RecordEta Loop := λ l,
  mkLoop (capture l) (packet_event_limiter l) (finding_event_limiter l) (replay_clock l) (previous_frame_timestamp l)
    (snaplen_truncation_warned l) (last_stats_poll l) (replay_flow_clock l) (packet_seq l) (finding_seq l)
    (unparseable_frames l) (totals l) (decryption l) (capture_stats l) (writer l).

(** What the system answers during a turn.  Instants are nanoseconds. *)
Record Turn := mkTurn {
  t_requests : list (Answers * CaptureConfigRequest);
  t_paused : bool;
  t_instant : Z;
  t_stats : result bytes PcapStat;
  t_live : LiveRead;
  t_wall : Z;
  t_now_ms : Z;
  t_processes : gmap Z ProcessInfo;
  t_keylogs : bytes → FileState;
  t_keylog_now : Z;
  t_mlock_ok : bool;
  t_fuel : nat
}.

(** ** A frame that was decoded and is analysed *)

(** The table after a frame: a completed fragment group is recorded once as a
    frame and attributed to its transport flow. *)
Definition observe_frame_in (replaying : bool) (table : FlowTable.t) (parsed : ParsedPacket) (outcome : SniffOutcome)
    (now_ms : Z) (ident : option (FlowKey * bool)) : FlowTable.t * option ObserveResult * option (FlowKey * bool) :=
  match reassembled_packet outcome with
  | Some reassembled =>
      let '(table, r) :=
        if replaying then FlowTable.observe_reassembled_replay table parsed reassembled (so_info outcome) now_ms
        else FlowTable.observe_reassembled table parsed reassembled (so_info outcome) now_ms in
      (table, r, FlowTable.key_for table reassembled)
  | None =>
      let '(table, r) :=
        if replaying then FlowTable.observe_replay table parsed (so_info outcome) now_ms
        else FlowTable.observe table parsed (so_info outcome) now_ms in
      (table, r, ident)
  end.

Definition count_throughput (r : option ObserveResult) (len : Z) (t : Totals) : Totals * Pcapng.Direction :=
  match is_outbound <$> r with
  | Some true => (t <| tx_bytes ::= Z.add len |> <| tx_packets ::= Z.succ |>, Outbound)
  | Some false => (t <| rx_bytes ::= Z.add len |> <| rx_packets ::= Z.succ |>, Inbound)
  | None => (t, Unknown)
  end.

(** A flow replaced on arrival takes its decryption with it. *)
Definition close_replaced (r : option ObserveResult) (w : World) : World * list AgentEvent :=
  match r ≫= closed_connection_id with
  | Some id =>
      let '(state, watcher) := remove_decrypt_connection (w_state w) (w_watcher w) id in
      (w <| w_state := state |> <| w_watcher := watcher |>, [ConnectionClosed id])
  | None => (w, [])
  end.

Definition learn_names (learnable : option (bytes * list DnsAnswer)) (now_ms : Z) (table : FlowTable.t) : FlowTable.t :=
  match learnable with
  | Some (query_name, answers) => FlowTable.learn_dns_response table query_name answers now_ms
  | None => table
  end.

Definition reset_finding (r : option ObserveResult) (epoch_ms seq : Z) : Z * list AgentEvent :=
  match r with
  | Some r =>
      if rst_transitioned r then
        (seq + 1, [make_finding epoch_ms seq SeverityNote ConnectionReset (lit "connection reset") None (obs_connection_id r)])
      else (seq, [])
  | None => (seq, [])
  end.

Definition is_retransmission (r : option ObserveResult) : bool :=
  match r with Some r => is_retransmit r | None => false end.

(** The packet event and what depends on it, when the limiter lets it through. *)
Definition emit_packet (l : Loop) (now_ms epoch_ms : Z) (parsed : ParsedPacket) (l7 : L7Info) (lt : LinkType)
    (from_reassembly : bool) (event : TxnEvent) (r : option ObserveResult) : Loop * list AgentEvent :=
  let '(limiter, ok) := PacketEventLimiter.allow (packet_event_limiter l) now_ms in
  let l := l <| packet_event_limiter := limiter |> in
  if negb ok then (l, [])
  else
    let frame_id := packet_id epoch_ms (packet_seq l) in
    let l := l <| packet_seq ::= Z.succ |> in
    let l :=
      match event with
      | TxnRequest request =>
          l <| capture ::= λ c, c <| transactions ::= λ t, TransactionTracker.attach_frame_id t request frame_id |> |>
      | _ => l
      end in
    let packet :=
      PacketEvent (build_packet_json (mkPacketEventMetadata frame_id epoch_ms now_ms) parsed l7 lt from_reassembly event) in
    if is_retransmission r then
      (l <| finding_seq ::= Z.succ |>,
       [packet; make_finding epoch_ms (finding_seq l) SeverityWarning Retransmission (lit "retransmitted segment")
                  (Some frame_id) None])
    else (l, [packet]).

(** From the flow's identity to the packet event.  [now_ms] is the agent's
    clock, [rnow] that of reassembly, [fnow] that of the flow table. *)
Definition analyse (replaying : bool) (t : Turn) (l : Loop) (parsed : ParsedPacket) (data : bytes) (lt : LinkType)
    (timestamp rnow fnow : Z) (truncated : bool) : option (Loop * list AgentEvent) :=
  let c := capture l in
  let now_ms := t_now_ms t in
  let epoch_ms := system_time_us timestamp / 1000 in
  let ts_us := system_time_us timestamp in
  let ident := FlowTable.key_for (flow_table c) parsed in
  let '(reassembly', outcome) :=
    StreamReassembler.sniff_with_flow_resolver (reassembly c) parsed ident rnow (FlowTable.key_for (flow_table c)) in
  let flow_packet := default parsed (reassembled_packet outcome) in
  let l7 := so_info outcome in
  let reassembly' := StreamReassembler.maybe_evict reassembly' rnow in
  let '(table, r, txn_flow) := observe_frame_in replaying (flow_table c) parsed outcome fnow ident in
  let clock := if replaying then fnow else replay_flow_clock l in
  let '(w, closed_events) := close_replaced r (decryption l) in
  let '(tracker, event) :=
    TransactionTracker.observe_frame (transactions c) txn_flow l7 ts_us (is_retransmission r) in
  let table := learn_names (learnable_dns_response l7 event) fnow table in
  let '(tracker, expired) := TransactionTracker.expire tracker ts_us in
  let '(limiter, seq, unanswered_events) :=
    emit_unanswered_findings expired now_ms ts_us (finding_event_limiter l) (finding_seq l) in
  let '(tot, direction) := count_throughput r (total_len flow_packet) (totals l) in
  let '(seq, reset_events) := reset_finding r epoch_ms seq in
  let wr := WriterThread.offer_packet (writer l) timestamp direction data in
  '(w, decrypt_events) ← try_decrypt_and_emit (t_fuel t) w parsed truncated (t_mlock_ok t) now_ms fnow (local_addrs c)
                           (proc_pid <$> t_processes t) table (t_keylogs t) (t_keylog_now t);
  let l :=
    l <| capture := c <| reassembly := reassembly' |> <| flow_table := table |> <| transactions := tracker |> |>
      <| replay_flow_clock := clock |> <| decryption := w |> <| finding_event_limiter := limiter |>
      <| finding_seq := seq |> <| totals := tot |> <| writer := wr |> in
  let '(l, packet_events) :=
    emit_packet l now_ms epoch_ms parsed l7 lt (bool_decide (is_Some (so_status outcome))) event r in
  Some (l, closed_events ++ unanswered_events ++ reset_events ++ (Decryption <$> decrypt_events) ++ packet_events).

(** ** A frame *)

Definition malformed_frame (t : Turn) (l : Loop) (lt : LinkType) (len epoch_ms : Z) : Loop * list AgentEvent :=
  let l := l <| unparseable_frames ::= Z.succ |> in
  let '(limiter, ok) := PacketEventLimiter.allow (finding_event_limiter l) (t_now_ms t) in
  let l := l <| finding_event_limiter := limiter |> in
  if ok then
    (l <| finding_seq ::= Z.succ |>,
     [make_finding epoch_ms (finding_seq l) SeverityWarning MalformedFrame (malformed_frame_summary lt len) None None])
  else (l, []).

(** What is noted of every frame before it is decoded: the replay clock, and
    whether its capture cut it. *)
Definition arrive (replaying : bool) (t : Turn) (l : Loop) (len timestamp original : Z) : Loop * Z * bool :=
  let l := if replaying then l <| previous_frame_timestamp := Some timestamp |> else l in
  let '(clock, rnow) := reassembly_now_ms replaying (replay_clock l) timestamp (t_now_ms t) in
  let '(r, truncated) := note_capture_truncation len original rnow (reassembly (capture l)) in
  (l <| replay_clock := clock |> <| capture ::= λ c, c <| reassembly := r |> |>
     <| snaplen_truncation_warned ::= orb truncated |>, rnow, truncated).

Definition handle_frame (replaying : bool) (t : Turn) (l : Loop) (data : bytes) (timestamp original : Z)
    (frame_link_type : option LinkType) : option (Loop * list AgentEvent) :=
  let lt := default (link_type (capture l)) frame_link_type in
  let '(l, rnow, truncated) := arrive replaying t l (zlen data) timestamp original in
  let fnow := flow_aging_now_ms replaying rnow (t_now_ms t) in
  match parse_packet_result data lt with
  | Err UnsupportedNonIp => Some (l, [])
  | Err Malformed => Some (malformed_frame t l lt (zlen data) (system_time_us timestamp / 1000))
  | Ok parsed =>
      if exclude_live_control_capture parsed (negb replaying) then Some (l, [])
      else analyse replaying t l parsed data lt timestamp rnow fnow truncated
  end.

(** ** The loop *)

(** Once a second a live handle is asked for its statistics. *)
Definition poll_stats (t : Turn) (l : Loop) : Loop :=
  match source (capture l) with
  | Live _ =>
      if 1000000000 <=? t_instant t - last_stats_poll l then
        let l := l <| last_stats_poll := t_instant t |> in
        match t_stats t with
        | Ok s => l <| capture_stats := Some s |>
                    <| writer ::= λ w, WriterThread.offer_stats w (ps_received s) (ps_dropped s) |>
        | Err _ => l
        end
      else l
  | _ => l
  end.

(** A live capture without traffic still times requests out. *)
Definition idle (replaying : bool) (t : Turn) (l : Loop) : Loop * list AgentEvent :=
  if replaying then (l, [])
  else
    let now_us := system_time_us (t_wall t) in
    let '(tracker, expired) := TransactionTracker.expire (transactions (capture l)) now_us in
    let '(limiter, seq, es) := emit_unanswered_findings expired (t_now_ms t) now_us (finding_event_limiter l) (finding_seq l) in
    (l <| capture ::= λ c, c <| transactions := tracker |> |> <| finding_event_limiter := limiter |>
       <| finding_seq := seq |>, es).

(** One turn: the new state, whether the thread goes on, and the events. *)
Definition turn (replaying : bool) (t : Turn) (l : Loop) : option (Loop * bool * list AgentEvent) :=
  '(c, es) ← drain (t_requests t) (capture l);
  let l := l <| capture := c |> in
  if t_paused t then Some (l, true, es)
  else
    let l := poll_stats t l in
    let '(src, frame) := next_frame (source (capture l)) (t_live t) (t_wall t) in
    let l := l <| capture ::= λ c, c <| source := src |> |> in
    match frame with
    | FrameBytes data timestamp original lt =>
        '(l, es') ← handle_frame replaying t l data timestamp original lt;
        Some (l, true, es ++ es')
    | FrameTimeout => let '(l, es') := idle replaying t l in Some (l, true, es ++ es')
    | ReplayError | FrameEof => Some (l, false, es)
    end.

(** The thread until it ends or the turns given are over. *)
Fixpoint run (replaying : bool) (turns : list Turn) (l : Loop) : option (Loop * list AgentEvent) :=
  match turns with
  | [] => Some (l, [])
  | t :: turns =>
      '(l, go, es) ← turn replaying t l;
      if (go : bool) then
        '(l, es') ← run replaying turns l;
        Some (l, es ++ es')
      else Some (l, es)
  end.

Definition initial_loop (c : Capture) (wr : WriterThread.t) (instant : Z) : Loop :=
  mkLoop c (PacketEventLimiter.new 100 1000) (PacketEventLimiter.new 20 1000) ReplayClock.default None false instant 0 0 0 0
    (mkTotals 0 0 0 0) (mkWorld ∅ KeyLogWatcher.new (PacketEventLimiter.new 100 1000)) None wr.
End loop.
