(* ===== verification/CaptureEvents.v ===== *)
(** * What the capture thread sends

    Theorems on the loop of [CaptureLoop]: the frames an event points at were
    sent before it, identifiers are unique, packet events are limited in rate,
    and the agent's own control channel leaves no trace. *)

From S2P Require Import Prelude Text ReplayClock Packet RateLimit RingBuffer L7Tls L7 Parse Fragments Sniff DnsNames Flow Pcapng Paths Ring Transaction Keylog TlsDecrypt Http2 Decrypt Fields Wire ProcessLookup Startup CaptureConfig ControlTraffic CaptureLoop.

(** ** Frames pending requests point at *)

Module Ids.
Import TransactionTracker.

Section ids.
Context `{IterOrder}.

(** A pending request points at the packet event [id]. *)
Definition held (st : t) (id : bytes) : Prop :=
  (∃ k p, dns st !! k = Some p ∧ frame_id p = Some id)
  ∨ (∃ k q p, http st !! k = Some q ∧ p ∈ q ∧ frame_id p = Some id).

(** What a transaction event says of earlier packet events. *)
Definition event_held (e : TxnEvent) (id : bytes) : Prop :=
  match e with TxnAnswered _ _ (Some i) => i = id | _ => False end.

Definition shrinks (st : t) (r : t * TxnEvent) : Prop :=
  (∀ id, held r.1 id → held st id) ∧ ∀ id, event_held r.2 id → held st id.

Lemma shrinks_same st st' e : dns st' = dns st → http st' = http st → (∀ id, event_held e id → held st id) →
  shrinks st (st', e).
Proof. intros Hd Hh He. split; [|done]. intros id. unfold held. cbn [fst]. by rewrite Hd, Hh. Qed.

Lemma dns_query_shrinks st key out name id qt ts : shrinks st (dns_query st key out name id qt ts).
Proof.
  unfold dns_query. destruct (negb _); [by apply shrinks_same|].
  case_bool_decide; [by apply shrinks_same|]. case_zb; [by apply shrinks_same|].
  split; [|done]. intros i [(k & p & Hk & Hp)|Hh]; [|by right]. left. cbn in Hk.
  apply lookup_insert_Some in Hk as [[<- <-]|[_ Hk]]; [done|eauto].
Qed.

Lemma dns_response_shrinks st key out name id ts : shrinks st (dns_response st key out name id ts).
Proof.
  unfold dns_response. destruct (negb _); [by apply shrinks_same|].
  destruct (dns st !! (key, id)) as [pending|] eqn:Hp; [|case_bool_decide; by apply shrinks_same].
  destruct (dns_matches pending out name); [|by apply shrinks_same]. split.
  - intros i [(k & p & Hk & Hi)|Hh].
    + left. exists k, p. split; [|done]. cbn in Hk. case_zb; cbn in Hk; by apply lookup_delete_Some in Hk as [_ Hk].
    + right. cbn in Hh. case_zb; exact Hh.
  - intros i. unfold answered. cbn [snd event_held]. destruct (frame_id pending) eqn:Hf; [|done]. intros ->.
    left. eauto.
Qed.

Lemma http_request_shrinks st key out m path ts : shrinks st (http_request st key out m path ts).
Proof.
  unfold http_request. destruct (_ || _); [by apply shrinks_same|]. split; [|done].
  intros i [Hd|(k & q & p & Hk & Hp & Hi)]; [by left|right]. cbn in Hk.
  apply lookup_insert_Some in Hk as [[<- <-]|[_ Hk]]; [|by eauto 6].
  apply elem_of_app in Hp as [Hp|Hp].
  - destruct (http st !! key) as [q|] eqn:Hq; cbn in Hp; [by eauto 6|by apply not_elem_of_nil in Hp].
  - apply list_elem_of_singleton in Hp as ->. done.
Qed.

Lemma http_response_shrinks st key out status ts : shrinks st (http_response st key out status ts).
Proof.
  unfold http_response. destruct (http st !! key) as [[|front q]|] eqn:Hq; [by apply shrinks_same| |by apply shrinks_same].
  destruct (eqb _ _); [by apply shrinks_same|]. destruct (is_interim status); [by apply shrinks_same|]. split.
  - intros i [Hd|(k & q' & p & Hk & Hp & Hi)]; [by left|right]. cbn in Hk. case_bool_decide.
    + apply lookup_delete_Some in Hk as [_ Hk]. eauto 6.
    + apply lookup_insert_Some in Hk as [[<- <-]|[_ Hk]]; [|by eauto 6].
      exists key, (front :: q), p. split_and!; [done|by right|done].
  - intros i. unfold answered. cbn [snd event_held]. destruct (frame_id front) eqn:Hf; [|done]. intros ->.
    right. exists key, (front :: q), front. split_and!; [done|by left|done].
Qed.

Lemma observe_frame_shrinks st flow l7 ts re : shrinks st (observe_frame st flow l7 ts re).
Proof.
  unfold observe_frame. destruct re; [by apply shrinks_same|]. destruct flow as [[key out]|]; [|by apply shrinks_same].
  destruct l7; [apply http_request_shrinks|apply http_response_shrinks|apply dns_query_shrinks|apply dns_response_shrinks|..];
    by apply shrinks_same.
Qed.

Lemma attach_in_held seq id q p : p ∈ attach_in seq id q → p ∈ q ∨ frame_id p = Some id.
Proof.
  induction q as [|x q IH]; cbn [attach_in]; [by left|]. destruct (http_seq x =? seq).
  - intros [->|Hp]%elem_of_cons; [by right|left; by right].
  - intros [->|Hp]%elem_of_cons; [left; by left|]. destruct (IH Hp); [left; by right|by right].
Qed.

Lemma attach_held st request fid id : held (attach_frame_id st request fid) id → held st id ∨ id = fid.
Proof.
  destruct request as [key tid|key seq]; cbn [attach_frame_id]; (intros [(k & p & Hk & Hp)|(k & q & p & Hk & Hq & Hp)]);
    cbn in Hk.
  - apply lookup_alter_Some in Hk as [(<- & p0 & Hp0 & ->)|[_ Hk]]; [right; cbn in Hp; congruence|left; left; by eauto].
  - left; right. by eauto 6.
  - left; left. by eauto.
  - apply lookup_alter_Some in Hk as [(<- & q0 & Hq0 & ->)|[_ Hk]]; [|left; right; by eauto 6].
    apply attach_in_held in Hq as [Hq|Hq]; [left; right; by eauto 6|right; congruence].
Qed.

Lemma deletes_lookup {K V} `{Countable K} (m : gmap K V) ks k v :
  foldl (λ m k, delete k m) m ks !! k = Some v → m !! k = Some v.
Proof.
  revert m. induction ks as [|x ks IH]; intros m; [done|]. cbn [foldl]. intros Hk%IH.
  by apply lookup_delete_Some in Hk as [_ ?].
Qed.

Lemma expire_held st now : (∀ id, held (expire st now).1 id → held st id) ∧
  Forall (λ u, ∀ id, un_request_frame_id u = Some id → held st id) (expire st now).2.
Proof.
  unfold expire. destruct (sweep_due st now); cbn [negb]; [|by split; [|constructor]]. cbn [fst snd]. split.
  - intros id [(k & p & Hk & Hp)|(k & q & p & Hk & Hq & Hp)]; cbn in Hk.
    + left. exists k, p. split; [|done]. by eapply deletes_lookup.
    + right. apply map_lookup_filter_Some in Hk as [Hk _]. rewrite lookup_fmap in Hk.
      destruct (http st !! k) as [q0|] eqn:Hq0; [|done]. cbn in Hk. injection Hk as <-.
      exists k, q0, p. split_and!; [done| |done]. rewrite <- (Txn.span_while_app (timed_out now TxnHttp) q0). set_solver.
  - apply Forall_app. split; apply Forall_fmap, Forall_forall.
    + intros [[key i] p] Hin id Hid. apply list_elem_of_filter in Hin as [_ Hin]. apply elem_of_iter in Hin. left. eauto.
    + intros [key p] Hin id Hid. unfold http_expired in Hin. apply list_elem_of_bind in Hin as ([k q] & Hin & Hkq).
      apply list_elem_of_fmap in Hin as (p0 & [= -> ->] & Hp0). apply elem_of_iter in Hkq. right.
      exists k, q, p0. split_and!; [done| |done]. rewrite <- (Txn.span_while_app (timed_out now TxnHttp) q). set_solver.
Qed.
End ids.
End Ids.

(** ** Packet events and what refers to them *)

Definition packet_ids (es : list AgentEvent) : list bytes :=
  omap (λ e, match e with PacketEvent p => Some (pj_id p) | _ => None end) es.

Definition finding_ids (es : list AgentEvent) : list bytes :=
  omap (λ e, match e with Finding f => Some (fj_id f) | _ => None end) es.

Definition packet_times (es : list AgentEvent) : list Z :=
  omap (λ e, match e with PacketEvent p => Some (pj_relative_time_ms p) | _ => None end) es.

Definition RESPONSE_TO : list bytes := [lit "dns.response_to"; lit "http.response_to"].

(** The event refers to the packet event [id]. *)
Definition mentions (e : AgentEvent) (id : bytes) : Prop :=
  match e with
  | Finding f => fj_frame_id f = Some id
  | PacketEvent p => ∃ f, f ∈ pj_fields p ∧ Field.path f ∈ RESPONSE_TO ∧ Field.value f = Some (FieldValue.Str id)
  | _ => False
  end.

(** Each event refers only to packet events of [sent] or earlier ones. *)
Fixpoint sourced (sent : list bytes) (es : list AgentEvent) : Prop :=
  match es with
  | [] => True
  | e :: es' => (∀ id, mentions e id → id ∈ sent) ∧ sourced (sent ++ packet_ids [e]) es'
  end.

Lemma packet_ids_app es es' : packet_ids (es ++ es') = packet_ids es ++ packet_ids es'.
Proof. apply omap_app. Qed.
Lemma finding_ids_app es es' : finding_ids (es ++ es') = finding_ids es ++ finding_ids es'.
Proof. apply omap_app. Qed.
Lemma packet_times_app es es' : packet_times (es ++ es') = packet_times es ++ packet_times es'.
Proof. apply omap_app. Qed.

Lemma sourced_app sent es es' : sourced sent (es ++ es') ↔ sourced sent es ∧ sourced (sent ++ packet_ids es) es'.
Proof.
  revert sent. induction es as [|e es IH]; intros sent; cbn [app sourced].
  - change (packet_ids []) with (@nil bytes). rewrite app_nil_r. tauto.
  - change (packet_ids (e :: es)) with (packet_ids ([e] ++ es)). rewrite IH, packet_ids_app, (assoc_L (++)). tauto.
Qed.

Lemma sourced_mono sent sent' es : sent ⊆ sent' → sourced sent es → sourced sent' es.
Proof.
  revert sent sent'. induction es as [|e es IH]; intros sent sent' Hs; [done|]. intros [He Hes].
  split; [set_solver|]. eapply IH; [|exact Hes]. set_solver.
Qed.

Lemma sourced_earlier sent es1 e es2 id : sourced sent (es1 ++ e :: es2) → mentions e id → id ∈ sent ++ packet_ids es1.
Proof. rewrite sourced_app. intros [_ [He _]]. apply He. Qed.

(** Events that are neither findings nor packets. *)
Definition plain (e : AgentEvent) : Prop := match e with Finding _ | PacketEvent _ => False | _ => True end.

Lemma plain_ids es : Forall plain es → packet_ids es = [] ∧ finding_ids es = [] ∧ packet_times es = [] ∧ ∀ sent, sourced sent es.
Proof.
  induction 1 as [|e es He _ (IH1 & IH2 & IH3 & IH4)]; [done|]. unfold packet_ids, finding_ids, packet_times in *.
  destruct e; try done; cbn [omap list_omap sourced]; (split_and!; [done..|]); intros sent; (split; [done|apply IH4]).
Qed.

Lemma app_paths_elem l7 n off q : q ∈ paths (app_fields l7 n off) →
  q ∈ APP_PATHS ∨ ∃ j s, q = (lit "dns.answer." ++ dec j) ++ s.
Proof.
  destruct (app_paths l7 n off) as (fixed & -> & Hf & _). rewrite fmap_app, elem_of_app. intros [Hq|Hq].
  - left. by eapply elem_of_submseteq.
  - right. apply answers_paths_elem in Hq as (j & s & _ & _ & ->). eauto.
Qed.

Lemma build_paths_elem p l7 lt q : q ∈ paths (build_fields p l7 lt) →
  q ∈ ETH_PATHS ++ IP_PATHS ++ TRANSPORT_PATHS ++ APP_PATHS ∨ ∃ j s, q = (lit "dns.answer." ++ dec j) ++ s.
Proof.
  unfold build_fields. rewrite !elem_of_app.
  destruct (if bool_decide (lt = Ethernet) then eth_fields p else ([], 0)) as [eth start] eqn:He.
  assert (paths eth ⊆+ ETH_PATHS) as Heth.
  { destruct (bool_decide (lt = Ethernet)).
    - destruct (eth_paths p) as [Hp _]. by rewrite He in Hp.
    - injection He as <- _. apply submseteq_nil_l. }
  destruct (ip_paths p start) as [Hip _]. destruct (ip_fields p start) as [ip tstart].
  destruct (transport_paths p tstart) as [Htr _]. cbn [fst] in Hip.
  rewrite !fmap_app, !elem_of_app. intros [Hq|[Hq|[Hq|Hq]]]; [left..|].
  - left. by eapply elem_of_submseteq.
  - right; left. by eapply elem_of_submseteq.
  - right; right; left. by eapply elem_of_submseteq.
  - apply app_paths_elem in Hq as [Hq|Hq]; [left; tauto|by right].
Qed.

Lemma packet_paths_elem p l7 lt re q : q ∈ paths (build_packet_fields p l7 lt re) →
  q ∈ ETH_PATHS ++ IP_PATHS ++ TRANSPORT_PATHS ++ APP_PATHS ∨ ∃ j s, q = (lit "dns.answer." ++ dec j) ++ s.
Proof.
  unfold build_packet_fields. destruct re; [|apply build_paths_elem]. rewrite fmap_app, elem_of_app.
  intros [Hq|Hq]; [by eapply build_paths_elem|]. destruct (bool_decide _ && _); [|by apply not_elem_of_nil in Hq].
  rewrite <- list_fmap_compose in Hq. change (Field.path ∘ without_range) with Field.path in Hq.
  apply app_paths_elem in Hq as [Hq|Hq]; [left; rewrite !elem_of_app; tauto|by right].
Qed.

(** Only the transaction fields of a packet say what it responds to. *)
Lemma response_field_is_transaction p l7 lt re event id f :
  f ∈ build_packet_fields p l7 lt re ++ transaction_fields event → Field.path f ∈ RESPONSE_TO →
  Field.value f = Some (FieldValue.Str id) → Ids.event_held event id.
Proof.
  intros [Hf|Hf]%elem_of_app Hpath Hv.
  - exfalso. assert (Field.path f ∈ paths (build_packet_fields p l7 lt re)) as Hin by by apply list_elem_of_fmap_2.
    apply packet_paths_elem in Hin as [Hin|(j & s & Hj)].
    + revert Hpath Hin. generalize (Field.path f). intros q Hq Hin.
      assert (Forall (λ q, q ∉ ETH_PATHS ++ IP_PATHS ++ TRANSPORT_PATHS ++ APP_PATHS) RESPONSE_TO) as Hdis by decide_paths.
      rewrite Forall_forall in Hdis. exact (Hdis q Hq Hin).
    + rewrite Hj in Hpath. unfold RESPONSE_TO in Hpath.
      apply elem_of_cons in Hpath as [E|Hpath]; [by apply (f_equal (λ l, nth 4 l 0)) in E|].
      apply list_elem_of_singleton in Hpath. by apply (f_equal (λ l, nth 0 l 0)) in Hpath.
  - destruct event as [| | | |proto t o| | |]; cbn in Hf; try (by apply not_elem_of_nil in Hf).
    + destruct o as [i|]; destruct proto; repeat (apply elem_of_cons in Hf as [->|Hf]); try (by apply not_elem_of_nil in Hf);
        cbn in Hv; cbn; congruence.
    + apply list_elem_of_singleton in Hf as ->. done.
Qed.

(** ** Steps on the part of the state that identifiers depend on *)

Record View := mkView {
  v_tracker : TransactionTracker.t;
  v_limiter : PacketEventLimiter.t;
  v_packet_seq : Z;
  v_finding_seq : Z
}.

(** Identifiers with consecutive numbers. *)
Fixpoint numbered (mk : Z → Z → bytes) (start : Z) (epochs : list Z) : list bytes :=
  match epochs with [] => [] | e :: epochs' => mk e start :: numbered mk (start + 1) epochs' end.

Lemma numbered_app mk start l l' : numbered mk start (l ++ l') = numbered mk start l ++ numbered mk (start + zlen l) l'.
Proof.
  revert start. induction l as [|e l IH]; intros start; cbn [app numbered length]; [by rewrite Z.add_0_r|].
  rewrite IH. do 3 f_equal. lia.
Qed.

Definition known (sent : list bytes) (v : View) : Prop := ∀ id, Ids.held (v_tracker v) id → id ∈ sent.

(** The events of a step from one view to another, after the packet events
    [sent]. *)
Record step (sent : list bytes) (v : View) (es : list AgentEvent) (v' : View) : Prop := {
  step_sourced : sourced sent es;
  step_known : known (sent ++ packet_ids es) v';
  step_packets : ∃ epochs, packet_ids es = numbered packet_id (v_packet_seq v) epochs
                           ∧ v_packet_seq v' = v_packet_seq v + zlen epochs;
  step_findings : ∃ epochs, finding_ids es = numbered finding_id (v_finding_seq v) epochs
                            ∧ v_finding_seq v' = v_finding_seq v + zlen epochs;
  step_limited : ∀ i, PacketEventLimiter.min_interval_ms (v_limiter v) = Some i → 0 < i →
    PacketEventLimiter.min_interval_ms (v_limiter v') = Some i ∧
    ∀ rest, spaced i (PacketEventLimiter.last_allowed_ms (v_limiter v')) rest →
            spaced i (PacketEventLimiter.last_allowed_ms (v_limiter v)) (packet_times es ++ rest)
}.

Lemma step_trans sent v es v1 es' v2 :
  step sent v es v1 → step (sent ++ packet_ids es) v1 es' v2 → step sent v (es ++ es') v2.
Proof.
  intros [S1 K1 (p1 & P1 & Q1) (f1 & F1 & G1) L1] [S2 K2 (p2 & P2 & Q2) (f2 & F2 & G2) L2]. split.
  - by apply sourced_app.
  - by rewrite packet_ids_app, (assoc_L (++)).
  - exists (p1 ++ p2). rewrite packet_ids_app, P1, P2, numbered_app, Q1, length_app. split; [done|lia].
  - exists (f1 ++ f2). rewrite finding_ids_app, F1, F2, numbered_app, G1, length_app. split; [done|lia].
  - intros i Hi Hpos. destruct (L1 i Hi Hpos) as [Hi1 Hs1]. destruct (L2 i Hi1 Hpos) as [Hi2 Hs2].
    split; [done|]. intros rest Hrest. rewrite packet_times_app, <- (assoc_L (++)). auto.
Qed.

(** A step that changes pending requests to known ones and sends plain events. *)
Lemma step_plain sent v es tracker : Forall plain es → known sent (mkView tracker (v_limiter v) (v_packet_seq v) (v_finding_seq v)) →
  step sent v es (mkView tracker (v_limiter v) (v_packet_seq v) (v_finding_seq v)).
Proof.
  intros Hes Hk. destruct (plain_ids es Hes) as (P & F & T & S). split; [done|by rewrite P, app_nil_r| | |].
  - exists []. cbn. split; [done|lia].
  - exists []. cbn. split; [done|lia].
  - intros i Hi _. by rewrite T.
Qed.

Lemma step_refl sent v es : Forall plain es → known sent v → step sent v es v.
Proof. intros Hes Hk. destruct v. by apply (step_plain sent (mkView _ _ _ _)). Qed.

(** A finding that refers to nothing, or to what was sent. *)
Lemma step_finding sent v epoch severity code summary frame flow :
  known sent v → (∀ id, frame = Some id → id ∈ sent) →
  step sent v [make_finding epoch (v_finding_seq v) severity code summary frame flow]
    (mkView (v_tracker v) (v_limiter v) (v_packet_seq v) (v_finding_seq v + 1)).
Proof.
  intros Hk Hf. split.
  - cbn. split; [by apply Hf|done].
  - intros id Hid. cbn. rewrite app_nil_r. by apply Hk.
  - exists []. cbn. split; [done|lia].
  - by exists [epoch].
  - intros i Hi _. done.
Qed.

Lemma step_unanswered sent v expired now us limiter limiter' seq' es :
  emit_unanswered_findings expired now us limiter (v_finding_seq v) = (limiter', seq', es) →
  known sent v → Forall (λ u, ∀ id, un_request_frame_id u = Some id → id ∈ sent) expired →
  step sent v es (mkView (v_tracker v) (v_limiter v) (v_packet_seq v) seq') ∧ packet_ids es = [].
Proof.
  intros Hem Hk Hf. revert v limiter es Hem Hk.
  induction Hf as [|u expired Hu Hf IH]; intros v limiter es; cbn [emit_unanswered_findings].
  { intros [= <- <- <-] Hk. split; [|done]. destruct v. by apply step_refl. }
  destruct (PacketEventLimiter.allow limiter now) as [l1 ok]. destruct ok; [|apply IH].
  destruct (emit_unanswered_findings _ _ _ _ _) as [[l2 s2] es2] eqn:Hrec. intros [= <- <- <-] Hk.
  destruct (IH (mkView (v_tracker v) (v_limiter v) (v_packet_seq v) (v_finding_seq v + 1)) l1 es2 Hrec Hk) as [Hs Hids].
  split; [|exact Hids].
  apply (step_trans sent v [_] (mkView (v_tracker v) (v_limiter v) (v_packet_seq v) (v_finding_seq v + 1)));
    [by apply step_finding|]. cbn [packet_ids omap list_omap]. by rewrite app_nil_r.
Qed.

(** The parts of an analysis that went through, one after the other. *)
Ltac open_analyse :=
  unfold analyse;
  destruct (StreamReassembler.sniff_with_flow_resolver _ _ _ _ _) as [r1 outcome] eqn:Hsn;
  destruct (observe_frame_in _ _ _ _ _ _) as [[table r] txn_flow] eqn:Hof;
  destruct (close_replaced r _) as [w ce] eqn:Hce;
  destruct (TransactionTracker.observe_frame _ _ _ _ _) as [tr1 event] eqn:Hobs;
  destruct (TransactionTracker.expire tr1 _) as [tr2 expired] eqn:Hexp;
  destruct (emit_unanswered_findings _ _ _ _ _) as [[lim seq] ue] eqn:Hun;
  destruct (count_throughput _ _ _) as [tot dir] eqn:Hct;
  destruct (reset_finding r _ seq) as [seq2 re] eqn:Hre;
  destruct (try_decrypt_and_emit _ _ _ _ _ _ _ _ _ _ _ _) as [[w2 de]|] eqn:Hde; [|done];
  cbn [mbind option_bind];
  destruct (emit_packet _ _ _ _ _ _ _ _ _) as [l2 pe] eqn:Hpe;
  intros [= <- <-].

Section turns.
Context `{PcapControl} `{VecPolicy} `{IterOrder} `{Ipv4Codec} `{Md5} `{Slicer}.
Context `{Hpack} `{TlsCrypto} `{Zeroizer} `{HexDecoder}.

Definition view (l : Loop) : View :=
  mkView (transactions (capture l)) (packet_event_limiter l) (packet_seq l) (finding_seq l).

Lemma spaced_cons_allowed i from now rest :
  (match from with Some y => y + i <= now | None => True end) → spaced i (Some now) rest → spaced i from (now :: rest).
Proof. done. Qed.

(** The limiter either refuses and is unchanged, or lets a spaced event by. *)
Lemma allow_spaced lim now lim' ok i : PacketEventLimiter.allow lim now = (lim', ok) →
  PacketEventLimiter.min_interval_ms lim = Some i → 0 < i →
  PacketEventLimiter.min_interval_ms lim' = Some i ∧
  (if ok then PacketEventLimiter.last_allowed_ms lim' = Some now
              ∧ match PacketEventLimiter.last_allowed_ms lim with Some y => y + i <= now | None => True end
   else lim' = lim).
Proof.
  unfold PacketEventLimiter.allow. intros Ha Hi Hpos. rewrite Hi in Ha. injection Ha as <- <-.
  destruct (PacketEventLimiter.last_allowed_ms lim) as [y|] eqn:Hl; [|done].
  destruct (Z.leb_spec i (sat_sub now y)) as [Hd|]; cbn; [|done]. split; [done|]. split; [done|]. unfold sat_sub in Hd. lia.
Qed.

Lemma step_emit_packet sent l now epoch parsed l7 lt re event r l' es :
  emit_packet l now epoch parsed l7 lt re event r = (l', es) →
  known sent (view l) → (∀ id, Ids.event_held event id → id ∈ sent) → step sent (view l) es (view l').
Proof.
  unfold emit_packet. destruct (PacketEventLimiter.allow _ now) as [lim ok] eqn:Ha.
  pose proof (λ i, allow_spaced _ _ _ _ i Ha) as Hal.
  intros Hout Hk Hev. destruct ok; cbn [negb] in Hout.
  2: { injection Hout as <- <-. split; [done|by intros id Hid; rewrite app_nil_r; apply Hk|by exists []; cbn; split; [|lia]..|].
       intros i Hi Hpos. destruct (Hal i Hi Hpos) as [Hm ->]. done. }
  set (fid := packet_id epoch (packet_seq l)) in *. set (pj := build_packet_json _ _ _ _ _ _) in *.
  set (l1 := match event with TxnRequest _ => _ | _ => _ end) in *.
  assert (packet_seq l1 = packet_seq l + 1 ∧ finding_seq l1 = finding_seq l ∧ packet_event_limiter l1 = lim) as (E1 & E2 & E3)
    by (unfold l1; destruct event; split_and!; reflexivity).
  assert (∀ id, Ids.held (transactions (capture l1)) id → Ids.held (transactions (capture l)) id ∨ id = fid) as Hheld.
  { intros id. unfold l1. destruct event; try (by left). cbn. apply Ids.attach_held. }
  assert (step sent (view l) [PacketEvent pj] (view l1)) as Hstep.
  { split.
    - cbn. split; [|done]. intros id (f & Hf & Hp & Hv). apply Hev. by eapply response_field_is_transaction.
    - intros id Hid. apply elem_of_app. destruct (Hheld id Hid) as [Hh| ->]; [left; by apply Hk|right; by left].
    - exists [epoch]. cbn. rewrite E1. done.
    - exists []. cbn. rewrite E2. split; [done|lia].
    - intros i Hi Hpos. destruct (Hal i Hi Hpos) as (Hm & Hlast & Hprev). cbn. rewrite E3. split; [done|].
      intros rest. rewrite Hlast. by apply spaced_cons_allowed. }
  destruct (is_retransmission r); injection Hout as <- <-; [|exact Hstep].
  eapply (step_trans sent (view l) [PacketEvent pj] (view l1) [_]); [exact Hstep|].
  apply (step_finding _ (view l1)); [by destruct Hstep|]. intros id [= <-]. apply elem_of_app. right. by left.
Qed.

Lemma step_reset_finding sent v r epoch seq' es : reset_finding r epoch (v_finding_seq v) = (seq', es) →
  known sent v → step sent v es (mkView (v_tracker v) (v_limiter v) (v_packet_seq v) seq') ∧ packet_ids es = [].
Proof.
  unfold reset_finding. intros Hr Hk. destruct r as [r|]; [destruct (rst_transitioned r)|]; injection Hr as <- <-;
    (split; [|done]); [by apply step_finding|destruct v; by apply step_refl..].
Qed.

Lemma plain_decryption es : Forall plain (Decryption <$> es).
Proof. apply Forall_fmap, Forall_true. done. Qed.

Lemma plain_closed r w : Forall plain (close_replaced r w).2.
Proof.
  unfold close_replaced. destruct (r ≫= closed_connection_id) as [id|]; [|constructor].
  destruct (remove_decrypt_connection _ _ _). by repeat constructor.
Qed.

Lemma step_analyse sent replaying t l parsed data lt ts rnow fnow tr l' es :
  analyse replaying t l parsed data lt ts rnow fnow tr = Some (l', es) → known sent (view l) →
  step sent (view l) es (view l').
Proof.
  intros Han Hk. revert Han. open_analyse.
  pose proof (Ids.observe_frame_shrinks (transactions (capture l)) txn_flow (so_info outcome) (system_time_us ts) (is_retransmission r))
    as [Hsh Hev]. rewrite Hobs in Hsh, Hev. cbn [fst snd] in Hsh, Hev.
  pose proof (Ids.expire_held tr1 (system_time_us ts)) as [Hex Hexf]. rewrite Hexp in Hex, Hexf. cbn [fst snd] in Hex, Hexf.
  pose proof (plain_closed r (decryption l)) as Hpc. rewrite Hce in Hpc. cbn [snd] in Hpc.
  destruct (plain_ids ce Hpc) as (Hpi & _). destruct (plain_ids _ (plain_decryption de)) as (Hpd & _).
  assert (known sent (mkView tr2 (packet_event_limiter l) (packet_seq l) (finding_seq l))) as Hk2
    by (intros id Hid; apply Hk, Hsh, Hex, Hid).
  assert (Forall (λ u, ∀ id, un_request_frame_id u = Some id → id ∈ sent) expired) as Hf.
  { eapply Forall_impl; [exact Hexf|]. intros u Hu id Hid. apply Hk, Hsh, (Hu id Hid). }
  destruct (step_unanswered sent (mkView tr2 (packet_event_limiter l) (packet_seq l) (finding_seq l)) _ _ _ _ _ _ _ Hun Hk2 Hf)
    as [S2 P2].
  destruct (step_reset_finding sent (mkView tr2 (packet_event_limiter l) (packet_seq l) seq) _ _ _ _ Hre Hk2) as [S3 P3].
  eapply step_trans; [apply (step_plain sent (view l) ce tr2); [done|exact Hk2]|]. rewrite Hpi, app_nil_r.
  eapply step_trans; [exact S2|]. rewrite P2, app_nil_r.
  eapply step_trans; [exact S3|]. rewrite P3, app_nil_r.
  eapply step_trans; [apply step_refl; [apply plain_decryption|exact Hk2]|]. rewrite Hpd, app_nil_r.
  eapply step_emit_packet in Hpe; [exact Hpe|exact Hk2|]. intros id Hid. by apply Hk, Hev.
Qed.

(** Arrival touches only the clocks and the count of cut frames. *)
Lemma arrive_view replaying t l len ts orig l' rnow tr :
  arrive replaying t l len ts orig = (l', rnow, tr) → view l' = view l.
Proof.
  unfold arrive. destruct (reassembly_now_ms _ _ _ _) as [clock now]. destruct (note_capture_truncation _ _ _ _) as [r b].
  intros [= <- <- <-]. by destruct replaying.
Qed.

Lemma step_malformed sent t l lt len epoch l' es : malformed_frame t l lt len epoch = (l', es) → known sent (view l) →
  step sent (view l) es (view l').
Proof.
  unfold malformed_frame. destruct (PacketEventLimiter.allow _ _) as [lim ok]. intros Hm Hk.
  destruct ok; injection Hm as <- <-; [by apply (step_finding sent (view l))|by apply step_refl].
Qed.

Lemma step_handle sent replaying t l data ts orig flt l' es :
  handle_frame replaying t l data ts orig flt = Some (l', es) → known sent (view l) → step sent (view l) es (view l').
Proof.
  unfold handle_frame. destruct (arrive replaying t l _ ts orig) as [[l1 rnow] tr] eqn:Ha.
  apply arrive_view in Ha. rewrite <- Ha. intros Hh Hk.
  destruct (parse_packet_result data _) as [parsed|[]].
  - destruct (exclude_live_control_capture _ _); [injection Hh as <- <-; by apply step_refl|by eapply step_analyse].
  - injection Hh as Hh. by eapply step_malformed.
  - injection Hh as <- <-. by apply step_refl.
Qed.

Lemma step_idle sent replaying t l l' es : idle replaying t l = (l', es) → known sent (view l) →
  step sent (view l) es (view l').
Proof.
  unfold idle. intros Hi Hk. destruct replaying; [injection Hi as <- <-; by apply step_refl|].
  destruct (TransactionTracker.expire _ _) as [tr expired] eqn:Hexp.
  destruct (emit_unanswered_findings _ _ _ _ _) as [[lim seq] ue] eqn:Hun. injection Hi as <- <-.
  pose proof (Ids.expire_held (transactions (capture l)) (system_time_us (t_wall t))) as [Hex Hexf].
  rewrite Hexp in Hex, Hexf. cbn [fst snd] in Hex, Hexf.
  assert (known sent (mkView tr (packet_event_limiter l) (packet_seq l) (finding_seq l))) as Hk2
    by (intros id Hid; apply Hk, Hex, Hid).
  apply (step_trans sent (view l) [] (mkView tr (packet_event_limiter l) (packet_seq l) (finding_seq l)));
    [by apply (step_plain sent (view l) [] tr)|]. rewrite app_nil_r.
  refine (proj1 (step_unanswered sent (mkView tr (packet_event_limiter l) (packet_seq l) (finding_seq l)) _ _ _ _ _ _ _ Hun Hk2 _)).
  eapply Forall_impl; [exact Hexf|]. intros u Hu id Hid. by apply Hk, (Hu id).
Qed.

Lemma plain_singleton e : plain e → Forall plain [e].
Proof. intros He. by apply Forall_singleton. Qed.

Ltac one_plain := split; [by apply plain_singleton|done].

Lemma plain_drain_request a q c c' es : drain_request a q c = Some (c', es) →
  Forall plain es ∧ ∀ id, Ids.held (transactions c') id → Ids.held (transactions c) id.
Proof.
  unfold drain_request. destruct (source c); [|intros [= <- <-]; destruct q; one_plain..].
  destruct (device_for_reopen c); [|intros [= <- <-]; destruct q; one_plain].
  destruct q as [f|n|name]; cbn [apply_capture_config_request]; intros [= Hq].
  - unfold set_filter in Hq. destruct (validate_capture_filter_len f); [|simplify_eq; one_plain].
    destruct (a_filter a _ f); simplify_eq; one_plain.
  - unfold set_snaplen in Hq. cbn zeta in Hq. destruct (let? snaplen := _ in _); simplify_eq; one_plain.
  - unfold apply_interface_switch_request in Hq. destruct (switch_target a name) as [[[d' cap'] lt]|];
      [|simplify_eq; one_plain]. unfold FlowTable.reset in Hq. simplify_eq. split.
    + apply Forall_app. split; [apply Forall_fmap, Forall_true; done|by apply plain_singleton].
    + intros id [(k & p & Hk & _)|(k & q & p & Hk & _)]; cbn in Hk; by rewrite lookup_empty in Hk.
Qed.

Lemma plain_drain requests c c' es : drain requests c = Some (c', es) →
  Forall plain es ∧ ∀ id, Ids.held (transactions c') id → Ids.held (transactions c) id.
Proof.
  revert c es. induction requests as [|[a q] requests IH]; intros c es; cbn [drain]; [intros [= <- <-]; by split|].
  destruct (drain_request a q c) as [[c1 es1]|] eqn:Hq; [|done]. cbn.
  destruct (drain requests c1) as [[c2 es2]|] eqn:Hd; [|done]. cbn. intros [= <- <-].
  destruct (plain_drain_request _ _ _ _ _ Hq) as [P1 Hh1]. destruct (IH _ _ Hd) as [P2 Hh2].
  split; [by apply Forall_app|auto].
Qed.

Lemma poll_stats_view t l : view (poll_stats t l) = view l.
Proof. unfold poll_stats. destruct (source (capture l)); try done. case_zb; [|done]. by destruct (t_stats t). Qed.

Lemma step_turn sent replaying t l l' go es : turn replaying t l = Some (l', go, es) → known sent (view l) →
  step sent (view l) es (view l').
Proof.
  unfold turn. destruct (drain (t_requests t) (capture l)) as [[c es0]|] eqn:Hd; [|done]. cbn [mbind option_bind].
  destruct (plain_drain _ _ _ _ Hd) as [Hp Hh]. intros Ht Hk.
  set (l1 := l <| capture := c |>) in *.
  assert (known sent (view l1)) as Hk1 by (intros id Hid; apply Hk, Hh, Hid).
  assert (step sent (view l) es0 (view l1)) as S1 by by apply (step_plain sent (view l) es0 (transactions c)).
  destruct (t_paused t); [injection Ht as <- _ <-; exact S1|].
  destruct (next_frame _ _ _) as [src frame]. set (l2 := poll_stats t l1 <| capture ::= _ |>) in *.
  assert (view l2 = view l1) as E2 by (rewrite <- (poll_stats_view t l1); reflexivity).
  destruct (plain_ids es0 Hp) as (Hpi & _).
  destruct frame as [data ts orig lt| | |]; [| |injection Ht as <- _ <-; by rewrite E2..].
  - destruct (handle_frame _ _ _ _ _ _ _) as [[l3 es3]|] eqn:Hf; [|done]. injection Ht as <- _ <-.
    apply step_trans with (view l1); [done|]. rewrite Hpi, app_nil_r, <- E2.
    eapply step_handle; [exact Hf|]. by rewrite E2.
  - destruct (idle replaying t l2) as [l3 es3] eqn:Hi. injection Ht as <- _ <-.
    apply step_trans with (view l1); [done|]. rewrite Hpi, app_nil_r, <- E2.
    eapply step_idle; [exact Hi|]. by rewrite E2.
Qed.

Lemma step_run sent replaying turns l l' es : run replaying turns l = Some (l', es) → known sent (view l) →
  step sent (view l) es (view l').
Proof.
  revert sent l es. induction turns as [|t turns IH]; intros sent l es; cbn [run]; [intros [= <- <-]; by apply step_refl|].
  destruct (turn replaying t l) as [[[l1 go] es1]|] eqn:Ht; [|done]. cbn [mbind option_bind]. intros Hr Hk.
  pose proof (step_turn sent _ _ _ _ _ _ Ht Hk) as S1. destruct go; [|by injection Hr as <- <-].
  destruct (run replaying turns l1) as [[l2 es2]|] eqn:Hrun; [|done]. injection Hr as <- <-.
  eapply step_trans; [exact S1|]. eapply IH; [done|]. by destruct S1.
Qed.

(** ** Theorems *)

Lemma after_last_app c x a : c ∉ a → after_last c (x ++ c :: a) = a.
Proof.
  intros Ha. induction x as [|b x IH]; cbn [app after_last].
  - rewrite bool_decide_false by done. by rewrite Z.eqb_refl.
  - rewrite bool_decide_true; [done|]. apply elem_of_app. right. by left.
Qed.

Lemma dec_no_dash n : is_u64 n → 45 ∉ dec n.
Proof. intros Hn Hin. destruct (dec_spec n Hn) as [_ Hd]. rewrite Forall_forall in Hd. apply Hd in Hin. lia. Qed.

Lemma dashed_inj x y n m : is_u64 n → is_u64 m → x ++ lit "-" ++ dec n = y ++ lit "-" ++ dec m → n = m.
Proof.
  intros Hn Hm E. apply (f_equal (after_last 45)) in E. change (lit "-") with [45] in E. cbn [app] in E.
  rewrite !after_last_app in E by by apply dec_no_dash. apply (f_equal undec) in E.
  by rewrite (proj1 (dec_spec n Hn)), (proj1 (dec_spec m Hm)) in E.
Qed.

Lemma numbered_elem mk start epochs id : id ∈ numbered mk start epochs →
  ∃ e k, start <= k < start + zlen epochs ∧ id = mk e k.
Proof.
  revert start. induction epochs as [|e epochs IH]; intros start; cbn [numbered length]; [by intros ?%not_elem_of_nil|].
  intros [->|Hin]%elem_of_cons; [exists e, start; split; [lia|done]|].
  destruct (IH _ Hin) as (e' & k & Hk & ->). exists e', k. split; [lia|done].
Qed.

Lemma numbered_NoDup (prefix : Z → bytes) start epochs : 0 <= start → start + zlen epochs <= U64_MAX + 1 →
  NoDup (numbered (λ e k, prefix e ++ lit "-" ++ dec k) start epochs).
Proof.
  revert start. induction epochs as [|e epochs IH]; intros start H1' H2'; cbn [numbered length] in *; [constructor|].
  constructor; [|apply IH; lia]. intros (e' & k & Hk & E)%numbered_elem.
  apply dashed_inj in E; [lia|width; lia..].
Qed.

Lemma emit_packet_rest l now epoch parsed l7 lt re event r l' es :
  emit_packet l now epoch parsed l7 lt re event r = (l', es) →
  writer l' = writer l ∧ unparseable_frames l' = unparseable_frames l.
Proof.
  unfold emit_packet. destruct (PacketEventLimiter.allow _ now) as [lim ok]. destruct ok; [|by intros [= <- <-]].
  cbn [negb]. destruct (is_retransmission r), event; by intros [= <- <-].
Qed.

Lemma analyse_writer replaying t l parsed data lt ts rnow fnow tr l' es :
  analyse replaying t l parsed data lt ts rnow fnow tr = Some (l', es) →
  unparseable_frames l' = unparseable_frames l ∧ ∃ d, writer l' = WriterThread.offer_packet (writer l) ts d data.
Proof.
  open_analyse.
  apply emit_packet_rest in Hpe as [-> ->]. split; [done|by exists dir].
Qed.

Section from_start.
Context (r : ResolvedPacketSource) (max_flows max_names instant : Z) (stats : ServiceTimeStats) (wr : WriterThread.t).

Definition started : Loop := initial_loop (initial_capture r max_flows max_names stats) wr instant.

Lemma started_known : known [] (view started).
Proof. intros id [(k & p & Hk & _)|(k & q & p & Hk & _)]; cbn in Hk; by rewrite lookup_empty in Hk. Qed.

(** Whatever the thread reads and is asked, from start-up on, an event that
    points at a frame (a finding about it, or a response that names its request)
    comes after the packet event with that identifier: nothing the clients are
    told refers to a packet the rate limit kept from them. *)
Theorem frame_references_were_sent replaying turns l' es1 e es2 id :
  run replaying turns started = Some (l', es1 ++ e :: es2) → mentions e id → id ∈ packet_ids es1.
Proof.
  intros Hr Hm. destruct (step_run [] _ _ _ _ _ Hr started_known) as [Hs _ _ _ _].
  exact (sourced_earlier [] es1 e es2 id Hs Hm).
Qed.

(** The packet events of a run have pairwise different identifiers, and so
    have its findings, as long as the counters have not wrapped. *)
Theorem event_ids_unique replaying turns l' es :
  run replaying turns started = Some (l', es) → packet_seq l' <= U64_MAX → finding_seq l' <= U64_MAX →
  NoDup (packet_ids es) ∧ NoDup (finding_ids es).
Proof.
  intros Hr Hp Hf. destruct (step_run [] _ _ _ _ _ Hr started_known) as [_ _ (ps & P & Q) (fs & F & G) _].
  cbn in P, Q, F, G. rewrite P, F. split.
  - apply (numbered_NoDup (λ e, lit "pkt-" ++ dec e)); lia.
  - apply (numbered_NoDup (λ e, lit "finding-" ++ dec e)); lia.
Qed.

(** In any second of the agent's clock, wherever it starts, the thread sends
    at most a hundred packet events. *)
Theorem packet_events_limited replaying turns l' es a :
  run replaying turns started = Some (l', es) →
  zlen (filter (λ x, in_window a 1000 x = true) (packet_times es)) <= 100.
Proof.
  intros Hr. destruct (step_run [] _ _ _ _ _ Hr started_known) as [_ _ _ _ Hl].
  destruct (Hl 10 eq_refl ltac:(lia)) as [_ Hs]. specialize (Hs [] I). rewrite app_nil_r in Hs.
  pose proof (spaced_window 10 None (packet_times es) a 1000 ltac:(lia) ltac:(lia) Hs). lia.
Qed.
End from_start.

(** The state in which only a frame cut by its capture was noted. *)
Definition cut_noted (t : Turn) (l : Loop) (cut : bool) : Loop :=
  l <| capture ::= λ c, c <| reassembly ::= λ r,
         if cut then StreamReassembler.note_frame_cut_at_snaplen r (t_now_ms t) else r |> |>
    <| snaplen_truncation_warned ::= orb cut |>.

(** C16: A frame of the agent's own control channel, captured live, leaves no
    trace: no event, nothing in the flow table, reassembly, transactions,
    counters, decryption or the capture file.  Only a capture that cut the frame
    is noted. *)
Theorem control_channel_leaves_no_trace t l data timestamp original flt p :
  parse_packet_result data (default (link_type (capture l)) flt) = Ok p → of_control_channel p →
  handle_frame false t l data timestamp original flt = Some (cut_noted t l (zlen data <? original), []).
Proof.
  intros Hp Hc. apply exclude_spec in Hc. unfold handle_frame, arrive, reassembly_now_ms, note_capture_truncation, cut_noted.
  destruct (zlen data <? original); cbn [negb]; rewrite Hp, Hc; by destruct l as [[] ? ? ? ? ? ? ? ? ? ? ? ? ? ?].
Qed.

(** What a frame that is not analysed leaves alone. *)
Definition untouched (l l' : Loop) : Prop :=
  flow_table (capture l') = flow_table (capture l) ∧ transactions (capture l') = transactions (capture l)
  ∧ StreamReassembler.fragments (reassembly (capture l')) = StreamReassembler.fragments (reassembly (capture l))
  ∧ StreamReassembler.segments (reassembly (capture l')) = StreamReassembler.segments (reassembly (capture l))
  ∧ totals l' = totals l ∧ decryption l' = decryption l ∧ writer l' = writer l ∧ packet_seq l' = packet_seq l.

Lemma arrive_untouched replaying t l len ts orig l' rnow tr :
  arrive replaying t l len ts orig = (l', rnow, tr) →
  untouched l l' ∧ unparseable_frames l' = unparseable_frames l ∧ finding_seq l' = finding_seq l.
Proof.
  unfold arrive, note_capture_truncation. destruct (reassembly_now_ms _ _ _ _) as [clock now].
  destruct (len <? orig); intros [= <- <- <-]; by destruct replaying.
Qed.

(** Every frame is disposed of in one way.  A frame that is not IP is passed
    over silently.  A frame that does not decode is counted, once, and reported
    at most once, by a finding that names neither a frame nor a flow.  Both leave
    flows, streams, transactions, counters, decryption and the capture file
    alone.  An analysed frame is not counted as undecodable, and while a file is
    being written its bytes are queued for it or counted as dropped. *)
Theorem frame_disposition replaying t l data timestamp original flt l' es :
  handle_frame replaying t l data timestamp original flt = Some (l', es) →
  match parse_packet_result data (default (link_type (capture l)) flt) with
  | Err UnsupportedNonIp => untouched l l' ∧ es = [] ∧ unparseable_frames l' = unparseable_frames l
  | Err Malformed =>
      untouched l l' ∧ unparseable_frames l' = unparseable_frames l + 1
      ∧ (es = [] ∨ ∃ f, es = [Finding f] ∧ fj_code f = MalformedFrame ∧ fj_frame_id f = None ∧ fj_flow_id f = None)
  | Ok p =>
      unparseable_frames l' = unparseable_frames l ∧
      if exclude_live_control_capture p (negb replaying) then untouched l l' ∧ es = []
      else ∃ d, writer l' = WriterThread.offer_packet (writer l) timestamp d data
  end.
Proof.
  unfold handle_frame. destruct (arrive replaying t l _ timestamp original) as [[l1 rnow] tr] eqn:Ha.
  destruct (arrive_untouched _ _ _ _ _ _ _ _ _ Ha) as (Hu & Hn & Hs).
  destruct (parse_packet_result data _) as [p|[]].
  - destruct (exclude_live_control_capture _ _); [by intros [= <- <-]|]. intros Han.
    destruct (analyse_writer _ _ _ _ _ _ _ _ _ _ _ _ Han) as (Hn' & d & Hw). split; [congruence|].
    exists d. rewrite Hw. by destruct Hu as (_ & _ & _ & _ & _ & _ & -> & _).
  - intros [= Hm]. unfold malformed_frame in Hm. destruct (PacketEventLimiter.allow _ _) as [lim ok].
    destruct ok; injection Hm as <- <-; (split; [exact Hu|split; [cbn; lia|]]); [right; by eauto|by left].
  - by intros [= <- <-].
Qed.
End turns.

(** ** Examples *)

Module Samples.
#[local] Existing Instances Startup.sample_pcap CaptureConfig.sample_control std_policy map_to_list_order.
#[local] Existing Instances Http2.toy_hpack TlsDecrypt.toy_crypto RingBuffer.zero_fill Sniff.sample_sniff_codec.
#[local] Instance md5 : Md5 := no_md5.
#[local] Instance no_hex : HexDecoder := λ _, None.

(** A frame from the agent's listener to a client, on the loopback device. *)
Definition control_frame : bytes := [2; 0; 0; 0] ++ zreplicate 40 5 ++ [65].
Definition control_slice : SlicedPacket :=
  mkSlicedPacket None []
    (Some (NetIpv4 (mkIpv4Slice (zreplicate 20 5) 0 41 0 false 9 6 [127; 0; 0; 1] [127; 0; 0; 1] 64 0 (zreplicate 20 5 ++ [65]))))
    (Some (TransportTcp (mkTcpSlice 9990 50000 (mkTcpFlags false true false false 100 1) 77 [65] 20)))
    None None.

#[local] Instance slicer : Slicer := {|
  from_ethernet data := if bool_decide (data = sample_eth_frame) then Some sample_eth_slice else None;
  from_ip data := if bool_decide (data = zdrop 4 control_frame) then Some control_slice else None
|}.

Definition device : Device := mkDevice (lit "en0") [lit "10.0.0.1"].
Definition resolved : ResolvedPacketSource :=
  mkResolved (Live (device, 65535, None)) (lit "en0") [lit "10.0.0.1"] Ethernet (lit "live") None (Some device).

Definition at_ms (now : Z) (read : LiveRead) : Turn :=
  mkTurn [] false (now * 1000000) (Err []) read (1700000000000000000 + now * 1000000) now ∅ (λ _, OpenFails) 0 true 10.

(** The same segment twice, a frame that does not decode, a timeout. *)
Definition turns : list Turn :=
  [at_ms 1000 (LiveFrame sample_eth_frame 60); at_ms 2000 (LiveFrame sample_eth_frame 60);
   at_ms 2001 (LiveFrame [1; 2; 3] 3); at_ms 3000 TimeoutExpired; at_ms 4000 LiveError].

Definition start : Loop := started resolved 10 10 0 Txn.empty_stats (WriterThread.init ∅).
Definition sent : list AgentEvent := match run false turns start with Some (_, es) => es | None => [] end.

Example sent_kinds :
  packet_ids sent = [lit "pkt-1700000001000-0"; lit "pkt-1700000002000-1"]
  ∧ finding_ids sent = [lit "finding-1700000002000-0"; lit "finding-1700000002001-1"]
  ∧ packet_times sent = [1000; 2000] ∧ length sent = 4%nat.
Proof. vm_compute. done. Qed.

Definition finished : Loop := match run false turns start with Some (l, _) => l | None => start end.

Lemma turns_run : run false turns start = Some (finished, sent).
Proof.
  assert (bool_decide (is_Some (run false turns start)) = true) as Hs by (vm_compute; reflexivity).
  unfold finished, sent. destruct (run false turns start) as [[l es]|]; [done|discriminate].
Qed.

Lemma frame_references_were_sent_witness : lit "pkt-1700000002000-1" ∈ packet_ids (take 2 sent).
Proof.
  destruct (sent !! 2%nat) as [e|] eqn:He; [|vm_compute in He; discriminate].
  apply (frame_references_were_sent resolved 10 10 0 Txn.empty_stats (WriterThread.init ∅) false turns finished
    (take 2 sent) e (drop 3 sent)).
  - rewrite (take_drop_middle sent 2 e He). exact turns_run.
  - vm_compute in He. injection He as <-. vm_compute. reflexivity.
Defined.

Lemma event_ids_unique_witness : NoDup (packet_ids sent) ∧ NoDup (finding_ids sent).
Proof.
  apply (event_ids_unique resolved 10 10 0 Txn.empty_stats (WriterThread.init ∅) false turns finished);
    [exact turns_run|vm_compute; discriminate..].
Defined.

Lemma packet_events_limited_witness : zlen (filter (λ x, in_window 1500 1000 x = true) (packet_times sent)) <= 100.
Proof. apply (packet_events_limited resolved 10 10 0 Txn.empty_stats (WriterThread.init ∅) false turns finished). exact turns_run. Defined.

Definition control_packet : option ParsedPacket :=
  match parse_packet_result control_frame NullLoopback with Ok p => Some p | Err _ => None end.

Lemma control_channel_leaves_no_trace_witness :
  handle_frame false (at_ms 5 TimeoutExpired) start control_frame 1700000000000000000 45 (Some NullLoopback)
    = Some (start <| capture ::= λ c, c <| reassembly ::= λ r, r |> |> <| snaplen_truncation_warned ::= orb false |>, []).
Proof.
  destruct control_packet as [p|] eqn:Hp; [|vm_compute in Hp; discriminate].
  apply (control_channel_leaves_no_trace (at_ms 5 TimeoutExpired) start control_frame 1700000000000000000 45 (Some NullLoopback) p).
  - unfold control_packet in Hp. change (default (link_type (capture start)) (Some NullLoopback)) with NullLoopback.
    destruct (parse_packet_result control_frame NullLoopback); [congruence|discriminate].
  - vm_compute in Hp. injection Hp as <-. vm_compute. split_and!; [done..|]. by left.
Defined.

Lemma frame_disposition_witness :
  match handle_frame false (at_ms 2001 TimeoutExpired) start [1; 2; 3] 1700000000000000000 3 None with
  | Some (l, es) => untouched start l ∧ unparseable_frames l = 1
  | None => False
  end.
Proof.
  destruct (handle_frame _ _ _ _ _ _ _) as [[l es]|] eqn:Hh; [|vm_compute in Hh; discriminate].
  pose proof (frame_disposition false (at_ms 2001 TimeoutExpired) start [1; 2; 3] 1700000000000000000 3 None l es Hh) as Hd.
  change (default (link_type (capture start)) None) with Ethernet in Hd.
  assert (parse_packet_result [1; 2; 3] Ethernet = Err Malformed) as Hp by (vm_compute; reflexivity).
  rewrite Hp in Hd. destruct Hd as (Hu & Hn & _). split; [exact Hu|exact Hn].
Defined.
End Samples.
