(* ===== verification/Emitter.v ===== *)
(** * The periodic emitter

    The task of [capture-agent/src/main.rs] that runs every second: it evicts
    stale flows, takes the snapshots of the flow table, names the processes of
    hosts and conversations, polls the key logs and the decryption's timers, and
    sends the current state to the clients.  A tick is not one step: only what
    is gathered under the lock of the flow table is ([gather]); the events made
    of it, and what is read of the other shared state, are a list of chores that
    the task does one by one ([chore]) while the other threads go on.  Rates of
    flows, hosts and layers are exact rationals; the throughput rates are [f64].
    What the system answers a chore is the record [Moment]. *)

From Stdlib Require Import QArith.
From S2P Require Import Prelude Float64 Text Packet RateLimit RingBuffer L7Tls L7 Parse Fragments Sniff DnsNames Flow Pcapng Ring Transaction Keylog TlsDecrypt Http2 Decrypt Fields Wire ProcessLookup Startup CaptureConfig CaptureLoop CaptureEvents.
#[local] Open Scope Z_scope.

(** ** Shapes *)

Fixpoint protocol_node_to_json (name : bytes) (node : ProtocolNode) : ProtocolNodeJson :=
  match node with
  | mkNode b p children =>
      mkProtocolNodeJson name b p
        ((fix go (cs : list (bytes * ProtocolNode)) : list ProtocolNodeJson :=
            match cs with
            | [] => []
            | (child_name, child) :: cs' => protocol_node_to_json child_name child :: go cs'
            end) children)
  end.

Definition build_capture_stats_json (stat : option PcapStat)
    (relay_lagged unparseable flows_observed capacity idle_ names : Z) : CaptureStatsJson :=
  match stat with
  | Some s => mkCaptureStatsJson (ps_received s) (ps_dropped s) (ps_if_dropped s) relay_lagged unparseable flows_observed capacity idle_ names
  | None => mkCaptureStatsJson 0 0 0 relay_lagged unparseable flows_observed capacity idle_ names
  end.

(** Megabits, and packets, per second. *)
Definition mbps (tick_seconds : f64) (bytes_delta : Z) : f64 :=
  if F64.le tick_seconds F64.zero then F64.zero
  else F64.div (F64.div (F64.mul (F64.of_int bytes_delta) (F64.of_int 8)) tick_seconds) (F64.of_int 1000000).
Definition pps (tick_seconds : f64) (packets_delta : Z) : f64 :=
  if F64.le tick_seconds F64.zero then F64.zero else F64.div (F64.of_int packets_delta) tick_seconds.

Definition build_system_stats_json (hostname interface_name ip_address : bytes) (delta : Totals) (tick_seconds : f64)
    (total_packets_captured : Z) : SystemStatsJson :=
  mkSystemStatsJson hostname interface_name ip_address (mbps tick_seconds (rx_bytes delta)) (mbps tick_seconds (tx_bytes delta))
    (pps tick_seconds (rx_packets delta)) (pps tick_seconds (tx_packets delta)) total_packets_captured.

(** ** Processes of hosts and conversations *)

Definition UNKNOWN_PROCESS : ProcessInfo := mkProcessInfo (lit "unknown") 0.

Definition process_of (processes : gmap Z ProcessInfo) (key : FlowKey) : ProcessInfo :=
  default UNKNOWN_PROCESS (processes !! local_port key).

(** The entry keeps the process of the flow seen last; the first wins a tie. *)
Definition attribute_to {K} `{Countable K} (processes : gmap Z ProcessInfo) (key_of : FlowKey → K)
    (m : gmap K (ProcessInfo * Z)) (snap : FlowSnapshot) : gmap K (ProcessInfo * Z) :=
  let candidate := (process_of processes (snap_key snap), snap_last_seen_ms snap) in
  partial_alter (λ existing,
    match existing with
    | Some e => Some (if e.2 <? snap_last_seen_ms snap then candidate else e)
    | None => Some candidate
    end) (key_of (snap_key snap)) m.

Definition attribution {K} `{Countable K} (processes : gmap Z ProcessInfo) (key_of : FlowKey → K)
    (snapshots : list FlowSnapshot) : gmap K (ProcessInfo * Z) :=
  foldl (attribute_to processes key_of) ∅ snapshots.

Definition endpoint_json (m : gmap bytes (ProcessInfo * Z)) (e : EndpointSnapshot) : EndpointJson :=
  let p := default UNKNOWN_PROCESS (fst <$> m !! ep_host e) in
  let t := ep_totals e in
  mkEndpointJson (ep_host e) (RollupState.rx_bytes_total t) (RollupState.tx_bytes_total t) (RollupState.rx_packets_total t)
    (RollupState.tx_packets_total t) (ep_rx_speed e) (ep_tx_speed e) (RollupState.flow_count t) (ep_first_seen_ms e)
    (RollupState.last_seen_ms t) (proc_name p) (proc_pid p) (RollupState.ja3_label t) (ep_observed_name e).

Definition conversation_json (m : gmap (bytes * bytes) (ProcessInfo * Z)) (c : ConversationSnapshot) : ConversationJson :=
  let p := default UNKNOWN_PROCESS (fst <$> m !! cv_pair c) in
  let t := cv_totals c in
  mkConversationJson (cv_pair c).1 (cv_pair c).2 (RollupState.rx_bytes_total t) (RollupState.tx_bytes_total t)
    (RollupState.rx_packets_total t) (RollupState.tx_packets_total t) (cv_rx_speed c) (cv_tx_speed c)
    (RollupState.flow_count t) (cv_first_seen_ms c) (RollupState.last_seen_ms t) (cv_duration_ms c) (proc_name p) (proc_pid p)
    (RollupState.ja3_label t).

Definition connection_json (processes : gmap Z ProcessInfo) (s : FlowSnapshot) : ConnectionJson :=
  let k := snap_key s in
  let p := process_of processes k in
  mkConnectionJson (connection_id k) (snap_app s) (snap_app s) (protocol_upper (fk_protocol k))
    (lit "L4:" ++ Fields.protocol_debug (fk_protocol k) ++ lit " -> L3:IP") (local_addr k) (local_port k) (remote_addr k) (remote_port k)
    (proc_name p) (proc_pid p) (snap_rx_speed s) (snap_tx_speed s) (snap_rx_total s) (snap_tx_total s) (snap_latency_ms s)
    (snap_packet_loss s) (snap_status s) (snap_encryption s) [] (snap_ja3 s) (snap_ja3_label s).

(** ** Layers *)

Record Layers := mkLayers {
  l3_rx : Q; l3_tx : Q; l3_bytes : Z; l3_active : Z;
  l7_rx : Q; l7_tx : Q; l7_bytes : Z; l7_active : Z;
  loss_sum : Q; loss_count : Z
}.

Definition no_layers : Layers := mkLayers 0 0 0 0 0 0 0 0 0 0.

Definition add_snapshot (a : Layers) (s : FlowSnapshot) : Layers :=
  let total := snap_rx_total s + snap_tx_total s in
  let app := negb (bool_decide (snap_app s = lit "Unknown")) in
  mkLayers (l3_rx a + snap_rx_speed s) (l3_tx a + snap_tx_speed s) (l3_bytes a + total)
    (l3_active a + Z.b2z (bool_decide (snap_status s = lit "ESTABLISHED")))
    (if app then l7_rx a + snap_rx_speed s else l7_rx a) (if app then l7_tx a + snap_tx_speed s else l7_tx a)
    (if app then l7_bytes a + total else l7_bytes a) (l7_active a + Z.b2z app)
    (loss_sum a + snap_packet_loss s) (loss_count a + 1).

Definition layer_stats (a : Layers) : list LayerStatsJson :=
  let avg_loss := if 0 <? loss_count a then (loss_sum a / inject_Z (loss_count a))%Q else 0%Q in
  [mkLayerStatsJson 3 (l3_rx a) (l3_tx a) 0 0 (l3_bytes a) avg_loss (l3_active a) [];
   mkLayerStatsJson 4 (l3_rx a) (l3_tx a) 0 0 (l3_bytes a) avg_loss (l3_active a) [];
   mkLayerStatsJson 7 (l7_rx a) (l7_tx a) 0 0 (l7_bytes a) avg_loss (l7_active a) []].

(** ** What a tick gathers *)

(** What is taken of the flow table under its lock. *)
Record Gathered := mkGathered {
  g_agent_now_ms : Z;
  g_evicted : Flow.EvictedFlows;
  g_snapshots : list FlowSnapshot;
  g_endpoints : list EndpointSnapshot;
  g_conversations : list ConversationSnapshot;
  g_total_flows_observed : Z;
  g_capacity_evictions : Z;
  g_idle_evictions : Z;
  g_observed_name_evictions : Z;
  g_direction_attribution_unavailable : bool;
  g_protocol_hierarchy : ProtocolNode
}.

Definition evicted_keys (g : Gathered) : list FlowKey := Flow.idle (g_evicted g) ++ Flow.capacity (g_evicted g).

(** The time a rate is over: the instant it is measured from, the one
    [elapsed] reads, and the one the next tick measures from. *)
Record Interval := mkInterval { iv_from : Z; iv_read : Z; iv_next : Z }.

(** What a tick still has to do.  [name] is the interface the throughput was
    reported with. *)
Inductive Chore :=
| Compose (g : Gathered)
| Say (e : AgentEvent)
| ReadServiceTimes
| Forget (id : bytes)
| PollKeys (agent_now_ms : Z)
| ReadCaptureStats (g : Gathered)
| ReadElapsed (stat : option PcapStat) (g : Gathered)
| LoadTotals (stat : option PcapStat) (iv : Interval) (loaded : list Z) (g : Gathered)
| ReadInterface (stat : option PcapStat) (iv : Interval) (now : Totals) (g : Gathered)
| ReadConfig (name : bytes) (g : Gathered)
| ReadFileStatus (name : bytes) (g : Gathered)
| ReadAgentStatus (name : bytes) (g : Gathered).

(** The task's own variables and what is left of its tick. *)
Record Emitter := mkEmitter { prev_totals : Totals; prev_tick_at : Z; todo : list Chore }.
#[export] Instance eta_Emitter : RecordEta Emitter := λ e, mkEmitter (prev_totals e) (prev_tick_at e) (todo e).

(** What a chore reads: the clock and the key logs, and the process map, the
    lagged events and the pause flag. *)
Record Moment := mkMoment {
  k_read_at : Z;          (** the instant [prev_tick_at.elapsed()] reads, in nanoseconds *)
  k_instant : Z;          (** the instant the next tick measures from *)
  k_processes : gmap Z ProcessInfo;
  k_keylogs : bytes → FileState;
  k_keylog_now : Z;
  k_relay_lagged : Z;
  k_paused : bool;
  k_fuel : nat
}.

Definition totals_since (now prev : Totals) : Totals :=
  mkTotals (sat_sub (rx_bytes now) (rx_bytes prev)) (sat_sub (tx_bytes now) (tx_bytes prev))
    (sat_sub (rx_packets now) (rx_packets prev)) (sat_sub (tx_packets now) (tx_packets prev)).

(** The counters in the order they are loaded. *)
Definition counter (i : nat) (t : Totals) : Z :=
  match i with 0%nat => rx_bytes t | 1%nat => tx_bytes t | 2%nat => rx_packets t | _ => tx_packets t end.

Section tick.
Context `{Pcap} `{VecPolicy} `{IterOrder} `{Hpack} `{TlsCrypto} `{Zeroizer} `{HexDecoder}.

(** The block that holds the lock of the flow table. *)
Definition gather (replaying : bool) (agent_now_ms : Z) (l : Loop) : Loop * Gathered :=
  let now_ms := flow_aging_now_ms replaying (replay_flow_clock l) agent_now_ms in
  let '(table, evicted) := FlowTable.evict_stale (flow_table (capture l)) now_ms in
  let '(table, snapshots) := FlowTable.snapshot table now_ms in
  let '(table, endpoints) := FlowTable.endpoint_snapshot table now_ms in
  let '(table, conversations) := FlowTable.conversation_snapshot table now_ms in
  (l <| capture ::= λ c, c <| flow_table := table |> |>,
   mkGathered agent_now_ms evicted snapshots endpoints conversations (FlowTable.total_flows_observed table)
     (FlowTable.capacity_evictions table) (FlowTable.idle_evictions table)
     (ObservedDnsNames.evictions (FlowTable.observed_names table))
     (FlowTable.direction_attribution_unavailable table) (FlowTable.protocol_tree table)).

(** With the process map: the events of the flows, and the chores between them. *)
Definition compose (processes : gmap Z ProcessInfo) (g : Gathered) : list Chore :=
  let by_host := attribution processes remote_addr (g_snapshots g) in
  let by_pair := attribution processes (λ key, (local_addr key, remote_addr key)) (g_snapshots g) in
  [Say (EndpointUpdate (endpoint_json by_host <$> g_endpoints g)); ReadServiceTimes;
   Say (ConversationUpdate (conversation_json by_pair <$> g_conversations g))]
  ++ (Say <$> (ConnectionUpdate <$> (connection_json processes <$> g_snapshots g)))
  ++ (evicted_keys g ≫= λ key, [Forget (connection_id key); Say (ConnectionClosed (connection_id key))])
  ++ [PollKeys (g_agent_now_ms g); Say (LayerUpdate (layer_stats (foldl add_snapshot no_layers (g_snapshots g))));
      Say (ProtocolHierarchyUpdate (protocol_node_to_json (lit "Capture") (g_protocol_hierarchy g))); ReadCaptureStats g].

(** Key logs, late keys, timers and the buffer budget of the decryption. *)
Definition tick_decryption (k : Moment) (agent_now_ms tls_now_ms : Z) (w : World) : option (World * list Decrypt.AgentEvent) :=
  let w := w <| w_watcher ::= λ kw, KeyLogWatcher.poll_at kw (k_keylogs k) (k_keylog_now k) |> in
  let '(w, es1) := replay_pending_tls_keys w agent_now_ms tls_now_ms in
  let '(state, es2) := expire_tls_state_timers (w_state w) tls_now_ms in
  '(state, es3) ← enforce_tls_buffer_budget (k_fuel k) state [];
  Some (w <| w_state := state |>, es1 ++ es2 ++ es3).

(** A chore: the new state, the chores it leads to and the event it sends.
    [mode], [replay_source] and [hostname] are those of start-up. *)
Definition chore (replaying : bool) (mode hostname : bytes) (replay_source : option bytes) (k : Moment) (c : Chore)
    (l : Loop) (e : Emitter) : option (Loop * Emitter * list Chore * list AgentEvent) :=
  match c with
  | Compose g => Some (l, e, compose (k_processes k) g, [])
  | Say event => Some (l, e, [], [event])
  | ReadServiceTimes =>
      Some (l, e, [Say (ServiceTimeUpdate (stats_snapshot (TransactionTracker.stats (transactions (capture l)))))], [])
  | Forget id =>
      let '(state, watcher) := remove_decrypt_connection (w_state (decryption l)) (w_watcher (decryption l)) id in
      Some (l <| decryption ::= λ w, w <| w_state := state |> <| w_watcher := watcher |> |>, e, [], [])
  | PollKeys agent_now_ms =>
      let tls_now_ms := flow_aging_now_ms replaying (replay_flow_clock l) agent_now_ms in
      '(w, es) ← tick_decryption k agent_now_ms tls_now_ms (decryption l);
      Some (l <| decryption := w |>, e, Say <$> (Decryption <$> (es : list Decrypt.AgentEvent)), [])
  | ReadCaptureStats g =>
      let stat := capture_stats l in
      Some (l, e,
            [Say (CaptureStats (build_capture_stats_json stat (k_relay_lagged k) (unparseable_frames l)
               (g_total_flows_observed g) (g_capacity_evictions g) (g_idle_evictions g) (g_observed_name_evictions g)));
             ReadElapsed stat g], [])
  | ReadElapsed stat g =>
      let iv := mkInterval (prev_tick_at e) (k_read_at k) (k_instant k) in
      Some (l, e <| prev_tick_at := k_instant k |>, [LoadTotals stat iv [] g], [])
  | LoadTotals stat iv loaded g =>
      let loaded := loaded ++ [counter (length loaded) (totals l)] in
      Some (l, e,
            [match loaded with
             | [rxb; txb; rxp; txp] => ReadInterface stat iv (mkTotals rxb txb rxp txp) g
             | _ => LoadTotals stat iv loaded g
             end], [])
  | ReadInterface stat iv now g =>
      let '(name, ip) := current_interface (capture l) in
      Some (l, e <| prev_totals := now |>,
            [Say (SystemStats (build_system_stats_json hostname name ip (totals_since now (prev_totals e))
               (F64.as_secs (sat_sub (iv_read iv) (iv_from iv))) (match stat with Some s => ps_received s | None => 0 end)));
             ReadConfig name g], [])
  | ReadConfig name g => Some (l, e, [Say (CaptureConfig (config (capture l))); ReadFileStatus name g], [])
  | ReadFileStatus name g =>
      Some (l, e, [Say (CaptureFileStatusEvent (WriterThread.status (writer l))); ReadAgentStatus name g], [])
  | ReadAgentStatus name g =>
      Some (l, e,
            [Say (AgentStatus (mkAgentStatusJson name (negb (k_paused k)) mode replay_source
               (g_direction_attribution_unavailable g)))], [])
  end.

(** The next chore of a tick. *)
Definition emitter_step (replaying : bool) (mode hostname : bytes) (replay_source : option bytes) (k : Moment)
    (l : Loop) (e : Emitter) : option (Loop * Emitter * list AgentEvent) :=
  match todo e with
  | [] => Some (l, e, [])
  | c :: rest =>
      '(l, e, more, es) ← chore replaying mode hostname replay_source k c l e;
      Some (l, e <| todo := more ++ rest |>, es)
  end.

(** The next tick, once the one before is over. *)
Definition emitter_tick (replaying : bool) (agent_now_ms : Z) (l : Loop) (e : Emitter) : Loop * Emitter :=
  match todo e with
  | [] => let '(l, g) := gather replaying agent_now_ms l in (l, e <| todo := [Compose g] |>)
  | _ => (l, e)
  end.
End tick.

(** ** Theorems *)

Definition updated_ids (es : list AgentEvent) : list bytes :=
  omap (λ e, match e with ConnectionUpdate c => Some (cj_id c) | _ => None end) es.
Definition closed_ids (es : list AgentEvent) : list bytes :=
  omap (λ e, match e with ConnectionClosed id => Some id | _ => None end) es.

Lemma omap_all_none {A B C} (f : B → option C) (g : A → B) (l : list A) : (∀ a, f (g a) = None) → omap f (g <$> l) = [].
Proof. intros Hf. induction l as [|a l IH]; [done|]. cbn. by rewrite Hf. Qed.

Lemma omap_all_some {A B C} (f : B → option C) (g : A → B) (h : A → C) (l : list A) :
  (∀ a, f (g a) = Some (h a)) → omap f (g <$> l) = h <$> l.
Proof. intros Hf. induction l as [|a l IH]; [done|]. cbn. rewrite Hf. by f_equal. Qed.

Section attribution.
Context {K : Type} `{Countable K} (processes : gmap Z ProcessInfo) (key_of : FlowKey → K).

(** What an entry says of the snapshots seen so far. *)
Definition attributed (m : gmap K (ProcessInfo * Z)) (snaps : list FlowSnapshot) : Prop := ∀ h,
  match m !! h with
  | Some (p, t) => (∃ s, s ∈ snaps ∧ key_of (snap_key s) = h ∧ p = process_of processes (snap_key s) ∧ t = snap_last_seen_ms s)
                   ∧ ∀ s, s ∈ snaps → key_of (snap_key s) = h → snap_last_seen_ms s <= t
  | None => ∀ s, s ∈ snaps → key_of (snap_key s) ≠ h
  end.

Lemma attribute_to_ok m snaps s : attributed m snaps → attributed (attribute_to processes key_of m s) (snaps ++ [s]).
Proof.
  intros Ha h. specialize (Ha h). unfold attribute_to. destruct (decide (key_of (snap_key s) = h)) as [<-|Hne].
  - rewrite lookup_partial_alter_eq. destruct (m !! key_of (snap_key s)) as [[p t]|]; cbn [fst snd].
    + destruct Ha as [(s0 & Hs0 & Hk & Hp & Ht) Hmax]. case_zb.
      * split; [exists s; set_solver|]. intros s1 [H1|H1%list_elem_of_singleton]%elem_of_app Hk1; [|subst; lia].
        specialize (Hmax s1 H1 Hk1). lia.
      * split; [exists s0; set_solver|]. intros s1 [H1|H1%list_elem_of_singleton]%elem_of_app Hk1; [by apply Hmax|subst; lia].
    + split; [exists s; set_solver|]. intros s1 [H1|H1%list_elem_of_singleton]%elem_of_app Hk1; [by destruct (Ha s1)|subst; lia].
  - rewrite lookup_partial_alter_ne by done. destruct (m !! h) as [[p t]|].
    + destruct Ha as [(s0 & Hs0 & Hk & Hp & Ht) Hmax]. split; [exists s0; set_solver|].
      intros s1 [H1|H1%list_elem_of_singleton]%elem_of_app Hk1; [by apply Hmax|by subst].
    + intros s1 [H1|H1%list_elem_of_singleton]%elem_of_app; [by apply Ha|by subst].
Qed.

Lemma attribution_ok snaps : attributed (attribution processes key_of snaps) snaps.
Proof.
  unfold attribution. assert (∀ m seen, attributed m seen → attributed (foldl (attribute_to processes key_of) m snaps) (seen ++ snaps)) as Hg.
  { induction snaps as [|s snaps IH]; intros m seen Hm; cbn [foldl]; [by rewrite app_nil_r|].
    change (s :: snaps) with ([s] ++ snaps). rewrite (assoc_L (++)). apply IH. by apply attribute_to_ok. }
  apply (Hg ∅ []). intros h. rewrite lookup_empty. by intros s ?%not_elem_of_nil.
Qed.
End attribution.

Section ticks.
Context `{Pcap} `{VecPolicy} `{IterOrder} `{Hpack} `{TlsCrypto} `{Zeroizer} `{HexDecoder}.

(** *** What is gathered *)

Definition snapshot_ids (g : Gathered) : list bytes := connection_id <$> (snap_key <$> g_snapshots g).
Definition evicted_ids (g : Gathered) : list bytes := connection_id <$> evicted_keys g.

Lemma evicted_and_kept st now :
  let ev := (FlowTable.evict_stale st now).2 in
  (Flow.idle ev ++ Flow.capacity ev) ++ (map_to_list (FlowTable.flows (FlowTable.evict_stale st now).1)).*1
  ≡ₚ (map_to_list (FlowTable.flows st)).*1.
Proof.
  cbn zeta. change (Flow.idle _ ++ Flow.capacity _) with ((stale_of st now).*1 ++ (over_of st now).*1). apply NoDup_Permutation.
  - apply NoDup_app. split_and!; [apply Flow.evicted_nodup| |apply NoDup_fst_map_to_list].
    intros k [_ Hk]%Flow.evicted_keys ([k' s] & -> & Hin%elem_of_map_to_list)%list_elem_of_fmap. cbn [fst] in Hk. by rewrite Hin in Hk.
  - apply NoDup_fst_map_to_list.
  - intros k. rewrite elem_of_app. rewrite (Flow.evicted_keys st now k), !list_elem_of_fmap.
    split.
    + intros [[[s Hs] _]|([k' s] & -> & Hin%elem_of_map_to_list)].
      * exists (k, s). by rewrite elem_of_map_to_list.
      * exists (k', s). rewrite elem_of_map_to_list. split; [done|]. cbn.
        rewrite Flow.evict_stale_lookup in Hin. destruct (bool_decide _); [done|]. by apply Flow.live_lookup in Hin as [? _].
    + intros ([k' s] & -> & Hin%elem_of_map_to_list). cbn.
      destruct (FlowTable.flows (FlowTable.evict_stale st now).1 !! k') as [s'|] eqn:Hs.
      * right. exists (k', s'). by rewrite elem_of_map_to_list.
      * left. split; [by rewrite Hin|done].
Qed.

Lemma updated_ids_app es1 es2 : updated_ids (es1 ++ es2) = updated_ids es1 ++ updated_ids es2.
Proof. apply omap_app. Qed.
Lemma updated_other ev es : updated_ids [ev] = [] → updated_ids (ev :: es) = updated_ids es.
Proof. intros Hev. change (ev :: es) with ([ev] ++ es). by rewrite updated_ids_app, Hev. Qed.
Lemma closed_ids_app es1 es2 : closed_ids (es1 ++ es2) = closed_ids es1 ++ closed_ids es2.
Proof. apply omap_app. Qed.

Lemma closed_other ev es : closed_ids [ev] = [] → closed_ids (ev :: es) = closed_ids es.
Proof. intros Hev. change (ev :: es) with ([ev] ++ es). by rewrite closed_ids_app, Hev. Qed.

(** The closings and the updates a chore stands for. *)
Definition closings_due (c : Chore) : list bytes :=
  match c with Compose g => evicted_ids g | Say e => closed_ids [e] | _ => [] end.
Definition updates_due (c : Chore) : list bytes :=
  match c with Compose g => snapshot_ids g | Say e => updated_ids [e] | _ => [] end.

Lemma due_say (es : list AgentEvent) : (Say <$> es) ≫= closings_due = closed_ids es ∧ (Say <$> es) ≫= updates_due = updated_ids es.
Proof.
  induction es as [|e es [IH1 IH2]]; [done|]. rewrite fmap_cons, !bind_cons, IH1, IH2. cbn [closings_due updates_due].
  by rewrite <- closed_ids_app, <- updated_ids_app.
Qed.

(** Composing the events of a tick makes each of its closings and updates once. *)
Lemma compose_due processes g :
  compose processes g ≫= closings_due = evicted_ids g ∧ compose processes g ≫= updates_due = snapshot_ids g.
Proof.
  unfold compose. cbn zeta. set (ups := ConnectionUpdate <$> _).
  assert (closed_ids ups = [] ∧ updated_ids ups = snapshot_ids g) as [E1 E2].
  { unfold ups, closed_ids, updated_ids, snapshot_ids. rewrite (omap_all_none _ ConnectionUpdate) by done.
    rewrite (omap_all_some _ _ cj_id) by done. split; [done|]. by rewrite <- !list_fmap_compose. }
  destruct (due_say ups) as [S1 S2]. clearbody ups.
  assert (∀ keys, (keys ≫= λ key, [Forget (connection_id key); Say (ConnectionClosed (connection_id key))]) ≫= closings_due = connection_id <$> keys
    ∧ (keys ≫= λ key, [Forget (connection_id key); Say (ConnectionClosed (connection_id key))]) ≫= updates_due = []) as Hk.
  { induction keys as [|key keys [IH1 IH2]]; [done|]. rewrite bind_cons, !bind_app, IH1, IH2. done. }
  destruct (Hk (evicted_keys g)) as [K1 K2]. split; rewrite !bind_app, ?S1, ?S2, ?K1, ?K2, ?E1, ?E2; cbn; by rewrite ?app_nil_r.
Qed.

(** Under the lock, every flow of the table is either evicted or in the
    snapshot, once; the snapshot is what the table still holds. *)
Theorem gather_splits_the_flows replaying now l :
  let '(l', g) := gather replaying now l in
  evicted_ids g ++ snapshot_ids g ≡ₚ connection_id <$> (map_to_list (FlowTable.flows (flow_table (capture l)))).*1 ∧
  snapshot_ids g ≡ₚ connection_id <$> (map_to_list (FlowTable.flows (flow_table (capture l')))).*1 ∧
  (∃ table, l' = l <| capture ::= λ c, c <| flow_table := table |> |> ∧
     FlowTable.local_addrs table = FlowTable.local_addrs (flow_table (capture l)) ∧
     FlowTable.total_flows_observed table = FlowTable.total_flows_observed (flow_table (capture l))) ∧
  g_total_flows_observed g = FlowTable.total_flows_observed (flow_table (capture l)).
Proof.
  unfold gather. set (tnow := flow_aging_now_ms _ _ _). pose proof (evicted_and_kept (flow_table (capture l)) tnow) as Hk. cbn zeta in Hk.
  assert (FlowTable.local_addrs (FlowTable.evict_stale (flow_table (capture l)) tnow).1 = FlowTable.local_addrs (flow_table (capture l)) ∧
    FlowTable.total_flows_observed (FlowTable.evict_stale (flow_table (capture l)) tnow).1 = FlowTable.total_flows_observed (flow_table (capture l))) as [Ha Ht] by done.
  destruct (FlowTable.evict_stale (flow_table (capture l)) tnow) as [table ev]. cbn [fst snd] in *.
  unfold FlowTable.snapshot, FlowTable.endpoint_snapshot, FlowTable.conversation_snapshot. cbn [fst snd].
  set (g := mkGathered _ _ _ _ _ _ _ _ _ _ _).
  assert (snapshot_ids g = connection_id <$> (iter (FlowTable.flows table)).*1) as Hs.
  { unfold snapshot_ids, g. cbn. rewrite <- !list_fmap_compose. by apply list_fmap_ext. }
  split_and!.
  - rewrite Hs. unfold evicted_ids. rewrite <- fmap_app, (iter_perm (FlowTable.flows table)). by apply fmap_Permutation.
  - rewrite Hs, iter_perm. cbn. rewrite map_to_list_fmap, <- !list_fmap_compose. apply reflexive_eq.
    by apply list_fmap_ext; intros _ [? ?] _.
  - by eexists.
  - exact Ht.
Qed.

(** Which process a host is shown with: that of the flow to it seen last, if
    any flow to it is live. *)
Definition process_shown (flows : gmap FlowKey FlowState.t) (processes : gmap Z ProcessInfo) (to : FlowKey → Prop) (p : ProcessInfo) : Prop :=
  (∃ key s, flows !! key = Some s ∧ to key ∧ p = process_of processes key ∧
     ∀ key' s', flows !! key' = Some s' → to key' → FlowState.last_seen_ms s' <= FlowState.last_seen_ms s)
  ∨ (p = UNKNOWN_PROCESS ∧ ∀ key s, flows !! key = Some s → ~ to key).

Lemma attribution_shown {K} `{Countable K} processes (key_of : FlowKey → K) elapsed (flows : gmap FlowKey FlowState.t) h :
  process_shown (FlowTable.drain_flow <$> flows) processes (λ key, key_of key = h)
    (default UNKNOWN_PROCESS (fst <$> attribution processes key_of
       ((λ kv : FlowKey * FlowState.t, FlowTable.flow_snapshot elapsed kv.1 kv.2) <$> iter flows) !! h)).
Proof.
  set (snaps := _ <$> iter flows). pose proof (attribution_ok processes key_of snaps h) as Ha.
  assert (∀ key s, flows !! key = Some s → FlowTable.flow_snapshot elapsed key s ∈ snaps) as Hsn.
  { intros key s Hs. apply list_elem_of_fmap. exists (key, s). by rewrite elem_of_iter. }
  destruct (attribution processes key_of snaps !! h) as [[p t]|]; cbn.
  - destruct Ha as [(s0 & Hs0 & Hk & -> & ->) Hmax]. apply list_elem_of_fmap in Hs0 as ([key s] & -> & Hin%elem_of_iter).
    left. exists key, (FlowTable.drain_flow s). split_and!; [by rewrite lookup_fmap, Hin|done|done|].
    intros key' s' (s1 & <- & Hs1)%lookup_fmap_Some Hk'. apply (Hmax _ (Hsn _ _ Hs1) Hk').
  - right. split; [done|]. intros key s (s1 & <- & Hs1)%lookup_fmap_Some. apply (Ha _ (Hsn _ _ Hs1)).
Qed.

(** The process a host, or a conversation, is shown with is that of the flow of
    it seen last in the snapshot, and "unknown" with none. *)
Theorem process_attribution replaying now l processes :
  let '(l', g) := gather replaying now l in
  let shown := process_shown (FlowTable.flows (flow_table (capture l'))) processes in
  (∀ hosts h, Say (EndpointUpdate hosts) ∈ compose processes g → h ∈ hosts →
     shown (λ key, remote_addr key = ej_host h) (mkProcessInfo (ej_process_name h) (ej_pid h))) ∧
  (∀ pairs c, Say (ConversationUpdate pairs) ∈ compose processes g → c ∈ pairs →
     shown (λ key, (local_addr key, remote_addr key) = (vj_local_addr c, vj_remote_addr c))
       (mkProcessInfo (vj_process_name c) (vj_pid c))).
Proof.
  unfold gather. set (tnow := flow_aging_now_ms _ _ _).
  destruct (FlowTable.evict_stale (flow_table (capture l)) tnow) as [table ev].
  unfold FlowTable.snapshot, FlowTable.endpoint_snapshot, FlowTable.conversation_snapshot. cbn [fst snd]. cbn zeta.
  unfold compose. cbn [g_snapshots g_endpoints g_conversations].
  assert (∀ (keys : list FlowKey) e, Say e ∈ (keys ≫= λ key, [Forget (connection_id key); Say (ConnectionClosed (connection_id key))]) →
    ∃ id, e = ConnectionClosed id) as Hc.
  { intros keys e (key & Hin & _)%list_elem_of_bind. rewrite !elem_of_cons in Hin.
    destruct Hin as [Hin|[Hin|Hin]]; [done|injection Hin as ->; eauto|by apply not_elem_of_nil in Hin]. }
  split; intros js j Hjs Hj; rewrite !elem_of_app, !elem_of_cons, !list_elem_of_fmap in Hjs;
    repeat match type of Hjs with _ ∨ _ => destruct Hjs as [Hjs|Hjs] end; try discriminate;
    first [injection Hjs as ->; apply list_elem_of_fmap in Hj as (x & -> & _)
          |destruct Hjs as (? & Hjs & Hjs'); apply list_elem_of_fmap in Hjs' as (? & -> & _); discriminate
          |by apply Hc in Hjs as [? ?]|by apply not_elem_of_nil in Hjs].
  - cbn. match goal with |- context [attribution _ _ (_ <$> iter ?m) !! ?h] => pose proof (attribution_shown processes remote_addr (1 `max` sat_sub tnow (FlowTable.last_snapshot_ms table)) m h) as Ha end.
    by destruct (default _ _).
  - cbn. destruct (cv_pair x) as [la ra] eqn:Hp. cbn.
    pose proof (attribution_shown processes (λ key, (local_addr key, remote_addr key)) (1 `max` sat_sub tnow (FlowTable.last_snapshot_ms table)) (FlowTable.flows table) (la, ra)) as Ha.
    by destruct (default _ _).
Qed.
End ticks.

(** ** Samples *)

Module TickSamples.
Definition processes : gmap Z ProcessInfo := list_to_map ((λ p, (p, mkProcessInfo (lit "curl") 42)) <$> [443; 50000; 40000; 1234]).
Definition at_moment (now : Z) : Moment := mkMoment (now * 1000000) (now * 1000000) processes (λ _, OpenFails) 0 0 false 10.

(** 1,250,000 bytes a second are 10 Mbps, over two seconds 5. *)
Example sample_rates :
  mbps (F64.as_secs 1000000000) 1250000 = F64.of_int 10 ∧ mbps (F64.as_secs 2000000000) 1250000 = F64.of_int 5 ∧
  pps (F64.as_secs 500000000) 250 = F64.of_int 500 ∧ mbps (F64.as_secs 0) 1250000 = F64.zero ∧
  pps (F64.as_secs 3000000000) 10 ≠ F64.of_int 3.
Proof. vm_compute. split_and!; try reflexivity. discriminate. Qed.
End TickSamples.
