(* ===== verification/ControlPlane.v ===== *)
(** * The control connections

    The accept loop of [capture-agent/src/main.rs] and the task each connection
    runs: authentication against the published token, the two budgets of
    connections, the acknowledgement, and then, in whatever order lines and
    events come, the handling of control messages and the forwarding of events.

    The tasks interleave at their awaits, so the plane is a machine whose
    actions are the steps between awaits; a run is a list of actions chosen by
    the scheduler.  A connection carries what its peer sends, as a script of
    reads; an action on a connection that is not at that await does nothing. *)

From S2P Require Import Prelude Text Packet RateLimit Pcapng Ring Keylog Http2 Decrypt Traceroute ControlAuth Wire Startup CaptureConfig CaptureLoop.
#[local] Open Scope Z_scope.

Section control.
Context `{Hpack}.

(** ** The state the connections share *)

Record Shared := mkShared {
  sh_paused : bool;
  sh_decryption : World;                       (** [keylog_watcher], [decrypt_state] *)
  sh_requests : list CaptureConfigRequest;     (** queued for the capture thread *)
  sh_writer : WriterThread.t;
  sh_traces : list bytes;                      (** targets of the traceroute tasks spawned *)
  sh_relay_lagged : Z
}.
#[export] Instance eta_Shared : RecordEta Shared := λ s,
  mkShared (sh_paused s) (sh_decryption s) (sh_requests s) (sh_writer s) (sh_traces s) (sh_relay_lagged s).

(** What a handler reads of the rest of the agent and of the system. *)
Record Surroundings := mkSurroundings {
  su_devices : result bytes (list Device);
  su_cwd : option bytes;
  su_canonicalize : bytes → option bytes;
  su_interface : bytes;
  su_link_type : LinkType;
  su_snaplen : Z;
  su_hostname : bytes;
  su_version : bytes
}.

(** ** Handling a message *)

Definition list_interfaces (devices : result bytes (list Device)) : list InterfaceJson :=
  match devices with
  | Ok devices => (λ d, mkInterfaceJson (dev_name d) (local_addrs_for d)) <$> filter (λ d, is_capturable d = true) devices
  | Err _ => []
  end.

Definition unregister (pid : Z) (w : World) : World :=
  w <| w_watcher ::= λ kw, KeyLogWatcher.unregister_pid kw pid |>
    <| w_state ::= filter (λ ic : bytes * Connection, c_pid ic.2 ≠ pid) |>.

Definition handle_message (su : Surroundings) (m : ControlMessage) (s : Shared) : Shared * list AgentEvent :=
  match m with
  | Pause => (s <| sh_paused := true |>, [])
  | Resume => (s <| sh_paused := false |>, [])
  | RegisterDecryptEligible pid keylog_path =>
      (s <| sh_decryption ::= λ w, w <| w_watcher ::= λ kw, KeyLogWatcher.register_eligible_pid kw pid keylog_path |> |>, [])
  | UnregisterDecryptEligible pid => (s <| sh_decryption ::= unregister pid |>, [])
  | TraceRoute target_ip => (s <| sh_traces ::= λ t, t ++ [target_ip] |>, [])
  | SetCaptureFilter filter => (s <| sh_requests ::= λ q, q ++ [SetFilter filter] |>, [])
  | SetSnaplen n => (s <| sh_requests ::= λ q, q ++ [SetSnaplenTo n] |>, [])
  | ListInterfaces => (s, [InterfaceList (list_interfaces (su_devices su))])
  | SetInterface name => (s <| sh_requests ::= λ q, q ++ [SwitchInterface name] |>, [])
  | StartCaptureFile path ring autostop =>
      match start_capture_file (su_canonicalize su) (sh_writer s) (default (lit ".") (su_cwd su)) path ring autostop
              (mkIdb (su_interface su) (su_link_type su) (su_snaplen su)) (su_hostname su) (su_version su) with
      | Ok writer => (s <| sh_writer := writer |>, [])
      | Err e => (s, [CaptureFileError (Refused e)])
      end
  | StopCaptureFile => (s <| sh_writer ::= stop_capture_file |>, [])
  end.

(** The task a [TraceRoute] spawns: a hop event per hop; a failure to open the
    socket is only printed. *)
Definition trace_events (target_ip : bytes) (session : result bytes ProbeSession.t) (now : Z) : list AgentEvent :=
  match run_traceroute target_ip session now with
  | Ok hops => (λ hop, TracerouteHop (mkTracerouteHopJson target_ip hop)) <$> hops
  | Err _ => []
  end.

(** ** Connections *)

(** The await a connection's task is at, with its reader. *)
Inductive Phase :=
| Verifying (r : BufReader)       (** holds a [pending] permit *)
| Acknowledging (r : BufReader)   (** holds both *)
| Serving (r : BufReader)         (** holds an [authenticated] permit *)
| Gone.

Record Peer := mkPeer { peer_script : list ReadEvent; peer_phase : Phase }.
#[export] Instance eta_Peer : RecordEta Peer := λ p, mkPeer (peer_script p) (peer_phase p).

Record Plane := mkPlane { admission : Admission.t; peers : list Peer; shared : Shared }.
#[export] Instance eta_Plane : RecordEta Plane := λ p, mkPlane (admission p) (peers p) (shared p).

(** [Lines::next_line] of the asynchronous runtime, on the same reader. *)
Inductive NextLine := Line (text : bytes) | EndOfLines | LineError.
Class Lines := next_line : BufReader → BufReader * NextLine.

(** What [rx.recv()] gave, and what became of writing it to the peer. *)
Inductive Relayed := Forwarded | ForwardFailed | Lagged (skipped : Z) | ChannelClosed.

Inductive Action :=
| AcceptFailed
| Accept (script : list ReadEvent)
| Verify (i : nat)
| Acknowledge (i : nat) (o : WriteOutcome)
| NextControlLine (i : nat) (su : Surroundings)
| Relay (i : nat) (o : Relayed)
| Trace (j : nat) (session : result bytes ProbeSession.t) (now : Z).

Section plane.
Context `{HexCrate} `{Hmac} `{AuthJson} `{ControlJson} `{Lines} (token : bytes).

Definition accept (script : list ReadEvent) (p : Plane) : Plane :=
  match Admission.try_pending (admission p) with
  | Ok a => p <| admission := a |> <| peers ::= λ ps, ps ++ [mkPeer script (Verifying (mkBufReader [] script))] |>
  | Err _ => p
  end.

Definition set_phase (i : nat) (ph : Phase) (p : Plane) : Plane := p <| peers ::= alter (λ q, q <| peer_phase := ph |>) i |>.

(** Returning from the task drops the permits it holds. *)
Definition drop_task (i : nat) (p : Plane) : Plane :=
  match peer_phase <$> peers p !! i with
  | Some (Verifying _) => set_phase i Gone (p <| admission ::= Admission.release_pending |>)
  | Some (Acknowledging _) => set_phase i Gone (p <| admission ::= λ a, Admission.release_pending (Admission.release_authenticated a) |>)
  | Some (Serving _) => set_phase i Gone (p <| admission ::= Admission.release_authenticated |>)
  | _ => p
  end.

Definition verify (i : nat) (r : BufReader) (p : Plane) : Plane :=
  match verify_peer token r with
  | (_, Err _) => drop_task i p
  | (r, Ok _) =>
      match Admission.try_authenticated (admission p) with
      | Err _ => drop_task i p
      | Ok a => set_phase i (Acknowledging r) (p <| admission := a |>)
      end
  end.

Definition acknowledge (i : nat) (r : BufReader) (o : WriteOutcome) (p : Plane) : Plane :=
  match (write_ack o).2 with
  | Err _ => drop_task i p
  | Ok _ => set_phase i (Serving r) (p <| admission ::= Admission.release_pending |>)
  end.

Definition serve_line (i : nat) (r : BufReader) (su : Surroundings) (p : Plane) : Plane * list AgentEvent :=
  match next_line r with
  | (r, Line text) =>
      match classify_control_line text with
      | NotJson => (drop_task i p, [])
      | Ignored => (set_phase i (Serving r) p, [])
      | Message m =>
          let '(s, es) := handle_message su m (shared p) in
          (set_phase i (Serving r) (p <| shared := s |>), es)
      end
  | (_, EndOfLines) | (_, LineError) => (drop_task i p, [])
  end.

Definition relay (i : nat) (o : Relayed) (p : Plane) : Plane :=
  match o with
  | Forwarded => p
  | Lagged skipped => p <| shared ::= λ s, s <| sh_relay_lagged ::= λ n, (n + skipped) mod 2 ^ 64 |> |>
  | ForwardFailed | ChannelClosed => drop_task i p
  end.

Definition step (p : Plane) (a : Action) : Plane * list AgentEvent :=
  match a with
  | AcceptFailed => (p, [])
  | Accept script => (accept script p, [])
  | Verify i => match peer_phase <$> peers p !! i with Some (Verifying r) => (verify i r p, []) | _ => (p, []) end
  | Acknowledge i o => match peer_phase <$> peers p !! i with Some (Acknowledging r) => (acknowledge i r o p, []) | _ => (p, []) end
  | NextControlLine i su => match peer_phase <$> peers p !! i with Some (Serving r) => serve_line i r su p | _ => (p, []) end
  | Relay i o => match peer_phase <$> peers p !! i with Some (Serving _) => (relay i o p, []) | _ => (p, []) end
  | Trace j session now =>
      match sh_traces (shared p) !! j with
      | Some target_ip => (p <| shared ::= λ s, s <| sh_traces ::= delete j |> |>, trace_events target_ip session now)
      | None => (p, [])
      end
  end.

Fixpoint run_plane (p : Plane) (actions : list Action) : Plane * list AgentEvent :=
  match actions with
  | [] => (p, [])
  | a :: actions' =>
      let '(p, es) := step p a in
      let '(p, es') := run_plane p actions' in
      (p, es ++ es')
  end.

Definition listening (w : World) (writer : WriterThread.t) : Plane :=
  mkPlane Admission.new [] (mkShared false w [] writer [] 0).

(** ** Permits *)

Definition pending_held (q : Peer) : Z := match peer_phase q with Verifying _ | Acknowledging _ => 1 | _ => 0 end.
Definition authenticated_held (q : Peer) : Z := match peer_phase q with Acknowledging _ | Serving _ => 1 | _ => 0 end.
Definition held (f : Peer → Z) (ps : list Peer) : Z := foldr (λ q n, f q + n) 0 ps.

Lemma held_snoc f ps q : held f (ps ++ [q]) = held f ps + f q.
Proof. unfold held. induction ps as [|x ps IH]; cbn in *; lia. Qed.

Lemma held_alter f g ps i q : ps !! i = Some q → held f (alter g i ps) = held f ps - f q + f (g q).
Proof.
  revert i. induction ps as [|x ps IH]; intros [|i] Hi; try done; cbn in *; [simplify_eq; lia|].
  unfold held in IH. rewrite (IH i) by done. lia.
Qed.

Lemma held_nonneg f ps : (∀ q, 0 <= f q) → 0 <= held f ps.
Proof. intros Hf. induction ps as [|x ps IH]; cbn; [lia|]. specialize (Hf x). unfold held in IH. lia. Qed.

#[local] Arguments held : simpl never.

Record accounted (p : Plane) : Prop := {
  acc_pending : Admission.pending (admission p) + held pending_held (peers p) = 16;
  acc_authenticated : Admission.authenticated (admission p) + held authenticated_held (peers p) = 64;
  acc_left : 0 <= Admission.pending (admission p) ∧ 0 <= Admission.authenticated (admission p)
}.

(** A change of phase and of the permits that agree. *)
Lemma set_phase_accounted i q ph p a :
  peers p !! i = Some q → accounted p →
  Admission.pending a - Admission.pending (admission p) = pending_held q - pending_held (mkPeer (peer_script q) ph) →
  Admission.authenticated a - Admission.authenticated (admission p) = authenticated_held q - authenticated_held (mkPeer (peer_script q) ph) →
  0 <= Admission.pending a ∧ 0 <= Admission.authenticated a →
  accounted (set_phase i ph (p <| admission := a |>)).
Proof.
  intros Hi [Hp Ha _] H1' H2' Hl. constructor; cbn; [rewrite (held_alter _ _ _ _ q) by done; cbn..|done].
  - change (q <| peer_phase := ph |>) with (mkPeer (peer_script q) ph). lia.
  - change (q <| peer_phase := ph |>) with (mkPeer (peer_script q) ph). lia.
Qed.

Ltac at_phase Hq :=
  unfold pending_held, authenticated_held, Admission.release_pending, Admission.release_authenticated; cbn; rewrite ?Hq; cbn; lia.

Lemma drop_task_accounted i p : accounted p → accounted (drop_task i p).
Proof.
  intros Hac. unfold drop_task. destruct (peers p !! i) as [q|] eqn:Hi; [|done]. cbn.
  pose proof (acc_left _ Hac). destruct (peer_phase q) eqn:Hq; [| | |done];
    (eapply set_phase_accounted; [exact Hi|done|at_phase Hq..]).
Qed.

Lemma step_accounted p a : accounted p → accounted (step p a).1.
Proof.
  intros Hac. pose proof (acc_left _ Hac) as Hl. destruct a as [|script|i|i o|i su|i o|j session now]; cbn [step]; [done| | | | | |].
  - cbn. unfold accept, Admission.try_pending. case_zb; [|done]. destruct Hac as [Hp Ha _].
    constructor; cbn; rewrite ?held_snoc; cbn; lia.
  - destruct (peers p !! i) as [q|] eqn:Hi; [|done]. cbn. destruct (peer_phase q) as [r| | |] eqn:Hq; try done. cbn. unfold verify.
    destruct (verify_peer token r) as [r' [[]|e]]; [|by apply drop_task_accounted].
    unfold Admission.try_authenticated. case_zb; [|by apply drop_task_accounted].
    eapply set_phase_accounted; [exact Hi|done|at_phase Hq..].
  - destruct (peers p !! i) as [q|] eqn:Hi; [|done]. cbn. destruct (peer_phase q) as [|r| |] eqn:Hq; try done. cbn. unfold acknowledge.
    destruct (write_ack o).2; [|by apply drop_task_accounted].
    eapply set_phase_accounted; [exact Hi|done|at_phase Hq..].
  - destruct (peers p !! i) as [q|] eqn:Hi; [|done]. cbn. destruct (peer_phase q) as [| |r|] eqn:Hq; try done. cbn. unfold serve_line.
    destruct (next_line r) as [r' [text| |]]; [|by apply drop_task_accounted..].
    destruct (classify_control_line text) as [m| |]; [|by apply (set_phase_accounted i q _ p (admission p)); [..|at_phase Hq|at_phase Hq|]|by apply drop_task_accounted].
    destruct (handle_message su m (shared p)) as [s es]. cbn.
    apply (set_phase_accounted i q _ (p <| shared := s |>) (admission p)); [done| |at_phase Hq|at_phase Hq|done]. by destruct Hac.
  - destruct (peers p !! i) as [q|] eqn:Hi; [|done]. cbn. destruct (peer_phase q) as [| |r|] eqn:Hq; try done. cbn.
    destruct o; cbn; [done|by apply drop_task_accounted|by destruct Hac|by apply drop_task_accounted].
  - destruct (sh_traces _ !! j); [|done]. by destruct Hac.
Qed.

Lemma run_plane_ind (P : Plane → Prop) p actions :
  P p → (∀ p a, a ∈ actions → P p → P (step p a).1) → P (run_plane p actions).1.
Proof.
  revert p. induction actions as [|a actions IH]; intros p Hp Hs; [done|]. cbn [run_plane].
  pose proof (Hs p a ltac:(by left) Hp) as H1'. destruct (step p a) as [p1 es]. cbn [fst] in H1'.
  specialize (IH p1 H1' ltac:(intros; apply Hs; [by right|done])). by destruct (run_plane p1 actions).
Qed.

(** C24: connection budgets.  Whatever the peers do and however the tasks
    interleave, at most 16 connections are unacknowledged and at most 64
    authenticated at a time, no permit is lost or invented, and once the
    connections are gone all permits are back. *)
Theorem permits_conserved w writer actions :
  let p := (run_plane (listening w writer) actions).1 in
  held pending_held (peers p) <= 16 ∧ held authenticated_held (peers p) <= 64 ∧
  admission p = Admission.mk (16 - held pending_held (peers p)) (64 - held authenticated_held (peers p)) ∧
  (Forall (λ q, peer_phase q = Gone) (peers p) → admission p = Admission.new).
Proof.
  cbn zeta. assert (accounted (run_plane (listening w writer) actions).1) as Hac.
  { apply run_plane_ind; [by constructor|]. intros; by apply step_accounted. }
  destruct (run_plane _ actions) as [p es]. cbn [fst] in *. destruct Hac as [Hp Ha [Hl1 Hl2]].
  assert (admission p = Admission.mk (16 - held pending_held (peers p)) (64 - held authenticated_held (peers p))) as Hadm.
  { destruct (admission p); cbn in *. f_equal; lia. }
  split_and!; [lia|lia|done|]. intros Hg. rewrite Hadm.
  assert (held pending_held (peers p) = 0 ∧ held authenticated_held (peers p) = 0) as [-> ->]; [|done].
  clear -Hg. unfold held, pending_held, authenticated_held. induction Hg as [|q ps Hq _ [IH1 IH2]]; [done|]. cbn. rewrite Hq. lia.
Qed.

(** ** Only a peer with the token is served *)

Context `{!HexCrateLaws}.

Definition phase_ok (accepted : list ReadEvent → Prop) (q : Peer) : Prop :=
  accepted (peer_script q) ∧
  match peer_phase q with
  | Verifying r => r = mkBufReader [] (peer_script q)
  | Acknowledging _ | Serving _ => presents_token token (peer_script q)
  | Gone => True
  end.

(** The connections' phases are earned, and so is every task they spawned. *)
Record earned (accepted : list ReadEvent → Prop) (p : Plane) : Prop := {
  earned_phases : Forall (phase_ok accepted) (peers p);
  earned_traces : sh_traces (shared p) ≠ [] → ∃ i q, peers p !! i = Some q ∧ presents_token token (peer_script q)
}.

Lemma set_phase_earned accepted i q ph p :
  peers p !! i = Some q → earned accepted p → phase_ok accepted (mkPeer (peer_script q) ph) → earned accepted (set_phase i ph p).
Proof.
  intros Hi [Hp Ht] Hq. constructor.
  - cbn. apply Forall_alter; [done|]. intros q' Hq' _. rewrite Hi in Hq'. by injection Hq' as <-.
  - cbn. intros Hne. destruct (Ht Hne) as (j & q' & Hj & Hpr). destruct (decide (j = i)) as [->|].
    + exists i. rewrite list_lookup_alter_eq, Hj. by eexists.
    + exists j, q'. by rewrite list_lookup_alter_ne.
Qed.

Lemma drop_task_earned accepted i p : earned accepted p → earned accepted (drop_task i p).
Proof.
  intros He. unfold drop_task. destruct (peers p !! i) as [q|] eqn:Hi; [|done]. cbn.
  assert (accepted (peer_script q)) as Hq by (destruct He as [Hf _]; by eapply Forall_lookup_1 in Hf as [? _]).
  destruct (peer_phase q); [| | |done]; (eapply set_phase_earned; [exact Hi|by destruct He|done]).
Qed.

Lemma step_earned accepted p a : tag_binds token → (∀ script, a = Accept script → accepted script) →
  earned accepted p → earned accepted (step p a).1.
Proof.
  intros Hb Hacc He. pose proof (earned_phases _ _ He) as Hf. destruct a as [|script|i|i o|i su|i o|j session now]; cbn [step]; [done| | | | | |].
  - cbn. unfold accept. destruct (Admission.try_pending _); [|done]. constructor; cbn.
    + apply Forall_app. split; [done|]. constructor; [|done]. split; [by apply Hacc|done].
    + intros (i & q & Hi & Hq)%(earned_traces _ _ He). exists i, q. split; [by apply lookup_app_l_Some|done].
  - destruct (peers p !! i) as [q|] eqn:Hi; [|done]. cbn. pose proof (Forall_lookup_1 _ _ _ _ Hf Hi) as [Hq Hph].
    destruct (peer_phase q) as [r| | |]; try done. subst r. cbn. unfold verify.
    destruct (verify_peer token _) as [r' [[]|e]] eqn:Hv; [|by apply drop_task_earned].
    destruct (Admission.try_authenticated _); [|by apply drop_task_earned].
    eapply set_phase_earned; [exact Hi|by destruct He|]. split; [done|]. by eapply verify_peer_presents.
  - destruct (peers p !! i) as [q|] eqn:Hi; [|done]. cbn. pose proof (Forall_lookup_1 _ _ _ _ Hf Hi) as [Hq Hph].
    destruct (peer_phase q) as [|r| |]; try done. cbn. unfold acknowledge. destruct (write_ack o).2; [|by apply drop_task_earned].
    eapply set_phase_earned; [exact Hi|by destruct He|]. by split.
  - destruct (peers p !! i) as [q|] eqn:Hi; [|done]. cbn. pose proof (Forall_lookup_1 _ _ _ _ Hf Hi) as [Hq Hph].
    destruct (peer_phase q) as [| |r|]; try done. cbn. unfold serve_line.
    destruct (next_line r) as [r' [text| |]]; [|by apply drop_task_earned..].
    destruct (classify_control_line text) as [m| |]; [|by eapply set_phase_earned; [exact Hi|..]|by apply drop_task_earned].
    destruct (handle_message su m (shared p)) as [s es]. cbn.
    eapply set_phase_earned; [exact Hi|constructor; [done|]|by split]. intros _. by exists i, q.
  - destruct (peers p !! i) as [q|] eqn:Hi; [|done]. cbn. destruct (peer_phase q); try done. cbn.
    destruct o; cbn; [done|by apply drop_task_earned|by destruct He|by apply drop_task_earned].
  - destruct (sh_traces (shared p) !! j) as [target|] eqn:Hj; [|done]. constructor; [done|]. intros _.
    apply (earned_traces _ _ He). intros Hnil. by rewrite Hnil in Hj.
Qed.

Lemma drop_task_shared i p : shared (drop_task i p) = shared p.
Proof. unfold drop_task. by destruct (peers p !! i) as [[? []]|]. Qed.

(** The connection an action belongs to; a traceroute task outlives its. *)
Definition of_peer (a : Action) (i : nat) : bool :=
  match a with
  | NextControlLine j _ | Relay j _ => bool_decide (i = j)
  | Trace _ _ _ => true
  | _ => false
  end.

(** A step does something only for a connection that presented the token. *)
Lemma step_authorised accepted p a : earned accepted p →
  let '(p', es) := step p a in
  (shared p' = shared p ∧ es = []) ∨
  ∃ i q, peers p !! i = Some q ∧ of_peer a i = true ∧ accepted (peer_script q) ∧ presents_token token (peer_script q).
Proof.
  intros He. pose proof (earned_phases _ _ He) as Hf.
  destruct a as [|script|i|i o|i su|i o|j session now]; cbn [step].
  - by left.
  - left. split; [|done]. unfold accept. by destruct (Admission.try_pending _).
  - destruct (peers p !! i) as [[sc [r| | |]]|]; cbn; try by left. left. split; [|done]. unfold verify.
    destruct (verify_peer token r) as [? [?|?]]; [|apply drop_task_shared].
    destruct (Admission.try_authenticated _); [done|apply drop_task_shared].
  - destruct (peers p !! i) as [[sc [|r| |]]|]; cbn; try by left. left. split; [|done]. unfold acknowledge.
    destruct (write_ack o).2; [done|apply drop_task_shared].
  - destruct (peers p !! i) as [q|] eqn:Hi; [|by left]. cbn. pose proof (Forall_lookup_1 _ _ _ _ Hf Hi) as [Hq Hph].
    destruct (peer_phase q); try by left. destruct (serve_line _ _ _ _). right. exists i, q. by rewrite bool_decide_true.
  - destruct (peers p !! i) as [q|] eqn:Hi; [|by left]. cbn. pose proof (Forall_lookup_1 _ _ _ _ Hf Hi) as [Hq Hph].
    destruct (peer_phase q); try by left. right. exists i, q. by rewrite bool_decide_true.
  - destruct (sh_traces (shared p) !! j) as [target|] eqn:Hj; [|by left]. right.
    destruct (earned_traces _ _ He) as (i & q & Hi & Hpr); [intros Hn; by rewrite Hn in Hj|].
    exists i, q. split_and!; [done..| |done]. by destruct (Forall_lookup_1 _ _ _ _ Hf Hi).
Qed.

(** C7: control needs the token.  However the tasks interleave and whatever the
    peers send, in whatever pieces, a step changes the agent's state or makes it
    send an event only for a connection that was accepted and whose first line
    carried the published token, or in a task such a connection started. *)
Theorem control_needs_token w writer actions a : tag_binds token →
  let p := (run_plane (listening w writer) actions).1 in
  let '(p', es) := step p a in
  (shared p' = shared p ∧ es = []) ∨
  ∃ i q, peers p !! i = Some q ∧ of_peer a i = true ∧ Accept (peer_script q) ∈ actions ∧ presents_token token (peer_script q).
Proof.
  intros Hb. cbn zeta. apply (step_authorised (λ script, Accept script ∈ actions)).
  apply run_plane_ind; [by constructor|]. intros p b Hin. apply step_earned; [done|]. by intros script ->.
Qed.
End plane.
End control.

(** ** What unregistering a process leaves *)

(** After [UnregisterDecryptEligible] the process is not eligible, none of
    its key-log secrets and none of its connections' decryption state is left,
    and what belongs to other processes is as it was. *)
Theorem unregister_forgets `{Hpack} su pid s :
  let '(s', es) := handle_message su (UnregisterDecryptEligible pid) s in
  let w := sh_decryption s in let w' := sh_decryption s' in
  es = [] ∧ KeyLogWatcher.is_eligible (w_watcher w') pid = false ∧
  (∀ random lbl, KeyLogWatcher.secret_for (w_watcher w') pid random lbl = None) ∧
  (∀ id c, w_state w' !! id = Some c ↔ w_state w !! id = Some c ∧ c_pid c ≠ pid) ∧
  (∀ pid' random lbl, pid' ≠ pid →
     KeyLogWatcher.is_eligible (w_watcher w') pid' = KeyLogWatcher.is_eligible (w_watcher w) pid' ∧
     KeyLogWatcher.secret_for (w_watcher w') pid' random lbl = KeyLogWatcher.secret_for (w_watcher w) pid' random lbl).
Proof.
  cbn. unfold KeyLogWatcher.is_eligible, KeyLogWatcher.secret_for, unregister. cbn. split_and!; [done| | | |].
  - by rewrite lookup_delete_eq.
  - intros random lbl. rewrite map_lookup_filter_None_2; [done|]. right. intros sec _ Hne. by apply Hne.
  - intros id c. apply map_lookup_filter_Some.
  - intros pid' random lbl Hne. rewrite lookup_delete_ne by done. split; [done|].
    rewrite map_lookup_filter. destruct (KeyLogWatcher.secrets _ !! _); [|done]. cbn. by rewrite option_guard_True.
Qed.

(** ** A session *)

Module ControlSamples.
#[local] Existing Instances Http2.toy_hpack ControlAuth.sample_hex_crate ControlAuth.sample_hex_laws ControlAuth.sample_hmac ControlAuth.sample_auth_json.

#[local] Instance sample_control_json : ControlJson := λ line,
  if bool_decide (line = lit "{pause}") then Some (Some Pause) else if bool_decide (head line = Some 123) then Some None else None.

(** Lines of a peer whose bytes are all there. *)
#[local] Instance sample_lines : Lines := λ r,
  match position 10 (unread r) with
  | Some n => (mkBufReader (zdrop (n + 1) (unread r)) [], Line (ztake n (unread r)))
  | None => (r, EndOfLines)
  end.

Definition surroundings : Surroundings := mkSurroundings (Ok []) None (λ _, None) (lit "en0") Ethernet 65535 (lit "h") (lit "1").
Definition start : Plane := listening (mkWorld ∅ KeyLogWatcher.new (PacketEventLimiter.new 100 1000)) (WriterThread.init ∅).
Definition good : list ReadEvent := [Data (ControlAuth.sample_line ++ [10]); Data (lit "{pause}" ++ [10]); Closed].
Definition bad : list ReadEvent := [Data (lit "POST / HTTP/1.1" ++ [10] ++ lit "{pause}" ++ [10])].

Definition actions : list Action :=
  [Accept bad; Accept good; Verify 1; Verify 0; NextControlLine 0 surroundings; Acknowledge 1 Written].

(** The peer with the token pauses the capture; the other is gone. *)
Example session :
  let p := (run_plane ControlAuth.sample_token start actions).1 in
  let p' := (step ControlAuth.sample_token p (NextControlLine 1 surroundings)).1 in
  sh_paused (shared p) = false ∧ sh_paused (shared p') = true ∧ admission p' = Admission.mk 16 63 ∧
  (peer_phase <$> peers p' !! 0%nat) = Some Gone.
Proof. vm_compute. done. Qed.

Lemma control_needs_token_witness :
  ∃ i q, peers (run_plane ControlAuth.sample_token start actions).1 !! i = Some q ∧
    of_peer (NextControlLine 1 surroundings) i = true ∧ Accept (peer_script q) ∈ actions ∧
    presents_token ControlAuth.sample_token (peer_script q).
Proof.
  pose proof (control_needs_token ControlAuth.sample_token (mkWorld ∅ KeyLogWatcher.new (PacketEventLimiter.new 100 1000))
    (WriterThread.init ∅) actions (NextControlLine 1 surroundings) (ControlAuth.sample_tag_binds _)) as Hc.
  cbn zeta in Hc. destruct session as (Hb & Ha & _). cbn zeta in Hb, Ha. fold start in Hc.
  destruct (step _ _ _) as [p' es]. destruct Hc as [[Hc _]|Hc]; [|exact Hc].
  cbn [fst] in Ha. rewrite Hc, Hb in Ha. discriminate Ha.
Defined.
End ControlSamples.
