(* ===== verification/Agent.v ===== *)
(** * The agent as a whole

    [main] of [capture-agent/src/main.rs]: the set-up of the process and then
    the threads and tasks over the state they share: the capture thread, the
    periodic emitter, the writer thread, the refresh of the process table and
    the control connections.  A move is what a thread does between two points
    where another can step in: one queued request or one frame of the capture
    thread, one event it sends, one lock or one event of the emitter's tick, one
    command of the writer, one step of a connection between awaits.  The
    scheduler chooses any sequence of moves.  What a thread reads of the shared
    state comes from the state here: the requests queued, the pause flag and the
    process table of a turn, the counters a tick reports, the interface a
    capture file is started on. *)

From Stdlib Require Import QArith.
From S2P Require Import Prelude Text Packet RateLimit RingBuffer L7Tls L7 Parse Fragments Sniff DnsNames Flow Pcapng Ring Transaction Keylog TlsDecrypt Http2 Decrypt Fields Traceroute ControlAuth Wire ProcessLookup Startup CaptureConfig ControlTraffic CaptureLoop CaptureEvents Emitter ControlPlane.
#[local] Open Scope Z_scope.

Section agent.
Context `{PcapControl} `{VecPolicy} `{IterOrder} `{Ipv4Codec} `{Md5} `{Slicer}.
Context `{Hpack} `{TlsCrypto} `{Zeroizer} `{HexDecoder}.
Context `{HexCrate} `{Hmac} `{AuthJson} `{ControlJson} `{Lines}.

(** What is fixed once the process has started. *)
Record Fixed := mkFixed {
  fx_replaying : bool;
  fx_mode : bytes;
  fx_replay_source : option bytes;
  fx_hostname : bytes;
  fx_version : bytes;
  fx_token : bytes
}.

(** Where the capture thread is in its loop: draining the requests, about to
    read a frame, or past the end of its source. *)
Inductive CapturePc := Draining | Reading | Ended.

Record Agent := mkAgent {
  ag_loop : Loop;
  ag_pc : CapturePc;
  ag_outbox : list AgentEvent;                    (** events the capture thread is about to send *)
  ag_emitter : Emitter;
  ag_processes : gmap Z ProcessInfo;
  ag_paused : bool;
  ag_requests : list CaptureConfigRequest;
  ag_traces : list bytes;
  ag_relay_lagged : Z;
  ag_admission : Admission.t;
  ag_peers : list Peer
}.
#[export] Instance eta_Agent : RecordEta Agent := λ a,
  mkAgent (ag_loop a) (ag_pc a) (ag_outbox a) (ag_emitter a) (ag_processes a) (ag_paused a) (ag_requests a) (ag_traces a)
    (ag_relay_lagged a) (ag_admission a) (ag_peers a).

(** ** Moves *)

(** The control connections see the agent's state as their plane. *)
Definition plane_of (a : Agent) : Plane :=
  mkPlane (ag_admission a) (ag_peers a)
    (mkShared (ag_paused a) (decryption (ag_loop a)) (ag_requests a) (writer (ag_loop a)) (ag_traces a) (ag_relay_lagged a)).

Definition put_plane (p : Plane) (a : Agent) : Agent :=
  let s := shared p in
  a <| ag_admission := admission p |> <| ag_peers := peers p |>
    <| ag_loop ::= λ l, l <| decryption := sh_decryption s |> <| writer := sh_writer s |> |>
    <| ag_paused := sh_paused s |> <| ag_requests := sh_requests s |> <| ag_traces := sh_traces s |>
    <| ag_relay_lagged := sh_relay_lagged s |>.

(** A control line is handled with the interface, link type and snap length of
    the moment. *)
Definition in_surroundings (fx : Fixed) (a : Agent) (c : Action) : Action :=
  match c with
  | NextControlLine i su =>
      let c := capture (ag_loop a) in
      NextControlLine i
        (mkSurroundings (su_devices su) (su_cwd su) (su_canonicalize su) (current_interface c).1 (current_link_type c)
           (cc_snaplen (config c)) (fx_hostname fx) (fx_version fx))
  | c => c
  end.

(** A turn's frame, once the requests are drained. *)
Definition turn_of (a : Agent) (t : Turn) : Turn :=
  mkTurn [] (ag_paused a) (t_instant t) (t_stats t) (t_live t) (t_wall t)
    (t_now_ms t) (ag_processes a) (t_keylogs t) (t_keylog_now t) (t_mlock_ok t) (t_fuel t).

Definition moment_of (a : Agent) (k : Moment) : Moment :=
  mkMoment (k_read_at k) (k_instant k) (ag_processes a) (k_keylogs k) (k_keylog_now k) (ag_relay_lagged a) (ag_paused a) (k_fuel k).

Inductive Move :=
| CaptureDrains (answers : Answers)
| CaptureReads (t : Turn)
| CaptureSends
| EmitterTick (agent_now_ms : Z)
| EmitterStep (k : Moment)
| WriterTakes (os : Ring.Os)
| RefreshProcesses (stdout : option bytes)
| Connections (c : Action).

(** The capture thread takes a queued request, with libpcap's answers to it;
    with none left it goes on to read. *)
Definition capture_drains (answers : Answers) (a : Agent) : option Agent :=
  match ag_pc a, ag_outbox a with
  | Draining, [] =>
      match ag_requests a with
      | [] => Some (a <| ag_pc := Reading |>)
      | request :: requests =>
          '(c, es) ← drain_request answers request (capture (ag_loop a));
          Some (a <| ag_loop ::= λ l, l <| capture := c |> |> <| ag_requests := requests |> <| ag_outbox := es |>)
      end
  | _, _ => Some a
  end.

(** The capture thread reads a frame, unless it is paused. *)
Definition capture_reads (fx : Fixed) (t : Turn) (a : Agent) : option Agent :=
  match ag_pc a, ag_outbox a with
  | Reading, [] =>
      '(l, go, es) ← turn (fx_replaying fx) (turn_of a t) (ag_loop a);
      Some (a <| ag_loop := l |> <| ag_pc := if (go : bool) then Draining else Ended |> <| ag_outbox := es |>)
  | _, _ => Some a
  end.

Definition capture_sends (a : Agent) : Agent * list AgentEvent :=
  match ag_outbox a with
  | [] => (a, [])
  | e :: es => (a <| ag_outbox := es |>, [e])
  end.

(** The thread that refreshes the process table, in live mode only. *)
Definition refresh_processes (fx : Fixed) (stdout : option bytes) (a : Agent) : Agent :=
  if fx_replaying fx then a else a <| ag_processes := refresh stdout |>.

(** The writer thread takes a command; a start that fails is reported. *)
Definition writer_takes (os : Ring.Os) (w : WriterThread.t) : WriterThread.t * list AgentEvent :=
  let w' := WriterThread.recv w os in
  (w', (λ e, CaptureFileError (NotStarted e)) <$> drop (length (WriterThread.errors w)) (WriterThread.errors w')).

(** [None]: the thread does not come back from the move. *)
Definition move (fx : Fixed) (a : Agent) (m : Move) : option (Agent * list AgentEvent) :=
  match m with
  | CaptureDrains answers => a ← capture_drains answers a; Some (a, [])
  | CaptureReads t => a ← capture_reads fx t a; Some (a, [])
  | CaptureSends => Some (capture_sends a)
  | EmitterTick agent_now_ms =>
      let '(l, e) := emitter_tick (fx_replaying fx) agent_now_ms (ag_loop a) (ag_emitter a) in
      Some (a <| ag_loop := l |> <| ag_emitter := e |>, [])
  | EmitterStep k =>
      '(l, e, es) ← emitter_step (fx_replaying fx) (fx_mode fx) (fx_hostname fx) (fx_replay_source fx) (moment_of a k)
                      (ag_loop a) (ag_emitter a);
      Some (a <| ag_loop := l |> <| ag_emitter := e |>, es)
  | WriterTakes os =>
      let '(w, es) := writer_takes os (writer (ag_loop a)) in
      Some (a <| ag_loop ::= λ l, l <| writer := w |> |>, es)
  | RefreshProcesses stdout => Some (refresh_processes fx stdout a, [])
  | Connections c =>
      let '(p, es) := step (fx_token fx) (plane_of a) (in_surroundings fx a c) in
      Some (put_plane p a, es)
  end.

Fixpoint moves (fx : Fixed) (a : Agent) (ms : list Move) : option (Agent * list AgentEvent) :=
  match ms with
  | [] => Some (a, [])
  | m :: ms =>
      '(a, es) ← move fx a m;
      '(a, es') ← moves fx a ms;
      Some (a, es ++ es')
  end.

(** ** The set-up *)

(** What the system answers while the process starts. *)
Record Setup := mkSetup {
  se_host : Host;
  se_max_flows : option bytes;
  se_max_names : option bytes;
  se_setrlimit : option Z;
  se_core : Rlimit;
  se_hostname : Z * bytes;
  se_lsof : option bytes;
  se_bind : option IoError;
  se_paths : PathFs;
  se_token_file : option bytes;
  se_home : option bytes;
  se_random : option bytes;
  se_os : ControlAuth.Os;
  se_directory : bytes → Dir;
  se_disk : Fs;
  se_instant : Z;
  se_version : bytes
}.

Inductive BootError := Panicked (p : Panic) | BindFailed (e : IoError) | CredentialError (e : AuthError).

(** The credential: its path, a fresh token, and its publication in the
    directory the path names. *)
Definition publish_credential (s : Setup) : result BootError (Dir * Published) :=
  let? path := map_err CredentialError (credential_path_from_env (se_paths s) (se_token_file s) (se_home s)) in
  let? token := map_err CredentialError (AgentToken.generate (se_random s)) in
  let '(d, r) := publish (se_os s) (se_directory s (cp_parent path)) (cp_name path) token in
  let? p := map_err CredentialError r in
  Ok (d, p).

Definition boot (s : Setup) : result BootError (Rlimit * Fixed * Agent * Published) :=
  let '(core, _) := disable_core_dumps (se_setrlimit s) (se_core s) in
  let? r := map_err Panicked (resolve_packet_source (se_host s)) in
  let? max_flows := map_err Panicked (resolve_max_flows (se_max_flows s)) in
  let? max_names := map_err Panicked (resolve_max_observed_dns_names (se_max_names s)) in
  let live := bool_decide (rs_mode r = lit "live") in
  let processes := if live then refresh (se_lsof s) else ∅ in
  let c := initial_capture r max_flows max_names Txn.empty_stats in
  match se_bind s with
  | Some e => Err (BindFailed e)
  | None =>
      let? published := publish_credential s in
      Ok (core,
          mkFixed (bool_decide (rs_mode r = lit "replay")) (rs_mode r) (rs_replay_source r) (hostname (se_hostname s).1 (se_hostname s).2) (se_version s)
            (p_token published.2),
          mkAgent (initial_loop c (WriterThread.init (se_disk s)) (se_instant s)) Draining []
            (mkEmitter (mkTotals 0 0 0 0) (se_instant s) []) processes false [] [] 0 Admission.new [],
          published.2)
  end.
End agent.

(** ** A run *)

Module AgentSamples.
#[export] Existing Instances Startup.sample_pcap CaptureConfig.sample_control CaptureConfig.sample_control_laws std_policy map_to_list_order.
#[export] Existing Instances Http2.toy_hpack TlsDecrypt.toy_crypto RingBuffer.zero_fill Sniff.sample_sniff_codec CaptureEvents.Samples.no_hex.
#[export] Existing Instances ControlAuth.sample_hex_crate ControlAuth.sample_hex_laws ControlAuth.sample_hmac ControlAuth.sample_auth_json.
#[export] Existing Instances Parse.sample_slicer Parse.sample_slicer_laws ControlSamples.sample_lines.
#[export] Instance md5 : Md5 := no_md5.
#[export] Instance control_json : ControlJson := λ line,
  if bool_decide (line = lit "{filter}") then Some (Some (SetCaptureFilter (lit "tcp")))
  else if bool_decide (line = lit "{switch}") then Some (Some (SetInterface (lit "en0")))
  else ControlSamples.sample_control_json line.

(** A live agent on [en0], with its token in [/run/agent/token]. *)
Definition setup : Setup :=
  mkSetup (sample_host None (Some (lit "en0")) None) None None None (mkRlimit 0 0) (0, lit "host" ++ [0]) None None
    (mkPathFs (λ p, Ok p) (λ _, Ok false) (λ _, Ok ())) (Some (lit "/run/agent/token")) None (Some ControlAuth.sample_token)
    (ControlAuth.sample_os None) (λ _, ∅) ∅ 0 (lit "1.0").

Definition peer : list ReadEvent := [Data (ControlAuth.sample_line ++ [10]); Data (lit "{filter}" ++ [10]); Closed].
Definition switcher : list ReadEvent := [Data (ControlAuth.sample_line ++ [10]); Data (lit "{switch}" ++ [10]); Closed].

(** A request if one is queued, then a frame, everything sent at once. *)
Definition sends : list Move := replicate 6 CaptureSends.
Definition drain_at : list Move := [CaptureDrains CaptureConfig.sample_answers] ++ sends.
Definition frame_at (now : Z) : list Move :=
  drain_at ++ [CaptureDrains CaptureConfig.sample_answers; CaptureReads (CaptureEvents.Samples.at_ms now (LiveFrame sample_eth_frame 60))]
  ++ sends.
(** A tick with nothing between its chores. *)
Definition chores_at (now : Z) (n : nat) : list Move := replicate n (EmitterStep (TickSamples.at_moment now)).
Definition tick_at (now : Z) : list Move := EmitterTick now :: chores_at now 40.
Definition connect (script : list ReadEvent) : list Move :=
  Connections <$> [Accept script; Verify 0; Acknowledge 0 Written; NextControlLine 0 ControlSamples.surroundings].

(** A segment, its retransmission, a peer that asks for a filter, ticks. *)
Definition session (script : list ReadEvent) : list Move :=
  frame_at 1000 ++ frame_at 2000 ++ connect script ++ tick_at 5000 ++ frame_at 6000 ++ tick_at 3600000
  ++ [WriterTakes (Ring.mkOs 0 0 None Opened None true true)].

(** A check of where a run leads: the agent at its start and at its end. *)
Definition of_run (ms : list Move) (f : Fixed → Agent → Agent → list AgentEvent → bool) : bool :=
  match boot setup with
  | Ok (_, fx, a, _) => match moves fx a ms with Some (a', es) => f fx a a' es | None => false end
  | Err _ => false
  end.

Lemma run_returns ms f : of_run ms f = true → ∃ core fx a p a' es,
  boot setup = Ok (core, fx, a, p) ∧ moves fx a ms = Some (a', es) ∧ f fx a a' es = true.
Proof.
  unfold of_run. destruct (boot setup) as [[[[core fx] a] p]|]; [|done].
  destruct (moves fx a ms) as [[a' es]|] eqn:Hm; [|done]. intros Hf. eauto 10.
Qed.

Definition after (script : list ReadEvent) (f : Fixed → Agent → list AgentEvent → bool) : bool :=
  of_run (session script) (λ fx _ a es, f fx a es).

Lemma session_returns script f : after script f = true → ∃ core fx a p a' es,
  boot setup = Ok (core, fx, a, p) ∧ moves fx a (session script) = Some (a', es) ∧ f fx a' es = true.
Proof. apply run_returns. Qed.

(** The peer with the token has its filter installed, the other is not served. *)
Example sessions :
  after peer (λ _ a es, bool_decide (packet_ids es = [lit "pkt-1700000001000-0"; lit "pkt-1700000002000-1"; lit "pkt-1700000006000-2"]
    ∧ cc_filter (config (capture (ag_loop a))) = Some (lit "tcp") ∧ length (updated_ids es) = 1%nat ∧ length (closed_ids es) = 1%nat)) = true ∧
  after ControlSamples.bad (λ _ a es, bool_decide (cc_filter (config (capture (ag_loop a))) = None ∧ length (packet_ids es) = 3%nat)) = true.
Proof. split; vm_compute; reflexivity. Qed.
End AgentSamples.
