(* ===== verification/AgentRuns.v ===== *)
(** * What holds of every run of the agent

    From start-up on, for any sequence of moves of the threads, tasks and
    connections of [Agent]: the identifiers in the events, the connections a
    client shows, the configuration reported, and what an agent
    does to which nobody authenticated.  A move does one thing between two
    points where another thread can step in, so an event that was decided on
    and is not sent yet is part of the state: the capture thread's outbox and
    the chores of the emitter's tick. *)

From Stdlib Require Import QArith.
From S2P Require Import Prelude Text Packet RateLimit RingBuffer L7Tls L7 Parse Fragments Sniff DnsNames Flow Pcapng Ring Transaction Keylog TlsDecrypt Http2 Decrypt Fields Traceroute ControlAuth Wire ProcessLookup Startup CaptureConfig ControlTraffic CaptureLoop CaptureEvents Emitter ControlPlane Agent.
#[local] Open Scope Z_scope.

Section runs.
Context `{PcapControl} `{VecPolicy} `{IterOrder} `{Ipv4Codec} `{Md5} `{Slicer}.
Context `{Hpack} `{TlsCrypto} `{Zeroizer} `{HexDecoder}.
Context `{HexCrate} `{Hmac} `{AuthJson} `{ControlJson} `{Lines}.

(** An invariant of the state and the events sent so far. *)
Lemma moves_inv (I : list AgentEvent → Agent → Prop) fx ms seen a a' es :
  (∀ seen a m a' es, m ∈ ms → I seen a → move fx a m = Some (a', es) → I (seen ++ es) a') →
  I seen a → moves fx a ms = Some (a', es) → I (seen ++ es) a'.
Proof.
  revert seen a es. induction ms as [|m ms IH]; intros seen a es Hstep HI; cbn [moves].
  { intros [= <- <-]. by rewrite app_nil_r. }
  destruct (move fx a m) as [[a1 es1]|] eqn:Hm; [|done]. cbn [mbind option_bind].
  destruct (moves fx a1 ms) as [[a2 es2]|] eqn:Hms; [|done]. intros [= <- <-]. rewrite (assoc_L (++)).
  eapply IH; [|eapply Hstep; [by left|exact HI|exact Hm]|exact Hms].
  intros; eapply Hstep; [by right|done..].
Qed.

(** A run that goes on. *)
Lemma moves_app fx a ms ms' a' es : moves fx a (ms ++ ms') = Some (a', es) ↔
  ∃ a1 es1 es2, moves fx a ms = Some (a1, es1) ∧ moves fx a1 ms' = Some (a', es2) ∧ es = es1 ++ es2.
Proof.
  revert a es. induction ms as [|m ms IH]; intros a es; cbn [app moves].
  { split; [intros Hm; by exists a, [], es|]. by intros (a1 & es1 & es2 & [= <- <-] & Hm & ->). }
  destruct (move fx a m) as [[a0 es0]|]; cbn [mbind option_bind].
  2: { split; [done|]. by intros (? & ? & ? & ? & _). }
  split.
  - destruct (moves fx a0 (ms ++ ms')) as [[a2 es2]|] eqn:Hm; [|done]. intros [= <- <-].
    apply IH in Hm as (a1 & es1 & es3 & -> & Hm & ->). cbn. eexists _, _, es3. by rewrite (assoc_L (++)).
  - intros (a1 & es1 & es2 & Hm & Hm' & ->). destruct (moves fx a0 ms) as [[a3 es3]|] eqn:E; [|done]. cbn in Hm. injection Hm as <- <-.
    assert (moves fx a0 (ms ++ ms') = Some (a', es3 ++ es2)) as -> by (apply IH; by exists a3, es3, es2). cbn. by rewrite (assoc_L (++)).
Qed.

(** Some state of the run, with the events sent until then, is such. *)
Definition passed_through (fx : Fixed) (a : Agent) (ms : list Move) (P : Agent → list AgentEvent → Prop) : Prop :=
  ∃ ms1 ms2 a1 es1, ms = ms1 ++ ms2 ∧ moves fx a ms1 = Some (a1, es1) ∧ P a1 es1.

Lemma passed_more fx a ms ms' P : passed_through fx a ms P → passed_through fx a (ms ++ ms') P.
Proof. intros (ms1 & ms2 & a1 & es1 & -> & Hm & HP). exists ms1, (ms2 ++ ms'), a1, es1. by rewrite (assoc_L (++)). Qed.

Lemma passed_here fx a ms a1 es1 (P : Agent → list AgentEvent → Prop) :
  moves fx a ms = Some (a1, es1) → P a1 es1 → passed_through fx a ms P.
Proof. intros Hm HP. exists ms, [], a1, es1. by rewrite app_nil_r. Qed.

Lemma passed_impl fx a ms (P Q : Agent → list AgentEvent → Prop) :
  (∀ ms1 ms2 a1 es1, ms = ms1 ++ ms2 → moves fx a ms1 = Some (a1, es1) → P a1 es1 → Q a1 es1) →
  passed_through fx a ms P → passed_through fx a ms Q.
Proof. intros HPQ (ms1 & ms2 & a1 & es1 & E & Hm & HP). exists ms1, ms2, a1, es1. eauto. Qed.

(** An invariant that may mention the moves made so far. *)
Lemma moves_trace (I : list Move → list AgentEvent → Agent → Prop) fx a0 ms a' es :
  I [] [] a0 →
  (∀ made seen a m a' es, moves fx a0 made = Some (a, seen) → m ∈ ms → I made seen a → move fx a m = Some (a', es) →
     moves fx a0 (made ++ [m]) = Some (a', seen ++ es) → I (made ++ [m]) (seen ++ es) a') →
  moves fx a0 ms = Some (a', es) → I ms es a'.
Proof.
  intros H0' Hstep. revert a' es. induction ms as [|m ms IH] using rev_ind; intros a' es; [by intros [= <- <-]|].
  intros Hall. pose proof Hall as (a1 & es1 & es2 & Hm & Hl & ->)%moves_app. cbn [moves] in Hl.
  destruct (move fx a1 m) as [[a2 es3]|] eqn:Hmv; [|done]. cbn in Hl. injection Hl as <- <-. rewrite app_nil_r in *.
  eapply Hstep; [exact Hm|set_solver| |exact Hmv|exact Hall]. apply IH; [|exact Hm].
  intros; eapply Hstep; eauto. set_solver.
Qed.

(** ** Identifiers *)

Lemma plain_fmap {A} (f : A → AgentEvent) (l : list A) : (∀ x, plain (f x)) → Forall plain (f <$> l).
Proof. intros Hf. by apply Forall_fmap, Forall_true. Qed.

Lemma plain_step token p c : Forall plain (ControlPlane.step token p c).2.
Proof.
  destruct c as [|script|i|i o|i su|i o|j session now]; cbn [step]; try constructor.
  - by destruct (peer_phase <$> _) as [[]|]; constructor.
  - by destruct (peer_phase <$> _) as [[]|]; constructor.
  - destruct (peer_phase <$> _) as [[]|]; try constructor. unfold serve_line.
    destruct (next_line _) as [r' [text| |]]; [|constructor..]. destruct (classify_control_line text) as [m| |]; [|constructor..].
    destruct m; cbn; try constructor; try done.
    destruct (start_capture_file _ _ _ _ _ _ _ _ _); [constructor|by apply plain_singleton].
  - by destruct (peer_phase <$> _) as [[]|]; constructor.
  - destruct (sh_traces _ !! j); [|constructor]. cbn. unfold trace_events. destruct (run_traceroute _ _ _); [by apply plain_fmap|constructor].
Qed.

(** *** Chores *)

(** The events a tick is about to send. *)
Definition sayings (cs : list Chore) : list AgentEvent := cs ≫= λ c, match c with Say e => [e] | _ => [] end.

Lemma sayings_app cs cs' : sayings (cs ++ cs') = sayings cs ++ sayings cs'.
Proof. apply bind_app. Qed.

Lemma sayings_say es : sayings (Say <$> es) = es.
Proof. induction es as [|e es IH]; [done|]. unfold sayings in *. rewrite fmap_cons, bind_cons, IH. done. Qed.

Lemma sayings_elem cs e : e ∈ sayings cs ↔ Say e ∈ cs.
Proof.
  unfold sayings. rewrite list_elem_of_bind. split.
  - intros (c & He & Hc). destruct c; try by apply not_elem_of_nil in He. by apply list_elem_of_singleton in He as ->.
  - intros Hin. exists (Say e). split; [by apply list_elem_of_singleton|done].
Qed.

(** The events of a tick, by kind. *)
Definition periodic (e : AgentEvent) : Prop :=
  match e with
  | EndpointUpdate _ | ServiceTimeUpdate _ | ConversationUpdate _ | ConnectionUpdate _ | ConnectionClosed _ | Decryption _
  | LayerUpdate _ | ProtocolHierarchyUpdate _ | CaptureStats _ | SystemStats _ | CaptureConfig _ | CaptureFileStatusEvent _
  | AgentStatus _ => True
  | _ => False
  end.

Lemma compose_periodic processes g : Forall periodic (sayings (compose processes g)).
Proof.
  apply Forall_forall. intros e He%sayings_elem. unfold compose in He. cbn zeta in He.
  rewrite !elem_of_app, !elem_of_cons, list_elem_of_fmap, list_elem_of_bind in He.
  repeat match type of He with _ ∨ _ => destruct He as [He|He] end;
    first [by injection He as -> | discriminate He | by apply not_elem_of_nil in He
          |destruct He as (? & [= <-] & He); apply list_elem_of_fmap in He as (? & -> & _); done
          |destruct He as (? & He & _); rewrite !elem_of_cons in He; destruct He as [He|[He|He]];
             [discriminate He|by injection He as ->|by apply not_elem_of_nil in He]].
Qed.

(** What a chore sends and leaves to be said, and what it does not change. *)
Lemma chore_parts replaying mode hostname src k c l e l' e' more es :
  chore replaying mode hostname src k c l e = Some (l', e', more, es) →
  es = sayings [c] ∧ Forall periodic (sayings more) ∧ capture l' = capture l ∧ totals l' = totals l ∧
  view l' = view l ∧ writer l' = writer l ∧ unparseable_frames l' = unparseable_frames l ∧ todo e' = todo e.
Proof.
  destruct c as [g|ev| |id|now|g|stat g|stat iv loaded g|stat iv now g|name g|name g|name g]; cbn [chore];
    try (intros [= <- <- <- <-]; split_and!; try done; by repeat constructor).
  - intros [= <- <- <- <-]. split_and!; try done. apply compose_periodic.
  - destruct (tick_decryption _ _ _ _) as [[w dec]|]; [|done]. cbn [mbind option_bind]. intros [= <- <- <- <-].
    split_and!; try done. rewrite sayings_say. by apply Forall_fmap, Forall_true.
  - intros [= <- <- <- <-]. split_and!; try done. repeat case_match; constructor.
  - destruct (current_interface _) as [name ip]. intros [= <- <- <- <-]. split_and!; try done. by repeat constructor.
Qed.

(** A step of the emitter: nothing left to do, or its next chore. *)
Lemma emitter_step_parts replaying mode hostname src k l e l' e' es :
  emitter_step replaying mode hostname src k l e = Some (l', e', es) →
  (todo e = [] ∧ l' = l ∧ e' = e ∧ es = []) ∨
  ∃ c rest more e1, todo e = c :: rest ∧ chore replaying mode hostname src k c l e = Some (l', e1, more, es) ∧
    e' = e1 <| todo := more ++ rest |>.
Proof.
  unfold emitter_step. destruct (todo e) as [|c rest] eqn:Ht; [intros [= <- <- <-]; by left|].
  destruct (chore _ _ _ _ _ _ _ _) as [[[[l1 e1] more] es1]|] eqn:Hc; [|done]. cbn [mbind option_bind]. intros [= <- <- <-].
  right. by exists c, rest, more, e1.
Qed.

(** The start of a tick: nothing while one is under way, or what is gathered. *)
Lemma emitter_tick_parts replaying now l e l' e' : emitter_tick replaying now l e = (l', e') →
  (todo e ≠ [] ∧ l' = l ∧ e' = e) ∨ ∃ g, todo e = [] ∧ gather replaying now l = (l', g) ∧ e' = e <| todo := [Compose g] |>.
Proof.
  unfold emitter_tick. destruct (todo e) eqn:Ht; [|intros [= <- <-]; by left].
  destruct (gather _ _ _) as [l1 g]. intros [= <- <-]. right. by exists g.
Qed.

Lemma gather_capture replaying now l : let '(l', g) := gather replaying now l in
  ∃ table, l' = l <| capture ::= λ c, c <| flow_table := table |> |> ∧
    FlowTable.local_addrs table = FlowTable.local_addrs (flow_table (capture l)) ∧
    FlowTable.total_flows_observed table = FlowTable.total_flows_observed (flow_table (capture l)).
Proof. pose proof (gather_splits_the_flows replaying now l) as Hg. destruct (gather replaying now l) as [l' g]. apply Hg. Qed.

(** *** Identifiers through a run *)

Lemma periodic_plain e : periodic e → plain e.
Proof. by destruct e. Qed.

(** Other threads' events do not disturb those of the capture thread. *)
Lemma step_insert sent v es ps es' v' : CaptureEvents.step sent v (es ++ es') v' → Forall plain ps →
  CaptureEvents.step sent v ((es ++ ps) ++ es') v'.
Proof.
  intros [S K (p & P & Q) (f & F & G) L] Hp. destruct (plain_ids ps Hp) as (E1 & E2 & E3 & E4).
  assert (packet_ids ((es ++ ps) ++ es') = packet_ids (es ++ es')) as P' by by rewrite !packet_ids_app, E1, app_nil_r.
  assert (finding_ids ((es ++ ps) ++ es') = finding_ids (es ++ es')) as F' by by rewrite !finding_ids_app, E2, app_nil_r.
  assert (packet_times ((es ++ ps) ++ es') = packet_times (es ++ es')) as T' by by rewrite !packet_times_app, E3, app_nil_r.
  split; rewrite ?P', ?F', ?T'; [|done|eauto..|done].
  apply sourced_app in S as [S1 S2]. apply sourced_app. split; [apply sourced_app; split; [done|apply E4]|].
  by rewrite packet_ids_app, E1, app_nil_r.
Qed.

(** The events sent and those about to be sent, up to the state. *)
Record told (v0 : View) (seen : list AgentEvent) (a : Agent) : Prop := {
  told_capture : CaptureEvents.step [] v0 (seen ++ ag_outbox a) (view (ag_loop a));
  told_tick : Forall plain (sayings (todo (ag_emitter a)))
}.

Lemma told_insert v0 seen a a' es : told v0 seen a → Forall plain es → ag_outbox a' = ag_outbox a →
  view (ag_loop a') = view (ag_loop a) → Forall plain (sayings (todo (ag_emitter a'))) → told v0 (seen ++ es) a'.
Proof. intros [Hc _] Hp Eo Ev Ht. split; [|done]. rewrite Eo, Ev. by apply step_insert. Qed.

Lemma told_more v0 seen a a' : told v0 seen a → ag_outbox a = [] → ag_emitter a' = ag_emitter a →
  (known (packet_ids seen) (view (ag_loop a)) →
   CaptureEvents.step (packet_ids seen) (view (ag_loop a)) (ag_outbox a') (view (ag_loop a'))) → told v0 (seen ++ []) a'.
Proof.
  intros [Hc Ht] Eo Ee Hs. rewrite Eo, app_nil_r in Hc. rewrite app_nil_r. split; [|by rewrite Ee].
  eapply step_trans; [exact Hc|]. apply Hs. by destruct Hc.
Qed.

Lemma move_told v0 seen fx a m a' es : told v0 seen a → move fx a m = Some (a', es) → told v0 (seen ++ es) a'.
Proof.
  intros Ht Hm. destruct m as [an|t| |now|k|os|stdout|c]; cbn [move] in Hm.
  - unfold capture_drains in Hm. destruct (ag_pc a), (ag_outbox a) eqn:Eo; try (injection Hm as <- <-; by rewrite app_nil_r).
    destruct (ag_requests a) as [|q qs]; [injection Hm as <- <-; rewrite app_nil_r; by destruct Ht|].
    destruct (drain_request _ _ _) as [[c es1]|] eqn:Hd; [|done]. injection Hm as <- <-.
    apply plain_drain_request in Hd as [Hp Hh]. eapply told_more; [exact Ht|done|done|]. intros Hk.
    apply (step_plain _ (view (ag_loop a)) es1 (transactions c)); [done|]. intros id Hid. by apply Hk, Hh.
  - unfold capture_reads in Hm. destruct (ag_pc a), (ag_outbox a) eqn:Eo; try (injection Hm as <- <-; by rewrite app_nil_r).
    destruct (turn _ _ _) as [[[l go] es1]|] eqn:Htn; [|done]. injection Hm as <- <-.
    eapply told_more; [exact Ht|done|done|]. intros Hk. cbn. by eapply step_turn.
  - unfold capture_sends in Hm. destruct (ag_outbox a) as [|e es1] eqn:Eo; injection Hm as <- <-; [by rewrite app_nil_r|].
    destruct Ht as [Hc Ht]. split; [|done]. cbn. rewrite Eo in Hc. by rewrite <- (assoc_L (++)).
  - destruct (emitter_tick _ _ _ _) as [l e] eqn:Hk. injection Hm as <- <-.
    apply emitter_tick_parts in Hk as [(_ & -> & ->)|(g & _ & Hg & ->)]; [rewrite app_nil_r; by destruct Ht|].
    pose proof (gather_capture (fx_replaying fx) now (ag_loop a)) as Hc. rewrite Hg in Hc. destruct Hc as (table & -> & _).
    eapply told_insert; [exact Ht|constructor|done|done|constructor].
  - destruct (emitter_step _ _ _ _ _ _ _) as [[[l e] es1]|] eqn:Hk; [|done]. injection Hm as <- <-.
    apply emitter_step_parts in Hk as [(_ & -> & -> & ->)|(c & rest & more & e1 & Et & Hc & ->)]; [rewrite app_nil_r; by destruct Ht|].
    apply chore_parts in Hc as (-> & Hp & _ & _ & Hv & _). pose proof (told_tick _ _ _ Ht) as Htt. rewrite Et in Htt.
    change (c :: rest) with ([c] ++ rest) in Htt. rewrite sayings_app in Htt. apply Forall_app in Htt as [H1' H2'].
    eapply told_insert; [exact Ht|done|done|exact Hv|]. cbn. rewrite sayings_app. apply Forall_app. split; [|done].
    by eapply Forall_impl; [exact Hp|apply periodic_plain].
  - injection Hm as <- <-. eapply told_insert; [exact Ht|by apply plain_fmap|done|done|apply Ht].
  - injection Hm as <- <-. unfold refresh_processes. rewrite app_nil_r. destruct (fx_replaying fx); [done|]. by destruct Ht.
  - pose proof (plain_step (fx_token fx) (plane_of a) (in_surroundings fx a c)) as Hp.
    destruct (ControlPlane.step _ _ _) as [p es1]. injection Hm as <- <-. eapply told_insert; [exact Ht|exact Hp|done|done|apply Ht].
Qed.

Lemma moves_told fx a ms a' es : moves fx a ms = Some (a', es) → known [] (view (ag_loop a)) → ag_outbox a = [] →
  todo (ag_emitter a) = [] → told (view (ag_loop a)) es a'.
Proof.
  intros Hms Hk Ho Ht. apply (moves_inv (told (view (ag_loop a))) fx ms [] a); [|split; [rewrite Ho; by apply step_refl|by rewrite Ht]|done].
  intros seen b m b' es1 _ Hs Hm. by eapply move_told.
Qed.

(** The agent right after start-up. *)
Lemma boot_ok s core fx a p : boot s = Ok (core, fx, a, p) →
  ∃ r mf mn, resolve_packet_source (se_host s) = Ok r ∧ resolve_max_flows (se_max_flows s) = Ok mf ∧
    ag_loop a = started r mf mn (se_instant s) Txn.empty_stats (WriterThread.init (se_disk s)) ∧
    ag_emitter a = mkEmitter (mkTotals 0 0 0 0) (se_instant s) [] ∧ ag_outbox a = [] ∧ ag_paused a = false ∧ ag_requests a = [] ∧
    ag_traces a = [] ∧ ag_peers a = [] ∧ ag_admission a = Admission.new ∧ fx_token fx = p_token p.
Proof.
  unfold boot. destruct (disable_core_dumps _ _) as [core' res].
  destruct (resolve_packet_source _) as [r|]; [|done]. cbn [map_err result_bind].
  destruct (resolve_max_flows _) as [mf|]; [|done]. cbn [map_err result_bind].
  destruct (resolve_max_observed_dns_names _) as [mn|]; [|done]. cbn [map_err result_bind].
  destruct (se_bind s); [done|]. destruct (publish_credential s) as [pub|]; [|done]. cbn [result_bind].
  intros [= <- <- <- <-]. exists r, mf, mn. done.
Qed.

Lemma boot_told s core fx a p ms a' es : boot s = Ok (core, fx, a, p) → moves fx a ms = Some (a', es) →
  told (view (ag_loop a)) es a' ∧ packet_seq (ag_loop a) = 0 ∧ finding_seq (ag_loop a) = 0.
Proof.
  intros (r & mf & mn & _ & _ & El & Ee & Eo & _)%boot_ok Hms. split; [|by rewrite El].
  eapply moves_told; [exact Hms|rewrite El; apply started_known|done|by rewrite Ee].
Qed.

(** A run of the agent from its start-up: where it leads and what it sent. *)
Definition runs_to (s : Setup) (ms : list Move) (a' : Agent) (es : list AgentEvent) : Prop :=
  ∃ core fx a p, boot s = Ok (core, fx, a, p) ∧ moves fx a ms = Some (a', es).

(** C5: in any run of the agent, however its threads, tasks and connections
    interleave, an event that points at a frame (a finding about it, or a
    response that names its request) comes after the packet event with that
    identifier: no client is ever pointed at a packet the rate limit held back. *)
Theorem agent_references_were_sent s ms a' es1 e es2 id :
  runs_to s ms a' (es1 ++ e :: es2) → mentions e id → id ∈ packet_ids es1.
Proof.
  intros (core & fx & a & p & Hb & Hms) Hm. destruct (boot_told _ _ _ _ _ _ _ _ Hb Hms) as [[[Hs _ _ _ _] _] _].
  rewrite <- (assoc_L (++)) in Hs. exact (sourced_earlier [] es1 e (es2 ++ ag_outbox a') id Hs Hm).
Qed.

(** C37: the packet events of a run of the agent have pairwise different
    identifiers, and so have its findings, while the counters have not wrapped. *)
Theorem agent_ids_unique s ms a' es : runs_to s ms a' es →
  packet_seq (ag_loop a') <= U64_MAX → finding_seq (ag_loop a') <= U64_MAX →
  NoDup (packet_ids es) ∧ NoDup (finding_ids es).
Proof.
  intros (core & fx & a & p & Hb & Hms) Hp Hf. destruct (boot_told _ _ _ _ _ _ _ _ Hb Hms) as ([[_ _ (ps & P & Q) (fs & F & G) _] _] & E1 & E2).
  cbn in P, Q, F, G. rewrite E1, E2 in *.
  assert (NoDup (packet_ids (es ++ ag_outbox a')) ∧ NoDup (finding_ids (es ++ ag_outbox a'))) as [N1 N2].
  { rewrite P, F. split; [apply (numbered_NoDup (λ e, lit "pkt-" ++ dec e))|apply (numbered_NoDup (λ e, lit "finding-" ++ dec e))]; lia. }
  rewrite packet_ids_app in N1. rewrite finding_ids_app in N2. apply NoDup_app in N1 as (N1 & _). by apply NoDup_app in N2 as (N2 & _).
Qed.

(** ** What a frame leaves of the flow table and the configuration *)

(** A frame adds flows and keeps the addresses. *)
Definition grows (st st' : FlowTable.t) : Prop :=
  FlowTable.local_addrs st' = FlowTable.local_addrs st ∧ dom (FlowTable.flows st) ⊆ dom (FlowTable.flows st').

#[local] Instance grows_preorder : PreOrder grows.
Proof.
  split; [by split|]. intros x y z [H1' H2'] [H3' H4']. split; [congruence|set_solver].
Qed.

Lemma observe_inner_grows st p l7 now tree expire : grows st (FlowTable.observe_inner st p l7 now tree expire).1.
Proof.
  split.
  - unfold FlowTable.observe_inner. cbn zeta. set (st0 := if tree && _ then _ else st).
    assert (FlowTable.local_addrs st0 = FlowTable.local_addrs st) as E0 by (unfold st0; by destruct (tree && _)).
    destruct (FlowTable.key_for st0 p) as [[key out]|]; [|done].
    destruct (if expire then _ else _) as [st1 closed] eqn:Hst1.
    assert (FlowTable.local_addrs st1 = FlowTable.local_addrs st) as E1.
    { destruct expire; [|by simplify_eq]. unfold FlowTable.evict_idle_flow_key in Hst1. repeat case_match; by simplify_eq. }
    destruct (FlowTable.update_flow _ _ _ _ _ _) as [[s re] tr]. rewrite <- E1. by destruct (bool_decide (FlowTable.flows st1 !! key = None)), tree.
  - destruct (observe_inner_spec st p l7 now tree expire) as [(_ & -> & _)|(key & out & base & new & s & _ & Hb & _ & -> & _)]; [done|].
    rewrite dom_insert_L. intros k Hk. destruct (decide (k = key)) as [->|]; [by apply elem_of_union_l, elem_of_singleton|].
    apply elem_of_union_r. destruct Hb as [Hb|Hb]; rewrite Hb; [done|]. rewrite dom_delete_L. set_solver.
Qed.

Lemma observe_frame_grows replaying st p outcome now ident : grows st (observe_frame_in replaying st p outcome now ident).1.1.
Proof.
  unfold observe_frame_in, FlowTable.observe_reassembled, FlowTable.observe_reassembled_replay, FlowTable.observe, FlowTable.observe_replay.
  destruct (reassembled_packet outcome) as [q|], replaying; try case_bool_decide;
    match goal with |- context [FlowTable.observe_inner ?a ?b ?c ?d ?e ?f] =>
      pose proof (observe_inner_grows a b c d e f) as Hg; destruct (FlowTable.observe_inner a b c d e f) end;
    first [exact Hg|etransitivity; [apply observe_inner_grows|exact Hg]].
Qed.

(** What of the capture a frame does not change. *)
Record settled (c c' : Capture) : Prop := {
  se_source : source c' = source c;
  se_device : device_for_reopen c' = device_for_reopen c;
  se_link : link_type c' = link_type c ∧ current_link_type c' = current_link_type c;
  se_addrs : local_addrs c' = local_addrs c;
  se_interface : current_interface c' = current_interface c;
  se_config : config c' = config c;
  se_table : grows (flow_table c) (flow_table c')
}.

#[local] Instance settled_preorder : PreOrder settled.
Proof.
  split; [by constructor|]. intros x y z [] []. constructor; try congruence; [|by etransitivity]. intuition congruence.
Qed.

(** The capture thread sends no update of a connection, no statistics and,
    between requests, no configuration. *)
Definition of_frame (e : AgentEvent) : Prop :=
  match e with ConnectionUpdate _ | CaptureStats _ | SystemStats _ | CaptureConfig _ => False | _ => True end.

Lemma of_frame_updates es : Forall of_frame es → updated_ids es = [].
Proof. induction 1 as [|e es He _ IH]; [done|]. by destruct e. Qed.

Lemma emit_packet_settled l now epoch parsed l7 lt re event r :
  settled (capture l) (capture (emit_packet l now epoch parsed l7 lt re event r).1) ∧
  Forall of_frame (emit_packet l now epoch parsed l7 lt re event r).2.
Proof.
  unfold emit_packet. destruct (PacketEventLimiter.allow _ _) as [lim ok]. destruct ok; cbn [negb]; [|by split; [|constructor]].
  destruct event, (is_retransmission r); (split; [done|by repeat constructor]).
Qed.

Lemma unanswered_of_frame expired now ts lim seq : Forall of_frame (emit_unanswered_findings expired now ts lim seq).2.
Proof.
  revert lim seq. induction expired as [|u expired IH]; intros lim seq; cbn [emit_unanswered_findings]; [constructor|].
  destruct (PacketEventLimiter.allow _ _) as [lim' []]; [|apply IH].
  specialize (IH lim' (seq + 1)). destruct (emit_unanswered_findings _ _ _ _ _) as [[? ?] es]. by constructor.
Qed.

Lemma analyse_settled replaying t l parsed data lt ts rnow fnow tr l' es :
  analyse replaying t l parsed data lt ts rnow fnow tr = Some (l', es) →
  settled (capture l) (capture l') ∧ Forall of_frame es.
Proof.
  open_analyse.
  assert (grows (flow_table (capture l)) table) as Hg by (eapply (f_equal (fst ∘ fst)) in Hof; cbn in Hof; rewrite <- Hof; apply observe_frame_grows).
  pose proof (f_equal (λ x, Forall of_frame x.2) Hun) as Hu. cbn [snd] in Hu.
  match type of Hpe with emit_packet ?a ?b ?d ?e ?f ?g ?h ?i ?j = _ => destruct (emit_packet_settled a b d e f g h i j) as [Hs He] end.
  rewrite Hpe in Hs, He. cbn [fst snd] in Hs, He. split.
  - etransitivity; [|exact Hs]. constructor; try done. etransitivity; [exact Hg|]. by destruct (learnable_dns_response _ _) as [[]|].
  - repeat (apply Forall_app; split); [| | | |exact He].
    + unfold close_replaced in Hce. destruct (r ≫= closed_connection_id); [|by simplify_eq].
      destruct (remove_decrypt_connection _ _ _). simplify_eq. by repeat constructor.
    + rewrite <- Hu. apply unanswered_of_frame.
    + unfold reset_finding in Hre; repeat case_match; simplify_eq; by repeat constructor.
    + by apply Forall_fmap, Forall_true.
Qed.

Lemma handle_settled replaying t l data ts orig flt l' es :
  handle_frame replaying t l data ts orig flt = Some (l', es) → settled (capture l) (capture l') ∧ Forall of_frame es.
Proof.
  unfold handle_frame. destruct (arrive replaying t l _ ts orig) as [[l1 rnow] tr] eqn:Ha.
  assert (settled (capture l) (capture l1)) as H1'.
  { unfold arrive in Ha. destruct (reassembly_now_ms _ _ _ _), (note_capture_truncation _ _ _ _), replaying; by simplify_eq. }
  destruct (parse_packet_result data _) as [parsed|[]].
  - destruct (exclude_live_control_capture _ _); [intros [= <- <-]; (split; [done|constructor])|]. intros [Hs Hu]%analyse_settled. split; [by etransitivity|done].
  - unfold malformed_frame. destruct (PacketEventLimiter.allow _ _) as [lim []]; intros [= <- <-]; (split; [done|by repeat constructor]).
  - intros [= <- <-]. (split; [done|constructor]).
Qed.

Lemma idle_settled replaying t l l' es : idle replaying t l = (l', es) → settled (capture l) (capture l') ∧ Forall of_frame es.
Proof.
  unfold idle. destruct replaying; [intros [= <- <-]; (split; [done|constructor])|]. destruct (TransactionTracker.expire _ _) as [tr ex].
  match goal with |- context [emit_unanswered_findings ?a ?b ?d ?e ?f] =>
    pose proof (unanswered_of_frame a b d e f) as Hu; destruct (emit_unanswered_findings a b d e f) as [[lim seq] ue] end.
  by intros [= <- <-].
Qed.

(** ** The capture and what is reported of it *)

Lemma settled_coherent c c' : settled c c' → coherent c → coherent c'.
Proof.
  intros [Hs Hd [Hl1 Hl2] Ha Hi Hc [Ht _]]. unfold coherent, live_coherent. by rewrite Hs, Hd, Hl1, Hl2, Ha, Hi, Hc, Ht.
Qed.

Lemma next_frame_coherent c live now : coherent c → coherent (c <| source := (next_frame (source c) live now).1 |>).
Proof.
  unfold coherent, live_coherent, next_frame. destruct (source c) as [cap|reader|cap]; [done| |].
  - by destruct (Reader.next_packet reader) as [[? [?|]]|].
  - by destruct (offline_next cap).
Qed.

Lemma poll_stats_capture t l : capture (poll_stats t l) = capture l.
Proof. unfold poll_stats. destruct (source (capture l)); try done. case_zb; [|done]. by destruct (t_stats t). Qed.

(** A turn with nothing queued is at most one frame. *)
Lemma turn_parts replaying t l l' go es : t_requests t = [] → turn replaying t l = Some (l', go, es) →
  Forall of_frame es ∧ (capture l' = capture l ∨
    settled (capture l <| source := (next_frame (source (capture l)) (t_live t) (t_wall t)).1 |>) (capture l')).
Proof.
  intros Hq. unfold turn. rewrite Hq. cbn [drain mbind option_bind]. set (l0 := l <| capture := capture l |>). intros Ht.
  assert (capture l0 = capture l) as E0 by done.
  destruct (t_paused t); [injection Ht as <- _ <-; split; [constructor|by left]|].
  rewrite poll_stats_capture, E0 in Ht.
  destruct (next_frame (source (capture l)) _ _) as [src frame]. set (l1 := poll_stats _ _ <| capture ::= _ |>) in Ht.
  assert (capture l1 = capture l <| source := src |>) as E1 by (unfold l1; cbn; by rewrite poll_stats_capture).
  cbn [fst]. rewrite <- E1. destruct frame as [data ts orig lt| | |].
  - destruct (handle_frame _ _ _ _ _ _ _) as [[l2 es2]|] eqn:Hh; [|done]. injection Ht as <- _ <-.
    apply handle_settled in Hh as [Hs Hu]. auto.
  - destruct (idle replaying t l1) as [l2 es2] eqn:Hi. injection Ht as <- _ <-.
    apply idle_settled in Hi as [Hs Hu]. auto.
  - injection Ht as <- _ <-. split; [constructor|by right].
  - injection Ht as <- _ <-. split; [constructor|by right].
Qed.

(** A request answers with the configuration it leaves. *)
Lemma drain_request_config an q c c' es x : drain_request an q c = Some (c', es) → CaptureConfig x ∈ es → x = config c'.
Proof.
  assert (∀ e, CaptureConfig x ∈ [e] → e = CaptureConfig x) as Hone by (intros e He; by apply list_elem_of_singleton in He).
  unfold drain_request. destruct (source c); [|intros [= <- <-] He; destruct q; by apply Hone in He..].
  destruct (device_for_reopen c); [|intros [= <- <-] He; destruct q; by apply Hone in He].
  destruct q as [f|n|name]; cbn [apply_capture_config_request]; intros [= Hq] He.
  - unfold set_filter in Hq. destruct (validate_capture_filter_len f); [|injection Hq as <- <-; by apply Hone in He].
    destruct (a_filter an _ f); injection Hq as <- <-; apply Hone in He; first [discriminate He|by injection He as <-].
  - unfold set_snaplen in Hq. cbn zeta in Hq.
    destruct (let? snaplen := _ in _); injection Hq as <- <-; apply Hone in He; first [discriminate He|by injection He as <-].
  - unfold apply_interface_switch_request in Hq.
    destruct (switch_target an name) as [[[d' cap'] lt]|]; [|injection Hq as <- <-; by apply Hone in He].
    unfold FlowTable.reset in Hq. injection Hq as <- <-. apply elem_of_app in He as [He|He]; [|by apply Hone in He].
    by apply list_elem_of_fmap in He as (? & ? & _).
Qed.

(** libpcap opens what it is asked to open, at start-up and later. *)
Definition opens_faithfully (s : Setup) (ms : list Move) : Prop :=
  opens_as_asked (mkAnswers _ (h_devices (se_host s)) (h_open_live (se_host s)) (λ _ _, None)) ∧
  ∀ answers, CaptureDrains answers ∈ ms → opens_as_asked answers.

Lemma move_coherent `{!PcapControlLaws} fx a m a' es : (∀ answers, m = CaptureDrains answers → opens_as_asked answers) →
  coherent (capture (ag_loop a)) → move fx a m = Some (a', es) → coherent (capture (ag_loop a')).
Proof.
  intros Ho Hc Hm. destruct m as [an|t| |now|k|os|stdout|act]; cbn [move] in Hm.
  - unfold capture_drains in Hm. destruct (ag_pc a), (ag_outbox a); try by injection Hm as <- _.
    destruct (ag_requests a) as [|q qs]; [by injection Hm as <- _|].
    destruct (drain_request_coherent an q _ (Ho an eq_refl) Hc) as (c & es1 & Hd & Hc'). rewrite Hd in Hm. by injection Hm as <- _.
  - unfold capture_reads in Hm. destruct (ag_pc a), (ag_outbox a); try by injection Hm as <- _.
    destruct (turn _ _ _) as [[[l go] es1]|] eqn:Ht; [|done]. injection Hm as <- _. cbn.
    apply turn_parts in Ht as [_ [->|Hs]]; [done| |done]. eapply settled_coherent; [exact Hs|]. by apply next_frame_coherent.
  - unfold capture_sends in Hm. destruct (ag_outbox a); by injection Hm as <- _.
  - destruct (emitter_tick _ _ _ _) as [l e] eqn:Hk. injection Hm as <- _. cbn.
    apply emitter_tick_parts in Hk as [(_ & -> & _)|(g & _ & Hg & _)]; [done|].
    pose proof (gather_capture (fx_replaying fx) now (ag_loop a)) as Hgc. rewrite Hg in Hgc. destruct Hgc as (table & -> & Hla & _).
    unfold coherent, live_coherent in *. cbn. by rewrite Hla.
  - destruct (emitter_step _ _ _ _ _ _ _) as [[[l e] es1]|] eqn:Hk; [|done]. injection Hm as <- _. cbn.
    apply emitter_step_parts in Hk as [(_ & -> & _)|(c & rest & more & e1 & _ & Hch & _)]; [done|].
    by apply chore_parts in Hch as (_ & _ & -> & _).
  - by injection Hm as <- _.
  - injection Hm as <- _. unfold refresh_processes. by destruct (fx_replaying fx).
  - destruct (ControlPlane.step _ _ _). by injection Hm as <- _.
Qed.

Lemma moves_coherent `{!PcapControlLaws} s core fx a p ms a' es :
  boot s = Ok (core, fx, a, p) → opens_faithfully s ms → moves fx a ms = Some (a', es) → coherent (capture (ag_loop a')).
Proof.
  intros Hb [Ho1 Ho2] Hms. destruct (boot_ok _ _ _ _ _ Hb) as (r & mf & mn & Hr & _ & El & _).
  apply (moves_inv (λ _ b, coherent (capture (ag_loop b))) fx ms [] a a' es); [|rewrite El; by eapply initial_coherent|done].
  intros seen b m b' es1 Hin Hc Hm. eapply move_coherent; [|exact Hc|exact Hm]. intros answers ->. by apply Ho2.
Qed.

(** *** Where a reported configuration comes from *)

Lemma plain_step_config token p c x : CaptureConfig x ∉ (ControlPlane.step token p c).2.
Proof.
  assert (∀ e, e ≠ CaptureConfig x → CaptureConfig x ∉ [e]) as Hone by (intros e He Hin; by apply list_elem_of_singleton in Hin).
  destruct c as [|script|i|i o|i su|i o|j session now]; cbn [ControlPlane.step]; try apply not_elem_of_nil.
  - destruct (peer_phase <$> _) as [[]|]; apply not_elem_of_nil.
  - destruct (peer_phase <$> _) as [[]|]; apply not_elem_of_nil.
  - destruct (peer_phase <$> _) as [[]|]; try apply not_elem_of_nil. unfold serve_line.
    destruct (next_line _) as [r' [text| |]]; try apply not_elem_of_nil.
    destruct (classify_control_line text) as [m| |]; try apply not_elem_of_nil.
    destruct m; cbn; try apply not_elem_of_nil; try by apply Hone.
    destruct (start_capture_file _ _ _ _ _ _ _ _ _); [apply not_elem_of_nil|by apply Hone].
  - destruct (peer_phase <$> _) as [[]|]; apply not_elem_of_nil.
  - destruct (sh_traces _ !! j); [|apply not_elem_of_nil]. cbn. unfold trace_events.
    destruct (run_traceroute _ _ _); [|apply not_elem_of_nil]. by intros (? & ? & _)%list_elem_of_fmap.
Qed.

(** Only reading the configuration makes a chore report one. *)
Lemma chore_config replaying mode hostname src k c l e l' e' more es x :
  chore replaying mode hostname src k c l e = Some (l', e', more, es) → Say (CaptureConfig x) ∈ more → x = config (capture l).
Proof.
  destruct c as [g|ev| |id|now|g|stat g|stat iv loaded g|stat iv now g|name g|name g|name g]; cbn [chore];
    try (intros [= <- <- <- <-] Hin; rewrite ?elem_of_cons in Hin;
         repeat match type of Hin with _ ∨ _ => destruct Hin as [Hin|Hin] end;
         first [discriminate Hin|by apply not_elem_of_nil in Hin|by injection Hin as ->]).
  - intros [= <- <- <- <-] Hin. exfalso. unfold compose in Hin. cbn zeta in Hin.
    rewrite !elem_of_app, !elem_of_cons, list_elem_of_fmap, list_elem_of_bind in Hin.
    repeat match type of Hin with _ ∨ _ => destruct Hin as [Hin|Hin] end;
      first [discriminate Hin|by apply not_elem_of_nil in Hin
            |destruct Hin as (? & [= <-] & Hin); by apply list_elem_of_fmap in Hin as (? & ? & _)
            |destruct Hin as (? & Hin & _); rewrite !elem_of_cons in Hin; destruct Hin as [Hin|[Hin|Hin]];
               [discriminate Hin..|by apply not_elem_of_nil in Hin]].
  - destruct (tick_decryption _ _ _ _) as [[w dec]|]; [|done]. cbn [mbind option_bind]. intros [= <- <- <- <-] Hin.
    apply list_elem_of_fmap in Hin as (? & [= <-] & Hin). by apply list_elem_of_fmap in Hin as (? & ? & _).
  - intros [= <- <- <- <-] Hin%list_elem_of_singleton. repeat case_match; discriminate Hin.
  - destruct (current_interface _) as [name ip]. intros [= <- <- <- <-] Hin. rewrite !elem_of_cons in Hin.
    destruct Hin as [Hin|[Hin|Hin]]; [discriminate Hin..|by apply not_elem_of_nil in Hin].
Qed.

(** Every configuration sent, or about to be, was that of a state passed through. *)
Definition config_sourced (fx : Fixed) (a0 : Agent) (made : list Move) (seen : list AgentEvent) (a : Agent) : Prop := ∀ x,
  CaptureConfig x ∈ seen ∨ CaptureConfig x ∈ ag_outbox a ∨ Say (CaptureConfig x) ∈ todo (ag_emitter a) →
  passed_through fx a0 made (λ a1 _, config (capture (ag_loop a1)) = x).

Lemma move_config_sourced fx a0 made seen a m a' es :
  moves fx a0 made = Some (a, seen) → config_sourced fx a0 made seen a → move fx a m = Some (a', es) →
  moves fx a0 (made ++ [m]) = Some (a', seen ++ es) → config_sourced fx a0 (made ++ [m]) (seen ++ es) a'.
Proof.
  intros Hmade Hc Hm Hall x Hx.
  assert ((CaptureConfig x ∈ seen ∨ CaptureConfig x ∈ ag_outbox a ∨ Say (CaptureConfig x) ∈ todo (ag_emitter a))
    ∨ x = config (capture (ag_loop a)) ∨ x = config (capture (ag_loop a'))) as [Hold|[->| ->]];
    [|by apply passed_more, Hc|by eapply passed_more, passed_here|by eapply passed_here].
  rewrite elem_of_app in Hx. clear Hc Hmade Hall. destruct m as [an|t| |now|k|os|stdout|act]; cbn [move] in Hm.
  - unfold capture_drains in Hm. destruct (ag_pc a), (ag_outbox a) eqn:Eo; try (injection Hm as <- <-; rewrite Eo in Hx; set_solver).
    destruct (ag_requests a) as [|q qs]; [injection Hm as <- <-; cbn in Hx; rewrite ?Eo in Hx; set_solver|].
    destruct (drain_request _ _ _) as [[c es1]|] eqn:Hd; [|done]. injection Hm as <- <-. cbn in Hx |- *.
    pose proof (drain_request_config an q _ c es1 x Hd). set_solver.
  - unfold capture_reads in Hm. destruct (ag_pc a), (ag_outbox a) eqn:Eo; try (injection Hm as <- <-; rewrite Eo in Hx; set_solver).
    destruct (turn _ _ _) as [[[l go] es1]|] eqn:Ht; [|done]. injection Hm as <- <-. cbn in Hx.
    apply turn_parts in Ht as [Hf _]; [|done]. rewrite Forall_forall in Hf. pose proof (Hf (CaptureConfig x)). cbn in *. set_solver.
  - unfold capture_sends in Hm. destruct (ag_outbox a) as [|e es1] eqn:Eo; injection Hm as <- <-; cbn in Hx; rewrite ?Eo in Hx; set_solver.
  - destruct (emitter_tick _ _ _ _) as [l e] eqn:Hk. injection Hm as <- <-. cbn in Hx |- *.
    apply emitter_tick_parts in Hk as [(_ & -> & ->)|(g & _ & _ & ->)]; [set_solver|]. cbn in Hx.
    rewrite list_elem_of_singleton in Hx. destruct Hx as [[Hx|Hx]|[Hx|Hx]]; [set_solver|by apply not_elem_of_nil in Hx|set_solver|discriminate Hx].
  - destruct (emitter_step _ _ _ _ _ _ _) as [[[l e] es1]|] eqn:Hk; [|done]. injection Hm as <- <-.
    apply emitter_step_parts in Hk as [(_ & -> & -> & ->)|(c & rest & more & e1 & Et & Hch & ->)]; [cbn in Hx |- *; set_solver|].
    pose proof (chore_config _ _ _ _ _ _ _ _ _ _ _ _ x Hch) as Hcc. apply chore_parts in Hch as (-> & _). cbn -[sayings] in Hx.
    rewrite Et. rewrite sayings_elem, list_elem_of_singleton, elem_of_app in Hx. set_solver.
  - injection Hm as <- <-. cbn in Hx |- *. assert (CaptureConfig x ∉ (writer_takes os (writer (ag_loop a))).2) as Hn
      by (by intros (? & ? & _)%list_elem_of_fmap). unfold writer_takes in Hn. cbn in Hn. set_solver.
  - injection Hm as <- <-. left. unfold refresh_processes in Hx. destruct (fx_replaying fx); set_solver.
  - pose proof (plain_step_config (fx_token fx) (plane_of a) (in_surroundings fx a act) x) as Hn.
    destruct (ControlPlane.step _ _ _) as [p es1]. injection Hm as <- <-. cbn in Hx, Hn. set_solver.
Qed.

(** A tick that will report the configuration. *)
Definition will_report (c : Chore) : bool :=
  match c with Compose _ | ReadCaptureStats _ | ReadElapsed _ _ | LoadTotals _ _ _ _ | ReadInterface _ _ _ _ | ReadConfig _ _ => true | _ => false end.

Lemma will_report_more replaying mode hostname src k c l e l' e' more es :
  chore replaying mode hostname src k c l e = Some (l', e', more, es) → will_report c = true →
  (∃ c', c' ∈ more ∧ will_report c' = true) ∨ Say (CaptureConfig (config (capture l))) ∈ more.
Proof.
  intros Hc Hw. destruct c as [g|ev| |id|now|g|stat g|stat iv loaded g|stat iv now g|name g|name g|name g];
    try discriminate Hw; cbn [chore] in Hc.
  - injection Hc as <- <- <- <-. left. exists (ReadCaptureStats g). split; [|done]. unfold compose. rewrite !elem_of_app, !elem_of_cons. tauto.
  - injection Hc as <- <- <- <-. left. eexists (ReadElapsed _ _). split; [|done]. right. by left.
  - injection Hc as <- <- <- <-. left. eexists. split; [by left|done].
  - injection Hc as <- <- <- <-. left. eexists. split; [by left|]. by repeat case_match.
  - destruct (current_interface _) as [name ip]. injection Hc as <- <- <- <-. left. eexists (ReadConfig _ _). split; [|done]. right. by left.
  - injection Hc as <- <- <- <-. right. by left.
Qed.

(** Of a tick that started: the configuration was sent, is about to be, or will be read. *)
Definition tick_reports (fx : Fixed) (a0 : Agent) (made : list Move) (seen : list AgentEvent) (a : Agent) : Prop :=
  (∃ x, (CaptureConfig x ∈ seen ∨ Say (CaptureConfig x) ∈ todo (ag_emitter a)) ∧
     passed_through fx a0 made (λ a1 _, config (capture (ag_loop a1)) = x))
  ∨ ∃ c, c ∈ todo (ag_emitter a) ∧ will_report c = true.

Lemma move_tick_reports fx a0 made seen a m a' es :
  moves fx a0 made = Some (a, seen) → tick_reports fx a0 made seen a → move fx a m = Some (a', es) →
  tick_reports fx a0 (made ++ [m]) (seen ++ es) a'.
Proof.
  intros Hmade Ht Hm.
  assert (ag_emitter a' = ag_emitter a → tick_reports fx a0 (made ++ [m]) (seen ++ es) a') as Hsame.
  { intros Ee. destruct Ht as [(x & Hx & Hp)|Hw]; [left|by right; rewrite Ee]. exists x. rewrite Ee, elem_of_app.
    split; [tauto|by apply passed_more]. }
  destruct m as [an|t| |now|k|os|stdout|act]; cbn [move] in Hm.
  - apply Hsame. unfold capture_drains in Hm. destruct (ag_pc a), (ag_outbox a); try by injection Hm as <- _.
    destruct (ag_requests a) as [|q qs]; [by injection Hm as <- _|]. destruct (drain_request _ _ _) as [[c es1]|]; [|done]. by injection Hm as <- _.
  - apply Hsame. unfold capture_reads in Hm. destruct (ag_pc a), (ag_outbox a); try by injection Hm as <- _.
    destruct (turn _ _ _) as [[[l go] es1]|]; [|done]. by injection Hm as <- _.
  - apply Hsame. unfold capture_sends in Hm. destruct (ag_outbox a); by injection Hm as <- _.
  - destruct (emitter_tick _ _ _ _) as [l e] eqn:Hk. injection Hm as <- <-.
    apply emitter_tick_parts in Hk as [(_ & -> & ->)|(g & Et & _ & ->)]; [by apply Hsame|].
    right. exists (Compose g). cbn. split; [by left|done].
  - destruct (emitter_step _ _ _ _ _ _ _) as [[[l e] es1]|] eqn:Hk; [|done]. injection Hm as <- <-.
    apply emitter_step_parts in Hk as [(_ & -> & -> & ->)|(c & rest & more & e1 & Et & Hch & ->)]; [by apply Hsame|].
    unfold tick_reports in *. rewrite Et in Ht. cbn. destruct Ht as [(x & Hx & Hp)|(c0 & Hin & Hw)].
    + left. exists x. split; [|by apply passed_more]. apply chore_parts in Hch as (-> & _).
      rewrite !elem_of_app, sayings_elem, list_elem_of_singleton. set_solver.
    + apply elem_of_cons in Hin as [->|Hin].
      * destruct (will_report_more _ _ _ _ _ _ _ _ _ _ _ _ Hch Hw) as [(c' & Hc' & Hw')|Hin].
        -- right. exists c'. rewrite elem_of_app. auto.
        -- left. eexists. rewrite !elem_of_app. split; [right; left; exact Hin|]. by eapply passed_more, passed_here.
      * right. exists c0. rewrite elem_of_app. auto.
  - apply Hsame. by injection Hm as <- _.
  - apply Hsame. injection Hm as <- _. unfold refresh_processes. by destruct (fx_replaying fx).
  - apply Hsame. destruct (ControlPlane.step _ _ _). by injection Hm as <- _.
Qed.

(** C14: in every state of every run, the agent captures what it reports.  While
    threads, tasks and connections interleave, the open handle is on the device
    whose name, addresses and link type are reported, with the reported snap
    length and filter, flows are attributed with that device's addresses, and a
    replay keeps the default configuration.  Every configuration sent is that of
    such a state the run passed through, and every tick that runs to its end
    sends the configuration of a state it passed through. *)
Theorem agent_reports_its_capture `{!PcapControlLaws} s core fx a p ms a' es :
  boot s = Ok (core, fx, a, p) → opens_faithfully s ms → moves fx a ms = Some (a', es) →
  coherent (capture (ag_loop a')) ∧
  (∀ x, CaptureConfig x ∈ es →
     passed_through fx a ms (λ a1 _, coherent (capture (ag_loop a1)) ∧ config (capture (ag_loop a1)) = x)) ∧
  ∀ now ms2 a2 es2, todo (ag_emitter a') = [] → moves fx a' (EmitterTick now :: ms2) = Some (a2, es2) →
    todo (ag_emitter a2) = [] →
    ∃ x, CaptureConfig x ∈ es2 ∧ passed_through fx a' (EmitterTick now :: ms2) (λ a1 _, config (capture (ag_loop a1)) = x).
Proof.
  intros Hb Ho Hms. split; [by eapply moves_coherent|]. split.
  - intros x Hx. assert (config_sourced fx a ms es a') as Hc.
    { apply (moves_trace (config_sourced fx a) fx a ms a' es); [|intros; by eapply move_config_sourced|done].
      destruct (boot_ok _ _ _ _ _ Hb) as (r & mf & mn & _ & _ & _ & Ee & Eo & _). intros y. rewrite Ee, Eo. cbn. set_solver. }
    eapply passed_impl; [|apply Hc; by left]. intros ms1 ms2 a1 es1 -> Hm1 Ha1. split; [|done].
    eapply moves_coherent; [exact Hb| |exact Hm1]. destruct Ho as [Ho1 Ho2]. split; [done|]. intros an Hin. apply Ho2. set_solver.
  - intros now ms2 a2 es2 Ht Hm2 Ht2.
    assert (∀ made a1 es1, moves fx a' (EmitterTick now :: made) = Some (a1, es1) → tick_reports fx a' (EmitterTick now :: made) es1 a1) as Hall.
    { intros made. induction made as [|m made IH] using rev_ind; intros a1 es1 Hrun.
      - cbn [moves move] in Hrun. destruct (emitter_tick _ _ _ _) as [l e] eqn:Hk. cbn in Hrun. injection Hrun as <- <-.
        apply emitter_tick_parts in Hk as [(Hne & _)|(g & _ & _ & ->)]; [done|]. right. exists (Compose g). cbn. split; [by left|done].
      - pose proof Hrun as Hrun'. change (EmitterTick now :: made ++ [m]) with ((EmitterTick now :: made) ++ [m]) in *.
        apply moves_app in Hrun as (a3 & es3 & es4 & Hr3 & Hr4 & ->). cbn [moves] in Hr4.
        destruct (move fx a3 m) as [[a4 es5]|] eqn:Hmv; [|done]. cbn in Hr4. injection Hr4 as <- <-. rewrite app_nil_r.
        eapply move_tick_reports; [exact Hr3|by apply IH|exact Hmv]. }
    destruct (Hall ms2 a2 es2 Hm2) as [(x & [Hx|Hx] & Hp)|(c & Hin & _)]; [eauto|rewrite Ht2 in Hx; by apply not_elem_of_nil in Hx|].
    rewrite Ht2 in Hin. by apply not_elem_of_nil in Hin.
Qed.

(** ** The connections a client shows *)

(** A client adds a connection at its update and drops it when it is closed.
    What it shows depends on the events it received: those sent since it
    subscribed, if its relay lost none. *)
Definition show (s : gset bytes) (e : AgentEvent) : gset bytes :=
  match e with
  | ConnectionUpdate c => {[cj_id c]} ∪ s
  | ConnectionClosed id => s ∖ {[id]}
  | _ => s
  end.

Definition shown (received : list AgentEvent) : gset bytes := foldl show ∅ received.

(** A client that subscribed when [n] events had been sent, and lost none. *)
Definition received_since (n : nat) (es : list AgentEvent) : list AgentEvent := drop n es.

Definition live_ids (c : Capture) : gset bytes := set_map connection_id (dom (FlowTable.flows (flow_table c))).

(** Connections whose closing was decided on and is not sent yet. *)
Definition closing_ids (a : Agent) : gset bytes :=
  list_to_set (closed_ids (ag_outbox a) ++ (todo (ag_emitter a) ≫= closings_due)).

(** Connections the tick under way is still to update. *)
Definition updating_ids (a : Agent) : list bytes := todo (ag_emitter a) ≫= updates_due.

(** Whether the capture thread takes a request for another interface in a move. *)
Definition takes_switch (a : Agent) (m : Move) : bool :=
  match m, ag_pc a, ag_outbox a, ag_requests a with
  | CaptureDrains _, Draining, [], SwitchInterface _ :: _ => true
  | _, _, _, _ => false
  end.

(** No interface request is taken while a tick has updates to send. *)
Fixpoint switches_between_updates (fx : Fixed) (a : Agent) (ms : list Move) : bool :=
  match ms with
  | [] => true
  | m :: ms =>
      negb (takes_switch a m && negb (bool_decide (updating_ids a = [])))
      && match move fx a m with Some (a', _) => switches_between_updates fx a' ms | None => true end
  end.

Lemma show_updates es s : closed_ids es = [] → foldl show s es = s ∪ list_to_set (updated_ids es).
Proof.
  revert s. induction es as [|e es IH]; intros s Hc; [set_solver|]. cbn [foldl].
  assert (closed_ids es = []) as Hc' by (destruct e; try done).
  rewrite IH by done. destruct e; try done. cbn. set_solver.
Qed.

Lemma show_closes es s : updated_ids es = [] → foldl show s es = s ∖ list_to_set (closed_ids es).
Proof.
  revert s. induction es as [|e es IH]; intros s Hu; [set_solver|]. cbn [foldl].
  assert (updated_ids es = []) as Hu' by (destruct e; try done).
  rewrite IH by done. destruct e; try done. cbn. set_solver.
Qed.

Lemma live_keys c x : x ∈ live_ids c ↔ x ∈ connection_id <$> (map_to_list (FlowTable.flows (flow_table c))).*1.
Proof.
  unfold live_ids. rewrite elem_of_map, list_elem_of_fmap. split.
  - intros (k & -> & [st Hk]%elem_of_dom). exists k. split; [done|]. apply list_elem_of_fmap. exists (k, st). by rewrite elem_of_map_to_list.
  - intros (k & -> & ([k' st] & -> & Hk%elem_of_map_to_list)%list_elem_of_fmap). exists k'. split; [done|]. by apply elem_of_dom_2 in Hk.
Qed.

Lemma live_grows c c' : grows (flow_table c) (flow_table c') → live_ids c ⊆ live_ids c'.
Proof. intros [_ Hg]. unfold live_ids. set_solver. Qed.

(** Every flow of the table before a request is in it afterwards or is closed by
    the answer, and only an interface request takes flows away. *)
Lemma drain_request_flows an q c c' es : drain_request an q c = Some (c', es) →
  updated_ids es = [] ∧ (∀ x, x ∈ live_ids c → x ∈ live_ids c' ∨ x ∈ closed_ids es) ∧
  ((∀ name, q ≠ SwitchInterface name) → flow_table c' = flow_table c).
Proof.
  unfold drain_request. destruct (source c); [|intros [= <- <-]; destruct q; auto..].
  destruct (device_for_reopen c); [|intros [= <- <-]; destruct q; auto].
  destruct q as [f|n|name]; cbn [apply_capture_config_request]; intros [= Hq].
  - unfold set_filter in Hq. destruct (validate_capture_filter_len f); [|simplify_eq; auto].
    destruct (a_filter an _ f); simplify_eq; auto.
  - unfold set_snaplen in Hq. cbn zeta in Hq. destruct (let? snaplen := _ in _); simplify_eq; auto.
  - unfold apply_interface_switch_request in Hq. destruct (switch_target an name) as [[[d' cap'] lt]|]; [|simplify_eq; auto].
    unfold FlowTable.reset in Hq. simplify_eq. split_and!.
    + rewrite updated_ids_app. unfold updated_ids. by rewrite (omap_all_none _ ConnectionClosed).
    + intros x Hx%live_keys. right. rewrite closed_ids_app. unfold closed_ids at 1. rewrite (omap_all_some _ _ id) by done.
      rewrite list_fmap_id, elem_of_app. left. rewrite iter_perm. exact Hx.
    + intros Hne. by destruct (Hne name).
Qed.

Lemma step_no_connections token p c :
  updated_ids (ControlPlane.step token p c).2 = [] ∧ closed_ids (ControlPlane.step token p c).2 = [].
Proof.
  destruct c as [|script|i|i o|i su|i o|j session now]; cbn [ControlPlane.step]; try done.
  - by destruct (peer_phase <$> _) as [[]|].
  - by destruct (peer_phase <$> _) as [[]|].
  - destruct (peer_phase <$> _) as [[]|]; try done. unfold serve_line.
    destruct (next_line _) as [r' [text| |]]; [|done..]. destruct (classify_control_line text) as [m| |]; [|done..].
    destruct m; try done. cbn. by destruct (start_capture_file _ _ _ _ _ _ _ _ _).
  - by destruct (peer_phase <$> _) as [[]|].
  - destruct (sh_traces _ !! j); [|done]. cbn. unfold trace_events, updated_ids, closed_ids.
    destruct (run_traceroute _ _ _); [split; by apply omap_all_none|done].
Qed.

(** What a client shows is live or about to be closed, what is still to be
    updated is live, and the capture thread sends no update. *)
Record shows_live (s : gset bytes) (a : Agent) : Prop := {
  sl_shown : s ⊆ live_ids (capture (ag_loop a)) ∪ closing_ids a;
  sl_updating : ∀ x, x ∈ updating_ids a → x ∈ live_ids (capture (ag_loop a));
  sl_outbox : updated_ids (ag_outbox a) = []
}.

(** Sending an event that closes or updates at most what is pending for it. *)
Lemma show_one (s : gset bytes) (e : AgentEvent) (live rest : gset bytes) : s ⊆ live ∪ (list_to_set (closed_ids [e]) ∪ rest) →
  (∀ x, x ∈ updated_ids [e] → x ∈ live) → show s e ⊆ live ∪ rest.
Proof. destruct e; cbn; set_solver. Qed.

(** A move that leaves the table and what is pending, and sends no update. *)
Lemma shows_live_same s a a' es : shows_live s a → flow_table (capture (ag_loop a')) = flow_table (capture (ag_loop a)) →
  ag_outbox a' = ag_outbox a → ag_emitter a' = ag_emitter a → updated_ids es = [] → shows_live (foldl show s es) a'.
Proof.
  intros [Hs Hu Ho] Et Eo Ee He. unfold closing_ids, updating_ids, live_ids in *.
  split; unfold closing_ids, updating_ids, live_ids; rewrite ?Et, ?Eo, ?Ee; [|done..]. rewrite show_closes by done. set_solver.
Qed.

(** Doing a chore sends what it stands for, or leaves it to the chores it makes. *)
Lemma chore_due replaying mode hostname src k c l e l' e' more es :
  chore replaying mode hostname src k c l e = Some (l', e', more, es) →
  (∃ ev, c = Say ev ∧ more = [] ∧ es = [ev]) ∨
  (es = [] ∧ more ≫= closings_due = closings_due c ∧ more ≫= updates_due = updates_due c).
Proof.
  destruct c as [g|ev| |id|now|g|stat g|stat iv loaded g|stat iv now g|name g|name g|name g]; cbn [chore];
    try (intros [= <- <- <- <-]; right; done).
  - intros [= <- <- <- <-]. right. destruct (compose_due (k_processes k) g) as [-> ->]. done.
  - intros [= <- <- <- <-]. left. eauto.
  - destruct (tick_decryption _ _ _ _) as [[w dec]|]; [|done]. cbn [mbind option_bind]. intros [= <- <- <- <-]. right.
    destruct (due_say (Decryption <$> dec)) as [-> ->]. unfold closed_ids, updated_ids. by rewrite !(omap_all_none _ Decryption).
  - intros [= <- <- <- <-]. right. by repeat case_match.
  - destruct (current_interface _) as [name ip]. intros [= <- <- <- <-]. by right.
Qed.

Lemma drains_shows_live s an a a' : capture_drains an a = Some a' → shows_live s a →
  (takes_switch a (CaptureDrains an) = true ∧ updating_ids a ≠ []) ∨ shows_live s a'.
Proof.
  unfold capture_drains. cbn [takes_switch]. intros Hm Hs.
  destruct (ag_pc a); [|right; by injection Hm as <-..]. destruct (ag_outbox a) eqn:Eo; [|right; by injection Hm as <-].
  destruct (ag_requests a) as [|q qs]; [injection Hm as <-; right; by eapply (shows_live_same s a _ [])|].
  destruct (drain_request _ _ _) as [[c es1]|] eqn:Hd; [|done]. injection Hm as <-.
  apply drain_request_flows in Hd as (Hup & Hfl & Hq). destruct Hs as [Hs Hu Ho].
  assert (s ⊆ live_ids c ∪ (list_to_set (closed_ids es1 ++ (todo (ag_emitter a) ≫= closings_due)))) as Hs'.
  { unfold closing_ids in Hs. rewrite Eo in Hs. cbn in Hs. rewrite list_to_set_app_L. set_solver. }
  destruct (decide (updating_ids a = [])) as [Hno|Hno].
  - right. split; [exact Hs'| |exact Hup]. intros x Hx. unfold updating_ids in *. cbn in Hx. rewrite Hno in Hx. by apply not_elem_of_nil in Hx.
  - destruct q as [f|n|name]; [right..|by left];
      (split; [exact Hs'| |exact Hup]; intros x Hx; unfold live_ids; cbn; rewrite Hq by done; by apply Hu).
Qed.

Lemma reads_shows_live s fx t a a' : capture_reads fx t a = Some a' → shows_live s a → shows_live s a'.
Proof.
  unfold capture_reads. intros Hm Hs. destruct (ag_pc a); [by injection Hm as <-| |by injection Hm as <-].
  destruct (ag_outbox a) eqn:Eo; [|by injection Hm as <-].
  destruct (turn _ _ _) as [[[l go] es1]|] eqn:Ht; [|done]. injection Hm as <-.
  apply turn_parts in Ht as [Hf Hl]; [|done]. destruct Hs as [Hs Hu Ho].
  assert (live_ids (capture (ag_loop a)) ⊆ live_ids (capture l)) as Hg by (destruct Hl as [->|[]]; [done|by apply live_grows]).
  split; [|intros x Hx; by apply Hg, Hu|by apply of_frame_updates].
  unfold closing_ids in *. cbn. rewrite Eo in Hs. cbn in Hs. rewrite list_to_set_app_L. set_solver.
Qed.

Lemma sends_shows_live s a : shows_live s a → let '(a', es) := capture_sends a in shows_live (foldl show s es) a'.
Proof.
  unfold capture_sends. intros [Hs Hu Ho]. destruct (ag_outbox a) as [|e es1] eqn:Eo; [split; [done..|by rewrite Eo]|].
  change (e :: es1) with ([e] ++ es1) in Ho. rewrite updated_ids_app in Ho. apply app_eq_nil in Ho as [Ho1 Ho2].
  split; [|exact Hu|exact Ho2]. cbn [foldl]. apply show_one; [|rewrite Ho1; by intros x ?%not_elem_of_nil].
  unfold closing_ids in *. rewrite Eo in Hs. change (e :: es1) with ([e] ++ es1) in Hs.
  rewrite closed_ids_app, <- (assoc_L (++)), list_to_set_app_L in Hs. exact Hs.
Qed.

(** A tick that starts shares the flows out between its closings and its updates. *)
Lemma tick_shows_live s replaying now a l' e' : emitter_tick replaying now (ag_loop a) (ag_emitter a) = (l', e') →
  shows_live s a → shows_live s (a <| ag_loop := l' |> <| ag_emitter := e' |>).
Proof.
  intros [(_ & -> & ->)|(g & Et & Hg & ->)]%emitter_tick_parts Hs; [by eapply (shows_live_same s a _ [])|].
  pose proof (gather_splits_the_flows replaying now (ag_loop a)) as Hsp. rewrite Hg in Hsp. destruct Hsp as (Hall & Hnow & _).
  destruct Hs as [Hs Hu Ho]. split; [| |exact Ho].
  - intros x [Hx|Hx]%Hs%elem_of_union.
    + apply live_keys in Hx. rewrite <- Hall, elem_of_app in Hx. apply elem_of_union. destruct Hx as [Hx|Hx].
      * right. unfold closing_ids. apply elem_of_list_to_set, elem_of_app. right. cbn. by rewrite app_nil_r.
      * left. apply live_keys. cbn. by rewrite <- Hnow.
    + apply elem_of_union_r. unfold closing_ids in *. rewrite Et in Hx. cbn in Hx |- *. rewrite app_nil_r in *. set_solver.
  - intros x Hx. unfold updating_ids in Hx. cbn in Hx. rewrite app_nil_r in Hx. apply live_keys. cbn. by rewrite <- Hnow.
Qed.

Lemma step_shows_live s replaying mode hostname src k a l' e' es :
  emitter_step replaying mode hostname src k (ag_loop a) (ag_emitter a) = Some (l', e', es) →
  shows_live s a → shows_live (foldl show s es) (a <| ag_loop := l' |> <| ag_emitter := e' |>).
Proof.
  intros [(_ & -> & -> & ->)|(c & rest & more & e1 & Et & Hch & ->)]%emitter_step_parts Hs; [by eapply (shows_live_same s a _ [])|].
  pose proof (chore_due _ _ _ _ _ _ _ _ _ _ _ _ Hch) as Hdue. apply chore_parts in Hch as (_ & _ & Hc & _).
  destruct Hs as [Hs Hu Ho].
  assert (closing_ids a = list_to_set (closings_due c) ∪ (list_to_set (closed_ids (ag_outbox a) ++ (rest ≫= closings_due)))) as Ec.
  { unfold closing_ids. rewrite Et, bind_cons, !list_to_set_app_L. set_solver. }
  unfold updating_ids in Hu. rewrite Et, bind_cons in Hu. rewrite Ec in Hs.
  destruct Hdue as [(ev & -> & -> & ->)|(-> & E1 & E2)].
  - split; [| |exact Ho].
    + cbn [foldl]. apply show_one; [unfold live_ids; cbn; rewrite Hc; exact Hs|].
      intros x Hx. unfold live_ids. cbn. rewrite Hc. apply Hu, elem_of_app. by left.
    + intros x Hx. unfold live_ids. cbn. rewrite Hc. apply Hu, elem_of_app. by right.
  - split; [| |exact Ho].
    + cbn [foldl]. unfold live_ids, closing_ids. cbn. rewrite Hc, bind_app, E1. unfold live_ids in Hs.
      rewrite !list_to_set_app_L in *. set_solver.
    + intros x Hx. unfold live_ids. cbn. rewrite Hc. apply Hu. unfold updating_ids in Hx. cbn in Hx.
      by rewrite bind_app, E2 in Hx.
Qed.

Lemma move_shows_live s fx a m a' es : move fx a m = Some (a', es) → shows_live s a →
  (takes_switch a m = true ∧ updating_ids a ≠ []) ∨ shows_live (foldl show s es) a'.
Proof.
  intros Hm Hs. destruct m as [an|t| |now|k|os|stdout|act]; cbn [move] in Hm.
  - destruct (capture_drains an a) as [a1|] eqn:Hd; [|done]. injection Hm as <- <-. by eapply drains_shows_live.
  - right. destruct (capture_reads fx t a) as [a1|] eqn:Hd; [|done]. injection Hm as <- <-. by eapply reads_shows_live.
  - right. pose proof (sends_shows_live s a Hs) as H1'. injection Hm as Hm. by rewrite Hm in H1'.
  - right. destruct (emitter_tick _ _ _ _) as [l e] eqn:Hk. injection Hm as <- <-. by eapply tick_shows_live.
  - right. destruct (emitter_step _ _ _ _ _ _ _) as [[[l e] es1]|] eqn:Hk; [|done]. injection Hm as <- <-. by eapply step_shows_live.
  - right. injection Hm as <- <-. eapply shows_live_same; try done. unfold updated_ids. by apply omap_all_none.
  - right. injection Hm as <- <-. unfold refresh_processes. destruct (fx_replaying fx); [done|]. by eapply shows_live_same.
  - right. destruct (step_no_connections (fx_token fx) (plane_of a) (in_surroundings fx a act)) as [Hn _].
    destruct (ControlPlane.step _ _ _) as [p es1]. injection Hm as <- <-. by eapply shows_live_same.
Qed.

Lemma moves_show_live s fx a ms a' es : moves fx a ms = Some (a', es) → switches_between_updates fx a ms = true →
  shows_live s a → shows_live (foldl show s es) a'.
Proof.
  revert s a es. induction ms as [|m ms IH]; intros s a es; cbn [moves switches_between_updates]; [by intros [= <- <-]|].
  destruct (move fx a m) as [[a1 es1]|] eqn:Hm; [|done]. cbn [mbind option_bind].
  destruct (moves fx a1 ms) as [[a2 es2]|] eqn:Hms; [|done]. intros [= <- <-] [Hno Hsw]%andb_true_iff Hs.
  rewrite foldl_app. eapply IH; [done..|]. destruct (move_shows_live s fx a m a1 es1 Hm Hs) as [[H1' H2']|H1']; [|done].
  rewrite H1', bool_decide_false in Hno by done. done.
Qed.

(** A later client shows no more than an earlier one. *)
Lemma show_mono s s' e : s ⊆ s' → show s e ⊆ show s' e.
Proof. destruct e; cbn; set_solver. Qed.

Lemma foldl_show_mono s s' es : s ⊆ s' → foldl show s es ⊆ foldl show s' es.
Proof. revert s s'. induction es as [|e es IH]; intros s s' Hs; [done|]. cbn [foldl]. by apply IH, show_mono. Qed.

Lemma received_less n es : shown (received_since n es) ⊆ shown es.
Proof.
  unfold shown, received_since. rewrite <- (take_drop n es) at 2. rewrite foldl_app. apply foldl_show_mono, empty_subseteq.
Qed.

(** *** Every flow of a snapshot gets to the clients *)

(** Since the snapshot a flow was closed, or it is shown, or its update is
    pending. *)
Definition delivered (s : gset bytes) (x : bytes) (es : list AgentEvent) (a : Agent) : Prop :=
  x ∈ closed_ids es ∨ x ∈ foldl show s es ∨ x ∈ updating_ids a.

Lemma show_or_closed s es x : x ∈ s → x ∈ foldl show s es ∨ x ∈ closed_ids es.
Proof.
  revert s. induction es as [|e es IH]; intros s Hx; [by left|]. cbn [foldl].
  change (e :: es) with ([e] ++ es). rewrite closed_ids_app, elem_of_app.
  destruct (decide (x ∈ closed_ids [e])); [tauto|]. destruct (IH (show s e)) as [?|?]; [|by left|tauto].
  destruct e; cbn in *; set_solver.
Qed.

Lemma move_delivered s x seen fx a m a' es : delivered s x seen a → move fx a m = Some (a', es) → delivered s x (seen ++ es) a'.
Proof.
  intros Hd Hm. assert ((∀ y, y ∈ updating_ids a → y ∈ updating_ids a' ∨ (es = [] → False) ∧ y ∈ updated_ids es ∧ closed_ids es = []) →
    delivered s x (seen ++ es) a') as Hgo.
  { intros Hup. unfold delivered. rewrite closed_ids_app, elem_of_app, foldl_app. destruct Hd as [Hd|[Hd|Hd]]; [tauto| |].
    - destruct (show_or_closed (foldl show s seen) es x Hd); tauto.
    - destruct (Hup x Hd) as [?|(_ & Hin & Hc)]; [tauto|]. right. left. rewrite show_updates by done. set_solver. }
  assert (ag_emitter a' = ag_emitter a → delivered s x (seen ++ es) a') as Hsame
    by (intros Ee; apply Hgo; intros y Hy; left; unfold updating_ids in *; by rewrite Ee).
  destruct m as [an|t| |now|k|os|stdout|act]; cbn [move] in Hm.
  - apply Hsame. unfold capture_drains in Hm. destruct (ag_pc a), (ag_outbox a); try by injection Hm as <- _.
    destruct (ag_requests a) as [|q qs]; [by injection Hm as <- _|]. destruct (drain_request _ _ _) as [[c es1]|]; [|done]. by injection Hm as <- _.
  - apply Hsame. unfold capture_reads in Hm. destruct (ag_pc a), (ag_outbox a); try by injection Hm as <- _.
    destruct (turn _ _ _) as [[[l go] es1]|]; [|done]. by injection Hm as <- _.
  - apply Hsame. unfold capture_sends in Hm. destruct (ag_outbox a); by injection Hm as <- _.
  - destruct (emitter_tick _ _ _ _) as [l e] eqn:Hk. injection Hm as <- <-.
    apply emitter_tick_parts in Hk as [(_ & -> & ->)|(g & Et & _ & ->)]; [by apply Hsame|].
    apply Hgo. intros y Hy. unfold updating_ids in Hy. rewrite Et in Hy. by apply not_elem_of_nil in Hy.
  - destruct (emitter_step _ _ _ _ _ _ _) as [[[l e] es1]|] eqn:Hk; [|done]. injection Hm as <- <-.
    apply emitter_step_parts in Hk as [(_ & -> & -> & ->)|(c & rest & more & e1 & Et & Hch & ->)]; [by apply Hsame|].
    apply Hgo. intros y Hy. unfold updating_ids in *. rewrite Et, bind_cons, elem_of_app in Hy. cbn. rewrite bind_app, elem_of_app.
    destruct Hy as [Hy|Hy]; [|tauto].
    destruct (chore_due _ _ _ _ _ _ _ _ _ _ _ _ Hch) as [(ev & -> & -> & ->)|(-> & _ & E2)]; [|rewrite E2; tauto].
    right. cbn in Hy. split; [done|]. split; [done|]. destruct ev; cbn in Hy; try by apply not_elem_of_nil in Hy. done.
  - apply Hsame. by injection Hm as <- _.
  - apply Hsame. injection Hm as <- _. unfold refresh_processes. by destruct (fx_replaying fx).
  - apply Hsame. destruct (ControlPlane.step _ _ _). by injection Hm as <- _.
Qed.

(** C18: the connections a client shows.  Take a client that subscribed at any
    time and lost no event.  If no interface request is taken while a tick has
    updates to send, it shows no connection that is gone, except while the
    closing is on its way.  And without that condition: once the updates of a
    tick are sent, it shows every connection the tick found in the table, but
    for those reported closed since. *)
Theorem clients_show_live_connections s core fx a p ms a' es n :
  boot s = Ok (core, fx, a, p) → moves fx a ms = Some (a', es) →
  (switches_between_updates fx a ms = true →
   shown (received_since n es) ⊆ live_ids (capture (ag_loop a')) ∪ closing_ids a') ∧
  ∀ now a1 ms2 a2 es2, todo (ag_emitter a') = [] → move fx a' (EmitterTick now) = Some (a1, []) →
    moves fx a1 ms2 = Some (a2, es2) → updating_ids a2 = [] → (n <= length es)%nat →
    ∀ x, x ∈ live_ids (capture (ag_loop a1)) → x ∈ shown (received_since n (es ++ es2)) ∨ x ∈ closed_ids es2.
Proof.
  intros Hb Hms. split.
  - intros Hsw. etransitivity; [apply received_less|].
    destruct (boot_ok _ _ _ _ _ Hb) as (r & mf & mn & _ & _ & El & Ee & Eo & _).
    destruct (moves_show_live ∅ fx a ms a' es Hms Hsw) as [Hs _ _]; [|done].
    split; [apply empty_subseteq| |by rewrite Eo]. intros x. unfold updating_ids. rewrite Ee. by intros ?%not_elem_of_nil.
  - intros now a1 ms2 a2 es2 Ht Hm Hm2 Hup Hn x Hx. cbn [move] in Hm.
    destruct (emitter_tick _ _ _ _) as [l e] eqn:Hk. injection Hm as <-.
    apply emitter_tick_parts in Hk as [(Hne & _)|(g & _ & Hg & ->)]; [done|].
    pose proof (gather_splits_the_flows (fx_replaying fx) now (ag_loop a')) as Hsp. rewrite Hg in Hsp. destruct Hsp as (_ & Hnow & _).
    unfold received_since. rewrite drop_app_le by done. unfold shown. rewrite foldl_app.
    assert (delivered (foldl show ∅ (drop n es)) x es2 a2) as [?|[?|Hd]]; [|by right|by left|].
    { refine (moves_inv (delivered (foldl show ∅ (drop n es)) x) fx ms2 [] _ a2 es2 _ _ Hm2); [intros; by eapply move_delivered|].
      right. right. unfold updating_ids. cbn. rewrite app_nil_r. apply live_keys in Hx. cbn in Hx. by rewrite Hnow. }
    rewrite Hup in Hd. by apply not_elem_of_nil in Hd.
Qed.

(** ** An agent to which nobody authenticated *)

(** No process is eligible for decryption and no connection has state. *)
Definition dormant (w : World) : Prop := w_state w = ∅ ∧ KeyLogWatcher.eligible (w_watcher w) = ∅.

(** Events the agent sends unasked. *)
Definition observation (e : AgentEvent) : Prop :=
  match e with
  | Decryption _ | TracerouteHop _ | CaptureConfigError _ | InterfaceList _ | InterfaceChanged _ | InterfaceError _
  | CaptureFileError _ => False
  | _ => True
  end.

Lemma poll_dormant kw fs now : KeyLogWatcher.eligible kw = ∅ → KeyLogWatcher.eligible (KeyLogWatcher.poll_at kw fs now) = ∅.
Proof.
  intros He. unfold KeyLogWatcher.poll_at. rewrite He.
  assert (∀ pids n, KeyLogWatcher.poll_pids fs pids n ∅ (KeyLogWatcher.last_polled_pid kw) = (∅, KeyLogWatcher.last_polled_pid kw, [])) as ->; [|done].
  induction pids as [|pid pids IH]; intros n; cbn [KeyLogWatcher.poll_pids]; [done|]. case_zb; [done|]. rewrite lookup_empty. apply IH.
Qed.

Lemma iter_empty {K V} `{Countable K} : iter (∅ : gmap K V) = [].
Proof. apply Permutation_nil. symmetry. rewrite iter_perm. by rewrite map_to_list_empty. Qed.

Lemma try_decrypt_dormant fuel w p tr ml enow cnow addrs pm flows fs now w' es :
  try_decrypt_and_emit fuel w p tr ml enow cnow addrs pm flows fs now = Some (w', es) → dormant w → dormant w' ∧ es = [].
Proof.
  unfold try_decrypt_and_emit. intros Ht [Hs He]. destruct (negb _); [by injection Ht as <- <-|].
  destruct (_ ≫= _) as [pid|]; [|by injection Ht as <- <-]. destruct (build_flow_key _ _); [|by injection Ht as <- <-].
  destruct (tcp_seq p); [|by injection Ht as <- <-]. unfold KeyLogWatcher.is_eligible in Ht. cbn in Ht.
  pose proof (poll_dormant (w_watcher w) fs now He) as Hp. rewrite Hp, lookup_empty in Ht. injection Ht as <- <-. done.
Qed.

Lemma remove_dormant w id : dormant w → remove_decrypt_connection (w_state w) (w_watcher w) id = (∅, w_watcher w).
Proof. intros [-> _]. unfold remove_decrypt_connection. by rewrite lookup_empty, delete_empty. Qed.

Lemma tick_decryption_dormant k anow now w w' es : tick_decryption k anow now w = Some (w', es) → dormant w → dormant w' ∧ es = [].
Proof.
  unfold tick_decryption. intros Ht [Hs He]. revert Ht. unfold replay_pending_tls_keys. cbn. rewrite Hs, iter_empty. cbn.
  unfold expire_tls_state_timers. rewrite Hs, iter_empty. cbn. destruct (k_fuel k); cbn; [done|].
  assert (total_held ∅ = 0) as E0 by (unfold total_held; apply map_total_empty). rewrite E0. cbn.
  intros [= <- <-]. split; [|done]. split; [done|]. cbn. by apply poll_dormant.
Qed.

(** What nobody asked to change. *)
Record unasked (disk : Fs) (i : bytes * bytes) (l : Loop) : Prop := {
  ua_dormant : dormant (decryption l);
  ua_config : config (capture l) = DEFAULT_CONFIG;
  ua_interface : current_interface (capture l) = i;
  ua_writer : writer l = WriterThread.init disk
}.

Lemma unanswered_observed expired now ts lim seq : Forall observation (emit_unanswered_findings expired now ts lim seq).2.
Proof.
  revert lim seq. induction expired as [|u expired IH]; intros lim seq; cbn [emit_unanswered_findings]; [constructor|].
  destruct (PacketEventLimiter.allow _ _) as [lim' []]; [|apply IH].
  specialize (IH lim' (seq + 1)). destruct (emit_unanswered_findings _ _ _ _ _) as [[? ?] es]. by constructor.
Qed.

Lemma emit_packet_observed l now epoch parsed l7 lt re event r l' es :
  emit_packet l now epoch parsed l7 lt re event r = (l', es) → decryption l' = decryption l ∧ Forall observation es.
Proof.
  unfold emit_packet. destruct (PacketEventLimiter.allow _ _) as [lim ok].
  destruct ok; cbn [negb]; [|intros [= <- <-]; by split; [|constructor]].
  destruct event, (is_retransmission r); intros [= <- <-]; (split; [done|by repeat constructor]).
Qed.

Lemma analyse_dormant replaying t l parsed data lt ts rnow fnow tr l' es :
  analyse replaying t l parsed data lt ts rnow fnow tr = Some (l', es) → dormant (decryption l) →
  dormant (decryption l') ∧ Forall observation es.
Proof.
  open_analyse. intros Hw.
  assert (dormant w ∧ Forall observation ce) as [Hw' Oc].
  { unfold close_replaced in Hce. destruct (r ≫= closed_connection_id).
    - rewrite remove_dormant in Hce by done. injection Hce as <- <-. split; [|by repeat constructor]. split; [done|]. by destruct Hw.
    - injection Hce as <- <-. (split; [done|constructor]). }
  apply try_decrypt_dormant in Hde as [Hw2 ->]; [|done]. apply emit_packet_observed in Hpe as [-> Op].
  pose proof (f_equal (λ x, Forall observation x.2) Hun) as Hu. cbn [snd] in Hu.
  split; [done|]. apply Forall_app; split; [done|]. apply Forall_app; split; [rewrite <- Hu; apply unanswered_observed|].
  apply Forall_app; split; [|done]. unfold reset_finding in Hre. repeat case_match; simplify_eq; by repeat constructor.
Qed.

Lemma handle_unasked disk i replaying t l data ts orig flt l' es :
  handle_frame replaying t l data ts orig flt = Some (l', es) → unasked disk i l → unasked disk i l' ∧ Forall observation es.
Proof.
  intros Hh [Hd Hc Hi Hw]. destruct (handle_settled _ _ _ _ _ _ _ _ _ Hh) as [[_ _ _ _ Si Sc _] _].
  assert (dormant (decryption l') ∧ writer l' = WriterThread.init disk ∧ Forall observation es) as (? & ? & ?).
  2: { split; [|done]. constructor; congruence || done. }
  revert Hh. unfold handle_frame. destruct (arrive replaying t l _ ts orig) as [[l1 rnow] tr] eqn:Ha.
  apply arrive_untouched in Ha as ((_ & _ & _ & _ & _ & Ed & Ew & _) & _). rewrite <- Ed in Hd. rewrite <- Ew in Hw.
  destruct (parse_packet_result data _) as [parsed|[]].
  - destruct (exclude_live_control_capture _ _); [intros [= <- <-]; by split_and!|]. intros Han.
    destruct (analyse_dormant _ _ _ _ _ _ _ _ _ _ _ _ Han Hd) as [? ?].
    apply analyse_writer in Han as (_ & d & ->). rewrite Hw. done.
  - unfold malformed_frame. destruct (PacketEventLimiter.allow _ _) as [lim []]; intros [= <- <-]; (split_and!; [done..|by repeat constructor]).
  - intros [= <- <-]. by split_and!.
Qed.

Lemma turn_unasked disk i replaying t l l' go es : t_requests t = [] →
  turn replaying t l = Some (l', go, es) → unasked disk i l → unasked disk i l' ∧ Forall observation es.
Proof.
  intros Hq. unfold turn. rewrite Hq. cbn [drain mbind option_bind]. intros Ht Hu.
  assert (unasked disk i (l <| capture := capture l |>)) as Hu1 by by destruct Hu.
  destruct (t_paused t); [by injection Ht as <- _ <-|]. set (l1 := l <| capture := _ |>) in *.
  assert (unasked disk i (poll_stats t l1)) as Hu2.
  { unfold poll_stats. clear Ht. destruct (source (capture l1)); try done. case_zb; [|done]. destruct (t_stats t); [|by destruct Hu1].
    destruct Hu1 as [? ? ? Hw]. constructor; try done. cbn in *. by rewrite Hw. }
  destruct (next_frame _ _ _) as [src frame]. set (l2 := poll_stats t l1 <| capture ::= _ |>) in *.
  assert (unasked disk i l2) as Hu3 by by destruct Hu2.
  destruct frame as [data ts orig lt| | |]; [| |by injection Ht as <- _ <-..].
  - destruct (handle_frame _ _ _ _ _ _ _) as [[l3 es3]|] eqn:Hh; [|done]. injection Ht as <- _ <-. by eapply handle_unasked.
  - unfold idle in Ht. destruct replaying; [by injection Ht as <- _ <-|]. destruct (TransactionTracker.expire _ _) as [tr ex].
    match type of Ht with context [emit_unanswered_findings ?a ?b ?d ?e ?f] =>
      pose proof (unanswered_observed a b d e f); destruct (emit_unanswered_findings a b d e f) as [[lim seq] ue] end.
    injection Ht as <- _ <-. split; [by destruct Hu3|done].
Qed.

Lemma compose_observed processes g : Forall observation (sayings (compose processes g)).
Proof.
  apply Forall_forall. intros e He. pose proof (compose_periodic processes g) as Hp. rewrite Forall_forall in Hp. specialize (Hp e He).
  destruct e; try done. exfalso. apply sayings_elem in He. unfold compose in He. cbn zeta in He.
  rewrite !elem_of_app, !elem_of_cons, list_elem_of_fmap, list_elem_of_bind in He.
  repeat match type of He with _ ∨ _ => destruct He as [He|He] end;
    first [discriminate He|by apply not_elem_of_nil in He
          |destruct He as (? & [= <-] & He); by apply list_elem_of_fmap in He as (? & ? & _)
          |destruct He as (? & He & _); rewrite !elem_of_cons in He; destruct He as [He|[He|He]];
             [discriminate He..|by apply not_elem_of_nil in He]].
Qed.

Lemma chore_unasked disk i replaying mode hostname src k c l e l' e' more es :
  chore replaying mode hostname src k c l e = Some (l', e', more, es) → unasked disk i l →
  unasked disk i l' ∧ Forall observation (sayings more).
Proof.
  intros Hch [Hd Hc Hi Hw]. pose proof (chore_parts _ _ _ _ _ _ _ _ _ _ _ _ Hch) as (_ & Hp & Ec & _ & _ & Ew & _).
  assert (dormant (decryption l') ∧ Forall observation (sayings more)) as [? ?]; [|split; [constructor; congruence|done]].
  destruct c as [g|ev| |id|now|g|stat g|stat iv loaded g|stat iv now g|name g|name g|name g]; cbn [chore] in Hch;
    try (injection Hch as <- <- <- <-; split; [done|by repeat constructor]).
  - injection Hch as <- <- <- <-. split; [done|apply compose_observed].
  - rewrite remove_dormant in Hch by done. injection Hch as <- <- <- <-. split; [|constructor]. split; [done|]. by destruct Hd.
  - destruct (tick_decryption _ _ _ _) as [[w dec]|] eqn:Ht; [|done]. injection Hch as <- <- <- <-.
    apply tick_decryption_dormant in Ht as [Hd' ->]; [|done]. (split; [done|constructor]).
  - injection Hch as <- <- <- <-. split; [done|]. repeat case_match; constructor.
  - destruct (current_interface _) as [name ip]. injection Hch as <- <- <- <-. split; [done|by repeat constructor].
Qed.

Lemma gather_unasked disk i replaying now l l' g : gather replaying now l = (l', g) → unasked disk i l → unasked disk i l'.
Proof.
  intros Hg Hu. pose proof (gather_capture replaying now l) as Hc. rewrite Hg in Hc. destruct Hc as (table & -> & _).
  by destruct Hu.
Qed.

Section without_token.
Context `{!HexCrateLaws} (disk : Fs) (i : bytes * bytes) (fx : Fixed).

(** No peer that was accepted presents the token. *)
Definition stranger (script : list ReadEvent) : Prop := ~ presents_token (fx_token fx) script.

Record unattended (seen : list AgentEvent) (a : Agent) : Prop := {
  un_loop : unasked disk i (ag_loop a);
  un_flags : ag_paused a = false ∧ ag_requests a = [] ∧ ag_traces a = [];
  un_peers : earned (fx_token fx) stranger (plane_of a);
  un_events : Forall observation seen;
  un_outbox : Forall observation (ag_outbox a);
  un_todo : Forall observation (sayings (todo (ag_emitter a)))
}.

Lemma earned_same (p p' : Plane) : peers p' = peers p → sh_traces (shared p') = sh_traces (shared p) →
  earned (fx_token fx) stranger p → earned (fx_token fx) stranger p'.
Proof. intros E1 E2 [H1' H2']. constructor; rewrite E1, ?E2; done. Qed.

Lemma move_unattended seen a m a' es : tag_binds (fx_token fx) →
  (∀ script, m = Connections (Accept script) → stranger script) →
  unattended seen a → move fx a m = Some (a', es) → unattended (seen ++ es) a'.
Proof.
  intros Hb Hacc Hun Hm. pose proof Hun as [Hl (Hp & Hq & Ht) He Hs Hout Htodo].
  destruct m as [an|t| |now|k|os|stdout|act]; cbn [move] in Hm.
  - unfold capture_drains in Hm. rewrite Hq in Hm.
    destruct (ag_pc a), (ag_outbox a) eqn:Eo; injection Hm as <- <-; rewrite app_nil_r; try done.
    split; first [done|by apply (earned_same (plane_of a))|by cbn; rewrite Eo].
  - unfold capture_reads in Hm. destruct (ag_pc a), (ag_outbox a); try (injection Hm as <- <-; by rewrite app_nil_r).
    destruct (turn _ _ _) as [[[l go] es1]|] eqn:Htn; [|done]. injection Hm as <- <-. rewrite app_nil_r.
    destruct (turn_unasked disk i _ (turn_of a t) _ _ _ _ eq_refl Htn Hl). split; first [done|by apply (earned_same (plane_of a))].
  - unfold capture_sends in Hm. destruct (ag_outbox a) as [|e es1] eqn:Eo; injection Hm as <- <-; [by rewrite app_nil_r|].
    apply Forall_cons in Hout as [Ho1 Ho2]. split; first [done|by apply (earned_same (plane_of a))|apply Forall_app; split; [done|by apply Forall_singleton]].
  - destruct (emitter_tick _ _ _ _) as [l e] eqn:Hk. injection Hm as <- <-. rewrite app_nil_r.
    apply emitter_tick_parts in Hk as [(_ & -> & ->)|(g & _ & Hg & ->)]; [by destruct a|].
    split; first [done|by eapply gather_unasked|by apply (earned_same (plane_of a))|constructor].
  - destruct (emitter_step _ _ _ _ _ _ _) as [[[l e] es1]|] eqn:Hk; [|done]. injection Hm as <- <-.
    apply emitter_step_parts in Hk as [(_ & -> & -> & ->)|(c & rest & more & e1 & Et & Hch & ->)]; [rewrite app_nil_r; by destruct a|].
    destruct (chore_unasked disk i _ _ _ _ _ _ _ _ _ _ _ _ Hch Hl) as [Hl' Hmore]. apply chore_parts in Hch as (-> & _).
    rewrite Et in Htodo. change (c :: rest) with ([c] ++ rest) in Htodo. rewrite sayings_app in Htodo.
    apply Forall_app in Htodo as [Hc Hrest].
    split; first [done|by apply (earned_same (plane_of a))|by apply Forall_app|cbn -[sayings]; rewrite sayings_app; by apply Forall_app].
  - unfold writer_takes in Hm. rewrite (ua_writer _ _ _ Hl) in Hm. injection Hm as <- <-. cbn. rewrite app_nil_r.
    split; first [done|by destruct Hl|by apply (earned_same (plane_of a))].
  - injection Hm as <- <-. rewrite app_nil_r. unfold refresh_processes. destruct (fx_replaying fx); [done|].
    split; first [done|by apply (earned_same (plane_of a))].
  - pose proof (step_authorised (fx_token fx) stranger (plane_of a) (in_surroundings fx a act) He) as Hst.
    pose proof (step_earned (fx_token fx) stranger (plane_of a) (in_surroundings fx a act) Hb) as He'.
    destruct (ControlPlane.step _ _ _) as [p es1]. injection Hm as <- <-. cbn [fst] in He'.
    assert (earned (fx_token fx) stranger p) as He2 by (apply He'; [intros script Hsc; apply Hacc; by destruct act; cbn in Hsc; simplify_eq|done]).
    destruct Hst as [[Esh ->]|(j & q & _ & _ & Hno & Hpr)]; [|by destruct Hno]. rewrite app_nil_r.
    split; try done.
    + destruct Hl. constructor; unfold put_plane; rewrite Esh; done.
    + unfold put_plane. rewrite Esh. done.
    + apply (earned_same p); [done| |done]. unfold put_plane. by rewrite Esh.
Qed.

End without_token.

(** C6: an agent to which nobody authenticated only observes.  If no accepted
    peer presents the published token, then however the run goes no peer is
    served, the capture is never paused or reconfigured and stays on its
    interface, no file is written, nothing is decrypted or traced, and no event
    but observations of the traffic and the agent's status is sent. *)
Theorem agent_without_token_only_observes `{!HexCrateLaws} s core fx a p ms a' es : tag_binds (fx_token fx) →
  boot s = Ok (core, fx, a, p) → (∀ script, Connections (Accept script) ∈ ms → ~ presents_token (fx_token fx) script) →
  moves fx a ms = Some (a', es) →
  Forall observation es ∧ Forall (λ q, ∀ r, peer_phase q ≠ Serving r) (ag_peers a') ∧
  ag_paused a' = false ∧ ag_requests a' = [] ∧ ag_traces a' = [] ∧ dormant (decryption (ag_loop a')) ∧
  config (capture (ag_loop a')) = DEFAULT_CONFIG ∧
  current_interface (capture (ag_loop a')) = current_interface (capture (ag_loop a)) ∧
  WriterThread.disk (writer (ag_loop a')) = se_disk s.
Proof.
  intros Hb Hboot Hacc Hms. destruct (boot_ok _ _ _ _ _ Hboot) as (r & mf & mn & _ & _ & El & Ee & Eo & E1 & E2 & E3 & E4 & _ & _).
  destruct (moves_inv (unattended (se_disk s) (current_interface (capture (ag_loop a))) fx) fx ms [] a a' es) as [[Hd Hc Hi Hw] (Hp & Hq & Ht) [He _] Hs _ _]; [| |done|].
  - intros seen b m b' es1 Hin Hu Hm. eapply move_unattended; [done| |exact Hu|exact Hm]. intros script ->. by apply Hacc.
  - constructor; [rewrite El; by constructor|done| |constructor|rewrite Eo; constructor|rewrite Ee; constructor].
    constructor; cbn; rewrite ?E3, ?E4; done.
  - rewrite Hw. split_and!; try done. apply Forall_impl with (1 := He). intros q [Hno Hph] r0 Hr. rewrite Hr in Hph. by destruct Hno.
Qed.
End runs.

(** ** The sample session *)

Module RunSamples.
Import AgentSamples.

Definition id1 : bytes := lit "pkt-1700000002000-1".

(** The event is the finding about the frame [id1]. *)
Definition is_finding_about (e : AgentEvent) : bool :=
  match e with Finding f => bool_decide (fj_frame_id f = Some id1) | _ => false end.

Lemma agent_references_were_sent_witness :
  ∃ core fx a p a' es, boot setup = Ok (core, fx, a, p) ∧ moves fx a (session peer) = Some (a', es) ∧ id1 ∈ packet_ids (take 2 es).
Proof.
  assert (after peer (λ _ _ es, match es !! 2%nat with Some e => is_finding_about e | None => false end) = true) as Hs by (vm_compute; reflexivity).
  destruct (session_returns _ _ Hs) as (core & fx & a & p & a' & es & Hb & Hm & He). exists core, fx, a, p, a', es.
  split; [exact Hb|]. split; [exact Hm|]. destruct (es !! 2%nat) as [e|] eqn:Hi; [|discriminate He].
  apply (agent_references_were_sent setup (session peer) a' (take 2 es) e (drop 3 es)).
  - rewrite (take_drop_middle es 2 e Hi). exists core, fx, a, p. split; [exact Hb|exact Hm].
  - destruct e; try discriminate He. exact (bool_decide_eq_true_1 _ He).
Defined.

Lemma agent_ids_unique_witness :
  ∃ core fx a p a' es, boot setup = Ok (core, fx, a, p) ∧ moves fx a (session peer) = Some (a', es) ∧
    NoDup (packet_ids es) ∧ NoDup (finding_ids es).
Proof.
  assert (after peer (λ _ a' _, (packet_seq (ag_loop a') <=? U64_MAX) && (finding_seq (ag_loop a') <=? U64_MAX)) = true) as Hs by (vm_compute; reflexivity).
  destruct (session_returns _ _ Hs) as (core & fx & a & p & a' & es & Hb & Hm & He). exists core, fx, a, p, a', es.
  apply andb_true_iff in He as [H1 H2]. split; [exact Hb|]. split; [exact Hm|].
  apply (agent_ids_unique setup (session peer) a' es); [exists core, fx, a, p; exact (conj Hb Hm)|by apply Z.leb_le..].
Defined.

(** The answers of libpcap and the scripts of the peers in the sample runs. *)
Definition sample_move (script : list ReadEvent) (m : Move) : Prop :=
  match m with
  | CaptureDrains answers => answers = CaptureConfig.sample_answers
  | Connections (Accept script') => script' = script
  | _ => True
  end.

Lemma session_moves script : Forall (sample_move script) (session script).
Proof.
  unfold session, frame_at, drain_at, sends, tick_at, chores_at, connect. cbn [replicate app fmap list_fmap].
  repeat (apply Forall_cons; split; [first [exact I|reflexivity]|]). apply Forall_nil. done.
Qed.

Lemma sample_opens_faithfully script ms : Forall (sample_move script) ms → opens_faithfully setup ms.
Proof.
  intros Hms. split; [by intros d n h [= <-]|]. intros answers Hin. rewrite Forall_forall in Hms.
  rewrite (Hms _ Hin : answers = _). apply CaptureConfig.sample_opens.
Qed.

Definition reports_config (c : CaptureConfigJson) (e : AgentEvent) : bool :=
  match e with
  | CaptureConfig x => bool_decide (cc_filter x = cc_filter c) && (cc_snaplen x =? cc_snaplen c)
  | _ => false
  end.

Lemma reports_config_elem c es : existsb (reports_config c) es = true → CaptureConfig c ∈ es.
Proof.
  intros (e & Hin & He)%existsb_exists. apply list_elem_of_In. destruct e; try discriminate He. cbn in He.
  apply andb_true_iff in He as [H1%bool_decide_eq_true_1 H2%Z.eqb_eq]. by destruct c, config; cbn in *; subst.
Qed.

Lemma agent_reports_its_capture_witness :
  ∃ core fx a p a' es, boot setup = Ok (core, fx, a, p) ∧ moves fx a (session peer) = Some (a', es) ∧
    cc_filter (config (capture (ag_loop a'))) = Some (lit "tcp") ∧ coherent (capture (ag_loop a')) ∧
    CaptureConfig (config (capture (ag_loop a'))) ∈ es ∧
    passed_through fx a (session peer) (λ a1 _, coherent (capture (ag_loop a1)) ∧ config (capture (ag_loop a1)) = config (capture (ag_loop a'))).
Proof.
  assert (after peer (λ _ a' es, bool_decide (cc_filter (config (capture (ag_loop a'))) = Some (lit "tcp"))
    && existsb (reports_config (config (capture (ag_loop a')))) es) = true) as Hs
    by (vm_compute; reflexivity).
  destruct (session_returns _ _ Hs) as (core & fx & a & p & a' & es & Hb & Hm & He). exists core, fx, a, p, a', es.
  apply andb_true_iff in He as [He1 He2]. apply reports_config_elem in He2.
  destruct (agent_reports_its_capture setup core fx a p (session peer) a' es Hb (sample_opens_faithfully peer _ (session_moves peer)) Hm)
    as (Hc & Hp & _).
  split; [exact Hb|]. split; [exact Hm|]. split; [exact (bool_decide_eq_true_1 _ He1)|]. split; [exact Hc|]. split; [exact He2|].
  exact (Hp _ He2).
Defined.

(** A client that subscribes after two events. *)
Lemma clients_show_live_connections_witness :
  ∃ core fx a p a' es, boot setup = Ok (core, fx, a, p) ∧ moves fx a (session peer) = Some (a', es) ∧
    updated_ids (received_since 2 es) ≠ [] ∧ shown (received_since 2 es) ⊆ live_ids (capture (ag_loop a')) ∪ closing_ids a'.
Proof.
  assert (of_run (session peer) (λ fx a _ es, bool_decide (updated_ids (received_since 2 es) ≠ [])
    && switches_between_updates fx a (session peer)) = true) as Hs by (vm_compute; reflexivity).
  destruct (run_returns _ _ Hs) as (core & fx & a & p & a' & es & Hb & Hm & He). exists core, fx, a, p, a', es.
  apply andb_true_iff in He as [He1 He2].
  split; [exact Hb|]. split; [exact Hm|]. split; [exact (bool_decide_eq_true_1 _ He1)|].
  exact (proj1 (clients_show_live_connections setup core fx a p (session peer) a' es 2 Hb Hm) He2).
Defined.

(** Between the snapshot of a tick and its updates, the capture thread switches
    the interface and closes the flow. *)
Definition ghost_session : list Move :=
  frame_at 1000 ++ connect switcher ++ EmitterTick 5000 :: chores_at 5000 1 ++ drain_at ++ chores_at 5000 40
  ++ tick_at 10000 ++ tick_at 3600000.

(** A client can be left with a connection that is gone.  The updates of a tick
    are sent after the lock of the flow table is released, so a switch of the
    interface in between closes the flow first: the late update puts it back, no
    closing follows, and no later tick mentions it. *)
Theorem ghost_connection :
  ∃ core fx a p a' es, boot setup = Ok (core, fx, a, p) ∧ moves fx a ghost_session = Some (a', es) ∧
    live_ids (capture (ag_loop a')) = ∅ ∧ ag_outbox a' = [] ∧ todo (ag_emitter a') = [] ∧ shown es ≠ ∅.
Proof.
  assert (of_run ghost_session (λ _ _ a' es, bool_decide (live_ids (capture (ag_loop a')) = ∅)
    && (match ag_outbox a' with [] => true | _ => false end) && (match todo (ag_emitter a') with [] => true | _ => false end)
    && negb (bool_decide (shown es = ∅))) = true) as Hs by (vm_compute; reflexivity).
  destruct (run_returns _ _ Hs) as (core & fx & a & p & a' & es & Hb & Hm & He). exists core, fx, a, p, a', es.
  apply andb_true_iff in He as [He H4']. apply andb_true_iff in He as [He H3']. apply andb_true_iff in He as [H1' H2'].
  split_and!; [exact Hb|exact Hm|exact (bool_decide_eq_true_1 _ H1')|by destruct (ag_outbox a')|by destruct (todo (ag_emitter a'))|].
  apply negb_true_iff in H4'. by apply bool_decide_eq_false in H4'.
Qed.

(** What the other peer sends first is no authentication. *)
Lemma bad_is_stranger token : ~ presents_token token ControlSamples.bad.
Proof.
  intros (line & rest & Hn & _ & Hp & Hl). pose proof (position_line line rest Hn) as Hq. rewrite <- Hl in Hq.
  replace (position 10 _) with (Some 15) in Hq by (vm_compute; reflexivity). assert (length line = 15%nat) as Hlen by (injection Hq; lia).
  pose proof (take_app_length' line (10 :: rest) 15 (eq_sym Hlen)) as Ht. rewrite <- Hl in Ht. vm_compute in Ht. subst line. vm_compute in Hp. discriminate Hp.
Qed.

Lemma session_accepts script script' : Connections (Accept script') ∈ session script → script' = script.
Proof. intros Hin. pose proof (session_moves script) as Hms. rewrite Forall_forall in Hms. exact (Hms _ Hin). Qed.

Lemma agent_without_token_only_observes_witness :
  ∃ core fx a p a' es, boot setup = Ok (core, fx, a, p) ∧ moves fx a (session ControlSamples.bad) = Some (a', es) ∧
    Forall observation es ∧ ag_paused a' = false ∧ config (capture (ag_loop a')) = DEFAULT_CONFIG.
Proof.
  assert (after ControlSamples.bad (λ _ _ _, true) = true) as Hs by (vm_compute; reflexivity).
  destruct (session_returns _ _ Hs) as (core & fx & a & p & a' & es & Hb & Hm & _). exists core, fx, a, p, a', es.
  destruct (agent_without_token_only_observes setup core fx a p (session ControlSamples.bad) a' es (ControlAuth.sample_tag_binds _) Hb)
    as (Ho & _ & Hp & _ & _ & _ & Hc & _).
  - intros script Hin. rewrite (session_accepts _ _ Hin). apply bad_is_stranger.
  - exact Hm.
  - auto.
Defined.
End RunSamples.
