(* ===== verification/AgentAccounting.v ===== *)
(** * What a run of the agent adds up to

    The counts the agent reports against the events it sent: every flow counted
    is in the table, was closed or is about to be, and every byte and packet
    counted enters exactly one report of the throughput, or is left to the
    next. *)

From S2P Require Import Prelude Float64 Budget Text Packet TcpSegments DnsFraming RateLimit RingBuffer L7Tls L7 Parse Fragments Sniff DnsNames Flow Pcapng Ring Transaction Keylog TlsDecrypt Http2 Decrypt Fields Traceroute ControlAuth Wire ProcessLookup Startup CaptureConfig ControlTraffic CaptureLoop CaptureEvents Emitter ControlPlane Agent AgentRuns.
#[local] Open Scope Z_scope.

(** ** Packets *)

Lemma fragment_has_no_port `{SlicerLaws} data lt p :
  parse_packet data lt = Some p → ip_fragment p ≠ None → src_port p = None ∧ 0 <= total_len p.
Proof.
  intros Hp Hf. split; [|by apply parse_packet_layered in Hp as [_ ?]].
  apply parse_packet_inv in Hp as (s & src & dst & vlan & (_ & _ & Hn) & Hb). unfold build_parsed_packet in Hb.
  destruct (net s) as [[v4|v6|arp]|]; cbn in Hb; [|by injection Hb as <-|done..]. injection Hb as <-. cbn in *.
  destruct (v4_more_fragments v4 || negb (v4_fragments_offset v4 * 8 =? 0)) eqn:Hfr; [|done].
  destruct Hn as (_ & _ & _ & _ & Ht). rewrite Ht; [done|]. destruct (v4_more_fragments v4); [by left|right].
  cbn in Hfr. apply negb_true_iff, Z.eqb_neq in Hfr. lia.
Qed.

(** What an outcome carries was decoded too. *)
Section outcomes.
Context `{VecPolicy} `{IterOrder} `{Ipv4Codec} `{Md5} `{Slicer}.

Lemma outcome_of_whole status sn : reassembled_packet (outcome_of status sn) = None.
Proof. by destruct sn. Qed.

Lemma sniff_whole_not_rebuilt st p flow now : reassembled_packet (StreamReassembler.sniff_whole st p flow now).2 = None.
Proof.
  assert (∀ st key seq d ro, reassembled_packet (StreamReassembler.sniff_buffered st p key seq d ro now).2 = None) as Hb.
  { intros st' key seq d ro. unfold StreamReassembler.sniff_buffered. destruct (TcpReassembler.feed _ _ _ _ _ _) as [segs [raw|]]; [|done].
    apply outcome_of_whole. }
  unfold StreamReassembler.sniff_whole. cbn zeta. destruct (StreamReassembler.stream_target _ _) as [[key seq]|]; [|apply outcome_of_whole].
  match goal with |- context [if ?b then StreamReassembler.dns_screen ?x1 ?x2 ?x3 ?x4 ?x5 ?x6 else ?d] =>
    destruct (if b then StreamReassembler.dns_screen x1 x2 x3 x4 x5 x6 else d) as [st1 []] end; [done|].
  destruct (StreamReassembler.sniff_packet _ _); [|apply Hb..]. destruct (negb _); [done|apply Hb].
Qed.

Lemma sniff_reassembled st p flow now resolve q :
  reassembled_packet (StreamReassembler.sniff_with_flow_resolver st p flow now resolve).2 = Some q →
  ∃ data lt, parse_packet data lt = Some q.
Proof.
  unfold StreamReassembler.sniff_with_flow_resolver, StreamReassembler.sniff_fuel.
  assert (∀ fuel st p flow st' o, StreamReassembler.sniff_inner fuel st p flow now resolve = Some (st', o) →
    reassembled_packet o = Some q → ∃ data lt, parse_packet data lt = Some q) as Hi.
  { intros fuel st0 p0 flow0 st' o. destruct fuel as [|fuel]; cbn [StreamReassembler.sniff_inner]; [done|].
    case_bool_decide.
    - intros [= Hw]. pose proof (sniff_whole_not_rebuilt st0 p0 flow0 now) as Hr. rewrite Hw in Hr. cbn in Hr. congruence.
    - destruct (IpFragmentReassembler.feed _ _ _) as [frags [d|]]; [|by intros [= <- <-]].
      destruct (parse_packet (dg_bytes d) Raw) as [q'|] eqn:Hq; [|by intros [= <- <-]].
      destruct (StreamReassembler.sniff_inner fuel _ _ _ _ _) as [[st2 o2]|]; [|done]. intros [= <- <-]. cbn. intros [= ->]. eauto. }
  destruct (StreamReassembler.sniff_inner _ _ _ _ _ _) as [[st' o]|] eqn:Hs; [|done]. by eapply Hi.
Qed.
End outcomes.

(** ** Flows counted *)

Definition gone (es : list AgentEvent) : Z := zlen (closed_ids es).

(** Flows that were counted and are no longer in the table. *)
Definition departed (st : FlowTable.t) : Z := FlowTable.total_flows_observed st - Z.of_nat (size (FlowTable.flows st)).

Definition closings (r : option ObserveResult) : Z := zlen (option_list (r ≫= closed_connection_id)).

Lemma gone_app es1 es2 : gone (es1 ++ es2) = gone es1 + gone es2.
Proof. unfold gone. rewrite closed_ids_app, length_app. lia. Qed.

Lemma observe_inner_expiry st p l7 now tree expire :
  let '(st', r) := FlowTable.observe_inner st p l7 now tree expire in
  FlowTable.idle_evictions st' = FlowTable.idle_evictions st + closings r.
Proof.
  unfold FlowTable.observe_inner. cbn zeta. set (st0 := if tree && _ then _ else st).
  assert (FlowTable.idle_evictions st0 = FlowTable.idle_evictions st) as E0 by (unfold st0; by destruct (tree && _)).
  destruct (FlowTable.key_for st0 p) as [[key out]|]; [|unfold closings; cbn; lia].
  destruct (if expire then _ else _) as [st1 closed] eqn:Hst1.
  assert (FlowTable.idle_evictions st1 = FlowTable.idle_evictions st + zlen (option_list closed)) as E1.
  { destruct expire; [|injection Hst1 as <- <-; cbn; lia]. unfold FlowTable.evict_idle_flow_key in Hst1.
    repeat case_match; injection Hst1 as <- <-; cbn; lia. }
  destruct (FlowTable.update_flow _ _ _ _ _ _) as [[s re] tr]. unfold closings. cbn [mbind option_bind closed_connection_id].
  rewrite <- E1. by destruct (bool_decide (FlowTable.flows st1 !! key = None)), tree.
Qed.

Lemma observe_inner_departed st p l7 now tree expire :
  departed (FlowTable.observe_inner st p l7 now tree expire).1
  = departed st + closings (FlowTable.observe_inner st p l7 now tree expire).2.
Proof.
  pose proof (observe_inner_expiry st p l7 now tree expire) as He.
  pose proof (observe_inner_spec st p l7 now tree expire) as Hs. cbn zeta in Hs.
  destruct (FlowTable.observe_inner st p l7 now tree expire) as [st' r]. cbn [fst snd] in *. unfold departed.
  destruct Hs as [(_ & -> & _ & _ & -> & Hi & _)|(key & out & base & new & s & _ & _ & Hn & -> & Hb & _ & -> & _)]; [lia|].
  destruct (base !! key) as [s0|] eqn:Hk; subst new.
  - rewrite map_size_insert_Some by done. cbn. lia.
  - rewrite map_size_insert_None by done. cbn. lia.
Qed.

Section runs.
Context `{PcapControl} `{VecPolicy} `{IterOrder} `{Ipv4Codec} `{Md5} `{Slicer} `{!SlicerLaws}.
Context `{Hpack} `{TlsCrypto} `{Zeroizer} `{HexDecoder}.
Context `{HexCrate} `{Hmac} `{AuthJson} `{ControlJson} `{Lines}.

(** Answers to requests and the events of frames: no update and no statistics. *)
Definition of_answer (e : AgentEvent) : Prop :=
  match e with ConnectionUpdate _ | CaptureStats _ | SystemStats _ => False | _ => True end.

Lemma drain_request_of_answer an q c c' es : drain_request an q c = Some (c', es) → Forall of_answer es.
Proof.
  unfold drain_request. destruct (source c); [|intros [= <- <-]; destruct q; by repeat constructor..].
  destruct (device_for_reopen c); [|intros [= <- <-]; destruct q; by repeat constructor].
  destruct q as [f|n|name]; cbn [apply_capture_config_request]; intros [= Hq].
  - unfold set_filter in Hq. destruct (validate_capture_filter_len f); [|simplify_eq; by repeat constructor].
    destruct (a_filter an _ f); simplify_eq; by repeat constructor.
  - unfold set_snaplen in Hq. cbn zeta in Hq. destruct (let? snaplen := _ in _); simplify_eq; by repeat constructor.
  - unfold apply_interface_switch_request in Hq. destruct (switch_target an name) as [[[d' cap'] lt]|]; [|simplify_eq; by repeat constructor].
    unfold FlowTable.reset in Hq. simplify_eq. apply Forall_app. split; [by apply Forall_fmap, Forall_true|by repeat constructor].
Qed.

(** A fragment that completes a datagram closes nothing by itself. *)
Lemma observe_frame_departed replaying st p outcome now ident : (ip_fragment p ≠ None → src_port p = None) →
  let '(st', r, _) := observe_frame_in replaying st p outcome now ident in departed st' = departed st + closings r.
Proof.
  intros Hp. assert (ip_fragment p ≠ None → ∀ l7 tree expire, departed (FlowTable.observe_inner st p l7 now tree expire).1 = departed st) as Hf.
  { intros Hne l7 tree expire. destruct (observe_inner_spec st p l7 now tree expire) as [(_ & F & _ & _ & T & _)|(key & out & base & new & s & Hk & _)].
    - unfold departed. by rewrite F, T.
    - unfold FlowTable.key_for in Hk. by rewrite (Hp Hne) in Hk. }
  unfold observe_frame_in, FlowTable.observe_reassembled, FlowTable.observe_reassembled_replay, FlowTable.observe, FlowTable.observe_replay.
  destruct (reassembled_packet outcome) as [q|], replaying; try case_bool_decide;
    match goal with |- context [FlowTable.observe_inner ?a ?b ?c ?d ?e ?f] =>
      pose proof (observe_inner_departed a b c d e f) as Hg; destruct (FlowTable.observe_inner a b c d e f) end;
    cbn [fst snd] in Hg; rewrite Hg, ?Hf by done; done.
Qed.

Lemma close_replaced_gone r w : gone (close_replaced r w).2 = closings r.
Proof. unfold close_replaced, closings. destruct (r ≫= closed_connection_id); [|done]. by destruct (remove_decrypt_connection _ _ _). Qed.

Lemma unanswered_gone expired now ts lim seq : gone (emit_unanswered_findings expired now ts lim seq).2 = 0.
Proof.
  revert lim seq. induction expired as [|u expired IH]; intros lim seq; cbn [emit_unanswered_findings]; [done|].
  destruct (PacketEventLimiter.allow _ _) as [lim' []]; [|apply IH].
  specialize (IH lim' (seq + 1)). by destruct (emit_unanswered_findings _ _ _ _ _) as [[? ?] es].
Qed.

Lemma decryption_gone de : gone (Decryption <$> de) = 0.
Proof. unfold gone, closed_ids. by rewrite omap_all_none. Qed.

Lemma emit_packet_gone l now epoch parsed l7 lt re event r l' es :
  emit_packet l now epoch parsed l7 lt re event r = (l', es) →
  flow_table (capture l') = flow_table (capture l) ∧ totals l' = totals l ∧ gone es = 0.
Proof.
  unfold emit_packet. destruct (PacketEventLimiter.allow _ _) as [lim ok]. destruct ok; cbn [negb]; [|by intros [= <- <-]].
  by destruct event, (is_retransmission r); intros [= <- <-].
Qed.

(** Counters only go up. *)
Definition totals_le (t t' : Totals) : Prop :=
  rx_bytes t <= rx_bytes t' ∧ tx_bytes t <= tx_bytes t' ∧ rx_packets t <= rx_packets t' ∧ tx_packets t <= tx_packets t'.

#[local] Instance totals_le_preorder : PreOrder totals_le.
Proof. unfold totals_le. split; [intros ?; lia|intros ? ? ?; lia]. Qed.

Lemma count_throughput_le r len t : 0 <= len → totals_le t (count_throughput r len t).1.
Proof. intros Hl. unfold count_throughput, totals_le. destruct (is_outbound <$> r) as [[]|]; cbn; lia. Qed.

(** What a step adds to the counts. *)
Definition tallied (l l' : Loop) (es : list AgentEvent) : Prop :=
  departed (flow_table (capture l')) = departed (flow_table (capture l)) + gone es ∧ totals_le (totals l) (totals l').

Lemma analyse_tallied replaying t l parsed data lt ts rnow fnow tr l' es pdata plt : parse_packet pdata plt = Some parsed →
  analyse replaying t l parsed data lt ts rnow fnow tr = Some (l', es) → tallied l l' es.
Proof.
  intros Hp. open_analyse.
  assert (closed_ids re = []) as Hr by (unfold reset_finding in Hre; repeat case_match; by simplify_eq).
  pose proof (observe_frame_departed replaying (flow_table (capture l)) parsed outcome fnow (FlowTable.key_for (flow_table (capture l)) parsed)
    (λ Hf, proj1 (fragment_has_no_port _ _ _ Hp Hf))) as Hd. rewrite Hof in Hd.
  pose proof (close_replaced_gone r (decryption l)) as Hc. rewrite Hce in Hc.
  pose proof (f_equal (λ x, gone x.2) Hun) as Hu. cbn [snd] in Hu. rewrite unanswered_gone in Hu.
  apply emit_packet_gone in Hpe as (Et & Eo & Hp0). split.
  - rewrite !gone_app, Hp0, decryption_gone, <- Hu. unfold gone at 2. rewrite Hr, Et. cbn in Hc |- *. rewrite Hc.
    destruct (learnable_dns_response _ _) as [[]|]; cbn; unfold departed in *; cbn; lia.
  - rewrite Eo. cbn. pose proof (count_throughput_le r (total_len (default parsed (reassembled_packet outcome))) (totals l)) as Hle.
    rewrite Hct in Hle. apply Hle. destruct (reassembled_packet outcome) as [q|] eqn:Hq; cbn; [|by apply parse_packet_layered in Hp as [_ ?]].
    destruct (sniff_reassembled (reassembly (capture l)) parsed (FlowTable.key_for (flow_table (capture l)) parsed) rnow
      (FlowTable.key_for (flow_table (capture l))) q) as (d & lt' & Hq'); [by rewrite Hsn|]. by apply parse_packet_layered in Hq' as [_ ?].
Qed.

Lemma handle_tallied replaying t l data ts orig flt l' es :
  handle_frame replaying t l data ts orig flt = Some (l', es) → tallied l l' es.
Proof.
  unfold handle_frame. destruct (arrive replaying t l _ ts orig) as [[l1 rnow] tr] eqn:Ha.
  apply arrive_untouched in Ha as ((Et & _ & _ & _ & Eo & _) & _). unfold tallied. rewrite <- Et, <- Eo.
  assert (tallied l1 l1 []) as Hsame by (split; [unfold gone; cbn; lia|done]).
  destruct (parse_packet_result data _) as [parsed|[]] eqn:Hp.
  - destruct (exclude_live_control_capture _ _); [by intros [= <- <-]|].
    eapply analyse_tallied. unfold parse_packet. by rewrite Hp.
  - unfold malformed_frame. destruct (PacketEventLimiter.allow _ _) as [lim []]; by intros [= <- <-].
  - by intros [= <- <-].
Qed.

Lemma drain_request_departed an q c c' es : drain_request an q c = Some (c', es) →
  departed (flow_table c') = departed (flow_table c) + gone es.
Proof.
  assert (∀ x y, x = y → x = y + 0) as H0' by lia.
  unfold drain_request. destruct (source c); [|intros [= <- <-]; destruct q; by apply H0'..].
  destruct (device_for_reopen c); [|intros [= <- <-]; destruct q; by apply H0'].
  destruct q as [f|n|name]; cbn [apply_capture_config_request]; intros [= Hq].
  - unfold set_filter in Hq. destruct (validate_capture_filter_len f); [|simplify_eq; by apply H0'].
    destruct (a_filter an _ f); simplify_eq; by apply H0'.
  - unfold set_snaplen in Hq. cbn zeta in Hq. destruct (let? snaplen := _ in _); simplify_eq; by apply H0'.
  - unfold apply_interface_switch_request in Hq. destruct (switch_target an name) as [[[d' cap'] lt]|]; [|simplify_eq; by apply H0'].
    unfold FlowTable.reset in Hq. simplify_eq. rewrite gone_app. unfold gone, closed_ids at 1. rewrite (omap_all_some _ _ id) by done.
    rewrite !length_fmap, (Permutation_length (iter_perm _)), length_map_to_list. unfold departed. cbn. rewrite map_size_empty. lia.
Qed.

Lemma turn_tallied replaying t l l' go es : t_requests t = [] → turn replaying t l = Some (l', go, es) → tallied l l' es.
Proof.
  intros Hq. unfold turn. rewrite Hq. cbn [drain mbind option_bind]. set (l1 := l <| capture := capture l |>). intros Ht.
  assert (tallied l l []) as H0' by (split; [unfold gone; cbn; lia|done]).
  destruct (t_paused t); [by injection Ht as <- _ <-|].
  destruct (next_frame _ _ _) as [src frame]. set (l2 := poll_stats t l1 <| capture ::= _ |>) in *.
  assert (flow_table (capture l2) = flow_table (capture l) ∧ totals l2 = totals l) as [E1 E2].
  { unfold l2, poll_stats. cbn. destruct (source (capture l)); try done. destruct (_ <=? _); [|done]. by destruct (t_stats t). }
  assert (∀ l3 es3, tallied l2 l3 es3 → tallied l l3 es3) as Htr by (intros l3 es3 [T1 T2]; unfold tallied; by rewrite <- E1, <- E2).
  assert (tallied l l2 []) as Hl2 by (split; [rewrite E1; unfold gone; cbn; lia|by rewrite E2]).
  destruct frame as [data ts orig lt| | |]; [| |by injection Ht as <- _ <-..].
  - destruct (handle_frame _ _ _ _ _ _ _) as [[l3 es3]|] eqn:Hh; [|done]. injection Ht as <- _ <-. apply Htr. by eapply handle_tallied.
  - unfold idle in Ht. destruct replaying; [by injection Ht as <- _ <-|]. destruct (TransactionTracker.expire _ _) as [tr ex].
    match type of Ht with context [emit_unanswered_findings ?a ?b ?d ?e ?f] =>
      pose proof (unanswered_gone a b d e f) as Hg; destruct (emit_unanswered_findings a b d e f) as [[lim seq] ue] end.
    cbn [snd] in Hg. injection Ht as <- _ <-. apply Htr. split; [rewrite Hg; cbn; lia|done].
Qed.

(** *** Connections *)

#[local] Arguments closed_ids : simpl never.
#[local] Arguments closings_due : simpl nomatch.

Lemma closed_nil : closed_ids [] = [].
Proof. done. Qed.

(** Closings that are decided on and not sent yet. *)
Definition closing (a : Agent) : Z := zlen (closed_ids (ag_outbox a)) + zlen (todo (ag_emitter a) ≫= closings_due).

(** The flows counted are live, or gone and closed, or about to be closed. *)
Definition counted (seen : list AgentEvent) (a : Agent) : Prop :=
  departed (flow_table (capture (ag_loop a))) = gone seen + closing a.

Lemma counted_same seen a a' es : counted seen a → departed (flow_table (capture (ag_loop a'))) = departed (flow_table (capture (ag_loop a))) →
  closing a' = closing a → gone es = 0 → counted (seen ++ es) a'.
Proof. unfold counted. intros Hc -> -> Hg. rewrite gone_app. lia. Qed.

Lemma gather_counted replaying now a l' e' seen : emitter_tick replaying now (ag_loop a) (ag_emitter a) = (l', e') →
  counted seen a → counted seen (a <| ag_loop := l' |> <| ag_emitter := e' |>).
Proof.
  intros [(_ & -> & ->)|(g & Et & Hg & ->)]%emitter_tick_parts Hc; [by destruct a|].
  pose proof (gather_splits_the_flows replaying now (ag_loop a)) as Hsp. rewrite Hg in Hsp.
  destruct Hsp as (Hall & Hnow & (table & -> & _ & Ht) & _).
  apply Permutation_length in Hall, Hnow. rewrite length_app, !length_fmap, length_map_to_list in Hall. rewrite !length_fmap, length_map_to_list in Hnow.
  clear Hg. unfold counted, closing, departed in *. rewrite Et in Hc. revert Hc Hall Hnow. cbn.
  rewrite app_nil_r. lia.
Qed.

Lemma step_counted replaying mode hostname src k a l' e' es seen :
  emitter_step replaying mode hostname src k (ag_loop a) (ag_emitter a) = Some (l', e', es) →
  counted seen a → counted (seen ++ es) (a <| ag_loop := l' |> <| ag_emitter := e' |>).
Proof.
  intros [(_ & -> & -> & ->)|(c & rest & more & e1 & Et & Hch & ->)]%emitter_step_parts Hc; [rewrite app_nil_r; by destruct a|].
  pose proof (chore_due _ _ _ _ _ _ _ _ _ _ _ _ Hch) as Hdue. apply chore_parts in Hch as (_ & _ & Ec & _).
  unfold counted, closing in *. cbn. rewrite Ec, gone_app, bind_app, length_app. rewrite Et, bind_cons, length_app in Hc.
  destruct Hdue as [(ev & -> & -> & ->)|(-> & E1 & _)].
  - unfold gone at 2. cbn [closings_due] in Hc. change ([] ≫= closings_due) with (@nil bytes). cbn [length]. lia.
  - rewrite E1. unfold gone at 2. change (closed_ids []) with (@nil bytes). cbn [length]. lia.
Qed.

Lemma move_counted fx seen a m a' es : counted seen a → move fx a m = Some (a', es) → counted (seen ++ es) a'.
Proof.
  intros Hc Hm. destruct m as [an|t| |now|k|os|stdout|act]; cbn [move] in Hm.
  - unfold capture_drains in Hm. destruct (ag_pc a), (ag_outbox a) eqn:Eo; try (injection Hm as <- <-; by eapply counted_same).
    destruct (ag_requests a) as [|q qs]; [injection Hm as <- <-; by eapply counted_same|].
    destruct (drain_request _ _ _) as [[c es1]|] eqn:Hd; [|done]. injection Hm as <- <-. rewrite app_nil_r.
    apply drain_request_departed in Hd. unfold counted, closing, gone in *. rewrite Eo, closed_nil in Hc. cbn in *. lia.
  - unfold capture_reads in Hm. destruct (ag_pc a), (ag_outbox a) eqn:Eo; try (injection Hm as <- <-; by eapply counted_same).
    destruct (turn _ _ _) as [[[l go] es1]|] eqn:Ht; [|done]. injection Hm as <- <-. rewrite app_nil_r.
    apply turn_tallied in Ht as [T _]; [|done]. unfold counted, closing, gone in *. rewrite Eo, closed_nil in Hc. cbn in *. lia.
  - unfold capture_sends in Hm. destruct (ag_outbox a) as [|e es1] eqn:Eo; injection Hm as <- <-; [by eapply counted_same|].
    unfold counted, closing in *. rewrite Eo in Hc. change (e :: es1) with ([e] ++ es1) in Hc.
    rewrite closed_ids_app, length_app in Hc. rewrite gone_app. unfold gone in *. cbn in *. lia.
  - destruct (emitter_tick _ _ _ _) as [l e] eqn:Hk. injection Hm as <- <-. rewrite app_nil_r. by eapply gather_counted.
  - destruct (emitter_step _ _ _ _ _ _ _) as [[[l e] es1]|] eqn:Hk; [|done]. injection Hm as <- <-. by eapply step_counted.
  - injection Hm as <- <-. eapply counted_same; try done. unfold gone, closed_ids. by rewrite omap_all_none.
  - injection Hm as <- <-. unfold refresh_processes. destruct (fx_replaying fx); by eapply counted_same.
  - destruct (step_no_connections (fx_token fx) (plane_of a) (in_surroundings fx a act)) as [_ Hn].
    destruct (ControlPlane.step _ _ _) as [p es1]. injection Hm as <- <-. cbn [snd] in Hn. eapply counted_same; try done. unfold gone. by rewrite Hn.
Qed.

Lemma moves_counted s core fx a p ms a' es :
  boot s = Ok (core, fx, a, p) → moves fx a ms = Some (a', es) → counted es a'.
Proof.
  intros (r & mf & mn & _ & _ & El & Ee & Eo & _)%boot_ok Hms.
  apply (moves_inv counted fx ms [] a a' es); [intros; by eapply move_counted| |done].
  unfold counted, closing. by rewrite El, Ee, Eo.
Qed.

(** *** The number a tick reports *)

(** The number of connections a chore will report, or is about to. *)
Definition figure (c : Chore) : option Z :=
  match c with
  | Compose g | ReadCaptureStats g => Some (g_total_flows_observed g)
  | Say (CaptureStats c) => Some (cs_total_connections_observed c)
  | _ => None
  end.

Lemma chore_figure replaying mode hostname src k c l e l' e' more es c' n :
  chore replaying mode hostname src k c l e = Some (l', e', more, es) → c' ∈ more → figure c' = Some n → figure c = Some n.
Proof.
  destruct c as [g|ev| |id|now|g|stat g|stat iv loaded g|stat iv now g|name g|name g|name g]; cbn [chore];
    try (intros [= <- <- <- <-] Hin; rewrite ?elem_of_cons in Hin;
         repeat match type of Hin with _ ∨ _ => destruct Hin as [Hin|Hin] end;
         first [by apply not_elem_of_nil in Hin|by subst c']).
  - intros [= <- <- <- <-] Hin. unfold compose in Hin. cbn zeta in Hin.
    rewrite !elem_of_app, !elem_of_cons, list_elem_of_fmap, list_elem_of_bind in Hin.
    repeat match type of Hin with _ ∨ _ => destruct Hin as [Hin|Hin] end;
      first [by apply not_elem_of_nil in Hin|by subst c'
            |destruct Hin as (? & -> & Hin); by apply list_elem_of_fmap in Hin as (? & -> & _)
            |destruct Hin as (? & Hin & _); rewrite !elem_of_cons in Hin; destruct Hin as [->|[->|Hin]];
               [done..|by apply not_elem_of_nil in Hin]].
  - destruct (tick_decryption _ _ _ _) as [[w dec]|]; [|done]. cbn [mbind option_bind]. intros [= <- <- <- <-] Hin.
    apply list_elem_of_fmap in Hin as (? & -> & Hin). by apply list_elem_of_fmap in Hin as (? & -> & _).
  - intros [= <- <- <- <-] Hin. rewrite !elem_of_cons in Hin. destruct Hin as [->|[->|Hin]]; [|done|by apply not_elem_of_nil in Hin].
    cbn. by destruct (capture_stats l).
  - intros [= <- <- <- <-] Hin%list_elem_of_singleton. subst c'. by repeat case_match.
  - destruct (current_interface _) as [name ip]. intros [= <- <- <- <-] Hin. rewrite !elem_of_cons in Hin.
    destruct Hin as [->|[->|Hin]]; [done..|by apply not_elem_of_nil in Hin].
Qed.

(** The flows an agent counted, right after a tick took its snapshot. *)
Definition at_snapshot (n : Z) (a : Agent) (_ : list AgentEvent) : Prop :=
  (∃ g, todo (ag_emitter a) = [Compose g]) ∧ FlowTable.total_flows_observed (flow_table (capture (ag_loop a))) = n.

(** Every number sent, or about to be, was counted at the snapshot of a tick. *)
Record figures_sourced (fx : Fixed) (a0 : Agent) (made : list Move) (seen : list AgentEvent) (a : Agent) : Prop := {
  fs_sent : ∀ c, CaptureStats c ∈ seen → passed_through fx a0 made (at_snapshot (cs_total_connections_observed c));
  fs_due : ∀ c n, c ∈ todo (ag_emitter a) → figure c = Some n → passed_through fx a0 made (at_snapshot n);
  fs_outbox : Forall of_answer (ag_outbox a)
}.

Lemma figures_same fx a0 made seen a m a' es : figures_sourced fx a0 made seen a → ag_emitter a' = ag_emitter a →
  Forall of_answer es → Forall of_answer (ag_outbox a') → figures_sourced fx a0 (made ++ [m]) (seen ++ es) a'.
Proof.
  intros [Hs Hd Ho] Ee He Ho'. split; [| |done].
  - intros c [Hc|Hc]%elem_of_app; [by apply passed_more, Hs|]. rewrite Forall_forall in He. by specialize (He _ Hc).
  - intros c n. rewrite Ee. intros Hc Hf. by eapply passed_more, Hd.
Qed.

Lemma step_of_answer token p c : Forall of_answer (ControlPlane.step token p c).2.
Proof.
  destruct c as [|script|i|i o|i su|i o|j session now]; cbn [ControlPlane.step]; try constructor.
  - by destruct (peer_phase <$> _) as [[]|]; constructor.
  - by destruct (peer_phase <$> _) as [[]|]; constructor.
  - destruct (peer_phase <$> _) as [[]|]; try constructor. unfold serve_line.
    destruct (next_line _) as [r' [text| |]]; [|constructor..]. destruct (classify_control_line text) as [m| |]; [|constructor..].
    destruct m; cbn; try constructor; try done.
    destruct (start_capture_file _ _ _ _ _ _ _ _ _); [constructor|by apply Forall_singleton].
  - by destruct (peer_phase <$> _) as [[]|]; constructor.
  - destruct (sh_traces _ !! j); [|constructor]. cbn. unfold trace_events. destruct (run_traceroute _ _ _); [|constructor].
    by apply Forall_fmap, Forall_true.
Qed.

Lemma move_figures_sourced fx a0 made seen a m a' es :
  moves fx a0 (made ++ [m]) = Some (a', seen ++ es) → figures_sourced fx a0 made seen a → move fx a m = Some (a', es) →
  figures_sourced fx a0 (made ++ [m]) (seen ++ es) a'.
Proof.
  intros Hall Hf Hm. pose proof (fs_outbox _ _ _ _ _ Hf) as Ho. destruct m as [an|t| |now|k|os|stdout|act]; cbn [move] in Hm.
  - unfold capture_drains in Hm. destruct (ag_pc a), (ag_outbox a) eqn:Eo; try (injection Hm as <- <-; eapply figures_same; try done; by rewrite Eo).
    destruct (ag_requests a) as [|q qs]; [injection Hm as <- <-; eapply figures_same; try done; cbn; by rewrite Eo|].
    destruct (drain_request _ _ _) as [[c es1]|] eqn:Hd; [|done]. injection Hm as <- <-. eapply figures_same; try done.
    by eapply drain_request_of_answer.
  - unfold capture_reads in Hm. destruct (ag_pc a), (ag_outbox a) eqn:Eo; try (injection Hm as <- <-; eapply figures_same; try done; by rewrite Eo).
    destruct (turn _ _ _) as [[[l go] es1]|] eqn:Ht; [|done]. injection Hm as <- <-. eapply figures_same; try done.
    apply turn_parts in Ht as [Hfr _]; [|done]. cbn. eapply Forall_impl; [exact Hfr|]. by intros [].
  - unfold capture_sends in Hm. destruct (ag_outbox a) as [|e es1] eqn:Eo; injection Hm as <- <-; [eapply figures_same; try done; by rewrite Eo|].
    apply Forall_cons in Ho as [Ho1 Ho2]. eapply figures_same; try done. by apply Forall_singleton.
  - destruct (emitter_tick _ _ _ _) as [l e] eqn:Hk. injection Hm as <- <-. rewrite app_nil_r in *.
    apply emitter_tick_parts in Hk as [(_ & -> & ->)|(g & _ & Hg & ->)].
    { rewrite <- (app_nil_r seen). by eapply figures_same. }
    pose proof (gather_splits_the_flows (fx_replaying fx) now (ag_loop a)) as Hsp. rewrite Hg in Hsp.
    destruct Hsp as (_ & _ & (table & -> & _ & Ht) & Hn). split; [| |done].
    + intros c Hc. by apply passed_more, (fs_sent _ _ _ _ _ Hf).
    + cbn. intros c n Hc%list_elem_of_singleton. subst c. cbn. intros [= <-]. eapply passed_here; [exact Hall|].
      split; [by exists g|]. cbn. congruence.
  - destruct (emitter_step _ _ _ _ _ _ _) as [[[l e] es1]|] eqn:Hk; [|done]. injection Hm as <- <-.
    apply emitter_step_parts in Hk as [(_ & -> & -> & ->)|(c & rest & more & e1 & Et & Hch & ->)].
    { by eapply figures_same. }
    pose proof (λ c' n, chore_figure _ _ _ _ _ _ _ _ _ _ _ _ c' n Hch) as Hfig. apply chore_parts in Hch as (-> & _).
    assert (∀ c' n, c' ∈ c :: rest → figure c' = Some n → passed_through fx a0 (made ++ [EmitterStep k]) (at_snapshot n)) as Hdue.
    { intros c' n Hc Hn. apply passed_more. eapply (fs_due _ _ _ _ _ Hf); [by rewrite Et|done]. }
    split; [| |done].
    + intros x [Hx|Hx%sayings_elem%list_elem_of_singleton]%elem_of_app; [by apply passed_more, (fs_sent _ _ _ _ _ Hf)|].
      subst c. eapply Hdue; [by left|done].
    + cbn. intros c' n [Hc|Hc]%elem_of_app Hn; [|eapply Hdue; [by right|done]].
      eapply Hdue; [by left|by eapply Hfig].
  - injection Hm as <- <-. eapply figures_same; try done. by apply Forall_fmap, Forall_true.
  - injection Hm as <- <-. unfold refresh_processes. destruct (fx_replaying fx); by eapply figures_same.
  - pose proof (step_of_answer (fx_token fx) (plane_of a) (in_surroundings fx a act)) as Hn.
    destruct (ControlPlane.step _ _ _) as [p es1]. injection Hm as <- <-. by eapply figures_same.
Qed.

(** C12: every connection counted is accounted for.  In every state of every
    run, the connections the agent counted are those in its table, those it told
    the clients were closed, each once, whether they went idle, over capacity,
    were replaced during a replay or left with their interface, and those whose
    closing is decided on and not sent yet; and every number reported is the
    count, so made up, right after the snapshot of a tick of the run. *)
Theorem every_connection_accounted s core fx a p ms a' es :
  boot s = Ok (core, fx, a, p) → moves fx a ms = Some (a', es) →
  let accounted b sent := Z.of_nat (size (FlowTable.flows (flow_table (capture (ag_loop b))))) + gone sent + closing b in
  FlowTable.total_flows_observed (flow_table (capture (ag_loop a'))) = accounted a' es ∧
  ∀ c, CaptureStats c ∈ es → passed_through fx a ms (λ b sent,
    (∃ g, todo (ag_emitter b) = [Compose g]) ∧ cs_total_connections_observed c = accounted b sent).
Proof.
  intros Hb Hms accounted.
  assert (∀ ms1 b sent, moves fx a ms1 = Some (b, sent) →
    FlowTable.total_flows_observed (flow_table (capture (ag_loop b))) = accounted b sent) as Hacc.
  { intros ms1 b sent Hm1. pose proof (moves_counted _ _ _ _ _ _ _ _ Hb Hm1) as Hc. unfold counted, departed in Hc. unfold accounted. lia. }
  split; [by eapply Hacc|]. intros c Hc.
  assert (figures_sourced fx a ms es a') as [Hf _ _].
  { apply (moves_trace (figures_sourced fx a) fx a ms a' es); [|intros; by eapply move_figures_sourced|done].
    destruct (boot_ok _ _ _ _ _ Hb) as (r & mf & mn & _ & _ & _ & Ee & Eo & _).
    split; rewrite ?Ee, ?Eo; [by intros ? ?%not_elem_of_nil|by intros ? ? ?%not_elem_of_nil|constructor]. }
  eapply passed_impl; [|by apply Hf]. intros ms1 ms2 b sent _ Hm1 [Hg Hn]. split; [exact Hg|]. by rewrite <- Hn, (Hacc _ _ _ Hm1).
Qed.

(** *** The throughput the ticks report *)

Definition system_stats (es : list AgentEvent) : list SystemStatsJson :=
  omap (λ e, match e with SystemStats y => Some y | _ => None end) es.

Lemma system_stats_app es1 es2 : system_stats (es1 ++ es2) = system_stats es1 ++ system_stats es2.
Proof. apply omap_app. Qed.

Lemma of_answer_no_stats es : Forall of_answer es → system_stats es = [].
Proof. induction 1 as [|e es He _ IH]; [done|]. by destruct e. Qed.

(** One report: the interval it is over, the bytes and packets it is made of,
    and what else it says. *)
Record Measured := mkMeasured { m_interval : Interval; m_delta : Totals; m_name : bytes; m_ip : bytes; m_received : Z }.

Definition report_of (hostname : bytes) (d : Measured) : SystemStatsJson :=
  build_system_stats_json hostname (m_name d) (m_ip d) (m_delta d)
    (F64.as_secs (sat_sub (iv_read (m_interval d)) (iv_from (m_interval d)))) (m_received d).

Definition summed (i : nat) (ds : list Measured) : Z := foldr Z.add 0 ((λ d, counter i (m_delta d)) <$> ds).

(** Intervals that follow one another, from an instant to an instant. *)
Fixpoint meets (from : Z) (ivs : list Interval) (to : Z) : Prop :=
  match ivs with
  | [] => from = to
  | iv :: ivs => iv_from iv = from ∧ meets (iv_next iv) ivs to
  end.

Lemma meets_snoc from ivs mid iv : meets from ivs mid → iv_from iv = mid → meets from (ivs ++ [iv]) (iv_next iv).
Proof. revert from. induction ivs as [|iv0 ivs IH]; intros from; cbn; [intros -> E; done|]. intros [E Hm] Hi. split; [done|by apply IH]. Qed.

Lemma summed_snoc i ds d : summed i (ds ++ [d]) = summed i ds + counter i (m_delta d).
Proof. unfold summed. induction ds as [|d0 ds IH]; cbn; [lia|]. rewrite IH. lia. Qed.

(** The interval of a tick that has taken the time and not yet reported. *)
Definition in_flight (cs : list Chore) : list Interval :=
  cs ≫= λ c, match c with LoadTotals _ iv _ _ | ReadInterface _ iv _ _ => [iv] | _ => [] end.

(** The chores that lead to the report of a tick: there is one of them. *)
Definition reporting (c : Chore) : bool :=
  match c with
  | Compose _ | ReadCaptureStats _ | ReadElapsed _ _ | LoadTotals _ _ _ _ | ReadInterface _ _ _ _ | Say (SystemStats _) => true
  | _ => false
  end.

Definition reports (cs : list Chore) : nat := length (filter (λ c, reporting c = true) cs).

#[local] Arguments reports : simpl never.

Lemma reports_app cs1 cs2 : reports (cs1 ++ cs2) = (reports cs1 + reports cs2)%nat.
Proof. unfold reports. by rewrite filter_app, length_app. Qed.

Lemma reports_cons c cs : reports (c :: cs) = (Nat.b2n (reporting c) + reports cs)%nat.
Proof. unfold reports. rewrite filter_cons. by destruct (reporting c). Qed.

Lemma reports_none cs : Forall (λ c, reporting c = false) cs → reports cs = 0%nat.
Proof. induction 1 as [|c cs Hc _ IH]; [done|]. by rewrite reports_cons, Hc, IH. Qed.

Lemma no_reports cs : reports cs = 0%nat → in_flight cs = [] ∧ system_stats (sayings cs) = [].
Proof.
  induction cs as [|c cs IH]; [done|]. rewrite reports_cons. intros Hr. destruct (reporting c) eqn:Hc; [done|].
  destruct (IH Hr) as [I1 I2]. unfold in_flight, sayings in *. rewrite !bind_cons, system_stats_app, I1, I2, !app_nil_r.
  by destruct c as [|[]| | | | | | | | | |].
Qed.

(** What a chore has loaded of the counters lies between the last report and now. *)
Definition loaded_between (prev now : Totals) (c : Chore) : Prop :=
  match c with
  | LoadTotals _ _ loaded _ => (length loaded <= 3)%nat ∧ ∀ i x, loaded !! i = Some x → counter i prev <= x <= counter i now
  | ReadInterface _ _ t _ => totals_le prev t ∧ totals_le t now
  | _ => True
  end.

Lemma totals_le_counter t t' i : totals_le t t' → counter i t <= counter i t'.
Proof. intros (? & ? & ? & ?). destruct i as [|[|[|i]]]; done. Qed.

Lemma loaded_no_reports prev now cs : reports cs = 0%nat → Forall (loaded_between prev now) cs.
Proof. induction cs as [|c cs IH]; [constructor|]. rewrite reports_cons. intros Hr. constructor; [by destruct c|]. apply IH. lia. Qed.

Lemma loaded_more prev now now' c : totals_le now now' → loaded_between prev now c → loaded_between prev now' c.
Proof.
  intros Hle. destruct c; cbn; try done.
  - intros [Hl Hx]. split; [done|]. intros i x Hi. specialize (Hx i x Hi). pose proof (totals_le_counter _ _ i Hle). lia.
  - intros [H1' H2']. split; [done|by etrans].
Qed.

(** The reports sent and about to be sent, against the counters and the clock. *)
Record measured (hostname : bytes) (start : Z) (seen : list AgentEvent) (a : Agent) (ds : list Measured) : Prop := {
  me_sent : system_stats (seen ++ sayings (todo (ag_emitter a))) = report_of hostname <$> ds;
  me_sum : ∀ i, summed i ds = counter i (prev_totals (ag_emitter a));
  me_meets : meets start ((m_interval <$> ds) ++ in_flight (todo (ag_emitter a))) (prev_tick_at (ag_emitter a));
  me_le : totals_le (prev_totals (ag_emitter a)) (totals (ag_loop a));
  me_loaded : Forall (loaded_between (prev_totals (ag_emitter a)) (totals (ag_loop a))) (todo (ag_emitter a));
  me_once : (reports (todo (ag_emitter a)) <= 1)%nat;
  me_outbox : Forall of_answer (ag_outbox a)
}.

Lemma measured_same hostname start seen a a' es ds : measured hostname start seen a ds → ag_emitter a' = ag_emitter a →
  totals_le (totals (ag_loop a)) (totals (ag_loop a')) → system_stats es = [] → Forall of_answer (ag_outbox a') →
  measured hostname start (seen ++ es) a' ds.
Proof.
  intros [S U M L D O _] Ee Ht He Ho. split; rewrite ?Ee; try done.
  - rewrite !system_stats_app, He, app_nil_r. by rewrite <- system_stats_app.
  - by etrans.
  - eapply Forall_impl; [exact D|]. intros c. by apply loaded_more.
Qed.

Lemma compose_reports processes g :
  ∃ pre, compose processes g = pre ++ [ReadCaptureStats g] ∧ Forall (λ c, reporting c = false) pre.
Proof.
  unfold compose. cbn zeta. rewrite !(assoc_L (++)).
  match goal with |- context [?x ++ [?a; ?b; ?c; ReadCaptureStats g]] => exists (x ++ [a; b; c]) end.
  split; [exact (assoc_L (++) _ [_; _; _] [_])|]. rewrite !Forall_app. split_and!; try by repeat constructor.
  - apply Forall_fmap, Forall_fmap, Forall_true. done.
  - apply Forall_forall. intros c (key & Hc & _)%list_elem_of_bind. revert c Hc. apply Forall_forall. by repeat constructor.
Qed.

(** A chore that does not report and takes no time. *)
Lemma measured_quiet hostname start seen a ds c rest l' e1 more es :
  measured hostname start seen a ds → todo (ag_emitter a) = c :: rest →
  prev_totals e1 = prev_totals (ag_emitter a) → prev_tick_at e1 = prev_tick_at (ag_emitter a) → totals l' = totals (ag_loop a) →
  system_stats (es ++ sayings more) = system_stats (sayings [c]) → in_flight more = in_flight [c] →
  (reports more <= reports [c])%nat → Forall (loaded_between (prev_totals (ag_emitter a)) (totals (ag_loop a))) more →
  measured hostname start (seen ++ es) (a <| ag_loop := l' |> <| ag_emitter := e1 <| todo := more ++ rest |> |>) ds.
Proof.
  intros [S U M L D O Ho] Et E1 E2 E3 Es Ei Er Hd. rewrite Et in *. change (c :: rest) with ([c] ++ rest) in S, M, D, O.
  split; cbn; rewrite ?E1, ?E2, ?E3; try done.
  - rewrite <- S. rewrite !sayings_app, !system_stats_app, <- Es, system_stats_app. by rewrite !(assoc_L (++)).
  - unfold in_flight in *. by rewrite bind_app, Ei, <- bind_app.
  - apply Forall_app in D as [_ D]. by apply Forall_app.
  - rewrite !reports_app in *. lia.
Qed.

(** The time is taken: the interval of this tick is in flight. *)
Lemma time_measured start replaying mode hostname src k stat g rest seen a l' e1 more es ds :
  measured hostname start seen a ds → todo (ag_emitter a) = ReadElapsed stat g :: rest →
  chore replaying mode hostname src k (ReadElapsed stat g) (ag_loop a) (ag_emitter a) = Some (l', e1, more, es) →
  ∃ ds', measured hostname start (seen ++ es) (a <| ag_loop := l' |> <| ag_emitter := e1 <| todo := more ++ rest |> |>) ds'.
Proof.
  intros Hm Et Hc. cbn [chore] in Hc.
  injection Hc as <- <- <- <-. exists ds. destruct Hm as [S U M L D O Ho]. rewrite Et in *.
  rewrite reports_cons in O. cbn in O. destruct (no_reports rest) as [E1 E2]; [lia|].
  apply Forall_cons in D as [_ D].
  split; cbn; try done.
  - by rewrite app_nil_r.
  - unfold in_flight in *. rewrite bind_cons in *. rewrite E1 in *. cbn in *. rewrite app_nil_r in M. by eapply (meets_snoc _ _ _ (mkInterval _ _ _)).
  - constructor; [|done]. split; [cbn; lia|]. by intros i x.
Qed.

(** A counter is loaded. *)
Lemma load_measured start replaying mode hostname src k stat iv loaded g rest seen a l' e1 more es ds :
  measured hostname start seen a ds → todo (ag_emitter a) = LoadTotals stat iv loaded g :: rest →
  chore replaying mode hostname src k (LoadTotals stat iv loaded g) (ag_loop a) (ag_emitter a) = Some (l', e1, more, es) →
  ∃ ds', measured hostname start (seen ++ es) (a <| ag_loop := l' |> <| ag_emitter := e1 <| todo := more ++ rest |> |>) ds'.
Proof.
  intros Hm Et Hc. cbn [chore] in Hc.
  injection Hc as <- <- <- <-. exists ds. pose proof (me_loaded _ _ _ _ _ Hm) as D. rewrite Et in D. apply Forall_cons in D as [[Hl Hx] _].
  assert (∀ i x, (loaded ++ [counter (length loaded) (totals (ag_loop a))]) !! i = Some x →
    counter i (prev_totals (ag_emitter a)) <= x <= counter i (totals (ag_loop a))) as Hx'.
  { intros i x [Hi|[Hi Hi']]%lookup_app_Some; [by apply Hx|]. apply list_lookup_singleton_Some in Hi' as [Hi' <-].
    replace i with (length loaded) by lia. split; [|done]. apply totals_le_counter, Hm. }
  eapply measured_quiet; try done.
  1-3: destruct loaded as [|? [|? [|? [|? ?]]]]; cbn in Hl; first [reflexivity|apply le_n|lia].
  apply Forall_singleton. destruct loaded as [|x0 [|x1 [|x2 [|? ?]]]]; cbn in Hl |- *; try (split; [lia|exact Hx']); [|lia].
  pose proof (Hx' 0%nat _ eq_refl). pose proof (Hx' 1%nat _ eq_refl). pose proof (Hx' 2%nat _ eq_refl). pose proof (Hx' 3%nat _ eq_refl).
  cbn in *. unfold totals_le. cbn. lia.
Qed.

(** The report: what was counted since the last one. *)
Lemma report_measured start replaying mode hostname src k stat iv now g rest seen a l' e1 more es ds :
  measured hostname start seen a ds → todo (ag_emitter a) = ReadInterface stat iv now g :: rest →
  chore replaying mode hostname src k (ReadInterface stat iv now g) (ag_loop a) (ag_emitter a) = Some (l', e1, more, es) →
  ∃ ds', measured hostname start (seen ++ es) (a <| ag_loop := l' |> <| ag_emitter := e1 <| todo := more ++ rest |> |>) ds'.
Proof.
  intros Hm Et Hc. cbn [chore] in Hc.
  destruct (current_interface _) as [name ip]. injection Hc as <- <- <- <-. destruct Hm as [S U M L D O Ho]. rewrite Et in *.
  apply Forall_cons in D as [[D1 D2] D]. rewrite reports_cons in O. cbn in O. destruct (no_reports rest) as [E1 E2]; [lia|].
  exists (ds ++ [mkMeasured iv (totals_since now (prev_totals (ag_emitter a))) name ip (match stat with Some s => ps_received s | None => 0 end)]).
  split; cbn; try done.
  - rewrite app_nil_r. match goal with |- system_stats (seen ++ ?x :: _) = ?r => change (system_stats (seen ++ [x] ++ sayings rest) = r) end.
    change (ReadInterface stat iv now g :: rest) with ([ReadInterface stat iv now g] ++ rest) in S.
    rewrite sayings_app, !system_stats_app, E2 in S. rewrite !system_stats_app, E2, fmap_app, <- S.
    change (system_stats (sayings [ReadInterface stat iv now g])) with (@nil SystemStatsJson). by rewrite !app_nil_r.
  - intros i. rewrite summed_snoc, U. pose proof (totals_le_counter _ _ i D1) as Hi.
    destruct i as [|[|[|i]]]; cbn in *; unfold sat_sub; lia.
  - unfold in_flight in *. rewrite bind_cons, E1 in M. rewrite E1, fmap_app, app_nil_r. exact M.
  - repeat constructor. apply loaded_no_reports. lia.
Qed.

Lemma chore_measured start replaying mode hostname src k c rest seen a l' e1 more es ds :
  measured hostname start seen a ds → todo (ag_emitter a) = c :: rest →
  chore replaying mode hostname src k c (ag_loop a) (ag_emitter a) = Some (l', e1, more, es) →
  ∃ ds', measured hostname start (seen ++ es) (a <| ag_loop := l' |> <| ag_emitter := e1 <| todo := more ++ rest |> |>) ds'.
Proof.
  intros Hm Et Hc.
  destruct c as [g|ev| |id|now|g|stat g|stat iv loaded g|stat iv now g|name g|name g|name g]; 
    try (by eapply time_measured); try (by eapply load_measured); try (by eapply report_measured); cbn [chore] in Hc;
    try (injection Hc as <- <- <- <-; exists ds; eapply measured_quiet; try done; by repeat constructor).
  - injection Hc as <- <- <- <-. exists ds. destruct (compose_reports (k_processes k) g) as (pre & -> & Hpre).
    destruct (no_reports pre (reports_none pre Hpre)) as [E1 E2].
    eapply measured_quiet; try done.
    + cbn [app]. rewrite sayings_app, system_stats_app, E2. done.
    + unfold in_flight in *. rewrite bind_app, E1. done.
    + rewrite reports_app, (reports_none pre Hpre). done.
    + apply Forall_app. split; [|by repeat constructor]. eapply Forall_impl; [exact Hpre|]. by intros [].
  - injection Hc as <- <- <- <-. exists ds. eapply measured_quiet; try done. apply Nat.le_0_l.
  - destruct (tick_decryption _ _ _ _) as [[w dec]|]; [|done]. cbn [mbind option_bind] in Hc. injection Hc as <- <- <- <-. exists ds.
    assert (Forall (λ c, reporting c = false) (Say <$> (Decryption <$> dec))) as Hf by (apply Forall_fmap, Forall_fmap, Forall_true; done).
    pose proof (reports_none _ Hf) as Hr. destruct (no_reports _ Hr) as [E1 E2].
    eapply measured_quiet; try done; [by rewrite Hr; lia|]. by apply Forall_fmap, Forall_true.
Qed.

Lemma move_measured fx start seen a m a' es ds : measured (fx_hostname fx) start seen a ds → move fx a m = Some (a', es) →
  ∃ ds', measured (fx_hostname fx) start (seen ++ es) a' ds'.
Proof.
  intros Hme Hm. pose proof (me_outbox _ _ _ _ _ Hme) as Ho. destruct m as [an|t| |now|k|os|stdout|act]; cbn [move] in Hm.
  - exists ds. unfold capture_drains in Hm. destruct (ag_pc a), (ag_outbox a) eqn:Eo; try (injection Hm as <- <-; eapply measured_same; try done; by rewrite Eo).
    destruct (ag_requests a) as [|q qs]; [injection Hm as <- <-; eapply measured_same; try done; cbn; by rewrite Eo|].
    destruct (drain_request _ _ _) as [[c es1]|] eqn:Hd; [|done]. injection Hm as <- <-. eapply measured_same; try done.
    by eapply drain_request_of_answer.
  - exists ds. unfold capture_reads in Hm. destruct (ag_pc a), (ag_outbox a) eqn:Eo; try (injection Hm as <- <-; eapply measured_same; try done; by rewrite Eo).
    destruct (turn _ _ _) as [[[l go] es1]|] eqn:Ht; [|done]. injection Hm as <- <-.
    pose proof (turn_tallied _ (turn_of a t) _ _ _ _ eq_refl Ht) as [_ Hle]. apply turn_parts in Ht as [Hfr _]; [|done].
    eapply measured_same; try done. cbn. eapply Forall_impl; [exact Hfr|]. by intros [].
  - exists ds. unfold capture_sends in Hm. destruct (ag_outbox a) as [|e es1] eqn:Eo; injection Hm as <- <-; [eapply measured_same; try done; by rewrite Eo|].
    apply Forall_cons in Ho as [Ho1 Ho2]. eapply measured_same; try done. apply of_answer_no_stats. by apply Forall_singleton.
  - exists ds. destruct (emitter_tick _ _ _ _) as [l e] eqn:Hk. injection Hm as <- <-.
    apply emitter_tick_parts in Hk as [(_ & -> & ->)|(g & Et & Hg & ->)]; [by eapply measured_same|].
    pose proof (gather_capture (fx_replaying fx) now (ag_loop a)) as Hsp. rewrite Hg in Hsp. destruct Hsp as (table & -> & _).
    destruct Hme as [S U M L D O _]. rewrite Et in *. rewrite app_nil_r. split; try done. by repeat constructor.
  - destruct (emitter_step _ _ _ _ _ _ _) as [[[l e] es1]|] eqn:Hk; [|done]. injection Hm as <- <-.
    apply emitter_step_parts in Hk as [(_ & -> & -> & ->)|(c & rest & more & e1 & Et & Hch & ->)]; [exists ds; by eapply measured_same|].
    by eapply chore_measured.
  - exists ds. injection Hm as <- <-. eapply measured_same; try done. apply of_answer_no_stats. by apply Forall_fmap, Forall_true.
  - exists ds. injection Hm as <- <-. unfold refresh_processes. destruct (fx_replaying fx); by eapply measured_same.
  - exists ds. pose proof (step_of_answer (fx_token fx) (plane_of a) (in_surroundings fx a act)) as Hn.
    destruct (ControlPlane.step _ _ _) as [p es1]. injection Hm as <- <-. eapply measured_same; try done. by apply of_answer_no_stats.
Qed.

(*NEXT*)
End runs.

(** ** The sample session *)

Module AccountingSamples.
Import AgentSamples.

(** The session, one more connection, and the start of a tick that evicts it:
    one closing is sent and one is due. *)
Definition tick_under_way : list Move :=
  session peer ++ frame_at 3601000 ++ EmitterTick 7300000 :: chores_at 7300000 1.

Definition stats_sent (es : list AgentEvent) : list CaptureStatsJson :=
  omap (λ e, match e with CaptureStats c => Some c | _ => None end) es.

Lemma stats_sent_elem es c : head (stats_sent es) = Some c → CaptureStats c ∈ es.
Proof. intros (e & Hin & He)%head_Some_elem_of%list_elem_of_omap. destruct e; try discriminate He. injection He as ->. exact Hin. Qed.

Lemma every_connection_accounted_witness :
  ∃ core fx a p a' es c, boot setup = Ok (core, fx, a, p) ∧ moves fx a tick_under_way = Some (a', es) ∧ gone es = 1 ∧ closing a' = 1 ∧
    FlowTable.total_flows_observed (flow_table (capture (ag_loop a')))
      = Z.of_nat (size (FlowTable.flows (flow_table (capture (ag_loop a'))))) + gone es + closing a' ∧
    cs_total_connections_observed c = 1 ∧
    passed_through fx a tick_under_way (λ b sent, (∃ g, todo (ag_emitter b) = [Compose g]) ∧
      cs_total_connections_observed c = Z.of_nat (size (FlowTable.flows (flow_table (capture (ag_loop b))))) + gone sent + closing b).
Proof.
  assert (of_run tick_under_way (λ _ _ a' es, (gone es =? 1) && (closing a' =? 1)
    && match head (stats_sent es) with Some c => cs_total_connections_observed c =? 1 | None => false end) = true) as Hs by (vm_compute; reflexivity).
  destruct (run_returns _ _ Hs) as (core & fx & a & p & a' & es & Hb & Hm & He).
  apply andb_true_iff in He as [[H1 H2]%andb_true_iff H3]. apply Z.eqb_eq in H1, H2.
  destruct (head (stats_sent es)) as [c|] eqn:Hc; [|discriminate H3]. apply Z.eqb_eq in H3.
  destruct (every_connection_accounted setup core fx a p tick_under_way a' es Hb Hm) as [Ha Hp].
  exists core, fx, a, p, a', es, c.
  exact (conj Hb (conj Hm (conj H1 (conj H2 (conj Ha (conj H3 (Hp c (stats_sent_elem _ _ Hc)))))))).
Defined.

(** A tick whose load of the bytes received comes before a frame is counted and
    whose other loads come after: it reports the packet and not its bytes. *)
Definition torn_loads : list Move :=
  frame_at 1000 ++ tick_at 5000 ++ frame_at 6000 ++ EmitterTick 10000 :: chores_at 10000 13 ++ frame_at 11000 ++ chores_at 10000 40.

End AccountingSamples.
